(** * The on-disk core of the network file system (FileSys.cpp, FileSys.h, Disk.cpp)

    A shallow embedding of the file-system server: the virtual disk of
    [Disk.cpp], the typed block layer and the eleven shell operations of
    [FileSys.cpp] / [FileSys.h], followed by the properties the
    specification states about them.  The second part covers the
    protocol: the command parser and the loop of the server's [main], and
    the command line, the messages and the scripts of the shell
    ([Shell.cpp]); the calls of the socket library are left out.

    Conventions.
    - A byte is a [Z]; a block is a [list Z]; the disk is the list of its
      blocks.  Multi-byte integers are unsigned 32-bit little-endian, with
      the wrap-around written out ([wrap32]).
    - A [const char*] argument is the list of bytes it points to; the list
      ends where the terminating NUL would be, and a 0 inside the list
      ends the string early ([strlen], [c_str]).
    - The member functions run in a state monad over the fields of
      [FileSys].  Besides returning, a computation can stop the process
      ([Exit]: [Disk::read_block] and [Disk::write_block] call [exit(-1)])
      or leave the language's defined behaviour ([Undefined]: an array
      read outside its bounds). *)

From Stdlib Require Import ZArith Lia String Ascii.
From stdpp Require Import base list.

#[local] Open Scope Z_scope.

(** ** Blocks.h *)

(** Modelled from the spec: [Blocks.h] is not part of the sources at hand.
    Section 3 of the specification names these constants and leaves their
    values to the implementation (only [BLOCK_SIZE = 128] is given), so they
    are the fields of a class and every definition below is parametric in
    them. *)
Class Blocks := {
  BLOCK_SIZE : Z;
  NUM_BLOCKS : Z;
  MAX_FNAME_SIZE : Z;
  MAX_DIR_ENTRIES : Z;
  MAX_DATA_BLOCKS : Z;
  DIR_MAGIC_NUM : Z;
  INODE_MAGIC_NUM : Z
}.

Definition MAX_FILE_SIZE `{Blocks} : Z := MAX_DATA_BLOCKS * BLOCK_SIZE.

(** [dirblock_t::dir_entries[i]]: a fixed [char name[MAX_FNAME_SIZE + 1]]
    and the handle of the block the entry names. *)
Record DirEntry := {
  name : list Z;
  block_num : Z
}.

Record dirblock_t := {
  d_magic : Z;
  num_entries : Z;
  dir_entries : list DirEntry
}.

Record inode_t := {
  i_magic : Z;
  size : Z;
  blocks : list Z
}.

(** ** Fixed-width integers and their bytes *)

Definition wrap32 (v : Z) : Z := v mod 4294967296.

Definition le32 (v : Z) : list Z :=
  [v mod 256; (v / 256) mod 256; (v / 65536) mod 256; (v / 16777216) mod 256].

Definition u32 (bs : list Z) : Z :=
  match bs with
  | b0 :: b1 :: b2 :: b3 :: _ =>
      b0 mod 256 + 256 * (b1 mod 256) + 65536 * (b2 mod 256)
      + 16777216 * (b3 mod 256)
  | _ => 0
  end.

(** ** C strings *)

Fixpoint strlen (s : list Z) : nat :=
  match s with
  | [] => 0%nat
  | c :: s' => if c =? 0 then 0%nat else S (strlen s')
  end.

Definition c_str (s : list Z) : list Z := take (strlen s) s.

(** [strcmp(buf, s) == 0] for a character array [buf] and a C string [s].
    The array has no terminator of its own: when every byte of [buf] has
    matched and none was NUL the comparison would read past the array, and
    the result is [None]. *)
Fixpoint strcmp_eq (buf s : list Z) : option bool :=
  match buf with
  | [] => None
  | b :: buf' =>
      match s with
      | [] => Some (b =? 0)
      | c :: s' =>
          if c =? 0 then Some (b =? 0)
          else if b =? c then strcmp_eq buf' s'
          else Some false
      end
  end.

(** [strcpy(buf, s)]: the characters of [s] and its NUL overwrite the start
    of [buf]; the rest of the array keeps its bytes. *)
Definition strcpy (buf s : list Z) : list Z :=
  (c_str s ++ [0]) ++ drop (S (strlen s)) buf.

(** [os << buf] for a character array: the bytes before its first NUL. *)
Fixpoint array_str (buf : list Z) : option (list Z) :=
  match buf with
  | [] => None
  | b :: buf' => if b =? 0 then Some [] else cons b <$> array_str buf'
  end.

(** [std::to_string] of a non-negative number, most significant digit
    first. *)
Fixpoint digits (fuel : nat) (v : Z) (acc : list Z) : list Z :=
  match fuel with
  | O => acc
  | S fuel' =>
      let acc' := (48 + v mod 10) :: acc in
      if v / 10 =? 0 then acc' else digits fuel' (v / 10) acc'
  end.

Definition to_string (v : Z) : list Z := digits (S (Z.to_nat v)) v [].

(** Character and string literals. *)
Definition NL : Z := 10.
Definition SLASH : Z := 47.

(** ** The layout of the typed blocks *)

Section Layout.
Context `{Blocks}.

Definition NAME_LEN : nat := Z.to_nat (MAX_FNAME_SIZE + 1).
Definition ENTRY_LEN : nat := (NAME_LEN + 4)%nat.

(** Modelled from the spec: the struct declarations of [Blocks.h] are not
    part of the sources at hand.  Section 3: a directory block is
    [{ magic; num_entries: u32; entries[MAX_DIR_ENTRIES] }] with entries
    [{ name: [u8; MAX_FNAME_SIZE+1]; block_num: u32 }], an inode block is
    [{ magic; size: u32; blocks[MAX_DATA_BLOCKS]: u32 }], all integers
    little-endian, each block exactly [BLOCK_SIZE] bytes.  Reading a block
    into a struct and writing a struct to a block are these two
    reinterpretations of the same bytes. *)
Definition entry_of_bytes (bs : list Z) : DirEntry :=
  {| name := take NAME_LEN bs; block_num := u32 (drop NAME_LEN bs) |}.

Definition bytes_of_entry (e : DirEntry) : list Z :=
  name e ++ le32 (block_num e).

Fixpoint entries_of_bytes (n : nat) (bs : list Z) : list DirEntry :=
  match n with
  | O => []
  | S n' => entry_of_bytes bs :: entries_of_bytes n' (drop ENTRY_LEN bs)
  end.

Definition dir_of_bytes (bs : list Z) : dirblock_t :=
  {| d_magic := u32 bs;
     num_entries := u32 (drop 4 bs);
     dir_entries := entries_of_bytes (Z.to_nat MAX_DIR_ENTRIES) (drop 8 bs) |}.

Definition bytes_of_dir (d : dirblock_t) : list Z :=
  le32 (d_magic d) ++ le32 (num_entries d)
  ++ concat (bytes_of_entry <$> dir_entries d).

Fixpoint handles_of_bytes (n : nat) (bs : list Z) : list Z :=
  match n with
  | O => []
  | S n' => u32 bs :: handles_of_bytes n' (drop 4 bs)
  end.

Definition inode_of_bytes (bs : list Z) : inode_t :=
  {| i_magic := u32 bs;
     size := u32 (drop 4 bs);
     blocks := handles_of_bytes (Z.to_nat MAX_DATA_BLOCKS) (drop 8 bs) |}.

Definition bytes_of_inode (i : inode_t) : list Z :=
  le32 (i_magic i) ++ le32 (size i) ++ concat (le32 <$> blocks i).

(** What the constants must satisfy for the three block types to be
    blocks: positive sizes, magic numbers that are distinct 32-bit
    values, a bitmap that fits block 0, and structs that fill a block
    exactly. *)
Record BlocksOk : Prop := {
  block_size_pos : 0 < BLOCK_SIZE;
  num_blocks_min : 2 <= NUM_BLOCKS;
  bitmap_fits : NUM_BLOCKS <= 8 * BLOCK_SIZE;
  fname_size_nonneg : 0 <= MAX_FNAME_SIZE;
  dir_entries_pos : 0 < MAX_DIR_ENTRIES;
  data_blocks_pos : 0 < MAX_DATA_BLOCKS;
  dir_magic_range : 0 <= DIR_MAGIC_NUM < 4294967296;
  inode_magic_range : 0 <= INODE_MAGIC_NUM < 4294967296;
  magic_distinct : DIR_MAGIC_NUM ≠ INODE_MAGIC_NUM;
  dir_fills_block : 8 + MAX_DIR_ENTRIES * (MAX_FNAME_SIZE + 5) = BLOCK_SIZE;
  inode_fills_block : 8 + 4 * MAX_DATA_BLOCKS = BLOCK_SIZE;
  file_size_fits : MAX_FILE_SIZE < 4294967296
}.
End Layout.

(** ** FileSys.h: error codes and the state of a mounted file system *)

Inductive FileError :=
| kOK
| kFileNotDir
| kFileIsDir
| kFileExists
| kFileNotExists
| kFileNameTooLong
| kDiskFull
| kDirFull
| kDirNotEmpty
| kAppendExceedsMaxSize
| kCommandNotFound.

Definition error_code (e : FileError) : Z :=
  match e with
  | kOK => 0
  | kFileNotDir => 500
  | kFileIsDir => 501
  | kFileExists => 502
  | kFileNotExists => 503
  | kFileNameTooLong => 504
  | kDiskFull => 505
  | kDirFull => 506
  | kDirNotEmpty => 507
  | kAppendExceedsMaxSize => 508
  | kCommandNotFound => 509
  end.

#[global] Instance FileError_eq_dec : EqDecision FileError.
Proof. solve_decision. Defined.

Definition kInvalidHandle : Z := 0.
Definition kSuperBlockHandle : Z := 0.
Definition kRootDirHandle : Z := 1.

(** The members of [FileSys] that the operations use: the disk behind
    [_bfs], the current directory, the last error and the response
    stream. *)
Record FileSys := {
  _bfs : list (list Z);
  _curDirHandle : Z;
  _lastErr : FileError;
  _response : list Z
}.

Inductive outcome (A : Type) :=
| Ret (a : A)
| Exit
| Undefined.
Arguments Ret {A} a.
Arguments Exit {A}.
Arguments Undefined {A}.

Definition M (A : Type) : Type := FileSys → outcome (A * FileSys).

#[global] Instance M_ret : MRet M := λ A a fs, Ret (a, fs).
#[global] Instance M_bind : MBind M := λ A B f c fs,
  match c fs with
  | Ret (a, fs') => f a fs'
  | Exit => Exit
  | Undefined => Undefined
  end.

Definition undefined {A} : M A := λ _, Undefined.
Definition exit {A} : M A := λ _, Exit.

Definition curDirHandle : M Z := λ fs, Ret (_curDirHandle fs, fs).

Definition set_curDirHandle (h : Z) : M unit := λ fs,
  Ret (tt, {| _bfs := _bfs fs; _curDirHandle := h;
              _lastErr := _lastErr fs; _response := _response fs |}).

Definition set_lastErr (e : FileError) : M unit := λ fs,
  Ret (tt, {| _bfs := _bfs fs; _curDirHandle := _curDirHandle fs;
              _lastErr := e; _response := _response fs |}).

(** [_response << s] and [_response.write(s, n)]. *)
Definition respond (s : list Z) : M unit := λ fs,
  Ret (tt, {| _bfs := _bfs fs; _curDirHandle := _curDirHandle fs;
              _lastErr := _lastErr fs; _response := _response fs ++ s |}).

Definition set_disk (d : list (list Z)) : M unit := λ fs,
  Ret (tt, {| _bfs := d; _curDirHandle := _curDirHandle fs;
              _lastErr := _lastErr fs; _response := _response fs |}).

(** An array read [a[i]]: outside the array the behaviour is undefined. *)
Definition array_get {A} (a : list A) (i : Z) : M A :=
  if i <? 0 then undefined
  else match a !! Z.to_nat i with
       | Some x => mret x
       | None => undefined
       end.

Section FileSystem.
Context `{Blocks}.

(** ** Disk.cpp *)

(** [Disk::read_block]: a block number outside [0, NUM_BLOCKS) and a
    failed read both end the process. *)
Definition read_block (block_num : Z) : M (list Z) := λ fs,
  if (block_num <? 0) || (NUM_BLOCKS <=? block_num) then Exit
  else match _bfs fs !! Z.to_nat block_num with
       | Some b => Ret (b, fs)
       | None => Exit
       end.

(** [Disk::write_block]: the same range check, then the block is
    replaced and flushed. *)
Definition write_block (block_num : Z) (block : list Z) : M unit := λ fs,
  if (block_num <? 0) || (NUM_BLOCKS <=? block_num) then Exit
  else if Z.of_nat (length (_bfs fs)) <=? block_num then Exit
  else set_disk (<[Z.to_nat block_num := block]> (_bfs fs)) fs.

(** ** BasicFileSys: the allocation bitmap *)

(** Bit [i] of the bitmap held in the bytes [bm] of block 0. *)
Definition bitmap_test (bm : list Z) (i : Z) : bool :=
  Z.testbit (default 0 (bm !! Z.to_nat (i / 8))) (i mod 8).

Definition bitmap_set (bm : list Z) (i : Z) : list Z :=
  alter (λ byte, Z.setbit byte (i mod 8)) (Z.to_nat (i / 8)) bm.

Definition bitmap_clear (bm : list Z) (i : Z) : list Z :=
  alter (λ byte, Z.clearbit byte (i mod 8)) (Z.to_nat (i / 8)) bm.

(** The lowest clear bit with index at least 2. *)
Definition first_free (bm : list Z) : option Z :=
  find (λ i, negb (bitmap_test bm i)) (seqZ 2 (NUM_BLOCKS - 2)).

(** Modelled from the spec: [BasicFileSys.cpp] is not part of the sources
    at hand.  Section 4.1: [get_free_block] "scans the bitmap for the
    lowest-indexed clear bit >= 2, sets it, persists the superblock, and
    returns the index; returns 0 when no block is free".  The spec fixes
    no bit order inside a byte; bit [i] is bit [i mod 8] of byte
    [i / 8]. *)
Definition get_free_block : M Z :=
  super_block ← read_block kSuperBlockHandle;
  match first_free super_block with
  | Some i => write_block kSuperBlockHandle (bitmap_set super_block i);; mret i
  | None => mret kInvalidHandle
  end.

(** Modelled from the spec: [BasicFileSys.cpp] is not part of the sources
    at hand.  Section 4.1: [reclaim_block(n)] "clears bit n and persists
    the superblock".  The bitmap has [NUM_BLOCKS] bits; a handle that
    names none of them indexes outside the bitmap. *)
Definition reclaim_block (block_num : Z) : M unit :=
  if (block_num <? 0) || (NUM_BLOCKS <=? block_num) then undefined
  else
    super_block ← read_block kSuperBlockHandle;
    write_block kSuperBlockHandle (bitmap_clear super_block block_num).

(** Modelled from the spec: the formatting done by [BasicFileSys::mount]
    is not part of the sources at hand.  Sections 3 and 6: block 0 is the
    bitmap with bit 0 and the root-directory bit set, block 1 is the
    empty root directory; the remaining blocks are taken to be zero. *)
Definition zero_block : list Z := replicate (Z.to_nat BLOCK_SIZE) 0.

Definition formatted_disk : list (list Z) :=
  (3 :: replicate (Z.to_nat BLOCK_SIZE - 1) 0)
  :: (le32 DIR_MAGIC_NUM ++ replicate (Z.to_nat BLOCK_SIZE - 4) 0)
  :: replicate (Z.to_nat NUM_BLOCKS - 2) zero_block.

(** ** FileSys.cpp: the typed block layer *)

Definition IsDirectory (a_block : list Z) : bool :=
  u32 a_block =? DIR_MAGIC_NUM.

Definition IsINode (a_block : list Z) : bool :=
  u32 a_block =? INODE_MAGIC_NUM.

(** [memset(&a_block, 0, sizeof a_block)] followed by the magic. *)
Definition InitializeBlock_dir : dirblock_t :=
  {| d_magic := DIR_MAGIC_NUM;
     num_entries := 0;
     dir_entries :=
       replicate (Z.to_nat MAX_DIR_ENTRIES)
         {| name := replicate NAME_LEN 0; block_num := 0 |} |}.

Definition InitializeBlock_inode : inode_t :=
  {| i_magic := INODE_MAGIC_NUM;
     size := 0;
     blocks := replicate (Z.to_nat MAX_DATA_BLOCKS) 0 |}.

Definition InitializeBlock_data : list Z := zero_block.

Definition ReadDirBlock (a_handle : Z) : M (dirblock_t * bool) :=
  block ← read_block a_handle;
  let second := IsDirectory block in
  (if second then mret tt else set_lastErr kFileNotDir);;
  mret (dir_of_bytes block, second).

Definition ReadINodeBlock (a_handle : Z) : M (inode_t * bool) :=
  block ← read_block a_handle;
  let second := IsINode block in
  (if second then mret tt else set_lastErr kFileIsDir);;
  mret (inode_of_bytes block, second).

Definition PrintFailedToFindFile : M unit := set_lastErr kFileNotExists.

(** [ForEachDirEntry]: the first slot, in slot order, on which [a_func]
    answers true, as the slot's index and entry (the [DirEntry*] of the
    source); [None] is the null pointer. *)
Fixpoint ForEachDirEntry_from (i : nat) (entries : list DirEntry)
    (a_func : DirEntry → M bool) : M (option (nat * DirEntry)) :=
  match entries with
  | [] => mret None
  | e :: entries' =>
      stop ← a_func e;
      if stop : bool then mret (Some (i, e))
      else ForEachDirEntry_from (S i) entries' a_func
  end.

Definition ForEachDirEntry (a_directory : dirblock_t)
    (a_func : DirEntry → M bool) : M (option (nat * DirEntry)) :=
  ForEachDirEntry_from 0 (dir_entries a_directory) a_func.

(** The lambda every lookup passes to [ForEachDirEntry]:
    [a_entry.block_num != kInvalidHandle && strcmp(a_entry.name, a_name) == 0]. *)
Definition name_matches (a_name : list Z) (a_entry : DirEntry) : M bool :=
  if block_num a_entry =? kInvalidHandle then mret false
  else match strcmp_eq (name a_entry) a_name with
       | Some b => mret b
       | None => undefined
       end.

Definition slot_is_free (a_entry : DirEntry) : M bool :=
  mret (block_num a_entry =? kInvalidHandle).

(** Assignments through the [DirEntry*] returned by a lookup. *)
Definition set_entry (d : dirblock_t) (i : nat) (e : DirEntry) : dirblock_t :=
  {| d_magic := d_magic d; num_entries := num_entries d;
     dir_entries := <[i := e]> (dir_entries d) |}.

Definition set_num_entries (d : dirblock_t) (n : Z) : dirblock_t :=
  {| d_magic := d_magic d; num_entries := n; dir_entries := dir_entries d |}.

(** [InsertIntoDirectory]: the directory is passed by reference; the
    result pairs the returned flag with the directory afterwards. *)
Definition InsertIntoDirectory (a_dir : dirblock_t) (a_handle : Z)
    (a_name : list Z) : M (bool * dirblock_t) :=
  entry ← ForEachDirEntry a_dir (name_matches a_name);
  match entry with
  | Some _ => set_lastErr kFileExists;; mret (false, a_dir)
  | None =>
      if MAX_DIR_ENTRIES <=? num_entries a_dir then
        set_lastErr kDirFull;; mret (false, a_dir)
      else if MAX_FNAME_SIZE <? Z.of_nat (strlen a_name) then
        set_lastErr kFileNameTooLong;; mret (false, a_dir)
      else
        entry ← ForEachDirEntry a_dir slot_is_free;
        match entry with
        | Some (i, e) =>
            let e' := {| name := strcpy (name e) a_name;
                         block_num := a_handle |} in
            mret (true, set_num_entries (set_entry a_dir i e')
                          (wrap32 (num_entries a_dir + 1)))
        | None => mret (false, a_dir)
        end
  end.

(** [MakeBlock<BlockType>]: [a_block] is the freshly initialised block of
    the requested type, already as bytes. *)
Definition MakeBlock (a_block : list Z) (a_name : list Z) : M unit :=
  cur ← curDirHandle;
  curDirBytes ← read_block cur;
  let curDir := dir_of_bytes curDirBytes in
  handle ← get_free_block;
  if handle =? kInvalidHandle then set_lastErr kDiskFull
  else
    '(inserted, curDir') ← InsertIntoDirectory curDir handle a_name;
    if inserted : bool then
      write_block handle a_block;;
      write_block cur (bytes_of_dir curDir')
    else reclaim_block handle.

(** ** FileSys.cpp: the operations *)

Definition mkdir (a_name : list Z) : M unit :=
  MakeBlock (bytes_of_dir InitializeBlock_dir) a_name.

Definition create (a_name : list Z) : M unit :=
  MakeBlock (bytes_of_inode InitializeBlock_inode) a_name.

Definition cd (a_name : list Z) : M unit :=
  cur ← curDirHandle;
  '(curDir, ok) ← ReadDirBlock cur;
  if negb ok then mret tt
  else
    entry ← ForEachDirEntry curDir (name_matches a_name);
    match entry with
    | Some (_, e) => set_curDirHandle (block_num e)
    | None => PrintFailedToFindFile
    end.

Definition home : M unit := set_curDirHandle kRootDirHandle.

Definition rmdir (a_name : list Z) : M unit :=
  cur ← curDirHandle;
  '(curDir, ok) ← ReadDirBlock cur;
  if negb ok then mret tt
  else
    entry ← ForEachDirEntry curDir (name_matches a_name);
    match entry with
    | Some (i, e) =>
        '(rmDir, ok') ← ReadDirBlock (block_num e);
        if negb ok' then set_lastErr kFileNotDir
        else if num_entries rmDir =? 0 then
          reclaim_block (block_num e);;
          let e' := {| name := name e; block_num := kInvalidHandle |} in
          write_block cur
            (bytes_of_dir
               (set_num_entries (set_entry curDir i e')
                  (wrap32 (num_entries curDir - 1))))
        else set_lastErr kDirNotEmpty
    | None => PrintFailedToFindFile
    end.

(** The lambda of [ls]: it prints a used slot and never stops the scan. *)
Definition ls_entry (a_entry : DirEntry) : M bool :=
  (if block_num a_entry =? kInvalidHandle then mret tt
   else
     match array_str (name a_entry) with
     | Some s => respond s
     | None => undefined
     end;;
     buf ← read_block (block_num a_entry);
     (if IsDirectory buf then respond [SLASH] else mret tt);;
     respond [NL]);;
  mret false.

Definition ls : M unit :=
  cur ← curDirHandle;
  '(curDir, ok) ← ReadDirBlock cur;
  if negb ok then mret tt
  else
    ForEachDirEntry curDir ls_entry;;
    respond [NL].


(** The allocation loop of [append]: [handles.push_back(get_free_block())]
    [n] times; the flag says whether [bad_block_alloc] was thrown, which
    happens as soon as an invalid handle has been pushed. *)
Fixpoint allocate_handles (n : nat) (handles : list Z) : M (list Z * bool) :=
  match n with
  | O => mret (handles, false)
  | S n' =>
      h ← get_free_block;
      let handles' := handles ++ [h] in
      if h =? kInvalidHandle then mret (handles', true)
      else allocate_handles n' handles'
  end.

(** The handler of [bad_block_alloc]: every valid handle is given back. *)
Fixpoint reclaim_handles (handles : list Z) : M unit :=
  match handles with
  | [] => mret tt
  | h :: handles' =>
      (if h =? kInvalidHandle then mret tt else reclaim_block h);;
      reclaim_handles handles'
  end.

(** The number of blocks [append] asks the allocator for. *)
Definition alloc_size (a_size dataLen : Z) : Z :=
  let freeCount := BLOCK_SIZE - a_size mod BLOCK_SIZE in
  if freeCount <? dataLen then dataLen - freeCount else 0.

Definition num_alloc_blocks (iNode : inode_t) (dataLen : Z) : M Z :=
  let allocSize := alloc_size (size iNode) dataLen in
  let numAllocBlocks := allocSize / BLOCK_SIZE in
  let numAllocBlocks :=
    if allocSize mod BLOCK_SIZE =? 0 then numAllocBlocks
    else numAllocBlocks + 1 in
  current ← array_get (blocks iNode) (size iNode / BLOCK_SIZE);
  mret (if current =? kInvalidHandle then numAllocBlocks + 1
        else numAllocBlocks).

(** The loop that hands the new blocks to the inode, from slot [i] on while
    [i < MAX_DATA_BLOCKS] ([fuel] slots remain) and handles are left;
    [stack] lists the handles from the back of the vector. *)
Fixpoint assign_handles (fuel i : nat) (slots stack : list Z) : list Z :=
  match fuel with
  | O => slots
  | S fuel' =>
      match stack with
      | [] => slots
      | h :: stack' =>
          match slots !! i with
          | Some b =>
              if b =? kInvalidHandle
              then assign_handles fuel' (S i) (<[i := h]> slots) stack'
              else assign_handles fuel' (S i) slots stack
          | None => slots
          end
      end
  end.

(** The inner loop of the copy: bytes go into [dataBlock] from [blockIdx]
    on, until the block or the data ends; the result is the block, the
    data still to copy and the size of the file. *)
Fixpoint copy_bytes (blockIdx : nat) (dataBlock data : list Z) (a_size : Z)
    : list Z * list Z * Z :=
  match data with
  | [] => (dataBlock, [], a_size)
  | c :: data' =>
      if Z.of_nat blockIdx <? BLOCK_SIZE
      then copy_bytes (S blockIdx) (<[blockIdx := c]> dataBlock) data'
             (wrap32 (a_size + 1))
      else (dataBlock, data, a_size)
  end.

(** The outer loop of the copy, one block per round.  Every round copies at
    least one byte when [BLOCK_SIZE] is positive, so [length data] rounds
    of [fuel] are never used up. *)
Fixpoint copy_data (fuel : nat) (iNode : inode_t) (data : list Z) : M inode_t :=
  match data with
  | [] => mret iNode
  | _ :: _ =>
      match fuel with
      | O => undefined
      | S fuel' =>
          dataHandle ← array_get (blocks iNode) (size iNode / BLOCK_SIZE);
          dataBlock ← read_block dataHandle;
          let '(dataBlock', data', size') :=
            copy_bytes (Z.to_nat (size iNode mod BLOCK_SIZE)) dataBlock data
              (size iNode) in
          write_block dataHandle dataBlock';;
          copy_data fuel'
            {| i_magic := i_magic iNode; size := size';
               blocks := blocks iNode |} data'
      end
  end.

Definition append (a_name a_data : list Z) : M unit :=
  if Nat.eqb (strlen a_data) 0 then mret tt
  else
    cur ← curDirHandle;
    '(curDir, ok) ← ReadDirBlock cur;
    if negb ok then mret tt
    else
      entry ← ForEachDirEntry curDir (name_matches a_name);
      match entry with
      | Some (_, e) =>
          '(iNode, ok') ← ReadINodeBlock (block_num e);
          if negb ok' then mret tt
          else
            let dataLen := Z.of_nat (strlen a_data) in
            if wrap32 (MAX_FILE_SIZE - size iNode) <? dataLen then
              set_lastErr kAppendExceedsMaxSize
            else
              numAllocBlocks ← num_alloc_blocks iNode dataLen;
              '(handles, thrown) ←
                allocate_handles (Z.to_nat numAllocBlocks) [];
              if thrown : bool then
                set_lastErr kDiskFull;;
                reclaim_handles handles
              else
                let first := Z.to_nat (size iNode / BLOCK_SIZE) in
                let iNode' :=
                  {| i_magic := i_magic iNode; size := size iNode;
                     blocks :=
                       assign_handles (Z.to_nat MAX_DATA_BLOCKS - first)
                         first (blocks iNode) (rev handles) |} in
                iNode'' ← copy_data (strlen a_data) iNode' (c_str a_data);
                write_block (block_num e) (bytes_of_inode iNode'')
      | None => PrintFailedToFindFile
      end.

(** The read loop of [head]: [n] rounds from block index [i]; the last of
    the [numBlocks] rounds writes [a_size mod BLOCK_SIZE] bytes, the others
    a whole block. *)
Fixpoint head_blocks (n : nat) (i numBlocks a_size : Z) (iNode : inode_t)
    : M unit :=
  match n with
  | O => mret tt
  | S n' =>
      h ← array_get (blocks iNode) i;
      dataBlock ← read_block h;
      (if i =? numBlocks - 1
       then respond (take (Z.to_nat (a_size mod BLOCK_SIZE)) dataBlock)
       else respond (take (Z.to_nat BLOCK_SIZE) dataBlock));;
      head_blocks n' (i + 1) numBlocks a_size iNode
  end.

Definition head (a_name : list Z) (a_size : Z) : M unit :=
  cur ← curDirHandle;
  '(curDir, ok) ← ReadDirBlock cur;
  if negb ok then mret tt
  else
    entry ← ForEachDirEntry curDir (name_matches a_name);
    match entry with
    | Some (_, e) =>
        '(iNode, ok') ← ReadINodeBlock (block_num e);
        if negb ok' then mret tt
        else if size iNode =? 0 then mret tt
        else
          let size' := if a_size <? size iNode then a_size else size iNode in
          let numBlocks := size' / BLOCK_SIZE + 1 in
          head_blocks (Z.to_nat numBlocks) 0 numBlocks size' iNode;;
          respond [NL]
    | None => PrintFailedToFindFile
    end.

Definition cat (a_name : list Z) : M unit := head a_name MAX_FILE_SIZE.

(** The reclaim loop of [rm] over [blocks[i]], [n] rounds from index [i]. *)
Fixpoint rm_blocks (n : nat) (i : Z) (iNode : inode_t) : M unit :=
  match n with
  | O => mret tt
  | S n' =>
      h ← array_get (blocks iNode) i;
      reclaim_block h;;
      rm_blocks n' (i + 1) iNode
  end.

Definition rm (a_name : list Z) : M unit :=
  cur ← curDirHandle;
  '(curDir, ok) ← ReadDirBlock cur;
  if negb ok then mret tt
  else
    entry ← ForEachDirEntry curDir (name_matches a_name);
    match entry with
    | Some (i, e) =>
        '(iNode, ok') ← ReadINodeBlock (block_num e);
        if negb ok' then mret tt
        else
          (if size iNode =? 0 then mret tt
           else
             let numBlocks := size iNode / MAX_DATA_BLOCKS + 1 in
             rm_blocks (Z.to_nat numBlocks) 0 iNode);;
          reclaim_block (block_num e);;
          let e' := {| name := name e; block_num := kInvalidHandle |} in
          write_block cur
            (bytes_of_dir
               (set_num_entries (set_entry curDir i e')
                  (wrap32 (num_entries curDir - 1))))
    | None => PrintFailedToFindFile
    end.

Definition literal (s : string) : list Z :=
  (λ c, Z.of_N (Ascii.N_of_ascii c)) <$> String.list_ascii_of_string s.

Definition stat (a_name : list Z) : M unit :=
  cur ← curDirHandle;
  '(curDir, ok) ← ReadDirBlock cur;
  if negb ok then mret tt
  else
    entry ← ForEachDirEntry curDir (name_matches a_name);
    match entry with
    | Some (_, e) =>
        buf ← read_block (block_num e);
        if IsDirectory buf then
          match array_str (name e) with
          | Some s => respond (literal "Directory name: " ++ s ++ [SLASH; NL])
          | None => undefined
          end;;
          respond (literal "Directory block: " ++ to_string (block_num e) ++ [NL])
        else
          let iNode := inode_of_bytes buf in
          respond (literal "iNode block: " ++ to_string (block_num e) ++ [NL]);;
          respond (literal "Bytes in files: " ++ to_string (size iNode) ++ [NL]);;
          respond (literal "Number of blocks: "
                   ++ to_string (if size iNode =? 0 then 1
                                 else wrap32 (size iNode / BLOCK_SIZE + 2))
                   ++ [NL]);;
          if size iNode =? 0 then respond (literal "First block: N/A" ++ [NL])
          else
            first ← array_get (blocks iNode) 0;
            respond (literal "First block: " ++ to_string first ++ [NL])
    | None => PrintFailedToFindFile
    end.

(** [while (!tmp.empty() && tmp.back() == '\n') tmp.pop_back()], on the
    string read from its back. *)
Fixpoint pop_newlines (rev_tmp : list Z) : list Z :=
  match rev_tmp with
  | [] => []
  | c :: rev_tmp' => if c =? NL then pop_newlines rev_tmp' else rev_tmp
  end.

Definition getQueryResponse : M (list Z) := λ fs,
  let tmp := rev (pop_newlines (rev (_response fs))) in
  let tmp := tmp ++ [NL] in
  Ret (tmp, {| _bfs := _bfs fs; _curDirHandle := _curDirHandle fs;
               _lastErr := _lastErr fs; _response := [] |}).

Definition getLastErr : M FileError := λ fs,
  let tmp := _lastErr fs in
  Ret (tmp, {| _bfs := _bfs fs; _curDirHandle := _curDirHandle fs;
               _lastErr := kOK; _response := _response fs |}).

(** [FileSys::mount] on a disk: the cursor starts at the root, no error and
    no response are pending. *)
Definition mount (d : list (list Z)) : FileSys :=
  {| _bfs := d; _curDirHandle := kRootDirHandle;
     _lastErr := kOK; _response := [] |}.

End FileSystem.


(** ** A reference configuration

    Modelled from the spec: the values of [Blocks.h] are not part of the
    sources at hand.  [BLOCK_SIZE] is the 128 of section 3; the other
    values are one choice that makes both structs fill a block, on a small
    disk. *)
Definition ref_blocks : Blocks :=
  {| BLOCK_SIZE := 128;
     NUM_BLOCKS := 64;
     MAX_FNAME_SIZE := 7;
     MAX_DIR_ENTRIES := 10;
     MAX_DATA_BLOCKS := 30;
     DIR_MAGIC_NUM := 4294967295;
     INODE_MAGIC_NUM := 4294967294 |}.

(** The state with another last error, cursor or response. *)
Definition with_lastErr (fs : FileSys) (e : FileError) : FileSys :=
  {| _bfs := _bfs fs; _curDirHandle := _curDirHandle fs;
     _lastErr := e; _response := _response fs |}.

Definition with_curDirHandle (fs : FileSys) (h : Z) : FileSys :=
  {| _bfs := _bfs fs; _curDirHandle := h;
     _lastErr := _lastErr fs; _response := _response fs |}.

Definition with_response (fs : FileSys) (r : list Z) : FileSys :=
  {| _bfs := _bfs fs; _curDirHandle := _curDirHandle fs;
     _lastErr := _lastErr fs; _response := r |}.

Definition with_disk (fs : FileSys) (d : list (list Z)) : FileSys :=
  {| _bfs := d; _curDirHandle := _curDirHandle fs;
     _lastErr := _lastErr fs; _response := _response fs |}.

(** ** Predicates on directories, inodes and disks *)

Section Predicates.
Context `{Blocks}.

(** The entries in use have a name that ends inside its array
    (invariant 6 of section 3). *)
Definition names_terminated (d : dirblock_t) : Prop :=
  Forall (λ e, block_num e ≠ kInvalidHandle →
               (length (name e) ≤ NAME_LEN)%nat ∧ 0 ∈ name e)
         (dir_entries d).

(** [ceil(a / b)] for a positive [b]. *)
Definition ceil_div (a b : Z) : Z := (a + b - 1) / b.

(** The slot part of invariant 4 of section 3: the non-zero entries of
    [blocks[]] are exactly the first [ceil(size / BLOCK_SIZE)]. *)
Definition slots_contiguous (iNode : inode_t) : Prop :=
  ∀ i b, blocks iNode !! i = Some b →
         b ≠ kInvalidHandle ↔ Z.of_nat i < ceil_div (size iNode) BLOCK_SIZE.

(** Handles handed out one after the other: each was clear in the bitmap
    left by the ones before it. *)
Fixpoint fresh_handles (bm : list Z) (hs : list Z) : Prop :=
  match hs with
  | [] => True
  | h :: hs' =>
      2 ≤ h < NUM_BLOCKS ∧ bitmap_test bm h = false
      ∧ fresh_handles (bitmap_set bm h) hs'
  end.

(** The bytes of the block that slot [j] of an inode points to. *)
Definition file_block (d : list (list Z)) (iNode : inode_t) (j : Z) : list Z :=
  default [] (blocks iNode !! Z.to_nat j ≫= λ h, d !! Z.to_nat h).

(** Slot [j] of the inode holds a handle that [read_block] accepts. *)
Definition slot_readable (d : list (list Z)) (iNode : inode_t) (j : Z) : Prop :=
  ∃ h blk, blocks iNode !! Z.to_nat j = Some h
           ∧ 0 ≤ h < NUM_BLOCKS ∧ d !! Z.to_nat h = Some blk.

(** The disk has [NUM_BLOCKS] blocks of [BLOCK_SIZE] bytes. *)
Definition disk_ok (d : list (list Z)) : Prop :=
  Z.of_nat (length d) = NUM_BLOCKS
  ∧ Forall (λ blk, Z.of_nat (length blk) = BLOCK_SIZE) d.

(** Structs whose fields fit their types: 32-bit integers, a name array of
    [MAX_FNAME_SIZE + 1] bytes, arrays of the declared lengths. *)
Definition entry_ok (e : DirEntry) : Prop :=
  length (name e) = NAME_LEN ∧ 0 ≤ block_num e < 4294967296.

Definition dir_ok (d : dirblock_t) : Prop :=
  0 ≤ d_magic d < 4294967296
  ∧ 0 ≤ num_entries d < 4294967296
  ∧ length (dir_entries d) = Z.to_nat MAX_DIR_ENTRIES
  ∧ Forall entry_ok (dir_entries d).

Definition inode_ok (iNode : inode_t) : Prop :=
  0 ≤ i_magic iNode < 4294967296
  ∧ 0 ≤ size iNode < 4294967296
  ∧ length (blocks iNode) = Z.to_nat MAX_DATA_BLOCKS
  ∧ Forall (λ h, 0 ≤ h < 4294967296) (blocks iNode).

(** The blocks the bitmap [bm] marks free, lowest first. *)
Definition free_blocks (bm : list Z) : list Z :=
  List.filter (λ i, negb (bitmap_test bm i)) (seqZ 2 (NUM_BLOCKS - 2)).

(** The bytes of the blocks a list of handles points to, in order. *)
Definition file_data (d : list (list Z)) (hs : list Z) : list Z :=
  concat ((λ h, default [] (d !! Z.to_nat h)) <$> hs).

(** One round of the server loop of [main], without the framing of
    [PrepareMessage]: the command runs, then the pending error and the
    response body are fetched for the reply. *)
Definition request (command : M unit) : M (FileError * list Z) :=
  command;;
  lastErr ← getLastErr;
  body ← getQueryResponse;
  mret (lastErr, body).

End Predicates.

(** ** The contents of files, listings and what operations keep *)

(** The handles of the blocks that hold the data of a file, and the data:
    the first [size] bytes of those blocks. *)
Definition file_handles `{Blocks} (iNode : inode_t) : list Z :=
  take (Z.to_nat (ceil_div (size iNode) BLOCK_SIZE)) (blocks iNode).

Definition file_contents `{Blocks} (d : list (list Z)) (iNode : inode_t)
    : list Z :=
  take (Z.to_nat (size iNode)) (file_data d (file_handles iNode)).

(** [fs'] is [fs] again, up to the bytes that a removal leaves behind: the
    contents of block [h] and the name in a slot that is not in use.  The
    bitmap, the count of entries, the handle of every slot and the answer
    to every lookup are those of [fs]. *)
Definition restored_but_for `{Blocks} (h : Z) (fs fs' : FileSys) : Prop :=
  _curDirHandle fs' = _curDirHandle fs
  ∧ _lastErr fs' = _lastErr fs
  ∧ _response fs' = _response fs
  ∧ _bfs fs' !! 0%nat = _bfs fs !! 0%nat
  ∧ (∀ n, n ≠ Z.to_nat (_curDirHandle fs) → n ≠ Z.to_nat h →
          _bfs fs' !! n = _bfs fs !! n)
  ∧ ∃ b b',
      _bfs fs !! Z.to_nat (_curDirHandle fs) = Some b
      ∧ _bfs fs' !! Z.to_nat (_curDirHandle fs) = Some b'
      ∧ IsDirectory b' = IsDirectory b
      ∧ num_entries (dir_of_bytes b') = num_entries (dir_of_bytes b)
      ∧ block_num <$> dir_entries (dir_of_bytes b')
        = block_num <$> dir_entries (dir_of_bytes b)
      ∧ ∀ n fs2,
          ForEachDirEntry (dir_of_bytes b') (name_matches n) fs2
          = ForEachDirEntry (dir_of_bytes b) (name_matches n) fs2.

(** Slot [i] is the first slot of the directory that is not in use: the
    slot that [InsertIntoDirectory] fills. *)
Definition first_unused_slot (d : dirblock_t) (i : nat) : Prop :=
  (∃ e, dir_entries d !! i = Some e ∧ block_num e = kInvalidHandle)
  ∧ ∀ k e, (k < i)%nat → dir_entries d !! k = Some e →
           block_num e ≠ kInvalidHandle.

(** The block [b] with the name bytes of slot [i] of the directory
    overwritten by [strcpy] of [a_name]: every other byte is the byte of
    [b]. *)
Definition name_bytes_replaced `{Blocks} (b : list Z) (i : nat)
    (a_name : list Z) : list Z :=
  let p := (8 + i * ENTRY_LEN)%nat in
  take p b ++ strcpy (take NAME_LEN (drop p b)) a_name
  ++ drop (p + NAME_LEN) b.

(** The line that [ls] prints for a slot: nothing for a slot that is not
    in use, else the name, a slash when the block the entry names is a
    directory, and a newline. *)
Definition listing_line `{Blocks} (d : list (list Z)) (e : DirEntry) : list Z :=
  if block_num e =? kInvalidHandle then []
  else c_str (name e)
       ++ (if IsDirectory (default [] (d !! Z.to_nat (block_num e)))
           then [SLASH] else [])
       ++ [NL].

(** A computation that returns leaves the state related to the one it
    started from. *)
Definition preserves {A} (R : FileSys → FileSys → Prop) (c : M A) : Prop :=
  ∀ fs a fs', c fs = Ret (a, fs') → R fs fs'.

(** Nothing but the response stream and the last error differ. *)
Definition same_disk_and_cursor (fs fs' : FileSys) : Prop :=
  _bfs fs' = _bfs fs ∧ _curDirHandle fs' = _curDirHandle fs.

Definition same_disk_and_response (fs fs' : FileSys) : Prop :=
  _bfs fs' = _bfs fs ∧ _response fs' = _response fs.

(** * The protocol between the shell and the server *)

(** ** std::string *)

(** [std::string::npos], the largest [size_t], and arithmetic on
    [size_t]. *)
Definition npos : Z := 18446744073709551615.
Definition wrap64 (v : Z) : Z := v mod 18446744073709551616.

Fixpoint find_first_of_from (s chars : list Z) (i : Z) : Z :=
  match s with
  | [] => npos
  | c :: s' =>
      if bool_decide (c ∈ chars) then i
      else find_first_of_from s' chars (i + 1)
  end.

(** [s.find_first_of(chars, pos)]: the index of the first character from
    [pos] on that is one of [chars], [npos] when there is none. *)
Definition find_first_of (s chars : list Z) (pos : Z) : Z :=
  if Z.of_nat (length s) <=? pos then npos
  else find_first_of_from (drop (Z.to_nat pos) s) chars pos.

(** [std::string(s, pos, len)] and [s.substr(pos, len)]: at most [len]
    characters from [pos] on; [None] is the [std::out_of_range] thrown
    when [pos] lies behind the end. *)
Definition substr (s : list Z) (pos len : Z) : option (list Z) :=
  if Z.of_nat (length s) <? pos then None
  else Some (take (Z.to_nat (Z.min len (Z.of_nat (length s) - pos)))
               (drop (Z.to_nat pos) s)).

Definition isspace (c : Z) : bool := bool_decide (c ∈ [32; 9; 10; 11; 12; 13]).
Definition isdigit (c : Z) : bool := (48 <=? c) && (c <=? 57).

Fixpoint skip_space (s : list Z) : list Z :=
  match s with
  | [] => []
  | c :: s' => if isspace c then skip_space s' else s
  end.

Fixpoint digits_value (s : list Z) (acc : Z) : Z :=
  match s with
  | [] => acc
  | c :: s' => if isdigit c then digits_value s' (10 * acc + (c - 48)) else acc
  end.

(** The number that [strtol] and [strtoull] read in base 10: white space,
    an optional sign, digits.  [None] when there is no digit to read. *)
Definition parse_integer (s : list Z) : option Z :=
  let s := skip_space s in
  let '(negative, s) :=
    match s with
    | c :: s' =>
        if c =? 45 then (true, s')
        else if c =? 43 then (false, s')
        else (false, s)
    | [] => (false, s)
    end in
  match s with
  | c :: _ =>
      if isdigit c
      then Some (if negative : bool then - digits_value s 0
                 else digits_value s 0)
      else None
  | [] => None
  end.

(** [std::stoi]: [None] is [std::invalid_argument] or
    [std::out_of_range]. *)
Definition stoi (s : list Z) : option Z :=
  v ← parse_integer s;
  if (-2147483648 <=? v) && (v <=? 2147483647) then Some v else None.

(** [std::stoull]: a negative number is read modulo [2^64]. *)
Definition stoull (s : list Z) : option Z :=
  v ← parse_integer s;
  if Z.abs v <=? npos then Some (wrap64 v) else None.

(** [std::to_string] of an [int]. *)
Definition to_string_int (v : Z) : list Z :=
  if v <? 0 then 45 :: to_string (- v) else to_string v.

Definition CRLF : list Z := [13; 10].

(** ** The server: the command parser and the loop of [main] *)

Section Server.
Context `{Blocks}.

(** An exception that nothing catches ends the server. *)
Definition uncaught {A} (o : option A) : M A :=
  match o with
  | Some a => mret a
  | None => exit
  end.

(** The lambdas of the command table that take one name. *)
Definition with_name (command : list Z → M unit) (a_msg : list Z) : M unit :=
  let pos := wrap64 (find_first_of a_msg [32] 0 + 1) in
  directory ← uncaught
    (substr a_msg pos (wrap64 (find_first_of a_msg [13] 0 - pos)));
  command directory.

(** The lambdas of [append] and [head]: a name and a second word. *)
Definition with_name_and_word (command : list Z → list Z → M unit)
    (a_msg : list Z) : M unit :=
  let pos1 := wrap64 (find_first_of a_msg [32] 0 + 1) in
  let pos2 := find_first_of a_msg [32] pos1 in
  fileName ← uncaught (substr a_msg pos1 (wrap64 (pos2 - pos1)));
  let pos2 := wrap64 (pos2 + 1) in
  data ← uncaught
    (substr a_msg pos2 (wrap64 (find_first_of a_msg [13] pos2 - pos2)));
  command fileName data.

Definition _commandTable : list (list Z * (list Z → M unit)) :=
  [ (literal "mkdir", with_name mkdir);
    (literal "ls", λ _, ls);
    (literal "cd", with_name cd);
    (literal "home", λ _, home);
    (literal "rmdir", with_name rmdir);
    (literal "create", with_name create);
    (literal "append", with_name_and_word append);
    (literal "stat", with_name stat);
    (literal "cat", with_name cat);
    (literal "head",
     with_name_and_word
       (λ fileName size, n ← uncaught (stoi size); head fileName (wrap32 n)));
    (literal "rm", with_name rm) ].

(** [_commandTable.find(key)] *)
Fixpoint table_find {A} (key : list Z) (table : list (list Z * A))
    : option A :=
  match table with
  | [] => None
  | (k, v) :: table' =>
      if bool_decide (k = key) then Some v else table_find key table'
  end.

(** [CommandParser::operator()]: the command named by the first word of
    the message is run on the message. *)
Definition CommandParser_call (a_msg : list Z) : M bool :=
  key ← uncaught (substr a_msg 0 (find_first_of a_msg [32; 13] 0));
  match table_find key _commandTable with
  | Some command => command a_msg;; mret true
  | None => mret false
  end.

Definition error_name (e : FileError) : string :=
  match e with
  | kOK => " OK"
  | kFileNotDir => " FILE_NOT_DIR"
  | kFileIsDir => " FILE_IS_DIR"
  | kFileExists => " FILE_EXISTS"
  | kFileNotExists => " FILE_NOT_EXISTS"
  | kFileNameTooLong => " FILE_NAME_TOO_LONG"
  | kDiskFull => " DISK_FULL"
  | kDirFull => " DIR_FULL"
  | kDirNotEmpty => " DIR_NOT_EMPTY"
  | kAppendExceedsMaxSize => " APPEND_EXCEEDS_MAX_SIZE"
  | kCommandNotFound => " COMMAND_NOT_FOUND"
  end.

Definition PrepareMessage (a_lastErr : FileError) (a_extraMessage : list Z)
    : list Z :=
  let header1 := to_string (error_code a_lastErr) in
  let header2 :=
    literal "Length: " ++ to_string (Z.of_nat (length a_extraMessage))
    ++ CRLF in
  let empty := CRLF in
  let header1 := header1 ++ literal (error_name a_lastErr) in
  let header1 := header1 ++ CRLF in
  header1 ++ header2 ++ empty ++ a_extraMessage.

(** One round of the loop of [main]: the message that answers a message
    received.  The pending error and the response are fetched as the two
    arguments of one call of [PrepareMessage]; each clears a field of its
    own, so the order in which they are evaluated makes no difference
    ([reply_arguments_commute]). *)
Definition main_round (a_msg : list Z) : M (list Z) :=
  known ← CommandParser_call a_msg;
  if negb known then mret (PrepareMessage kCommandNotFound [])
  else
    lastErr ← getLastErr;
    body ← getQueryResponse;
    mret (PrepareMessage lastErr body).

End Server.

(** ** The shell (Shell.cpp) *)

(** The bytes that [SendMessage] and [DispatchMessage] write for a
    message: its characters and the terminating NUL.  [HandleResponse] on
    the other side reads until it has seen a NUL and hands on all that it
    has read: these bytes, when no other message is in flight. *)
Definition on_the_wire (a_message : list Z) : list Z := a_message ++ [0].

(** The messages of the remote procedure calls. *)
Definition mkdir_rpc (a_dirName : list Z) : list Z :=
  literal "mkdir " ++ a_dirName ++ CRLF.
Definition cd_rpc (a_dirName : list Z) : list Z :=
  literal "cd " ++ a_dirName ++ CRLF.
Definition home_rpc : list Z := literal "home" ++ CRLF.
Definition rmdir_rpc (a_dirName : list Z) : list Z :=
  literal "rmdir " ++ a_dirName ++ CRLF.
Definition ls_rpc : list Z := literal "ls" ++ CRLF.
Definition create_rpc (a_fileName : list Z) : list Z :=
  literal "create " ++ a_fileName ++ CRLF.
Definition append_rpc (a_fileName a_data : list Z) : list Z :=
  literal "append " ++ a_fileName ++ literal " " ++ a_data ++ CRLF.
Definition cat_rpc (a_fileName : list Z) : list Z :=
  literal "cat " ++ a_fileName ++ CRLF.
Definition head_rpc (a_fileName : list Z) (a_size : Z) : list Z :=
  literal "head " ++ a_fileName ++ literal " " ++ to_string_int a_size ++ CRLF.
Definition rm_rpc (a_fileName : list Z) : list Z :=
  literal "rm " ++ a_fileName ++ CRLF.
Definition stat_rpc (a_fileName : list Z) : list Z :=
  literal "stat " ++ a_fileName ++ CRLF.


(** [ss >> word]: white space is skipped, then the characters up to the
    next white space are read; [None] when none is left. *)
Fixpoint read_chars (s : list Z) : list Z * list Z :=
  match s with
  | [] => ([], [])
  | c :: s' =>
      if isspace c then ([], s)
      else let '(word, rest) := read_chars s' in (c :: word, rest)
  end.

Definition read_word (s : list Z) : option (list Z * list Z) :=
  match skip_space s with
  | [] => None
  | s' => Some (read_chars s')
  end.

Module Shell.

Record Command := {
  name : list Z;
  file_name : list Z;
  append_data : list Z
}.

Definition empty : Command :=
  {| name := []; file_name := []; append_data := [] |}.

(** The tokens of a command line, at most four of them, as
    [parse_command] reads them: the struct and [num_tokens]. *)
Definition tokens (command_str : list Z) : Command * Z :=
  match read_word command_str with
  | None => (empty, 0)
  | Some (w1, ss) =>
      match read_word ss with
      | None => ({| name := w1; file_name := []; append_data := [] |}, 1)
      | Some (w2, ss) =>
          match read_word ss with
          | None => ({| name := w1; file_name := w2; append_data := [] |}, 2)
          | Some (w3, ss) =>
              ({| name := w1; file_name := w2; append_data := w3 |},
               match read_word ss with
               | None => 3
               | Some _ => 4
               end)
          end
      end
  end.

Definition is_one_of (word : list Z) (names : list string) : bool :=
  bool_decide (word ∈ literal <$> names).

Definition parse_command (command_str : list Z) : Command :=
  let '(command, num_tokens) := tokens command_str in
  if num_tokens =? 0 then empty
  else if is_one_of (name command) ["ls"; "home"; "quit"]%string then
    if negb (num_tokens =? 1) then empty else command
  else if is_one_of (name command)
            ["mkdir"; "cd"; "rmdir"; "create"; "cat"; "rm"; "stat"]%string then
    if negb (num_tokens =? 2) then empty else command
  else if is_one_of (name command) ["append"; "head"]%string then
    if negb (num_tokens =? 3) then empty else command
  else empty.

(** [execute_command]: the message that goes to the server, if any, and
    whether the user quits.  [strtoul] stands for the C library function
    called with base 0: its value and whether it left [errno] at 0.  The
    value is converted to [int] for [head_rpc]. *)
Definition to_int (n : Z) : Z :=
  let n := n mod 4294967296 in
  if n <? 2147483648 then n else n - 4294967296.

Definition execute_command (strtoul : list Z → Z * bool)
    (command_str : list Z) : option (list Z) * bool :=
  let command := parse_command command_str in
  let word := name command in
  if bool_decide (word = []) then (None, false)
  else if bool_decide (word = literal "mkdir") then
    (Some (mkdir_rpc (file_name command)), false)
  else if bool_decide (word = literal "cd") then
    (Some (cd_rpc (file_name command)), false)
  else if bool_decide (word = literal "home") then (Some home_rpc, false)
  else if bool_decide (word = literal "rmdir") then
    (Some (rmdir_rpc (file_name command)), false)
  else if bool_decide (word = literal "ls") then (Some ls_rpc, false)
  else if bool_decide (word = literal "create") then
    (Some (create_rpc (file_name command)), false)
  else if bool_decide (word = literal "append") then
    (Some (append_rpc (file_name command) (append_data command)), false)
  else if bool_decide (word = literal "cat") then
    (Some (cat_rpc (file_name command)), false)
  else if bool_decide (word = literal "head") then
    let '(n, ok) := strtoul (append_data command) in
    if ok : bool then (Some (head_rpc (file_name command) (to_int n)), false)
    else (None, false)
  else if bool_decide (word = literal "rm") then
    (Some (rm_rpc (file_name command)), false)
  else if bool_decide (word = literal "stat") then
    (Some (stat_rpc (file_name command)), false)
  else if bool_decide (word = literal "quit") then (None, true)
  else (None, false).

(** What [PrintResponse] writes to the two streams, and whether it ended
    in its handler, which adds the text of the exception, not modelled, to
    [cerr]. *)
Record printed := {
  cout : list Z;
  cerr : list Z;
  caught : bool
}.

Definition status_text (statusCode : Z) : list Z :=
  if statusCode =? 500 then literal "File is not a directory!" ++ [NL]
  else if statusCode =? 501 then literal "File is a directory!" ++ [NL]
  else if statusCode =? 502 then literal "File exists!" ++ [NL]
  else if statusCode =? 503 then literal "File does not exist!" ++ [NL]
  else if statusCode =? 504 then literal "File name is too long!" ++ [NL]
  else if statusCode =? 505 then literal "Disk is full!" ++ [NL]
  else if statusCode =? 506 then literal "Directory is full!" ++ [NL]
  else if statusCode =? 507 then literal "Directory is not empty!" ++ [NL]
  else if statusCode =? 508 then
    literal "Append exceeds maximum filesize!" ++ [NL]
  else if statusCode =? 509 then literal "Command not found!" ++ [NL]
  else [].

Definition PrintResponse (msg : list Z) : printed :=
  let thrown err := {| cout := []; cerr := err; caught := true |} in
  let pos1 := wrap64 (find_first_of msg [NL] 0 + 1) in
  match substr msg 0 pos1 with
  | None => thrown []
  | Some header1 =>
      let pos2 := wrap64 (find_first_of msg [NL] pos1 + 1) in
      match substr msg pos1 (wrap64 (pos2 - pos1)) with
      | None => thrown []
      | Some header2 =>
          let pos3 := wrap64 (find_first_of msg [NL] pos2 + 1) in
          match stoi header1 with
          | None => thrown []
          | Some statusCode =>
              let err := status_text statusCode in
              match substr header2 (find_first_of header2 [32] 0) npos
                    ≫= stoull with
              | None => thrown err
              | Some extraLen =>
                  if 0 <? extraLen then
                    match substr msg pos3 extraLen with
                    | None => thrown err
                    | Some extraMsg =>
                        {| cout := extraMsg ++ [NL]; cerr := err;
                           caught := false |}
                    end
                  else {| cout := [NL]; cerr := err; caught := false |}
              end
          end
      end
  end.

(** [mountNFS], up to the calls of the socket library: the server and the
    port that the location is split into.  [None] is the handler of
    [std::out_of_range], which returns before anything is opened. *)
Definition mountNFS_address (a_fsLoc : list Z) : option (list Z * list Z) :=
  let pos := find_first_of a_fsLoc [58] 0 in
  server ← substr a_fsLoc 0 pos;
  port ← substr a_fsLoc (wrap64 (pos + 1)) npos;
  Some (server, port).

(** [std::getline(in, str)]: the characters up to the next newline, which
    is read and dropped, or up to the end of the input, where [eofbit] is
    set; the line, what is left of the input, and [in.eof()]. *)
Fixpoint getline (s : list Z) : list Z * list Z * bool :=
  match s with
  | [] => ([], [], true)
  | c :: s' =>
      if c =? NL then ([], s', false)
      else let '(line, rest, eof) := getline s' in (c :: line, rest, eof)
  end.

(** The loop of [run_script], for a mounted shell and a script that could
    be opened: the command lines that are passed to [execute_command], in
    order.  [command_str] and [eof] are what the last [getline] left,
    [rest] is what the file still holds; [None] when the fuel runs out. *)
Fixpoint script_loop (fuel : nat) (strtoul : list Z → Z * bool)
    (command_str rest : list Z) (eof : bool) : option (list (list Z)) :=
  match fuel with
  | O => None
  | S fuel' =>
      if eof then Some []
      else if (execute_command strtoul command_str).2 then Some [command_str]
      else
        let '(line, rest', eof') := getline rest in
        cons command_str <$> script_loop fuel' strtoul line rest' eof'
  end.

Definition run_script (strtoul : list Z → Z * bool) (script : list Z)
    : option (list (list Z)) :=
  let '(line, rest, eof) := getline script in
  script_loop (S (length script)) strtoul line rest eof.

End Shell.

(** A script file: lines that end in a newline. *)
Definition terminated_lines (lines : list (list Z)) : list Z :=
  concat ((λ line, line ++ [NL]) <$> lines).

(** The lines up to the first that makes the shell quit, that one
    included. *)
Fixpoint until_quit (strtoul : list Z → Z * bool) (lines : list (list Z))
    : list (list Z) :=
  match lines with
  | [] => []
  | line :: lines' =>
      line :: (if (Shell.execute_command strtoul line).2 then []
               else until_quit strtoul lines')
  end.

(** Where the reading of digits stops. *)
Definition no_digit_ahead (rest : list Z) : Prop :=
  match rest with
  | [] => True
  | c :: _ => isdigit c = false
  end.

(** The first header of a reply: the code, the name of the error, the
    end of the line. *)
Definition status_line (e : FileError) : list Z :=
  to_string (error_code e) ++ literal (error_name e) ++ CRLF.

Definition no_space (word : list Z) : Prop :=
  Forall (λ c, isspace c = false) word.

(** The operation that a command line asks for: what [execute_command]
    would call if the file system were at hand. *)
Definition requested `{Blocks} (strtoul : list Z → Z * bool)
    (command : Shell.Command) : M unit :=
  let word := Shell.name command in
  let a_name := Shell.file_name command in
  if bool_decide (word = literal "mkdir") then mkdir a_name
  else if bool_decide (word = literal "cd") then cd a_name
  else if bool_decide (word = literal "home") then home
  else if bool_decide (word = literal "rmdir") then rmdir a_name
  else if bool_decide (word = literal "ls") then ls
  else if bool_decide (word = literal "create") then create a_name
  else if bool_decide (word = literal "append") then
    append a_name (Shell.append_data command)
  else if bool_decide (word = literal "cat") then cat a_name
  else if bool_decide (word = literal "head") then
    head a_name (wrap32 (strtoul (Shell.append_data command)).1)
  else if bool_decide (word = literal "rm") then rm a_name
  else if bool_decide (word = literal "stat") then stat a_name
  else mret tt.

(** ** Scenarios on the reference configuration *)

Section Scenarios.
#[local] Existing Instance ref_blocks.

(** The state a computation leaves behind (the state it started from when
    it does not return). *)
Definition after {A} (c : M A) (fs : FileSys) : FileSys :=
  match c fs with
  | Ret (_, fs') => fs'
  | _ => fs
  end.

(** The value a computation returns ([default] when it does not). *)
Definition result {A} (c : M A) (fs : FileSys) (default : A) : A :=
  match c fs with
  | Ret (a, _) => a
  | _ => default
  end.

Definition block_at (fs : FileSys) (n : nat) : list Z :=
  default [] (_bfs fs !! n).

(** Bit [i] of the bitmap of a state. *)
Definition allocated (fs : FileSys) (i : Z) : bool :=
  bitmap_test (block_at fs 0) i.

Definition file_f : list Z := literal "f".

(** A freshly formatted and mounted disk, and the same after [create f]. *)
Definition fresh : FileSys := mount formatted_disk.
Definition with_file : FileSys := after (create file_f) fresh.

(** [f] holds one full block of data. *)
Definition one_block : list Z := replicate 128 65.
Definition with_full_block : FileSys :=
  after (append file_f one_block) with_file.

(** [f] holds [MAX_DATA_BLOCKS] bytes, less than one block. *)
Definition thirty_bytes : list Z := replicate 30 65.
Definition with_thirty_bytes : FileSys :=
  after (append file_f thirty_bytes) with_file.

(** The disk of [with_file] with every block but block 5 marked as
    allocated. *)
Definition nearly_full : FileSys :=
  with_disk with_file
    (<[0%nat := 223 :: replicate 127 255]> (_bfs with_file)).

(** The cursor moved onto the inode block of [f]. *)
Definition cursor_on_file : FileSys := after (cd file_f) with_file.

(** The inode block of [f] read as a directory, with an entry for ["x"]
    and block 3 added. *)
Definition inode_with_entry : dirblock_t :=
  snd (result
         (InsertIntoDirectory (dir_of_bytes (block_at cursor_on_file 2)) 3
            (literal "x"))
         cursor_on_file (false, InitializeBlock_dir)).



Definition dir_d : list Z := literal "d".
Definition hello : list Z := literal "hello".

(** A fresh disk after [mkdir d], and the same with a file [f] made inside
    [d] and the cursor back on the root. *)
Definition with_dir : FileSys := after (mkdir dir_d) fresh.
Definition with_file_in_dir : FileSys :=
  after (mkdir dir_d;; cd dir_d;; create file_f;; home) fresh.

(** [f] holds [MAX_FILE_SIZE] bytes. *)
Definition with_full_file : FileSys :=
  after (append file_f (replicate 3840 65)) with_file.

(** The disk of [with_file] with every block marked as allocated. *)
Definition full_disk : FileSys :=
  with_disk with_file (<[0%nat := replicate 128 255]> (_bfs with_file)).

(** A [strtoul] for the examples: the value of the leading digits, and no
    error. *)
Definition strtoul_digits (s : list Z) : Z * bool := (digits_value s 0, true).

(** The command line [head f 5]. *)
Definition head_f_5 : list Z := literal "head f 5".

(** The file [f] after [create f; cd f; mkdir ""; home]: [mkdir] has
    written the inode block of [f] back as a directory with one entry more,
    which as an inode has size 1 and the handle 3 in its third slot. *)
Definition with_bent_inode : FileSys :=
  after (create file_f;; cd file_f;; mkdir [];; home) fresh.

End Scenarios.

(** * Properties *)

Lemma ref_blocks_ok : @BlocksOk ref_blocks.
Proof. split; unfold MAX_FILE_SIZE; cbn; lia. Qed.

(** ** The monad *)

Lemma bind_Ret {A B} (c : M A) (f : A → M B) fs a fs' :
  c fs = Ret (a, fs') → (c ≫= f) fs = f a fs'.
Proof. intros Hc. unfold mbind, M_bind. by rewrite Hc. Qed.

Lemma bind_Ret_inv {A B} (c : M A) (f : A → M B) fs b fs'' :
  (c ≫= f) fs = Ret (b, fs'') →
  ∃ a fs', c fs = Ret (a, fs') ∧ f a fs' = Ret (b, fs'').
Proof.
  unfold mbind, M_bind. destruct (c fs) as [[a fs']| |]; [|done..].
  intros Hf. by exists a, fs'.
Qed.

(** ** The response stream *)

Lemma pop_newlines_spec (l : list Z) :
  ∃ k, l = replicate k NL ++ pop_newlines l
       ∧ hd_error (pop_newlines l) ≠ Some NL.
Proof.
  induction l as [|c l [k [IH1 IH2]]]; simpl.
  - by exists 0%nat.
  - destruct (Z.eqb_spec c NL) as [->|Hc].
    + exists (S k). simpl. by rewrite <- IH1.
    + exists 0%nat. split; [done|]. simpl. congruence.
Qed.

(** C10.  [getQueryResponse] always returns: the body is the accumulated
    response without its trailing newlines ([stem]), followed by one
    newline; the stored response is cleared.  Hence the body is never
    empty and ends in exactly one newline, and after a command that wrote
    nothing the body is the one-character string of a newline. *)
Theorem getQueryResponse_normalizes (fs : FileSys) :
  ∃ stem k,
    _response fs = stem ++ replicate k NL
    ∧ last stem ≠ Some NL
    ∧ getQueryResponse fs = Ret (stem ++ [NL], with_response fs [])
    ∧ stem ++ [NL] ≠ []
    ∧ last (stem ++ [NL]) = Some NL
    ∧ getQueryResponse (with_response fs []) = Ret ([NL], with_response fs []).
Proof.
  destruct (pop_newlines_spec (rev (_response fs))) as [k [Hk Hne]].
  exists (rev (pop_newlines (rev (_response fs)))), k.
  split_and!.
  - rewrite <- (rev_involutive (_response fs)) at 1.
    rewrite Hk at 1. rewrite rev_app_distr. f_equal.
    clear. induction k as [|k IH]; [done|].
    simpl. rewrite IH. clear. induction k; simpl; [done|]. by f_equal.
  - destruct (pop_newlines _) as [|c l]; [done|].
    simpl in *. by rewrite last_snoc.
  - done.
  - intros Heq. apply app_eq_nil in Heq as [_ ?]. done.
  - apply last_snoc.
  - done.
Qed.

(** ** C strings *)


Section Lookup.
Context `{Blocks}.

(** A lookup by name reads the directory it is given and nothing else. *)
Lemma name_lookup_pure i es a_name fs found fs' :
  ForEachDirEntry_from i es (name_matches a_name) fs = Ret (found, fs') →
  fs' = fs
  ∧ ∀ fs2, ForEachDirEntry_from i es (name_matches a_name) fs2
           = Ret (found, fs2).
Proof.
  revert i. induction es as [|e es IH]; intros i; simpl.
  - intros [= <- <-]. done.
  - unfold mbind, M_bind, name_matches.
    destruct (block_num e =? kInvalidHandle).
    + simpl. apply IH.
    + destruct (strcmp_eq (name e) a_name) as [[]|]; simpl; [|apply IH|done].
      intros [= <- <-]. done.
Qed.



End Lookup.

(** ** Fixed-width integers *)

Lemma u32_range (bs : list Z) : 0 ≤ u32 bs < 4294967296.
Proof.
  unfold u32. destruct bs as [|b0 [|b1 [|b2 [|b3 bs]]]]; try lia.
  pose proof (Z.mod_pos_bound b0 256). pose proof (Z.mod_pos_bound b1 256).
  pose proof (Z.mod_pos_bound b2 256). pose proof (Z.mod_pos_bound b3 256).
  lia.
Qed.

Lemma u32_le32 (v : Z) (rest : list Z) : u32 (le32 v ++ rest) = wrap32 v.
Proof.
  unfold u32, le32, wrap32. simpl.
  rewrite !Z.mod_mod by lia.
  Z.div_mod_to_equations. lia.
Qed.

Lemma wrap32_small (v : Z) : 0 ≤ v < 4294967296 → wrap32 v = v.
Proof. intros Hv. unfold wrap32. by apply Z.mod_small. Qed.

Lemma wrap32_succ_ne (v : Z) : 0 ≤ v < 4294967296 → wrap32 (v + 1) ≠ v.
Proof. unfold wrap32. intros Hv. Z.div_mod_to_equations. lia. Qed.

Section Device.
Context `{Blocks}.

(** ** The block device *)

Lemma read_block_inv n fs b fs' :
  read_block n fs = Ret (b, fs') →
  fs' = fs ∧ 0 ≤ n < NUM_BLOCKS ∧ _bfs fs !! Z.to_nat n = Some b.
Proof.
  unfold read_block.
  destruct (Z.ltb_spec n 0); [done|].
  destruct (Z.leb_spec NUM_BLOCKS n); [done|]. simpl.
  destruct (_bfs fs !! Z.to_nat n) eqn:Hn; [|done].
  intros [= <- <-]. split_and!; [done|lia..|done].
Qed.

Lemma read_block_ok n fs b :
  0 ≤ n < NUM_BLOCKS → _bfs fs !! Z.to_nat n = Some b →
  read_block n fs = Ret (b, fs).
Proof.
  intros Hn Hb. unfold read_block.
  destruct (Z.ltb_spec n 0); [lia|].
  destruct (Z.leb_spec NUM_BLOCKS n); [lia|]. simpl. by rewrite Hb.
Qed.

(** Reading depends on the disk only. *)
Lemma read_block_same_disk n fs fs2 b :
  read_block n fs = Ret (b, fs) → _bfs fs2 = _bfs fs →
  read_block n fs2 = Ret (b, fs2).
Proof.
  intros (_ & Hn & Hb)%read_block_inv Hd. apply read_block_ok; [done|].
  by rewrite Hd.
Qed.

Lemma write_block_ok n b fs :
  0 ≤ n < NUM_BLOCKS → (Z.to_nat n < length (_bfs fs))%nat →
  write_block n b fs = Ret (tt, with_disk fs (<[Z.to_nat n := b]> (_bfs fs))).
Proof.
  intros Hn Hlen. unfold write_block.
  destruct (Z.ltb_spec n 0); [lia|].
  destruct (Z.leb_spec NUM_BLOCKS n); [lia|]. simpl.
  destruct (Z.leb_spec (Z.of_nat (length (_bfs fs))) n); [lia|]. done.
Qed.

Lemma write_block_inv n b fs u fs' :
  write_block n b fs = Ret (u, fs') →
  fs' = with_disk fs (<[Z.to_nat n := b]> (_bfs fs))
  ∧ 0 ≤ n < NUM_BLOCKS ∧ (Z.to_nat n < length (_bfs fs))%nat.
Proof.
  unfold write_block.
  destruct (Z.ltb_spec n 0); [done|].
  destruct (Z.leb_spec NUM_BLOCKS n); [done|]. simpl.
  destruct (Z.leb_spec (Z.of_nat (length (_bfs fs))) n); [done|].
  intros [= <-]. split_and!; [done|lia..].
Qed.

Lemma first_free_inv bm h :
  first_free bm = Some h → 2 ≤ h < NUM_BLOCKS ∧ bitmap_test bm h = false.
Proof.
  unfold first_free. intros [Hin Hclear]%find_some. split.
  - apply list_elem_of_In, elem_of_seqZ in Hin. lia.
  - by destruct (bitmap_test bm h).
Qed.

Lemma get_free_block_inv fs h fs' :
  get_free_block fs = Ret (h, fs') →
  ∃ bm, _bfs fs !! 0%nat = Some bm
        ∧ ((first_free bm = None ∧ h = kInvalidHandle ∧ fs' = fs)
           ∨ (first_free bm = Some h
              ∧ fs' = with_disk fs (<[0%nat := bitmap_set bm h]> (_bfs fs)))).
Proof.
  unfold get_free_block. intros (bm & fs1 & Hread & Hrest)%bind_Ret_inv.
  apply read_block_inv in Hread as (-> & _ & Hbm).
  exists bm. split; [done|].
  destruct (first_free bm) as [i|] eqn:Hfree.
  - apply bind_Ret_inv in Hrest as (u & fs2 & Hw & [= <- <-]).
    apply write_block_inv in Hw as (-> & _). by right.
  - injection Hrest as <- <-. by left.
Qed.

Lemma get_free_block_ok fs bm :
  2 ≤ NUM_BLOCKS → _bfs fs !! 0%nat = Some bm →
  get_free_block fs
  = match first_free bm with
    | Some h =>
        Ret (h, with_disk fs (<[0%nat := bitmap_set bm h]> (_bfs fs)))
    | None => Ret (kInvalidHandle, fs)
    end.
Proof.
  intros Hnum Hbm. unfold get_free_block.
  rewrite (bind_Ret _ _ fs bm fs);
    [|by apply read_block_ok; [unfold kSuperBlockHandle; lia|]].
  destruct (first_free bm) as [h|]; [|done].
  erewrite bind_Ret; [done|].
  apply write_block_ok; [unfold kSuperBlockHandle; lia|].
  apply lookup_lt_Some in Hbm. change (Z.to_nat kSuperBlockHandle) with 0%nat.
  lia.
Qed.

Lemma reclaim_block_inv n fs u fs' :
  reclaim_block n fs = Ret (u, fs') →
  ∃ bm, _bfs fs !! 0%nat = Some bm
        ∧ 0 ≤ n < NUM_BLOCKS
        ∧ fs' = with_disk fs (<[0%nat := bitmap_clear bm n]> (_bfs fs)).
Proof.
  unfold reclaim_block.
  destruct (Z.ltb_spec n 0); [done|].
  destruct (Z.leb_spec NUM_BLOCKS n); [done|]. simpl.
  intros (bm & fs1 & Hread & Hw)%bind_Ret_inv.
  apply read_block_inv in Hread as (-> & _ & Hbm).
  apply write_block_inv in Hw as (-> & _). exists bm. split_and!; done || lia.
Qed.

Lemma reclaim_block_ok n fs bm :
  0 ≤ n < NUM_BLOCKS → 0 < NUM_BLOCKS → _bfs fs !! 0%nat = Some bm →
  reclaim_block n fs
  = Ret (tt, with_disk fs (<[0%nat := bitmap_clear bm n]> (_bfs fs))).
Proof.
  intros Hn Hpos Hbm. unfold reclaim_block.
  destruct (Z.ltb_spec n 0); [lia|].
  destruct (Z.leb_spec NUM_BLOCKS n); [lia|]. simpl.
  rewrite (bind_Ret _ _ fs bm fs).
  - apply write_block_ok; [unfold kSuperBlockHandle; lia|].
    apply lookup_lt_Some in Hbm. change (Z.to_nat kSuperBlockHandle) with 0%nat.
    simpl. lia.
  - by apply read_block_ok; [unfold kSuperBlockHandle; lia|].
Qed.

(** ** The typed block layer *)

Lemma ReadDirBlock_eq h fs b :
  read_block h fs = Ret (b, fs) →
  ReadDirBlock h fs
  = Ret ((dir_of_bytes b, IsDirectory b),
         if IsDirectory b then fs else with_lastErr fs kFileNotDir).
Proof.
  intros Hr. unfold ReadDirBlock. rewrite (bind_Ret _ _ _ _ _ Hr).
  by destruct (IsDirectory b).
Qed.

Lemma ReadINodeBlock_eq h fs b :
  read_block h fs = Ret (b, fs) →
  ReadINodeBlock h fs
  = Ret ((inode_of_bytes b, IsINode b),
         if IsINode b then fs else with_lastErr fs kFileIsDir).
Proof.
  intros Hr. unfold ReadINodeBlock. rewrite (bind_Ret _ _ _ _ _ Hr).
  by destruct (IsINode b).
Qed.

Lemma slot_lookup_inv i es fs found fs' :
  ForEachDirEntry_from i es slot_is_free fs = Ret (found, fs') →
  fs' = fs
  ∧ match found with
    | Some (j, e) =>
        ∃ k, j = (i + k)%nat ∧ es !! k = Some e
             ∧ block_num e = kInvalidHandle
             ∧ ∀ k' e', (k' < k)%nat → es !! k' = Some e' →
                        block_num e' ≠ kInvalidHandle
    | None => Forall (λ e, block_num e ≠ kInvalidHandle) es
    end.
Proof.
  revert i. induction es as [|e es IH]; intros i; simpl.
  - intros [= <- <-]. done.
  - unfold mbind, M_bind, slot_is_free. simpl.
    destruct (Z.eqb_spec (block_num e) kInvalidHandle) as [He|He].
    + intros [= <- <-]. split; [done|]. exists 0%nat.
      split_and!; [lia|done..|]. intros; lia.
    + intros [-> Hfound]%IH. split; [done|].
      destruct found as [[j e']|].
      * destruct Hfound as (k & -> & Hk & He' & Hbefore).
        exists (S k). split_and!; [lia|done..|].
        intros [|k'] e'' Hlt; simpl; [congruence|].
        apply Hbefore. lia.
      * by constructor.
Qed.

Lemma InsertIntoDirectory_inv a_dir a_handle a_name fs inserted a_dir' fs' :
  InsertIntoDirectory a_dir a_handle a_name fs
  = Ret ((inserted, a_dir'), fs') →
  if inserted then
    fs' = fs
    ∧ num_entries a_dir < MAX_DIR_ENTRIES
    ∧ ∃ i e, dir_entries a_dir !! i = Some e
             ∧ a_dir' = set_num_entries
                 (set_entry a_dir i {| name := strcpy (name e) a_name;
                                       block_num := a_handle |})
                 (wrap32 (num_entries a_dir + 1))
  else
    a_dir' = a_dir
    ∧ (fs' = fs ∨ fs' = with_lastErr fs kFileExists
       ∨ fs' = with_lastErr fs kDirFull
       ∨ fs' = with_lastErr fs kFileNameTooLong).
Proof.
  unfold InsertIntoDirectory.
  intros (found & fs1 & Hfind & Hrest)%bind_Ret_inv.
  apply name_lookup_pure in Hfind as [-> _].
  destruct found as [x|].
  { injection Hrest as <- <- <-. auto. }
  destruct (Z.leb_spec MAX_DIR_ENTRIES (num_entries a_dir)).
  { injection Hrest as <- <- <-. auto. }
  destruct (Z.ltb_spec MAX_FNAME_SIZE (Z.of_nat (strlen a_name))).
  { injection Hrest as <- <- <-. auto 6. }
  apply bind_Ret_inv in Hrest as (slot & fs2 & Hslot & Hrest).
  apply slot_lookup_inv in Hslot as [-> Hslot].
  destruct slot as [[i e]|].
  - injection Hrest as <- <- <-. split_and!; [done..|].
    destruct Hslot as (k & -> & Hk & _). by exists k, e.
  - injection Hrest as <- <- <-. auto.
Qed.

End Device.

Section CursorOnFile.
Context `{Blocks} (Hok : BlocksOk).

Lemma IsINode_not_directory (b : list Z) :
  IsINode b = true → IsDirectory b = false.
Proof.
  unfold IsINode, IsDirectory. intros Hi%Z.eqb_eq.
  apply Z.eqb_neq. rewrite Hi. intros Heq.
  by apply (magic_distinct Hok).
Qed.

(** With the cursor on a block that is not a directory, an operation that
    starts with [ReadDirBlock(_curDirHandle)] stops there. *)
Lemma ReadDirBlock_refuses fs b :
  read_block (_curDirHandle fs) fs = Ret (b, fs) → IsDirectory b = false →
  ∀ A (k : dirblock_t * bool → M A),
    (cur ← curDirHandle; ReadDirBlock cur ≫= k) fs
    = k (dir_of_bytes b, false) (with_lastErr fs kFileNotDir).
Proof.
  intros Hr Hd A k. unfold curDirHandle.
  unfold mbind at 1, M_bind at 1.
  rewrite (bind_Ret _ _ _ _ _ (ReadDirBlock_eq _ _ _ Hr)).
  by rewrite Hd.
Qed.

(** C4.  [cd] looks the name up in the current directory and, on a hit,
    moves the cursor to the entry's [block_num] without looking at the
    target block; on a miss it reports [FILE_NOT_EXISTS] and leaves the
    cursor where it was.  When the target is an inode block, every later
    operation that reads the current directory through [ReadDirBlock]
    ([ls], [cd], [rmdir], [stat], [cat], [head], [rm] and [append] of
    non-empty data) stops at the directory-magic check with
    [FILE_NOT_DIR], leaving disk, cursor and response as they were.
    [mkdir] and [create] read the current directory with [read_block] and
    are not among them. *)
Theorem cd_does_not_check_target
    (fs : FileSys) (a_name b : list Z) (found : option (nat * DirEntry)) :
  read_block (_curDirHandle fs) fs = Ret (b, fs) →
  IsDirectory b = true →
  ForEachDirEntry (dir_of_bytes b) (name_matches a_name) fs = Ret (found, fs) →
  match found with
  | Some (_, e) =>
      cd a_name fs = Ret (tt, with_curDirHandle fs (block_num e))
      ∧ ∀ target,
          read_block (block_num e) fs = Ret (target, fs) →
          IsINode target = true →
          let fs1 := with_curDirHandle fs (block_num e) in
          let refused := Ret (tt, with_lastErr fs1 kFileNotDir) in
          ls fs1 = refused
          ∧ (∀ n, cd n fs1 = refused)
          ∧ (∀ n, rmdir n fs1 = refused)
          ∧ (∀ n, stat n fs1 = refused)
          ∧ (∀ n, cat n fs1 = refused)
          ∧ (∀ n k, head n k fs1 = refused)
          ∧ (∀ n, rm n fs1 = refused)
          ∧ (∀ n d, strlen d ≠ 0%nat → append n d fs1 = refused)
  | None => cd a_name fs = Ret (tt, with_lastErr fs kFileNotExists)
  end.
Proof.
  intros Hr Hd Hfind.
  assert (Hcd : cd a_name fs
                = match found with
                  | Some (_, e) => set_curDirHandle (block_num e) fs
                  | None => PrintFailedToFindFile fs
                  end).
  { unfold cd, curDirHandle. unfold mbind at 1, M_bind at 1.
    rewrite (bind_Ret _ _ _ _ _ (ReadDirBlock_eq _ _ _ Hr)), Hd. simpl.
    rewrite (bind_Ret _ _ _ _ _ Hfind). by destruct found as [[]|]. }
  destruct found as [[i e]|]; [|done].
  split; [done|]. intros target Ht Hi fs1 refused.
  assert (Hr1 : read_block (_curDirHandle fs1) fs1 = Ret (target, fs1))
    by (by apply (read_block_same_disk _ fs)).
  pose proof (ReadDirBlock_refuses _ _ Hr1 (IsINode_not_directory _ Hi)) as Hno.
  split_and!; intros; try (by apply Hno).
  unfold append. destruct (strlen d); [done|]. by apply Hno.
Qed.

(** [MakeBlock] never sets [FILE_NOT_DIR]: the only errors it can leave
    are those of the allocator and of [InsertIntoDirectory]. *)
Lemma MakeBlock_lastErr a_block a_name fs u fs' :
  MakeBlock a_block a_name fs = Ret (u, fs') →
  _lastErr fs' ∈ [_lastErr fs; kDiskFull; kFileExists; kDirFull;
                  kFileNameTooLong].
Proof.
  unfold MakeBlock, curDirHandle. unfold mbind at 1, M_bind at 1.
  intros (b & fs1 & (-> & _)%read_block_inv & Hrest)%bind_Ret_inv.
  apply bind_Ret_inv in Hrest as (h & fs2 & Hget & Hrest).
  assert (Herr2 : _lastErr fs2 = _lastErr fs).
  { apply get_free_block_inv in Hget
      as (bm & _ & [(_ & _ & ->)|(_ & ->)]); done. }
  destruct (h =? kInvalidHandle).
  { injection Hrest as _ <-. simpl. rewrite !elem_of_cons. auto. }
  apply bind_Ret_inv in Hrest as ([inserted d'] & fs3 & Hins & Hrest).
  apply InsertIntoDirectory_inv in Hins.
  destruct inserted.
  - destruct Hins as (-> & _).
    apply bind_Ret_inv in Hrest as (u1 & fs4 & (-> & _)%write_block_inv & Hw).
    apply write_block_inv in Hw as (-> & _). simpl. rewrite Herr2.
    rewrite !elem_of_cons. auto.
  - destruct Hins as (_ & Hfs3).
    apply reclaim_block_inv in Hrest as (bm & _ & _ & ->). simpl.
    destruct Hfs3 as [-> | [-> | [-> | ->]]]; simpl; rewrite ?Herr2;
      rewrite !elem_of_cons; auto 10.
Qed.

(** When the insertion succeeds, [MakeBlock] writes the block it read at
    the cursor back with one more entry, whatever that block was. *)
Lemma MakeBlock_writes_back a_block a_name fs b handle fs1 curDir' fs2 :
  Z.of_nat (length (_bfs fs)) = NUM_BLOCKS →
  read_block (_curDirHandle fs) fs = Ret (b, fs) →
  get_free_block fs = Ret (handle, fs1) →
  handle ≠ kInvalidHandle →
  InsertIntoDirectory (dir_of_bytes b) handle a_name fs1
  = Ret ((true, curDir'), fs2) →
  ∃ fs', MakeBlock a_block a_name fs = Ret (tt, fs')
         ∧ _bfs fs' !! Z.to_nat (_curDirHandle fs) = Some (bytes_of_dir curDir')
         ∧ bytes_of_dir curDir' ≠ b
         ∧ _lastErr fs' = _lastErr fs.
Proof.
  intros Hdisk Hr Hget Hh Hins.
  pose proof Hr as (_ & Hcur & Hb)%read_block_inv.
  pose proof Hget
    as (bm & Hbm & [(_ & ? & _)|(Hfree & ->)])%get_free_block_inv; [done|].
  apply first_free_inv in Hfree as [Hrange _].
  pose proof Hins as (-> & Hn & i & e & He & ->)%InsertIntoDirectory_inv.
  set (curDir' := set_num_entries _ _) in *.
  set (d1 := <[0%nat := bitmap_set bm handle]> (_bfs fs)) in *.
  assert (Hlen1 : length d1 = length (_bfs fs)) by apply length_insert.
  assert (Hlt : (Z.to_nat (_curDirHandle fs) < length (_bfs fs))%nat)
    by (by apply lookup_lt_Some in Hb).
  eexists. split_and!.
  - unfold MakeBlock, curDirHandle. unfold mbind at 1, M_bind at 1.
    rewrite (bind_Ret _ _ _ _ _ Hr), (bind_Ret _ _ _ _ _ Hget).
    apply Z.eqb_neq in Hh. rewrite Hh.
    rewrite (bind_Ret _ _ _ _ _ Hins).
    erewrite bind_Ret; last first.
    { apply write_block_ok; [lia|]. simpl. rewrite Hlen1. lia. }
    apply write_block_ok; [done|]. simpl. rewrite length_insert, Hlen1. done.
  - simpl. apply list_lookup_insert_eq. rewrite length_insert, Hlen1. done.
  - intros Heq.
    assert (Hnum : u32 (drop 4 (bytes_of_dir curDir')) = u32 (drop 4 b))
      by (by rewrite Heq).
    unfold bytes_of_dir in Hnum. simpl in Hnum.
    change (u32 (le32 (wrap32 (num_entries (dir_of_bytes b) + 1)) ++
                 concat (bytes_of_entry <$> dir_entries curDir'))
            = u32 (drop 4 b)) in Hnum.
    rewrite u32_le32 in Hnum. simpl in Hnum.
    pose proof (u32_range (drop 4 b)) as Hrange4.
    unfold wrap32 in Hnum. rewrite Z.mod_mod in Hnum by lia.
    by apply (wrap32_succ_ne (u32 (drop 4 b))).
  - done.
Qed.

(** C9.  With the cursor on an inode block, where [ls] (like every
    operation that goes through [ReadDirBlock]) is refused with
    [FILE_NOT_DIR], [mkdir] and [create] are not: they read the block
    without looking at its magic, so the only errors they can leave are
    [DISK_FULL] and those of [InsertIntoDirectory].  When the allocator
    hands out a block and the insertion into the reinterpreted inode
    succeeds, they return, and the block at the cursor then holds the
    bytes of the reinterpreted block with the new entry, which differ from
    the inode's bytes. *)
Theorem mkdir_create_skip_directory_check
    (fs : FileSys) (a_name b : list Z) :
  Z.of_nat (length (_bfs fs)) = NUM_BLOCKS →
  read_block (_curDirHandle fs) fs = Ret (b, fs) →
  IsINode b = true →
  ls fs = Ret (tt, with_lastErr fs kFileNotDir)
  ∧ ∀ op, op ∈ [mkdir; create] →
      (∀ u fs', op a_name fs = Ret (u, fs') →
         _lastErr fs' ∈ [_lastErr fs; kDiskFull; kFileExists; kDirFull;
                         kFileNameTooLong]
         ∧ (_lastErr fs ≠ kFileNotDir → _lastErr fs' ≠ kFileNotDir))
      ∧ (∀ handle fs1 curDir' fs2,
           get_free_block fs = Ret (handle, fs1) →
           handle ≠ kInvalidHandle →
           InsertIntoDirectory (dir_of_bytes b) handle a_name fs1
           = Ret ((true, curDir'), fs2) →
           ∃ fs', op a_name fs = Ret (tt, fs')
                  ∧ _bfs fs' !! Z.to_nat (_curDirHandle fs)
                    = Some (bytes_of_dir curDir')
                  ∧ bytes_of_dir curDir' ≠ b
                  ∧ _lastErr fs' = _lastErr fs).
Proof.
  intros Hdisk Hr Hi. split.
  { by apply (ReadDirBlock_refuses _ _ Hr (IsINode_not_directory _ Hi)). }
  intros op Hop.
  assert (∃ a_block, op = MakeBlock a_block) as [a_block ->].
  { rewrite !elem_of_cons in Hop. destruct Hop as [-> | [-> | Hop]].
    - by eexists.
    - by eexists.
    - by apply elem_of_nil in Hop. }
  split.
  - intros u fs' Hmk. apply MakeBlock_lastErr in Hmk. split; [done|].
    intros Hne Heq. rewrite Heq, !elem_of_cons in Hmk.
    destruct Hmk as [?|[?|[?|[?|[?|Hnil]]]]]; try done.
    by apply elem_of_nil in Hnil.
  - intros handle fs1 curDir' fs2. by apply MakeBlock_writes_back.
Qed.

End CursorOnFile.

Section AppendCount.
Context `{Blocks} (Hok : BlocksOk).

Lemma ceil_div_quot (x : Z) :
  0 ≤ x →
  x / BLOCK_SIZE + (if x mod BLOCK_SIZE =? 0 then 0 else 1)
  = ceil_div x BLOCK_SIZE.
Proof.
  pose proof (block_size_pos Hok) as HB. intros Hx. unfold ceil_div.
  destruct (Z.eqb_spec (x mod BLOCK_SIZE) 0) as [Hr|Hr].
  - apply (Z.div_unique_pos _ _ _ (BLOCK_SIZE - 1)); [lia|].
    pose proof (Z.div_mod x BLOCK_SIZE). lia.
  - pose proof (Z.mod_pos_bound x BLOCK_SIZE HB).
    apply (Z.div_unique_pos _ _ _ (x mod BLOCK_SIZE - 1)); [lia|].
    pose proof (Z.div_mod x BLOCK_SIZE). lia.
Qed.

Lemma ceil_div_add (x k : Z) :
  ceil_div (x + k * BLOCK_SIZE) BLOCK_SIZE = ceil_div x BLOCK_SIZE + k.
Proof.
  pose proof (block_size_pos Hok) as HB. unfold ceil_div.
  replace (x + k * BLOCK_SIZE + BLOCK_SIZE - 1)
    with (x + BLOCK_SIZE - 1 + k * BLOCK_SIZE) by lia.
  apply Z.div_add. lia.
Qed.

Lemma ceil_div_small (x : Z) :
  - BLOCK_SIZE < x ≤ 0 → ceil_div x BLOCK_SIZE = 0.
Proof. intros Hx. unfold ceil_div. apply Z.div_small. lia. Qed.

Lemma ceil_div_of_size (s : Z) :
  0 ≤ s →
  ceil_div s BLOCK_SIZE
  = s / BLOCK_SIZE + (if s mod BLOCK_SIZE =? 0 then 0 else 1).
Proof. intros Hs. by rewrite ceil_div_quot. Qed.

(** The arithmetic of the request: with the slot at [s / BLOCK_SIZE] in
    use exactly when the last block of the file is partly filled, the three
    summands add up to the growth of the block count. *)
Lemma needed_blocks (s dataLen current : Z) :
  0 ≤ s → 0 < dataLen →
  (current ≠ 0 ↔ s / BLOCK_SIZE < ceil_div s BLOCK_SIZE) →
  let quantity := Z.max 0 (dataLen - (BLOCK_SIZE - s mod BLOCK_SIZE)) in
  quantity / BLOCK_SIZE
  + (if quantity mod BLOCK_SIZE =? 0 then 0 else 1)
  + (if current =? 0 then 1 else 0)
  = ceil_div (s + dataLen) BLOCK_SIZE - ceil_div s BLOCK_SIZE.
Proof.
  pose proof (block_size_pos Hok) as HB.
  intros Hs HL Hinv quantity.
  assert (HB0 : BLOCK_SIZE ≠ 0) by lia.
  pose proof (Z.div_mod s BLOCK_SIZE HB0) as Hdm.
  pose proof (Z.mod_pos_bound s BLOCK_SIZE HB) as Hr.
  rewrite (ceil_div_of_size s Hs) in Hinv |- *.
  set (q := s / BLOCK_SIZE) in *. set (r := s mod BLOCK_SIZE) in *.
  rewrite ceil_div_quot by (unfold quantity; lia).
  replace (s + dataLen) with (r + dataLen + q * BLOCK_SIZE) by lia.
  rewrite ceil_div_add.
  destruct (Z.eqb_spec r 0) as [Hr0|Hr0].
  - assert (current = 0) as ->.
    { destruct (Z.eq_dec current 0) as [|Hne]; [done|].
      apply Hinv in Hne. lia. }
    simpl. unfold quantity. rewrite Hr0.
    destruct (Z.le_gt_cases BLOCK_SIZE dataLen).
    + rewrite Z.max_r by lia.
      replace (0 + dataLen) with (dataLen - (BLOCK_SIZE - 0) + 1 * BLOCK_SIZE)
        by lia.
      rewrite ceil_div_add. lia.
    + rewrite Z.max_l by lia.
      rewrite (ceil_div_small 0) by lia.
      replace (0 + dataLen) with (dataLen - BLOCK_SIZE + 1 * BLOCK_SIZE) by lia.
      rewrite ceil_div_add, ceil_div_small by lia. lia.
  - assert (Hne : current ≠ 0) by (apply Hinv; lia).
    apply Z.eqb_neq in Hne. rewrite Hne. unfold quantity.
    destruct (Z.le_gt_cases (BLOCK_SIZE - r) dataLen).
    + rewrite Z.max_r by lia.
      replace (r + dataLen) with (dataLen - (BLOCK_SIZE - r) + 1 * BLOCK_SIZE)
        by lia.
      rewrite ceil_div_add. lia.
    + rewrite Z.max_l by lia.
      rewrite (ceil_div_small 0) by lia.
      replace (r + dataLen) with (r + dataLen - BLOCK_SIZE + 1 * BLOCK_SIZE)
        by lia.
      rewrite ceil_div_add, ceil_div_small by lia. lia.
Qed.

(** The count that [append] computes for [dataLen > 0] bytes that pass the
    size check: [max(0, dataLen - (BLOCK_SIZE - size mod BLOCK_SIZE)) /
    BLOCK_SIZE], plus one if that quantity is not a multiple of
    [BLOCK_SIZE], plus one if [blocks[size / BLOCK_SIZE]] is 0.  On an
    inode whose non-zero slots are the first [ceil(size / BLOCK_SIZE)]
    (invariant 4) this is
    [ceil((size + dataLen) / BLOCK_SIZE) - ceil(size / BLOCK_SIZE)]. *)
Lemma num_alloc_blocks_closed_form
    (iNode : inode_t) (dataLen : Z) (fs : FileSys) :
  Z.of_nat (length (blocks iNode)) = MAX_DATA_BLOCKS →
  0 ≤ size iNode →
  0 < dataLen ≤ MAX_FILE_SIZE - size iNode →
  ∃ current,
    blocks iNode !! Z.to_nat (size iNode / BLOCK_SIZE) = Some current
    ∧ let quantity :=
        Z.max 0 (dataLen - (BLOCK_SIZE - size iNode mod BLOCK_SIZE)) in
      let requested :=
        quantity / BLOCK_SIZE
        + (if quantity mod BLOCK_SIZE =? 0 then 0 else 1)
        + (if current =? 0 then 1 else 0) in
      num_alloc_blocks iNode dataLen fs = Ret (requested, fs)
      ∧ (slots_contiguous iNode →
         requested = ceil_div (size iNode + dataLen) BLOCK_SIZE
                     - ceil_div (size iNode) BLOCK_SIZE).
Proof.
  pose proof (block_size_pos Hok) as HB.
  intros Hlen Hs HL. unfold MAX_FILE_SIZE in HL.
  assert (HB0 : BLOCK_SIZE ≠ 0) by lia.
  pose proof (Z.div_mod (size iNode) BLOCK_SIZE HB0) as Hdm.
  pose proof (Z.mod_pos_bound (size iNode) BLOCK_SIZE HB) as Hr.
  set (q := size iNode / BLOCK_SIZE) in *.
  set (r := size iNode mod BLOCK_SIZE) in *.
  assert (Hq : 0 ≤ q < MAX_DATA_BLOCKS) by nia.
  destruct (blocks iNode !! Z.to_nat q) as [current|] eqn:Hcur; last first.
  { apply lookup_ge_None in Hcur. lia. }
  exists current. split; [done|]. intros quantity requested.
  assert (Hquantity : alloc_size (size iNode) dataLen = quantity).
  { unfold alloc_size, quantity. fold r.
    destruct (Z.ltb_spec (BLOCK_SIZE - r) dataLen); lia. }
  split.
  - unfold num_alloc_blocks. rewrite Hquantity. fold q.
    unfold array_get. destruct (Z.ltb_spec q 0); [lia|].
    rewrite Hcur. unfold mbind, M_bind, mret, M_ret. simpl.
    f_equal. f_equal. unfold requested.
    destruct (quantity mod BLOCK_SIZE =? 0), (current =? kInvalidHandle) eqn:E;
      unfold kInvalidHandle in E; rewrite E; lia.
  - intros Hinv. specialize (Hinv _ _ Hcur). unfold kInvalidHandle in Hinv.
    rewrite Z2Nat.id in Hinv by lia.
    apply (needed_blocks (size iNode) dataLen current); [done|lia|done].
Qed.

End AppendCount.

(** ** The allocation bitmap *)

Lemma clearbit_setbit (x k : Z) :
  0 ≤ k → Z.testbit x k = false → Z.clearbit (Z.setbit x k) k = x.
Proof.
  intros Hk Hx. apply Z.bits_inj'. intros n Hn.
  rewrite Z.clearbit_eqb, Z.setbit_eqb by done.
  destruct (Z.eqb_spec k n) as [->|]; simpl.
  - by rewrite Hx.
  - by rewrite andb_true_r.
Qed.

Lemma clearbit_comm (x j k : Z) :
  Z.clearbit (Z.clearbit x j) k = Z.clearbit (Z.clearbit x k) j.
Proof.
  apply Z.bits_inj'. intros n Hn. rewrite !Z.clearbit_eqb.
  by destruct (Z.testbit x n), (j =? n), (k =? n).
Qed.

Section Bitmap.
Context `{Blocks}.

Lemma bitmap_clear_set bm h :
  bitmap_test bm h = false → bitmap_clear (bitmap_set bm h) h = bm.
Proof.
  unfold bitmap_test, bitmap_clear, bitmap_set. intros Ht.
  rewrite list_alter_alter_eq. apply list_eq. intros j.
  destruct (decide (j = Z.to_nat (h / 8))) as [->|Hne].
  - rewrite list_lookup_alter_eq.
    destruct (bm !! Z.to_nat (h / 8)) as [x|]; [|done]. simpl in *.
    f_equal. apply clearbit_setbit; [|done].
    apply Z.mod_pos_bound. lia.
  - by rewrite list_lookup_alter_ne.
Qed.

Lemma bitmap_clear_comm bm a b :
  bitmap_clear (bitmap_clear bm a) b = bitmap_clear (bitmap_clear bm b) a.
Proof.
  unfold bitmap_clear.
  destruct (decide (Z.to_nat (a / 8) = Z.to_nat (b / 8))) as [Heq|Hne].
  - rewrite Heq, !list_alter_alter_eq. apply list_alter_ext; [|done].
    intros x _. simpl. apply clearbit_comm.
  - by apply list_alter_alter_ne.
Qed.

Lemma foldl_bitmap_clear_comm hs bm h :
  foldl bitmap_clear (bitmap_clear bm h) hs
  = bitmap_clear (foldl bitmap_clear bm hs) h.
Proof.
  revert bm. induction hs as [|h' hs IH]; intros bm; simpl; [done|].
  by rewrite bitmap_clear_comm, IH.
Qed.

(** Giving back what was handed out restores the bitmap. *)
Lemma bitmap_rollback hs bm :
  fresh_handles bm hs →
  foldl bitmap_clear (foldl bitmap_set bm hs) hs = bm.
Proof.
  revert bm. induction hs as [|h hs IH]; intros bm; simpl; [done|].
  intros (_ & Hclear & Hfresh).
  rewrite foldl_bitmap_clear_comm, IH by done.
  by apply bitmap_clear_set.
Qed.

Lemma with_disk_insert_insert fs (bm1 bm2 : list Z) :
  with_disk (with_disk fs (<[0%nat := bm1]> (_bfs fs)))
    (<[0%nat := bm2]> (<[0%nat := bm1]> (_bfs fs)))
  = with_disk fs (<[0%nat := bm2]> (_bfs fs)).
Proof. unfold with_disk. simpl. by rewrite list_insert_insert_eq. Qed.

Lemma with_disk_id fs bm :
  _bfs fs !! 0%nat = Some bm → with_disk fs (<[0%nat := bm]> (_bfs fs)) = fs.
Proof.
  intros Hbm. unfold with_disk. rewrite list_insert_id by done.
  by destruct fs.
Qed.

(** The allocation loop touches block 0 only; when it throws, the vector
    holds the handles it was given, in order, and the invalid one. *)
Lemma allocate_handles_thrown n acc fs hs fs1 :
  allocate_handles n acc fs = Ret ((hs, true), fs1) →
  ∃ bm new,
    _bfs fs !! 0%nat = Some bm
    ∧ hs = acc ++ new ++ [kInvalidHandle]
    ∧ fresh_handles bm new
    ∧ fs1 = with_disk fs (<[0%nat := foldl bitmap_set bm new]> (_bfs fs)).
Proof.
  revert acc fs. induction n as [|n IH]; intros acc fs; simpl; [done|].
  intros (h & fs' & Hget & Hrest)%bind_Ret_inv.
  apply get_free_block_inv in Hget as (bm & Hbm & Hget).
  exists bm.
  destruct Hget as [(_ & -> & ->)|(Hfree & ->)].
  - simpl in Hrest. injection Hrest as <- <-. exists [].
    split_and!; [done..|]. simpl. by rewrite with_disk_id.
  - pose proof Hfree as [Hrange Hclear]%first_free_inv.
    destruct (Z.eqb_spec h kInvalidHandle) as [->|_];
      [unfold kInvalidHandle in Hrange; lia|].
    apply IH in Hrest as (bm' & new & Hbm' & -> & Hfresh & ->).
    simpl in Hbm'.
    rewrite list_lookup_insert_eq in Hbm' by (by apply lookup_lt_Some in Hbm).
    injection Hbm' as <-.
    exists (h :: new). split_and!; [done| |done|].
    + by rewrite <- app_assoc.
    + simpl. by rewrite with_disk_insert_insert.
Qed.

Lemma reclaim_handles_fresh hs bm0 fs bm :
  0 < NUM_BLOCKS → fresh_handles bm0 hs → _bfs fs !! 0%nat = Some bm →
  reclaim_handles (hs ++ [kInvalidHandle]) fs
  = Ret (tt, with_disk fs (<[0%nat := foldl bitmap_clear bm hs]> (_bfs fs))).
Proof.
  intros Hnum. revert bm0 fs bm.
  induction hs as [|h hs IH]; intros bm0 fs bm; simpl.
  - intros _ Hbm. by rewrite with_disk_id.
  - intros (Hrange & _ & Hfresh) Hbm.
    destruct (Z.eqb_spec h kInvalidHandle) as [->|_];
      [unfold kInvalidHandle in Hrange; lia|].
    erewrite bind_Ret; [|by apply reclaim_block_ok; [lia|lia|]].
    erewrite IH; [|done|]; last first.
    { simpl. apply list_lookup_insert_eq. by apply lookup_lt_Some in Hbm. }
    by rewrite with_disk_insert_insert.
Qed.

End Bitmap.

Section AppendRollback.
Context `{Blocks} (Hok : BlocksOk).

(** C1.  An append of non-empty data to a file of the current directory
    that passes the size check and whose allocation loop is refused a
    block ([get_free_block] returns 0, so the loop throws) ends with
    [DISK_FULL] and a state that differs from the one before the call in
    the last error only: the disk is the same, bit for bit.  Up to the
    throw only block 0, the bitmap, has been written ([fs1] is the state at
    the throw), and the handler's reclaim of the collected handles is what
    restores it. *)
Theorem append_rollback_on_disk_full
    (fs : FileSys) (a_name a_data b ib : list Z) (i : nat) (e : DirEntry)
    (requested : Z) (handles : list Z) (fs1 : FileSys) :
  strlen a_data ≠ 0%nat →
  read_block (_curDirHandle fs) fs = Ret (b, fs) →
  IsDirectory b = true →
  ForEachDirEntry (dir_of_bytes b) (name_matches a_name) fs
  = Ret (Some (i, e), fs) →
  read_block (block_num e) fs = Ret (ib, fs) →
  IsINode ib = true →
  Z.of_nat (strlen a_data) ≤ MAX_FILE_SIZE - size (inode_of_bytes ib) →
  num_alloc_blocks (inode_of_bytes ib) (Z.of_nat (strlen a_data)) fs
  = Ret (requested, fs) →
  allocate_handles (Z.to_nat requested) [] fs = Ret ((handles, true), fs1) →
  append a_name a_data fs = Ret (tt, with_lastErr fs kDiskFull)
  ∧ _bfs (with_lastErr fs kDiskFull) = _bfs fs
  ∧ (∀ n, n ≠ 0%nat → _bfs fs1 !! n = _bfs fs !! n)
  ∧ reclaim_handles handles (with_lastErr fs1 kDiskFull)
    = Ret (tt, with_lastErr fs kDiskFull).
Proof.
  intros Hdata Hr Hd Hfind Hri Hi Hsize Hnum Halloc.
  pose proof Halloc as (bm & new & Hbm & -> & Hfresh & ->)%allocate_handles_thrown.
  assert (Hreclaim :
    reclaim_handles ([] ++ new ++ [kInvalidHandle])
      (with_lastErr
         (with_disk fs (<[0%nat := foldl bitmap_set bm new]> (_bfs fs)))
         kDiskFull)
    = Ret (tt, with_lastErr fs kDiskFull)).
  { simpl. erewrite reclaim_handles_fresh; [|pose proof (num_blocks_min Hok); lia|done|].
    2:{ simpl. apply list_lookup_insert_eq. by apply lookup_lt_Some in Hbm. }
    rewrite bitmap_rollback by done. f_equal. f_equal.
    unfold with_disk, with_lastErr. simpl.
    rewrite list_insert_insert_eq, list_insert_id by done. done. }
  split_and!; [|done| |done].
  - unfold append. destruct (strlen a_data) as [|len] eqn:Hlen; [done|].
    change (Nat.eqb (S len) 0) with false. cbv iota.
    unfold curDirHandle. unfold mbind at 1, M_bind at 1.
    rewrite (bind_Ret _ _ _ _ _ (ReadDirBlock_eq _ _ _ Hr)), Hd.
    cbv beta iota delta [negb]. rewrite (bind_Ret _ _ _ _ _ Hfind).
    rewrite (bind_Ret _ _ _ _ _ (ReadINodeBlock_eq _ _ _ Hri)), Hi.
    cbv beta iota delta [negb].
    pose proof (u32_range (drop 4 ib)) as Hsz.
    change (u32 (drop 4 ib)) with (size (inode_of_bytes ib)) in Hsz.
    pose proof (file_size_fits Hok).
    rewrite wrap32_small by lia.
    destruct (Z.ltb_spec (MAX_FILE_SIZE - size (inode_of_bytes ib))
                (Z.of_nat (S len))); [lia|].
    rewrite (bind_Ret _ _ _ _ _ Hnum), (bind_Ret _ _ _ _ _ Halloc).
    cbv iota beta.
    unfold mbind, M_bind. simpl set_lastErr. cbv iota beta. apply Hreclaim.
  - intros n Hn. simpl. by rewrite list_lookup_insert_ne.
Qed.

End AppendRollback.

Section Head.
Context `{Blocks} (Hok : BlocksOk).

Lemma array_get_ok {A} (a : list A) (i : Z) (x : A) fs :
  0 ≤ i → a !! Z.to_nat i = Some x → array_get a i fs = Ret (x, fs).
Proof.
  intros Hi Hx. unfold array_get.
  destruct (Z.ltb_spec i 0); [lia|]. by rewrite Hx.
Qed.

Lemma disk_ok_block d n blk :
  disk_ok d → d !! n = Some blk → Z.of_nat (length blk) = BLOCK_SIZE.
Proof.
  intros [_ Hall] Hn. rewrite Forall_lookup in Hall. by eapply Hall.
Qed.

(** The read loop of [head]: every round appends its share of the block
    its slot points to. *)
Lemma head_blocks_spec n i numBlocks a_size iNode fs :
  0 ≤ i →
  (∀ j, i ≤ j < i + Z.of_nat n → slot_readable (_bfs fs) iNode j) →
  head_blocks n i numBlocks a_size iNode fs
  = Ret (tt, with_response fs
               (_response fs
                ++ concat ((λ j, take (Z.to_nat (if j =? numBlocks - 1
                                                 then a_size mod BLOCK_SIZE
                                                 else BLOCK_SIZE))
                                   (file_block (_bfs fs) iNode j))
                           <$> seqZ i (Z.of_nat n)))).
Proof.
  revert i fs. induction n as [|n IH]; intros i fs Hi Hslots.
  - simpl. rewrite app_nil_r. by destruct fs.
  - assert (Hin : i ≤ i < i + Z.of_nat (S n)) by lia.
    destruct (Hslots i Hin) as (h & blk & Hh & Hrange & Hblk).
    cbn [head_blocks].
    rewrite (bind_Ret _ _ _ _ _ (array_get_ok _ _ _ _ Hi Hh)).
    rewrite (bind_Ret _ _ _ _ _ (read_block_ok _ _ _ Hrange Hblk)).
    set (chunk := take _ blk).
    assert (Hresp :
      (if i =? numBlocks - 1
       then respond (take (Z.to_nat (a_size mod BLOCK_SIZE)) blk)
       else respond (take (Z.to_nat BLOCK_SIZE) blk)) fs
      = Ret (tt, with_response fs
                   (_response fs
                    ++ take (Z.to_nat (if i =? numBlocks - 1
                                       then a_size mod BLOCK_SIZE
                                       else BLOCK_SIZE)) blk))).
    { by destruct (i =? numBlocks - 1). }
    rewrite (bind_Ret _ _ _ _ _ Hresp).
    rewrite IH; [|lia|]; last first.
    { intros j Hj. apply Hslots. lia. }
    rewrite (seqZ_cons i (Z.of_nat (S n))) by lia.
    replace (Z.pred (Z.of_nat (S n))) with (Z.of_nat n) by lia.
    replace (Z.succ i) with (i + 1) by lia.
    rewrite fmap_cons. cbn [concat].
    unfold with_response. cbn [_response _bfs _curDirHandle _lastErr].
    rewrite <- app_assoc. do 4 f_equal.
    unfold file_block. rewrite Hh. simpl. by rewrite Hblk.
Qed.

(** What [head] does on a file of the current directory that is not
    empty. *)
Lemma head_eq fs a_name a_size b i e ib :
  read_block (_curDirHandle fs) fs = Ret (b, fs) →
  IsDirectory b = true →
  ForEachDirEntry (dir_of_bytes b) (name_matches a_name) fs
  = Ret (Some (i, e), fs) →
  read_block (block_num e) fs = Ret (ib, fs) →
  IsINode ib = true →
  head a_name a_size fs
  = let iNode := inode_of_bytes ib in
    if size iNode =? 0 then Ret (tt, fs)
    else
      let size' := if a_size <? size iNode then a_size else size iNode in
      let numBlocks := size' / BLOCK_SIZE + 1 in
      (head_blocks (Z.to_nat numBlocks) 0 numBlocks size' iNode;;
       respond [NL]) fs.
Proof.
  intros Hr Hd Hfind Hri Hi. unfold head, curDirHandle.
  unfold mbind at 1, M_bind at 1.
  rewrite (bind_Ret _ _ _ _ _ (ReadDirBlock_eq _ _ _ Hr)), Hd.
  cbv beta iota delta [negb]. rewrite (bind_Ret _ _ _ _ _ Hfind).
  rewrite (bind_Ret _ _ _ _ _ (ReadINodeBlock_eq _ _ _ Hri)), Hi.
  cbv beta iota delta [negb]. cbv zeta.
  by destruct (size (inode_of_bytes ib) =? 0).
Qed.

(** C8 (amended).  [head] and [cat] on an existing file of size 0 return
    without writing to the response stream, neither data nor a newline.
    The body that [getQueryResponse] then hands to the server for that
    command is nevertheless not empty: it is the single newline that
    [getQueryResponse] always appends. *)
Theorem head_of_empty_file
    (fs : FileSys) (a_name b ib : list Z) (a_size : Z) (i : nat)
    (e : DirEntry) :
  read_block (_curDirHandle fs) fs = Ret (b, fs) →
  IsDirectory b = true →
  ForEachDirEntry (dir_of_bytes b) (name_matches a_name) fs
  = Ret (Some (i, e), fs) →
  read_block (block_num e) fs = Ret (ib, fs) →
  IsINode ib = true →
  size (inode_of_bytes ib) = 0 →
  _response fs = [] →
  head a_name a_size fs = Ret (tt, fs)
  ∧ cat a_name fs = Ret (tt, fs)
  ∧ (head a_name a_size;; getQueryResponse) fs
    = Ret ([NL], with_response fs [])
  ∧ (cat a_name;; getQueryResponse) fs = Ret ([NL], with_response fs []).
Proof.
  intros Hr Hd Hfind Hri Hi Hsize Hresp.
  assert (Hhead : ∀ n, head a_name n fs = Ret (tt, fs)).
  { intros n. rewrite (head_eq _ _ _ _ _ _ _ Hr Hd Hfind Hri Hi).
    cbv zeta. by rewrite Hsize. }
  assert (Hbody : getQueryResponse fs = Ret ([NL], with_response fs [])).
  { unfold getQueryResponse. by rewrite Hresp. }
  split_and!; [done|apply Hhead|..].
  - by rewrite (bind_Ret _ _ _ _ _ (Hhead a_size)).
  - unfold cat. by rewrite (bind_Ret _ _ _ _ _ (Hhead MAX_FILE_SIZE)).
Qed.

(** C7 (amended).  When the number of bytes to emit, the smaller of the
    bound and the file size, is [k * BLOCK_SIZE] with
    [0 < k < MAX_DATA_BLOCKS], [head] reads [k + 1] blocks: it writes the
    first [k] in full and [0 = size mod BLOCK_SIZE] bytes of the last, then
    the newline.  The body holds all [k * BLOCK_SIZE] data bytes; no block
    is dropped. *)
Theorem head_emits_every_full_block
    (fs : FileSys) (a_name b ib : list Z) (a_size k : Z) (i : nat)
    (e : DirEntry) :
  disk_ok (_bfs fs) →
  read_block (_curDirHandle fs) fs = Ret (b, fs) →
  IsDirectory b = true →
  ForEachDirEntry (dir_of_bytes b) (name_matches a_name) fs
  = Ret (Some (i, e), fs) →
  read_block (block_num e) fs = Ret (ib, fs) →
  IsINode ib = true →
  0 < k < MAX_DATA_BLOCKS →
  Z.min a_size (size (inode_of_bytes ib)) = k * BLOCK_SIZE →
  (∀ j, 0 ≤ j ≤ k → slot_readable (_bfs fs) (inode_of_bytes ib) j) →
  ∃ data,
    head a_name a_size fs
    = Ret (tt, with_response fs (_response fs ++ data ++ [NL]))
    ∧ data = concat (file_block (_bfs fs) (inode_of_bytes ib) <$> seqZ 0 k)
    ∧ Z.of_nat (length data) = k * BLOCK_SIZE.
Proof.
  pose proof (block_size_pos Hok) as HB.
  intros Hdisk Hr Hd Hfind Hri Hi Hk Hmin Hslots.
  set (iNode := inode_of_bytes ib) in *.
  assert (Hfull : ∀ j, 0 ≤ j < k →
            Z.of_nat (length (file_block (_bfs fs) iNode j)) = BLOCK_SIZE).
  { intros j Hj. assert (Hin : 0 ≤ j ≤ k) by lia.
    destruct (Hslots j Hin) as (h & blk & Hh & _ & Hblk).
    unfold file_block. rewrite Hh. simpl. rewrite Hblk. simpl.
    by eapply disk_ok_block. }
  assert (Hsucc : ∀ n : nat,
    seqZ 0 (Z.of_nat n + 1) = seqZ 0 (Z.of_nat n) ++ [Z.of_nat n]).
  { intros n. replace (Z.of_nat n + 1) with (Z.of_nat (S n)) by lia.
    by rewrite seqZ_S. }
  eexists. split_and!; [|done|].
  - rewrite (head_eq _ _ _ _ _ _ _ Hr Hd Hfind Hri Hi). fold iNode. cbv zeta.
    destruct (Z.eqb_spec (size iNode) 0) as [Hz|_]; [nia|].
    assert (Hsize' : (if a_size <? size iNode then a_size else size iNode)
                     = k * BLOCK_SIZE).
    { destruct (Z.ltb_spec a_size (size iNode)); lia. }
    rewrite Hsize', Z.div_mul by lia.
    erewrite bind_Ret; last first.
    { apply head_blocks_spec; [done|]. intros j Hj. apply Hslots. lia. }
    unfold respond, with_response. cbn [_response _bfs _curDirHandle _lastErr].
    rewrite <- app_assoc. do 4 f_equal.
    rewrite Z2Nat.id by lia.
    rewrite <- (Z2Nat.id k) at 1 2 by lia.
    rewrite Hsucc, fmap_app, concat_app. rewrite Z2Nat.id by lia.
    cbn [fmap list_fmap concat].
    replace (k =? k + 1 - 1) with true by (symmetry; apply Z.eqb_eq; lia).
    rewrite Z.mod_mul by lia. cbn [Z.to_nat take]. rewrite !app_nil_r.
    do 2 f_equal. apply list_fmap_ext. intros n j Hj.
    apply lookup_seqZ in Hj as [-> Hn].
    replace (0 + Z.of_nat n =? k + 1 - 1) with false
      by (symmetry; apply Z.eqb_neq; lia).
    apply take_ge. specialize (Hfull (0 + Z.of_nat n)). lia.
  - assert (Hlen : ∀ n : nat, Z.of_nat n ≤ k →
      Z.of_nat (length (concat (file_block (_bfs fs) iNode
                                <$> seqZ 0 (Z.of_nat n))))
      = Z.of_nat n * BLOCK_SIZE).
    { induction n as [|n IH]; intros Hn; [done|].
      replace (Z.of_nat (S n)) with (Z.of_nat n + 1) by lia.
      rewrite Hsucc, fmap_app, concat_app, length_app.
      cbn [fmap list_fmap concat]. rewrite app_nil_r.
      rewrite Nat2Z.inj_add, IH, Hfull by lia. lia. }
    specialize (Hlen (Z.to_nat k)). rewrite Z2Nat.id in Hlen by lia.
    apply Hlen. lia.
Qed.

End Head.

(** ** Structs and their bytes *)

Lemma length_le32 (v : Z) : length (le32 v) = 4%nat.
Proof. done. Qed.

Section Codec.
Context `{Blocks} (Hok : BlocksOk).

Lemma length_bytes_of_entry e :
  entry_ok e → length (bytes_of_entry e) = ENTRY_LEN.
Proof.
  intros [Hn _]. unfold bytes_of_entry, ENTRY_LEN.
  by rewrite length_app, Hn, length_le32.
Qed.

Lemma entry_of_bytes_of_entry e rest :
  entry_ok e → entry_of_bytes (bytes_of_entry e ++ rest) = e.
Proof.
  intros [Hn Hb]. unfold entry_of_bytes, bytes_of_entry.
  rewrite <- app_assoc.
  rewrite take_app_length' by done. rewrite drop_app_length' by done.
  rewrite u32_le32, wrap32_small by done. by destruct e.
Qed.

Lemma entries_of_bytes_of_entries es rest :
  Forall entry_ok es →
  entries_of_bytes (length es) (concat (bytes_of_entry <$> es) ++ rest) = es.
Proof.
  induction 1 as [|e es He Hes IH]; [done|].
  cbn [length fmap list_fmap concat entries_of_bytes].
  rewrite <- app_assoc, entry_of_bytes_of_entry by done.
  rewrite drop_app_length' by (symmetry; by apply length_bytes_of_entry).
  by rewrite IH.
Qed.

Lemma dir_of_bytes_of_dir d : dir_ok d → dir_of_bytes (bytes_of_dir d) = d.
Proof.
  intros (Hm & Hn & Hlen & Hes). unfold dir_of_bytes, bytes_of_dir.
  rewrite u32_le32, wrap32_small by done.
  change (drop 4 (le32 (d_magic d) ++ ?l)) with l.
  rewrite u32_le32, wrap32_small by done.
  change (drop 8 (le32 (d_magic d) ++ le32 (num_entries d) ++ ?l)) with l.
  rewrite <- Hlen, <- (app_nil_r (concat _)).
  rewrite entries_of_bytes_of_entries by done. by destruct d.
Qed.

Lemma handles_of_bytes_of_handles hs rest :
  Forall (λ h, 0 ≤ h < 4294967296) hs →
  handles_of_bytes (length hs) (concat (le32 <$> hs) ++ rest) = hs.
Proof.
  induction 1 as [|h hs Hh Hhs IH]; [done|].
  cbn [length fmap list_fmap concat handles_of_bytes].
  rewrite <- app_assoc, u32_le32, wrap32_small by done.
  change (drop 4 (le32 h ++ ?l)) with l. by rewrite IH.
Qed.

Lemma inode_of_bytes_of_inode iNode :
  inode_ok iNode → inode_of_bytes (bytes_of_inode iNode) = iNode.
Proof.
  intros (Hm & Hs & Hlen & Hhs). unfold inode_of_bytes, bytes_of_inode.
  rewrite u32_le32, wrap32_small by done.
  change (drop 4 (le32 (i_magic iNode) ++ ?l)) with l.
  rewrite u32_le32, wrap32_small by done.
  change (drop 8 (le32 (i_magic iNode) ++ le32 (size iNode) ++ ?l)) with l.
  rewrite <- Hlen, <- (app_nil_r (concat _)).
  rewrite handles_of_bytes_of_handles by done. by destruct iNode.
Qed.

Lemma entries_of_bytes_ok n bs :
  (n * ENTRY_LEN ≤ length bs)%nat → 
  length (entries_of_bytes n bs) = n ∧ Forall entry_ok (entries_of_bytes n bs).
Proof.
  revert bs. induction n as [|n IH]; intros bs Hlen; simpl; [done|].
  destruct (IH (drop ENTRY_LEN bs)) as [IH1 IH2].
  { rewrite length_drop. lia. }
  split; [by rewrite IH1|]. constructor; [|done].
  split; simpl.
  - rewrite length_take. unfold ENTRY_LEN in Hlen. lia.
  - apply u32_range.
Qed.

Lemma ENTRY_LEN_eq : Z.of_nat ENTRY_LEN = MAX_FNAME_SIZE + 5.
Proof.
  pose proof (fname_size_nonneg Hok). unfold ENTRY_LEN, NAME_LEN. lia.
Qed.

Lemma dir_of_bytes_ok b :
  Z.of_nat (length b) = BLOCK_SIZE → dir_ok (dir_of_bytes b).
Proof.
  intros Hlen. pose proof (dir_fills_block Hok) as Hfill.
  pose proof (dir_entries_pos Hok) as Hpos. pose proof ENTRY_LEN_eq as HE.
  destruct (entries_of_bytes_ok (Z.to_nat MAX_DIR_ENTRIES) (drop 8 b))
    as [H1 H2].
  { rewrite length_drop. nia. }
  split; [apply u32_range|]. split; [apply u32_range|]. done.
Qed.

Lemma handles_of_bytes_ok n bs :
  length (handles_of_bytes n bs) = n
  ∧ Forall (λ h, 0 ≤ h < 4294967296) (handles_of_bytes n bs).
Proof.
  revert bs. induction n as [|n IH]; intros bs; simpl; [done|].
  destruct (IH (drop 4 bs)) as [IH1 IH2].
  split; [by rewrite IH1|]. constructor; [apply u32_range|done].
Qed.

Lemma inode_of_bytes_ok b : inode_ok (inode_of_bytes b).
Proof.
  destruct (handles_of_bytes_ok (Z.to_nat MAX_DATA_BLOCKS) (drop 8 b)).
  split; [apply u32_range|]. split; [apply u32_range|]. done.
Qed.

Lemma length_bytes_of_dir d :
  dir_ok d → Z.of_nat (length (bytes_of_dir d)) = BLOCK_SIZE.
Proof.
  intros (_ & _ & Hlen & Hes). unfold bytes_of_dir.
  rewrite !length_app, !length_le32.
  assert (Hc : length (concat (bytes_of_entry <$> dir_entries d))
               = (length (dir_entries d) * ENTRY_LEN)%nat).
  { clear Hlen. induction Hes as [|e es He Hes IH]; [done|].
    cbn [fmap list_fmap concat length]. rewrite length_app, IH.
    rewrite length_bytes_of_entry by done. lia. }
  rewrite Hc, Hlen. pose proof (dir_fills_block Hok).
  pose proof (dir_entries_pos Hok). pose proof ENTRY_LEN_eq. nia.
Qed.

Lemma length_bytes_of_inode iNode :
  inode_ok iNode → Z.of_nat (length (bytes_of_inode iNode)) = BLOCK_SIZE.
Proof.
  intros (_ & _ & Hlen & _). unfold bytes_of_inode.
  rewrite !length_app, !length_le32.
  assert (Hc : length (concat (le32 <$> blocks iNode))
               = (length (blocks iNode) * 4)%nat).
  { clear Hlen. induction (blocks iNode) as [|h hs IH]; [done|].
    cbn [fmap list_fmap concat length]. rewrite length_app, IH, length_le32.
    lia. }
  rewrite Hc, Hlen. pose proof (inode_fills_block Hok).
  pose proof (data_blocks_pos Hok). lia.
Qed.

End Codec.

(** ** Names in directories *)

Lemma strlen_le (s : list Z) : (strlen s ≤ length s)%nat.
Proof.
  induction s as [|c s IH]; simpl; [lia|]. destruct (c =? 0); lia.
Qed.

Lemma length_c_str (s : list Z) : length (c_str s) = strlen s.
Proof. unfold c_str. rewrite length_take. pose proof (strlen_le s). lia. Qed.

Lemma length_strcpy (buf s : list Z) :
  (strlen s < length buf)%nat → length (strcpy buf s) = length buf.
Proof.
  intros Hlen. unfold strcpy.
  rewrite !length_app, length_c_str, length_drop. simpl. lia.
Qed.

Lemma strcmp_eq_strcpy (s tail : list Z) :
  strcmp_eq ((c_str s ++ [0]) ++ tail) s = Some true.
Proof.
  unfold c_str. induction s as [|c s IH]; simpl; [done|].
  destruct (Z.eqb_spec c 0) as [->|Hc]; simpl; [done|].
  destruct (Z.eqb_spec c 0); [done|]. by rewrite Z.eqb_refl.
Qed.

Lemma strlen_no_nul (s : list Z) : 0 ∉ s → strlen s = length s.
Proof.
  induction s as [|c s IH]; simpl; [done|]. intros Hs.
  apply not_elem_of_cons in Hs as [Hc Hs].
  destruct (Z.eqb_spec c 0); [done|]. by rewrite IH.
Qed.

Lemma c_str_no_nul (s : list Z) : 0 ∉ s → c_str s = s.
Proof.
  intros Hs. unfold c_str. rewrite strlen_no_nul by done. apply firstn_all.
Qed.

Section Insert.
Context `{Blocks} (Hok : BlocksOk).

(** A name that was not in the directory is found, after it has been
    written into slot [j], in that slot. *)
Lemma name_lookup_insert k es a_name fs j e a_handle :
  ForEachDirEntry_from k es (name_matches a_name) fs = Ret (None, fs) →
  es !! j = Some e →
  a_handle ≠ kInvalidHandle →
  let e' := {| name := strcpy (name e) a_name; block_num := a_handle |} in
  ForEachDirEntry_from k (<[j := e']> es) (name_matches a_name) fs
  = Ret (Some ((k + j)%nat, e'), fs).
Proof.
  intros Hmiss Hj Hh e'. revert k j Hmiss Hj.
  induction es as [|e0 es IH]; intros k j Hmiss Hj; [done|].
  destruct j as [|j]; simpl in *.
  - unfold mbind, M_bind, name_matches. simpl.
    apply Z.eqb_neq in Hh. rewrite Hh.
    unfold strcpy. rewrite strcmp_eq_strcpy. simpl.
    by rewrite Nat.add_0_r.
  - revert Hmiss. unfold mbind, M_bind.
    destruct (name_matches a_name e0 fs) as [[[] fs0]| |] eqn:Hm; try done.
    assert (fs0 = fs) as ->.
    { revert Hm. unfold name_matches.
      unfold mret, M_ret.
      destruct (block_num e0 =? kInvalidHandle); [by intros [= <-]|].
      destruct (strcmp_eq _ _); [by intros [= _ <-]|done]. }
    intros Hmiss. rewrite (IH (S k) j Hmiss Hj).
    by rewrite Nat.add_succ_r.
Qed.

Lemma slot_lookup_ok i es :
  ∃ found, (∀ fs, ForEachDirEntry_from i es slot_is_free fs = Ret (found, fs))
           ∧ (Exists (λ e, block_num e = kInvalidHandle) es → is_Some found).
Proof.
  revert i. induction es as [|e es IH]; intros i; simpl.
  - exists None. split; [done|]. by intros ?%Exists_nil.
  - unfold mbind, M_bind, slot_is_free. simpl.
    destruct (Z.eqb_spec (block_num e) kInvalidHandle) as [He|He].
    + by eexists.
    + destruct (IH (S i)) as (found & Hf & Hsome). exists found.
      split; [done|]. intros [?|?]%Exists_cons; [done|auto].
Qed.

(** The insertion that [mkdir] and [create] rely on: a name that is not
    there yet and fits goes into a directory with room for it. *)
Lemma InsertIntoDirectory_ok a_dir a_handle a_name :
  (∀ fs, ForEachDirEntry a_dir (name_matches a_name) fs = Ret (None, fs)) →
  num_entries a_dir < MAX_DIR_ENTRIES →
  Z.of_nat (strlen a_name) ≤ MAX_FNAME_SIZE →
  Exists (λ e, block_num e = kInvalidHandle) (dir_entries a_dir) →
  ∃ i e,
    dir_entries a_dir !! i = Some e
    ∧ ∀ fs,
        InsertIntoDirectory a_dir a_handle a_name fs
        = Ret ((true,
                set_num_entries
                  (set_entry a_dir i {| name := strcpy (name e) a_name;
                                        block_num := a_handle |})
                  (wrap32 (num_entries a_dir + 1))), fs).
Proof.
  intros Hmiss Hroom Hfits Hslot.
  destruct (slot_lookup_ok 0 (dir_entries a_dir)) as (found & Hf & Hsome).
  destruct (Hsome Hslot) as [[i e] ->].
  pose proof (Hf (mount [])) as [_ (k & -> & Hk & _)]%slot_lookup_inv.
  exists k, e. split; [done|]. intros fs.
  unfold InsertIntoDirectory. rewrite (bind_Ret _ _ _ _ _ (Hmiss fs)).
  destruct (Z.leb_spec MAX_DIR_ENTRIES (num_entries a_dir)); [lia|].
  destruct (Z.ltb_spec MAX_FNAME_SIZE (Z.of_nat (strlen a_name))); [lia|].
  unfold ForEachDirEntry. by rewrite (bind_Ret _ _ _ _ _ (Hf fs)).
Qed.

Lemma dir_ok_insert d i e a_name a_handle :
  dir_ok d → dir_entries d !! i = Some e →
  Z.of_nat (strlen a_name) ≤ MAX_FNAME_SIZE →
  0 ≤ a_handle < 4294967296 →
  dir_ok (set_num_entries
            (set_entry d i {| name := strcpy (name e) a_name;
                              block_num := a_handle |})
            (wrap32 (num_entries d + 1))).
Proof.
  intros (Hm & Hn & Hlen & Hes) Hi Hfits Hh.
  split; [done|]. split; [|split]; simpl; [|by rewrite length_insert|].
  - unfold wrap32. apply Z.mod_pos_bound. lia.
  - apply Forall_insert; [done|]. split; simpl; [|done].
    rewrite Forall_lookup in Hes. destruct (Hes _ _ Hi) as [Hname _].
    rewrite length_strcpy; [done|]. rewrite Hname. unfold NAME_LEN.
    pose proof (fname_size_nonneg Hok). lia.
Qed.

End Insert.

(** ** Free blocks *)

Lemma find_hd_filter {A} (p : A → bool) (l : list A) :
  find p l = hd_error (List.filter p l).
Proof. induction l as [|a l IH]; simpl; [done|]. by destruct (p a). Qed.

Lemma filter_remove_first (p p' : Z → bool) (l : list Z) (h : Z) (t : list Z) :
  NoDup l → List.filter p l = h :: t →
  (∀ x, x ∈ l → p' x = p x && negb (x =? h)) →
  List.filter p' l = t.
Proof.
  intros Hnd. revert t. induction Hnd as [|a l Ha Hnd IH]; intros t; [done|].
  simpl. intros Hf Hp'.
  rewrite (Hp' a) by (by left). destruct (p a) eqn:Hpa; simpl.
  - injection Hf as -> <-. rewrite Z.eqb_refl. simpl.
    apply List.filter_ext_in. intros x Hx%list_elem_of_In.
    rewrite Hp' by (by right).
    destruct (Z.eqb_spec x h) as [->|]; [done|]. by rewrite andb_true_r.
  - apply IH; [done|]. intros x Hx. apply Hp'. by right.
Qed.

Section Allocation.
Context `{Blocks} (Hok : BlocksOk).

Lemma bitmap_test_set bm h x :
  (Z.to_nat (h / 8) < length bm)%nat → 0 ≤ h → 0 ≤ x →
  bitmap_test (bitmap_set bm h) x = (x =? h) || bitmap_test bm x.
Proof.
  intros Hlen Hh Hx. unfold bitmap_test, bitmap_set.
  assert (H8h : 0 ≤ h mod 8 < 8) by (apply Z.mod_pos_bound; lia).
  assert (H8x : 0 ≤ x mod 8 < 8) by (apply Z.mod_pos_bound; lia).
  destruct (decide (Z.to_nat (x / 8) = Z.to_nat (h / 8))) as [Heq|Hne].
  - rewrite Heq, list_lookup_alter_eq.
    destruct (bm !! Z.to_nat (h / 8)) as [byte|] eqn:Hbyte; last first.
    { apply lookup_ge_None in Hbyte. lia. }
    simpl. rewrite Z.setbit_eqb by lia. f_equal.
    assert (x / 8 = h / 8).
    { pose proof (Z.div_pos h 8). pose proof (Z.div_pos x 8). lia. }
    pose proof (Z.div_mod h 8). pose proof (Z.div_mod x 8).
    destruct (Z.eqb_spec (h mod 8) (x mod 8)), (Z.eqb_spec x h); lia.
  - rewrite list_lookup_alter_ne by done.
    destruct (Z.eqb_spec x h) as [->|]; [done|]. done.
Qed.

Lemma free_blocks_spec bm h :
  h ∈ free_blocks bm ↔ 2 ≤ h < NUM_BLOCKS ∧ bitmap_test bm h = false.
Proof.
  unfold free_blocks. rewrite list_elem_of_In, List.filter_In.
  rewrite <- list_elem_of_In, elem_of_seqZ, negb_true_iff. intuition lia.
Qed.

Lemma NoDup_free_blocks bm : NoDup (free_blocks bm).
Proof.
  unfold free_blocks. apply NoDup_ListNoDup, List.NoDup_filter.
  apply NoDup_ListNoDup, NoDup_seqZ.
Qed.

Lemma free_blocks_set bm h t :
  Z.of_nat (length bm) = BLOCK_SIZE →
  free_blocks bm = h :: t → free_blocks (bitmap_set bm h) = t.
Proof.
  intros Hlen Hfree.
  assert (Hh : 2 ≤ h < NUM_BLOCKS).
  { apply (free_blocks_spec bm). rewrite Hfree. by left. }
  pose proof (bitmap_fits Hok).
  apply (filter_remove_first _ _ _ h t (NoDup_seqZ _ _) Hfree).
  intros x Hx%elem_of_seqZ.
  rewrite bitmap_test_set; [|pose proof (Z.div_lt_upper_bound h 8 BLOCK_SIZE)|..];
    try lia.
  destruct (x =? h), (bitmap_test bm x); done.
Qed.

(** With [n] blocks free the allocation loop does not throw: it hands out
    the [n] lowest free blocks and marks them in the bitmap. *)
Lemma allocate_handles_ok n acc fs bm :
  _bfs fs !! 0%nat = Some bm →
  Z.of_nat (length bm) = BLOCK_SIZE →
  (n ≤ length (free_blocks bm))%nat →
  allocate_handles n acc fs
  = Ret ((acc ++ take n (free_blocks bm), false),
         with_disk fs
           (<[0%nat := foldl bitmap_set bm (take n (free_blocks bm))]>
              (_bfs fs))).
Proof.
  pose proof (num_blocks_min Hok) as Hnum.
  revert acc fs bm. induction n as [|n IH]; intros acc fs bm Hbm Hlen Hn.
  - simpl. rewrite app_nil_r, with_disk_id by done. done.
  - destruct (free_blocks bm) as [|h t] eqn:Hfree; [simpl in Hn; lia|].
    assert (Hfirst : first_free bm = Some h).
    { unfold first_free. rewrite find_hd_filter.
      unfold free_blocks in Hfree. by rewrite Hfree. }
    assert (Hh : 2 ≤ h < NUM_BLOCKS).
    { apply (free_blocks_spec bm). rewrite Hfree. by left. }
    cbn [allocate_handles].
    erewrite bind_Ret; [|by rewrite (get_free_block_ok _ _ Hnum Hbm), Hfirst].
    destruct (Z.eqb_spec h kInvalidHandle) as [->|_];
      [unfold kInvalidHandle in Hh; lia|].
    rewrite (IH _ _ (bitmap_set bm h)); last first.
    { rewrite (free_blocks_set _ _ _ Hlen Hfree). simpl in Hn. lia. }
    { unfold bitmap_set. by rewrite length_alter. }
    { simpl. apply list_lookup_insert_eq. by apply lookup_lt_Some in Hbm. }
    rewrite (free_blocks_set _ _ _ Hlen Hfree).
    rewrite <- app_assoc. simpl. by rewrite with_disk_insert_insert.
Qed.

End Allocation.

Section MakeBlockSpec.
Context `{Blocks} (Hok : BlocksOk).

(** [MakeBlock] when the allocator has a block and the insertion succeeds:
    the bitmap, the new block and the directory are written, in this
    order. *)
Lemma MakeBlock_inserted a_block a_name fs b bm handle curDir' :
  Z.of_nat (length (_bfs fs)) = NUM_BLOCKS →
  read_block (_curDirHandle fs) fs = Ret (b, fs) →
  _bfs fs !! 0%nat = Some bm →
  first_free bm = Some handle →
  (∀ fs1, InsertIntoDirectory (dir_of_bytes b) handle a_name fs1
          = Ret ((true, curDir'), fs1)) →
  MakeBlock a_block a_name fs
  = Ret (tt, with_disk fs
               (<[Z.to_nat (_curDirHandle fs) := bytes_of_dir curDir']>
                  (<[Z.to_nat handle := a_block]>
                     (<[0%nat := bitmap_set bm handle]> (_bfs fs))))).
Proof.
  intros Hdisk Hr Hbm Hfree Hins.
  pose proof (num_blocks_min Hok) as Hnum.
  pose proof Hr as (_ & Hcur & Hb)%read_block_inv.
  pose proof Hfree as [Hrange _]%first_free_inv.
  unfold MakeBlock, curDirHandle. unfold mbind at 1, M_bind at 1.
  rewrite (bind_Ret _ _ _ _ _ Hr).
  erewrite bind_Ret; [|by rewrite (get_free_block_ok _ _ Hnum Hbm), Hfree].
  destruct (Z.eqb_spec handle kInvalidHandle) as [->|_];
    [unfold kInvalidHandle in Hrange; lia|].
  rewrite (bind_Ret _ _ _ _ _ (Hins _)).
  erewrite bind_Ret; last first.
  { apply write_block_ok; [lia|]. simpl. rewrite length_insert. lia. }
  rewrite write_block_ok; [done|done|].
  simpl. rewrite !length_insert. lia.
Qed.

End MakeBlockSpec.

(** ** The loops of [append] *)

Lemma assign_handles_zeros fuel (pre stack : list Z) (z : nat) :
  (length stack ≤ fuel)%nat → (length stack ≤ z)%nat →
  assign_handles fuel (length pre) (pre ++ replicate z 0) stack
  = pre ++ stack ++ replicate (z - length stack) 0.
Proof.
  revert fuel pre z. induction stack as [|h stack IH]; intros fuel pre z Hf Hz.
  - simpl. rewrite Nat.sub_0_r. by destruct fuel.
  - destruct fuel as [|fuel]; [simpl in Hf; lia|].
    destruct z as [|z]; [simpl in Hz; lia|].
    cbn [assign_handles].
    rewrite lookup_app_r, Nat.sub_diag by lia. cbn [replicate lookup list_lookup].
    change (0 =? kInvalidHandle) with true. cbv iota.
    replace (<[length pre := h]> (pre ++ 0 :: replicate z 0))
      with ((pre ++ [h]) ++ replicate z 0); last first.
    { rewrite insert_app_r_alt, Nat.sub_diag by lia. simpl.
      by rewrite <- app_assoc. }
    replace (S (length pre)) with (length (pre ++ [h]))
      by (rewrite length_app; simpl; lia).
    rewrite IH by (simpl in *; lia). by rewrite <- app_assoc.
Qed.

Section CopyLoops.
Context `{Blocks} (Hok : BlocksOk).

Lemma copy_bytes_spec data idx blk a_size :
  Z.of_nat (length blk) = BLOCK_SIZE → (idx ≤ length blk)%nat →
  0 ≤ a_size → a_size + Z.of_nat (length data) < 4294967296 →
  let n := Nat.min (length blk - idx) (length data) in
  copy_bytes idx blk data a_size
  = (take idx blk ++ take n data ++ drop (idx + n) blk,
     drop n data, a_size + Z.of_nat n).
Proof.
  revert idx blk a_size.
  induction data as [|c data IH]; intros idx blk a_size Hblk Hidx Hs Hfit n.
  - subst n. cbn [copy_bytes length]. rewrite Nat.min_0_r, Nat.add_0_r.
    cbn [take drop app]. rewrite take_drop. do 2 f_equal. lia.
  - cbn [copy_bytes]. destruct (Z.ltb_spec (Z.of_nat idx) BLOCK_SIZE).
    + simpl in Hfit. rewrite IH; rewrite ?length_insert, ?wrap32_small;
        try lia.
      subst n. replace (length blk - idx)%nat with (S (length blk - S idx))
        by lia.
      cbn [length Nat.min take drop]. f_equal; [f_equal|].
      * rewrite (take_S_r _ idx c)
          by (apply list_lookup_insert_eq; lia).
        rewrite take_insert_ge by lia.
        rewrite drop_insert_lt by lia.
        rewrite <- app_assoc. cbn [app]. by rewrite Nat.add_succ_r.
      * lia.
    + subst n. replace (length blk - idx)%nat with 0%nat by lia.
      simpl. rewrite Nat.add_0_r, take_drop. do 2 f_equal. lia.
Qed.

End CopyLoops.

Section CopyData.
Context `{Blocks} (Hok : BlocksOk).

Lemma with_disk_with_disk fs d1 d2 :
  with_disk (with_disk fs d1) d2 = with_disk fs d2.
Proof. done. Qed.

Lemma with_disk_same fs : with_disk fs (_bfs fs) = fs.
Proof. by destruct fs. Qed.

Lemma disk_ok_insert d n blk :
  disk_ok d → Z.of_nat (length blk) = BLOCK_SIZE → disk_ok (<[n := blk]> d).
Proof.
  intros [Hlen Hall] Hblk. split; [by rewrite length_insert|].
  destruct (decide (n < length d)%nat) as [Hn|Hn].
  - by apply Forall_insert.
  - rewrite list_insert_ge by lia. done.
Qed.

Lemma disk_ok_lookup d h :
  disk_ok d → 0 ≤ h < NUM_BLOCKS →
  ∃ blk, d !! Z.to_nat h = Some blk ∧ Z.of_nat (length blk) = BLOCK_SIZE.
Proof.
  intros Hd Hh. destruct (d !! Z.to_nat h) as [blk|] eqn:E.
  - exists blk. split; [done|]. by eapply disk_ok_block.
  - apply lookup_ge_None in E. destruct Hd as [Hlen _]. lia.
Qed.

(** The copy loop of [append] from a block boundary: the data goes, one
    block after the other, into the blocks [hs] that the slots from
    [size / BLOCK_SIZE] on point to; no other block is written. *)
Lemma copy_data_aligned fuel data iNode fs hs rest q :
  disk_ok (_bfs fs) →
  0 ≤ q → 0 ≤ size iNode →
  (data ≠ [] → size iNode = q * BLOCK_SIZE) →
  drop (Z.to_nat q) (blocks iNode) = hs ++ rest →
  (length data ≤ fuel)%nat →
  Z.of_nat (length hs) = ceil_div (Z.of_nat (length data)) BLOCK_SIZE →
  Forall (λ h, 0 ≤ h < NUM_BLOCKS) hs → NoDup hs →
  size iNode + Z.of_nat (length data) < 4294967296 →
  ∃ d',
    copy_data fuel iNode data fs
    = Ret ({| i_magic := i_magic iNode;
              size := size iNode + Z.of_nat (length data);
              blocks := blocks iNode |}, with_disk fs d')
    ∧ disk_ok d'
    ∧ (∀ x, (∀ h, h ∈ hs → x ≠ Z.to_nat h) → d' !! x = _bfs fs !! x)
    ∧ ∃ tail, file_data d' hs = data ++ tail.
Proof.
  pose proof (block_size_pos Hok) as HB.
  revert data iNode fs hs rest q.
  induction fuel as [|fuel IH];
    intros data iNode fs hs rest q Hdisk Hq Hs Halign Hdrop Hfuel Hcount
      Hrange Hnd Hfit.
  all: destruct data as [|c data0].
  1,3: assert (hs = []) as ->
         by (apply length_zero_iff_nil; simpl in Hcount;
             rewrite ceil_div_small in Hcount; lia).
  1,2: exists (_bfs fs); rewrite with_disk_same;
       (split_and!; [|done|done|by exists []]).
  1,2: replace (copy_data _ iNode [] fs) with (Ret (iNode, fs)) by done;
       destruct iNode; simpl; do 3 f_equal; simpl; lia.
  { simpl in Hfuel. lia. }
  set (data := c :: data0) in *.
  assert (Hlen1 : (1 ≤ length data)%nat) by (simpl; lia).
  specialize (Halign ltac:(done)).
  destruct hs as [|h hs'].
  { exfalso. cbn [length] in Hcount. unfold ceil_div in Hcount.
    assert (1 ≤ (Z.of_nat (length data) + BLOCK_SIZE - 1) / BLOCK_SIZE).
    { apply Z.div_le_lower_bound; lia. }
    lia. }
  apply Forall_cons in Hrange as [Hh Hrange].
  apply NoDup_cons in Hnd as [Hh_notin Hnd].
  destruct (disk_ok_lookup _ _ Hdisk Hh) as (blk & Hblk & Hblklen).
  assert (Hslot : blocks iNode !! Z.to_nat (size iNode / BLOCK_SIZE) = Some h).
  { rewrite Halign, Z.div_mul by lia.
    rewrite <- (Nat.add_0_r (Z.to_nat q)), <- lookup_drop, Hdrop. done. }
  set (n := Nat.min (length blk - 0) (length data)).
  set (blk' := take 0 blk ++ take n data ++ drop (0 + n) blk).
  assert (Hblk'len : Z.of_nat (length blk') = BLOCK_SIZE).
  { unfold blk', n. rewrite !length_app, !length_take, length_drop. lia. }
  set (iNode' := {| i_magic := i_magic iNode;
                    size := size iNode + Z.of_nat n;
                    blocks := blocks iNode |}).
  set (fs1 := with_disk fs (<[Z.to_nat h := blk']> (_bfs fs))).
  assert (Hstep : copy_data (S fuel) iNode data fs
                  = copy_data fuel iNode' (drop n data) fs1).
  { unfold data at 1. cbn [copy_data]. fold data.
    erewrite bind_Ret;
      [|apply array_get_ok; [apply Z.div_pos; lia|exact Hslot]].
    rewrite (bind_Ret _ _ _ _ _ (read_block_ok _ _ _ Hh Hblk)).
    rewrite Halign, Z.mod_mul by lia. change (Z.to_nat 0) with 0%nat.
    rewrite <- Halign.
    rewrite copy_bytes_spec by (done || lia). fold n blk'.
    erewrite bind_Ret; [done|].
    apply write_block_ok; [done|].
    apply lookup_lt_Some in Hblk. done. }
  assert (Hn : n = Nat.min (Z.to_nat BLOCK_SIZE) (length data))
    by (unfold n; lia).
  clearbody data.
  destruct (IH (drop n data) iNode' fs1 hs' rest (q + 1)) as
    (d' & Hcopy & Hd' & Hframe & tail & Hdata).
  - by apply disk_ok_insert.
  - lia.
  - simpl. lia.
  - intros Hne. simpl. assert (n = Z.to_nat BLOCK_SIZE); [|lia].
    destruct (decide (length data ≤ Z.to_nat BLOCK_SIZE)%nat); [|lia].
    exfalso. apply Hne, length_zero_iff_nil. rewrite length_drop. lia.
  - simpl. replace (Z.to_nat (q + 1)) with (Z.to_nat q + 1)%nat by lia.
    rewrite <- drop_drop, Hdrop. done.
  - rewrite length_drop. lia.
  - rewrite length_drop. cbn [length] in Hcount.
    destruct (decide (length data ≤ Z.to_nat BLOCK_SIZE)%nat).
    + replace (length data - n)%nat with 0%nat by lia.
      unfold ceil_div in *. rewrite (Z.div_small (0 + _ - 1)) by lia.
      assert ((Z.of_nat (length data) + BLOCK_SIZE - 1) / BLOCK_SIZE = 1);
        [|lia].
      symmetry. apply (Z.div_unique_pos _ _ _ (Z.of_nat (length data) - 1));
        lia.
    + replace (Z.of_nat (length data))
        with (Z.of_nat (length data - n) + 1 * BLOCK_SIZE) in Hcount by lia.
      rewrite (ceil_div_add Hok) in Hcount. lia.
  - done.
  - done.
  - simpl. rewrite length_drop. lia.
  - exists d'. split_and!.
    + rewrite Hstep, Hcopy. unfold iNode', fs1. simpl.
      rewrite with_disk_with_disk. do 3 f_equal. rewrite length_drop. lia.
    + done.
    + intros x Hx. rewrite Hframe.
      * simpl. apply list_lookup_insert_ne. intros <-.
        apply (Hx h); [by left|done].
      * intros h' Hh'. apply Hx. by right.
    + unfold file_data in *. cbn [fmap list_fmap concat].
      rewrite Hframe; last first.
      { intros h' Hh' Heq. assert (h = h'); [|by subst].
        rewrite Forall_forall in Hrange. specialize (Hrange _ Hh'). lia. }
      simpl. rewrite list_lookup_insert_eq by (by apply lookup_lt_Some in Hblk).
      simpl. rewrite Hdata. unfold blk'. simpl.
      destruct (decide (length data ≤ Z.to_nat BLOCK_SIZE)%nat).
      * assert (drop n data = []) as Hnil
          by (apply length_zero_iff_nil; rewrite length_drop; lia).
        rewrite Hnil in *. exists (drop n blk ++ tail).
        rewrite take_ge by lia. by rewrite <- app_assoc.
      * exists tail. rewrite (drop_ge blk) by lia.
        rewrite app_nil_r, app_assoc. by rewrite take_drop.
Qed.

End CopyData.

Section FileData.
Context `{Blocks} (Hok : BlocksOk).

Lemma seqZ_snoc (n : nat) :
  seqZ 0 (Z.of_nat n + 1) = seqZ 0 (Z.of_nat n) ++ [Z.of_nat n].
Proof.
  replace (Z.of_nat n + 1) with (Z.of_nat (S n)) by lia. by rewrite seqZ_S.
Qed.

Lemma length_file_block d iNode j :
  disk_ok d → slot_readable d iNode j →
  Z.of_nat (length (file_block d iNode j)) = BLOCK_SIZE.
Proof.
  intros Hd (h & blk & Hh & _ & Hblk). unfold file_block.
  rewrite Hh. simpl. rewrite Hblk. simpl. by eapply disk_ok_block.
Qed.

Lemma length_file_blocks d iNode (n : nat) :
  disk_ok d →
  (∀ j, 0 ≤ j < Z.of_nat n → slot_readable d iNode j) →
  Z.of_nat (length (concat (file_block d iNode <$> seqZ 0 (Z.of_nat n))))
  = Z.of_nat n * BLOCK_SIZE.
Proof.
  intros Hd. induction n as [|n IH]; intros Hslots; [done|].
  replace (Z.of_nat (S n)) with (Z.of_nat n + 1) by lia.
  rewrite seqZ_snoc, fmap_app, concat_app, length_app.
  cbn [fmap list_fmap concat]. rewrite app_nil_r.
  rewrite Nat2Z.inj_add, IH by (intros; apply Hslots; lia).
  rewrite length_file_block by (done || apply Hslots; lia). lia.
Qed.

(** The slots from [q] on name the blocks [hs]: reading the file's blocks
    through the slots reads [hs] in order. *)
Lemma file_blocks_of_slots d iNode (q : nat) hs rest :
  drop q (blocks iNode) = hs ++ rest →
  file_block d iNode <$> seqZ (Z.of_nat q) (Z.of_nat (length hs))
  = (λ h, default [] (d !! Z.to_nat h)) <$> hs.
Proof.
  revert q. induction hs as [|h hs IH]; intros q Hdrop; [done|].
  cbn [length]. rewrite seqZ_cons by lia. cbn [fmap list_fmap]. f_equal.
  - unfold file_block. rewrite Nat2Z.id.
    rewrite <- (Nat.add_0_r q), <- lookup_drop, Hdrop. done.
  - replace (Z.succ (Z.of_nat q)) with (Z.of_nat (S q)) by lia.
    replace (Z.pred (Z.of_nat (S (length hs)))) with (Z.of_nat (length hs))
      by lia.
    apply IH. replace (S q) with (q + 1)%nat by lia.
    by rewrite <- drop_drop, Hdrop.
Qed.

Lemma file_blocks_prefix d iNode hs rest (n : Z) :
  blocks iNode = hs ++ rest → Z.of_nat (length hs) ≤ n →
  ∃ more, concat (file_block d iNode <$> seqZ 0 n) = file_data d hs ++ more.
Proof.
  intros Hblocks Hn.
  replace n with (Z.of_nat (length hs) + (n - Z.of_nat (length hs))) by lia.
  rewrite seqZ_app by lia. rewrite fmap_app, concat_app.
  eexists. f_equal. unfold file_data. f_equal.
  by apply (file_blocks_of_slots d iNode 0 hs rest).
Qed.

(** What the read loop of [head] emits for [L] bytes: the first [L] bytes
    of the blocks that the slots [0 .. L / BLOCK_SIZE] point to. *)
Lemma head_chunks_take d iNode (L : Z) :
  disk_ok d → 0 ≤ L →
  (∀ j, 0 ≤ j ≤ L / BLOCK_SIZE → slot_readable d iNode j) →
  concat ((λ j, take (Z.to_nat (if j =? L / BLOCK_SIZE + 1 - 1
                                then L mod BLOCK_SIZE else BLOCK_SIZE))
                     (file_block d iNode j))
          <$> seqZ 0 (Z.of_nat (Z.to_nat (L / BLOCK_SIZE + 1))))
  = take (Z.to_nat L)
      (concat (file_block d iNode <$> seqZ 0 (L / BLOCK_SIZE + 1))).
Proof.
  pose proof (block_size_pos Hok) as HB. intros Hd HL Hslots.
  assert (HB0 : BLOCK_SIZE ≠ 0) by lia.
  pose proof (Z.div_mod L BLOCK_SIZE HB0) as Hdm.
  pose proof (Z.mod_pos_bound L BLOCK_SIZE HB) as Hr.
  assert (Hk : 0 ≤ L / BLOCK_SIZE) by (apply Z.div_pos; lia).
  set (k := L / BLOCK_SIZE) in *. set (r := L mod BLOCK_SIZE) in *.
  clearbody k r.
  assert (∃ kn : nat, k = Z.of_nat kn) as [kn ->]
    by (exists (Z.to_nat k); lia).
  replace (Z.of_nat (Z.to_nat (Z.of_nat kn + 1))) with (Z.of_nat kn + 1)
    by lia.
  rewrite !seqZ_snoc, !fmap_app, !concat_app.
  cbn [fmap list_fmap concat]. rewrite !app_nil_r.
  replace (Z.of_nat kn =? Z.of_nat kn + 1 - 1) with true
    by (symmetry; apply Z.eqb_eq; lia).
  assert (Hfull :
    (λ j, take (Z.to_nat (if j =? Z.of_nat kn + 1 - 1 then r else BLOCK_SIZE))
               (file_block d iNode j)) <$> seqZ 0 (Z.of_nat kn)
    = file_block d iNode <$> seqZ 0 (Z.of_nat kn)).
  { apply list_fmap_ext. intros n j Hj. apply lookup_seqZ in Hj as [-> Hn].
    replace (0 + Z.of_nat n =? Z.of_nat kn + 1 - 1) with false
      by (symmetry; apply Z.eqb_neq; lia).
    apply take_ge.
    assert (Hin : 0 ≤ 0 + Z.of_nat n ≤ Z.of_nat kn) by lia.
    pose proof (length_file_block d iNode _ Hd (Hslots _ Hin)) as Hlen.
    lia. }
  rewrite Hfull.
  assert (Hlen : Z.of_nat (length (concat (file_block d iNode
                                           <$> seqZ 0 (Z.of_nat kn))))
                 = Z.of_nat kn * BLOCK_SIZE).
  { apply length_file_blocks; [done|]. intros; apply Hslots; lia. }
  rewrite take_app_ge by lia.
  do 2 f_equal. lia.
Qed.

End FileData.

Section AppendSpec.
Context `{Blocks}.

(** What [append] does once the file has been found: the size check, the
    reservation, and then the writes. *)
Lemma append_eq fs a_name a_data b i e ib :
  strlen a_data ≠ 0%nat →
  read_block (_curDirHandle fs) fs = Ret (b, fs) →
  IsDirectory b = true →
  ForEachDirEntry (dir_of_bytes b) (name_matches a_name) fs
  = Ret (Some (i, e), fs) →
  read_block (block_num e) fs = Ret (ib, fs) →
  IsINode ib = true →
  append a_name a_data fs
  = let iNode := inode_of_bytes ib in
    let dataLen := Z.of_nat (strlen a_data) in
    (if wrap32 (MAX_FILE_SIZE - size iNode) <? dataLen then
       set_lastErr kAppendExceedsMaxSize
     else
       numAllocBlocks ← num_alloc_blocks iNode dataLen;
       '(handles, thrown) ← allocate_handles (Z.to_nat numAllocBlocks) [];
       if thrown : bool then
         set_lastErr kDiskFull;;
         reclaim_handles handles
       else
         let first := Z.to_nat (size iNode / BLOCK_SIZE) in
         let iNode' :=
           {| i_magic := i_magic iNode; size := size iNode;
              blocks :=
                assign_handles (Z.to_nat MAX_DATA_BLOCKS - first)
                  first (blocks iNode) (rev handles) |} in
         iNode'' ← copy_data (strlen a_data) iNode' (c_str a_data);
         write_block (block_num e) (bytes_of_inode iNode'')) fs.
Proof.
  intros Hdata Hr Hd Hfind Hri Hi.
  unfold append. destruct (strlen a_data) as [|len] eqn:Hlen; [done|].
  change (Nat.eqb (S len) 0) with false. cbv iota.
  unfold curDirHandle. unfold mbind at 1, M_bind at 1.
  rewrite (bind_Ret _ _ _ _ _ (ReadDirBlock_eq _ _ _ Hr)), Hd.
  cbv beta iota delta [negb]. rewrite (bind_Ret _ _ _ _ _ Hfind).
  rewrite (bind_Ret _ _ _ _ _ (ReadINodeBlock_eq _ _ _ Hri)), Hi.
  cbv beta iota delta [negb]. done.
Qed.

End AppendSpec.

Section Shortage.
Context `{Blocks} (Hok : BlocksOk).

Lemma fresh_free_blocks bm :
  Z.of_nat (length bm) = BLOCK_SIZE → fresh_handles bm (free_blocks bm).
Proof.
  intros Hlen. remember (free_blocks bm) as l eqn:Hl.
  revert bm Hlen Hl. induction l as [|h t IH]; intros bm Hlen Hl; [done|].
  assert (Hh : h ∈ free_blocks bm) by (rewrite <- Hl; by left).
  apply free_blocks_spec in Hh as [Hrange Hclear].
  split; [done|]. split; [done|].
  apply IH.
  - unfold bitmap_set. by rewrite length_alter.
  - symmetry. by apply (free_blocks_set Hok).
Qed.

(** With fewer than [n] blocks free the allocation loop throws, after it
    has been handed every free block. *)
Lemma allocate_handles_short n acc fs bm :
  _bfs fs !! 0%nat = Some bm →
  Z.of_nat (length bm) = BLOCK_SIZE →
  (length (free_blocks bm) < n)%nat →
  allocate_handles n acc fs
  = Ret ((acc ++ free_blocks bm ++ [kInvalidHandle], true),
         with_disk fs
           (<[0%nat := foldl bitmap_set bm (free_blocks bm)]> (_bfs fs))).
Proof.
  pose proof (num_blocks_min Hok) as Hnum.
  revert acc fs bm. induction n as [|n IH]; intros acc fs bm Hbm Hlen Hn;
    [lia|].
  cbn [allocate_handles].
  destruct (free_blocks bm) as [|h t] eqn:Hfree.
  - assert (Hfirst : first_free bm = None).
    { unfold first_free. rewrite find_hd_filter.
      unfold free_blocks in Hfree. by rewrite Hfree. }
    erewrite bind_Ret; [|by rewrite (get_free_block_ok _ _ Hnum Hbm), Hfirst].
    simpl. by rewrite with_disk_id.
  - assert (Hfirst : first_free bm = Some h).
    { unfold first_free. rewrite find_hd_filter.
      unfold free_blocks in Hfree. by rewrite Hfree. }
    assert (Hh : 2 ≤ h < NUM_BLOCKS).
    { apply (free_blocks_spec bm). rewrite Hfree. by left. }
    erewrite bind_Ret; [|by rewrite (get_free_block_ok _ _ Hnum Hbm), Hfirst].
    destruct (Z.eqb_spec h kInvalidHandle) as [->|_];
      [unfold kInvalidHandle in Hh; lia|].
    rewrite (IH _ _ (bitmap_set bm h)); last first.
    { rewrite (free_blocks_set Hok _ _ _ Hlen Hfree). simpl in Hn. lia. }
    { unfold bitmap_set. by rewrite length_alter. }
    { simpl. apply list_lookup_insert_eq. by apply lookup_lt_Some in Hbm. }
    rewrite (free_blocks_set Hok _ _ _ Hlen Hfree).
    rewrite <- app_assoc. simpl. by rewrite with_disk_insert_insert.
Qed.

(** The rollback in terms of free blocks: an append that needs more blocks
    than the bitmap has free fails with [DISK_FULL] and leaves the disk as
    it was. *)
Lemma append_rollback_when_blocks_short
    fs a_name a_data b ib bm i e requested :
  strlen a_data ≠ 0%nat →
  read_block (_curDirHandle fs) fs = Ret (b, fs) →
  IsDirectory b = true →
  ForEachDirEntry (dir_of_bytes b) (name_matches a_name) fs
  = Ret (Some (i, e), fs) →
  read_block (block_num e) fs = Ret (ib, fs) →
  IsINode ib = true →
  Z.of_nat (strlen a_data) ≤ MAX_FILE_SIZE - size (inode_of_bytes ib) →
  num_alloc_blocks (inode_of_bytes ib) (Z.of_nat (strlen a_data)) fs
  = Ret (requested, fs) →
  _bfs fs !! 0%nat = Some bm →
  Z.of_nat (length bm) = BLOCK_SIZE →
  Z.of_nat (length (free_blocks bm)) < requested →
  append a_name a_data fs = Ret (tt, with_lastErr fs kDiskFull).
Proof.
  intros Hdata Hr Hd Hfind Hri Hi Hsize Hnum Hbm Hlen Hshort.
  pose proof (fresh_free_blocks bm Hlen) as Hfresh.
  rewrite (append_eq _ _ _ _ _ _ _ Hdata Hr Hd Hfind Hri Hi). cbv zeta.
  pose proof (u32_range (drop 4 ib)) as Hsz.
  change (u32 (drop 4 ib)) with (size (inode_of_bytes ib)) in Hsz.
  pose proof (file_size_fits Hok).
  rewrite wrap32_small by lia.
  destruct (Z.ltb_spec (MAX_FILE_SIZE - size (inode_of_bytes ib))
              (Z.of_nat (strlen a_data))); [lia|].
  rewrite (bind_Ret _ _ _ _ _ Hnum).
  erewrite bind_Ret;
    [|apply (allocate_handles_short _ [] fs bm Hbm Hlen); lia].
  cbv beta iota. unfold mbind, M_bind, set_lastErr. cbv beta iota.
  simpl app.
  erewrite reclaim_handles_fresh;
    [|pose proof (num_blocks_min Hok); lia|exact Hfresh|]; last first.
  { simpl. apply list_lookup_insert_eq. by apply lookup_lt_Some in Hbm. }
  rewrite bitmap_rollback by done.
  do 2 f_equal. unfold with_disk, with_lastErr. simpl.
  by rewrite list_insert_insert_eq, list_insert_id.
Qed.

End Shortage.

(** ** The blocks that [append] asks for *)

Section AppendRequest.
Context `{Blocks} (Hok : BlocksOk).

(** C6.  An [append] of non-empty data that passes the size check asks the
    allocator for [requested] blocks, where [requested] is
    [max(0, dataLen - (BLOCK_SIZE - size mod BLOCK_SIZE)) / BLOCK_SIZE],
    plus one if that quantity is not a multiple of [BLOCK_SIZE], plus one
    if [blocks[size / BLOCK_SIZE]] is 0: [append] is the allocation loop
    run for [requested] rounds, followed by the rollback or by the writes.
    With that many free blocks the loop hands out the [requested] lowest
    free blocks; with fewer, [append] ends with [kDiskFull].  On an inode
    whose non-zero slots are the first [ceil(size / BLOCK_SIZE)]
    (invariant 4 of section 3) the count is
    [ceil((size + dataLen) / BLOCK_SIZE) - ceil(size / BLOCK_SIZE)], the
    number of data blocks that the file grows by. *)
Theorem append_requests_needed_blocks
    (fs : FileSys) (a_name a_data b ib : list Z) (i : nat) (e : DirEntry) :
  strlen a_data ≠ 0%nat →
  read_block (_curDirHandle fs) fs = Ret (b, fs) →
  IsDirectory b = true →
  ForEachDirEntry (dir_of_bytes b) (name_matches a_name) fs
  = Ret (Some (i, e), fs) →
  read_block (block_num e) fs = Ret (ib, fs) →
  IsINode ib = true →
  let iNode := inode_of_bytes ib in
  let dataLen := Z.of_nat (strlen a_data) in
  dataLen ≤ MAX_FILE_SIZE - size iNode →
  ∃ current,
    blocks iNode !! Z.to_nat (size iNode / BLOCK_SIZE) = Some current
    ∧ let quantity :=
        Z.max 0 (dataLen - (BLOCK_SIZE - size iNode mod BLOCK_SIZE)) in
      let requested :=
        quantity / BLOCK_SIZE
        + (if quantity mod BLOCK_SIZE =? 0 then 0 else 1)
        + (if current =? 0 then 1 else 0) in
      append a_name a_data fs
      = ('(handles, thrown) ← allocate_handles (Z.to_nat requested) [];
         if thrown : bool then
           set_lastErr kDiskFull;;
           reclaim_handles handles
         else
           let first := Z.to_nat (size iNode / BLOCK_SIZE) in
           let iNode' :=
             {| i_magic := i_magic iNode; size := size iNode;
                blocks :=
                  assign_handles (Z.to_nat MAX_DATA_BLOCKS - first)
                    first (blocks iNode) (rev handles) |} in
           iNode'' ← copy_data (strlen a_data) iNode' (c_str a_data);
           write_block (block_num e) (bytes_of_inode iNode'')) fs
      ∧ (∀ bm, _bfs fs !! 0%nat = Some bm →
               Z.of_nat (length bm) = BLOCK_SIZE →
               (requested ≤ Z.of_nat (length (free_blocks bm)) →
                ∃ fs1,
                  allocate_handles (Z.to_nat requested) [] fs
                  = Ret ((take (Z.to_nat requested) (free_blocks bm), false),
                         fs1))
               ∧ (Z.of_nat (length (free_blocks bm)) < requested →
                  append a_name a_data fs
                  = Ret (tt, with_lastErr fs kDiskFull)))
      ∧ (slots_contiguous iNode →
         requested = ceil_div (size iNode + dataLen) BLOCK_SIZE
                     - ceil_div (size iNode) BLOCK_SIZE).
Proof.
  intros Hdata Hr Hd Hfind Hri Hi iNode dataLen Hfit.
  pose proof (file_size_fits Hok) as H32.
  pose proof (data_blocks_pos Hok) as HMDB.
  destruct (inode_of_bytes_ok ib) as (_ & Hsz & Hlen & _).
  fold iNode in Hsz, Hlen.
  assert (HL : 0 < dataLen) by (unfold dataLen; lia).
  destruct (num_alloc_blocks_closed_form Hok iNode dataLen fs)
    as (current & Hcur & Hcount & Hceil); [lia|lia|lia|].
  exists current. split; [done|]. intros quantity requested.
  change (num_alloc_blocks iNode dataLen fs = Ret (requested, fs)) in Hcount.
  change (slots_contiguous iNode →
          requested = ceil_div (size iNode + dataLen) BLOCK_SIZE
                      - ceil_div (size iNode) BLOCK_SIZE) in Hceil.
  clearbody requested. clear quantity. split_and!.
  - rewrite (append_eq _ _ _ _ _ _ _ Hdata Hr Hd Hfind Hri Hi). cbv zeta.
    fold iNode dataLen. rewrite wrap32_small by lia.
    destruct (Z.ltb_spec (MAX_FILE_SIZE - size iNode) dataLen); [lia|].
    by rewrite (bind_Ret _ _ _ _ _ Hcount).
  - intros bm Hbm Hbmlen. split.
    + intros Henough. eexists.
      rewrite (allocate_handles_ok Hok _ [] fs bm Hbm Hbmlen) by lia. done.
    + intros Hshort.
      by apply (append_rollback_when_blocks_short Hok fs a_name a_data b ib bm
                  i e _ Hdata Hr Hd Hfind Hri Hi Hfit Hcount Hbm Hbmlen).
  - exact Hceil.
Qed.

End AppendRequest.

(** ** Invariant 4 along [create] and [append] *)

Section SlotInvariant.
Context `{Blocks} (Hok : BlocksOk).

Lemma slots_contiguous_init : slots_contiguous InitializeBlock_inode.
Proof.
  pose proof (block_size_pos Hok) as HB.
  intros i b Hb. simpl in *. apply lookup_replicate in Hb as [-> _].
  rewrite ceil_div_small by lia. unfold kInvalidHandle. lia.
Qed.

(** An inode under invariant 4 is its handles followed by zeros. *)
Lemma slots_contiguous_split iNode :
  length (blocks iNode) = Z.to_nat MAX_DATA_BLOCKS →
  slots_contiguous iNode →
  let c := Z.to_nat (ceil_div (size iNode) BLOCK_SIZE) in
  blocks iNode
  = take c (blocks iNode) ++ replicate (Z.to_nat MAX_DATA_BLOCKS - c) 0
  ∧ Forall (λ h, h ≠ kInvalidHandle) (take c (blocks iNode)).
Proof.
  intros Hlen Hinv c. split.
  - rewrite <- (take_drop c (blocks iNode)) at 1. f_equal.
    symmetry. apply replicate_as_Forall. split.
    + rewrite length_drop. lia.
    + apply Forall_lookup. intros i b Hb. rewrite lookup_drop in Hb.
      destruct (Z.eq_dec b 0) as [|Hne]; [done|].
      apply (Hinv _ _ Hb) in Hne. lia.
  - apply Forall_lookup. intros i b Hb.
    pose proof (lookup_lt_Some _ _ _ Hb) as Hi. rewrite length_take in Hi.
    rewrite lookup_take_lt in Hb by lia.
    apply (Hinv _ _ Hb). lia.
Qed.

Lemma copy_bytes_size data idx blk a_size :
  0 ≤ a_size → a_size + Z.of_nat (length data) < 4294967296 →
  let '(_, rest, size') := copy_bytes idx blk data a_size in
  size' + Z.of_nat (length rest) = a_size + Z.of_nat (length data)
  ∧ a_size ≤ size'.
Proof.
  revert idx blk a_size.
  induction data as [|c data IH]; intros idx blk a_size Hs Hfit; simpl.
  - lia.
  - destruct (Z.ltb_spec (Z.of_nat idx) BLOCK_SIZE); [|simpl; lia].
    simpl in Hfit. rewrite wrap32_small by lia.
    specialize (IH (S idx) (<[idx := c]> blk) (a_size + 1)).
    destruct (copy_bytes _ _ _ _) as [[blk' rest] size'].
    destruct IH; lia.
Qed.

(** The copy loop moves no handle and grows the size by the bytes copied. *)
Lemma copy_data_inv fuel iNode data fs iNode' fs' :
  copy_data fuel iNode data fs = Ret (iNode', fs') →
  0 ≤ size iNode → size iNode + Z.of_nat (length data) < 4294967296 →
  size iNode' = size iNode + Z.of_nat (length data)
  ∧ blocks iNode' = blocks iNode ∧ i_magic iNode' = i_magic iNode.
Proof.
  revert iNode data fs.
  induction fuel as [|fuel IH]; intros iNode data fs;
    (destruct data as [|c data];
     [intros [= <- <-] _ _; simpl; split_and!; [lia|done..]|]); [done|].
  cbn [copy_data].
  intros (h & fs1 & _ & (blk & fs2 & _ & Hrest)%bind_Ret_inv)%bind_Ret_inv
    Hs Hfit.
  pose proof (copy_bytes_size (c :: data)
                (Z.to_nat (size iNode mod BLOCK_SIZE)) blk (size iNode) Hs Hfit)
    as Hbytes.
  destruct (copy_bytes _ _ _ _) as [[blk' rest] size'].
  apply bind_Ret_inv in Hrest as (u & fs3 & _ & Hrest).
  apply IH in Hrest; simpl in *; lia || (destruct Hbytes; try lia).
  destruct Hrest as (-> & -> & ->). split_and!; [lia|done..].
Qed.

Lemma allocate_handles_done n acc fs hs fs1 :
  allocate_handles n acc fs = Ret ((hs, false), fs1) →
  ∃ new, hs = acc ++ new ∧ length new = n
         ∧ Forall (λ h, h ≠ kInvalidHandle) new.
Proof.
  revert acc fs. induction n as [|n IH]; intros acc fs; simpl.
  - intros [= <- <-]. exists []. by rewrite app_nil_r.
  - intros (h & fs' & _ & Hrest)%bind_Ret_inv.
    destruct (Z.eqb_spec h kInvalidHandle) as [->|Hh]; [done|].
    apply IH in Hrest as (new & -> & <- & Hnew).
    exists (h :: new). rewrite <- app_assoc. split_and!; [done..|].
    by constructor.
Qed.

Lemma num_alloc_blocks_contiguous iNode dataLen fs :
  length (blocks iNode) = Z.to_nat MAX_DATA_BLOCKS →
  0 ≤ size iNode →
  0 < dataLen ≤ MAX_FILE_SIZE - size iNode →
  slots_contiguous iNode →
  num_alloc_blocks iNode dataLen fs
  = Ret (ceil_div (size iNode + dataLen) BLOCK_SIZE
         - ceil_div (size iNode) BLOCK_SIZE, fs).
Proof.
  pose proof (block_size_pos Hok) as HB.
  intros Hlen Hs HL Hinv. unfold MAX_FILE_SIZE in HL.
  assert (HB0 : BLOCK_SIZE ≠ 0) by lia.
  pose proof (Z.div_mod (size iNode) BLOCK_SIZE HB0) as Hdm.
  pose proof (Z.mod_pos_bound (size iNode) BLOCK_SIZE HB) as Hr.
  assert (Hq : 0 ≤ size iNode / BLOCK_SIZE < MAX_DATA_BLOCKS) by nia.
  destruct (blocks iNode !! Z.to_nat (size iNode / BLOCK_SIZE))
    as [current|] eqn:Hcur; last first.
  { apply lookup_ge_None in Hcur. lia. }
  specialize (Hinv _ _ Hcur). unfold kInvalidHandle in Hinv.
  rewrite Z2Nat.id in Hinv by lia.
  rewrite <- (needed_blocks Hok (size iNode) dataLen current) by (done || lia).
  unfold num_alloc_blocks, array_get.
  destruct (Z.ltb_spec (size iNode / BLOCK_SIZE) 0); [lia|].
  rewrite Hcur. unfold mbind, M_bind, mret, M_ret. simpl.
  do 2 f_equal. unfold alloc_size.
  destruct (Z.ltb_spec (BLOCK_SIZE - size iNode mod BLOCK_SIZE) dataLen);
    [rewrite Z.max_r by lia|rewrite Z.max_l by lia];
    destruct (_ mod BLOCK_SIZE =? 0), (current =? kInvalidHandle) eqn:E;
    unfold kInvalidHandle in E; rewrite E; lia.
Qed.

Lemma ceil_div_le_blocks (x : Z) :
  x ≤ MAX_FILE_SIZE → ceil_div x BLOCK_SIZE ≤ MAX_DATA_BLOCKS.
Proof.
  pose proof (block_size_pos Hok) as HB. unfold MAX_FILE_SIZE, ceil_div.
  intros Hx.
  assert ((x + BLOCK_SIZE - 1) / BLOCK_SIZE < MAX_DATA_BLOCKS + 1); [|lia].
  apply Z.div_lt_upper_bound; nia.
Qed.

Lemma ceil_div_mono (x y : Z) :
  x ≤ y → ceil_div x BLOCK_SIZE ≤ ceil_div y BLOCK_SIZE.
Proof.
  pose proof (block_size_pos Hok) as HB. intros Hxy. unfold ceil_div.
  apply Z.div_le_mono; lia.
Qed.

Lemma ceil_div_nonneg (x : Z) : 0 ≤ x → 0 ≤ ceil_div x BLOCK_SIZE.
Proof.
  pose proof (block_size_pos Hok) as HB. intros Hx. unfold ceil_div.
  apply Z.div_pos; lia.
Qed.

(** Handing [hs] to an inode under invariant 4 fills the slots after the
    ones in use. *)
Lemma assign_handles_contiguous iNode (hs : list Z) :
  length (blocks iNode) = Z.to_nat MAX_DATA_BLOCKS →
  0 ≤ size iNode →
  slots_contiguous iNode →
  let c := Z.to_nat (ceil_div (size iNode) BLOCK_SIZE) in
  let first := Z.to_nat (size iNode / BLOCK_SIZE) in
  (c + length hs ≤ Z.to_nat MAX_DATA_BLOCKS)%nat →
  assign_handles (Z.to_nat MAX_DATA_BLOCKS - first) first (blocks iNode) hs
  = take c (blocks iNode) ++ hs
    ++ replicate (Z.to_nat MAX_DATA_BLOCKS - c - length hs) 0.
Proof.
  pose proof (block_size_pos Hok) as HB.
  intros Hlen Hs Hinv c first Hroom.
  destruct (slots_contiguous_split iNode Hlen Hinv) as [Hsplit Hnz].
  fold c in Hsplit, Hnz.
  assert (Hc : length (take c (blocks iNode)) = c)
    by (rewrite length_take; lia).
  assert (Hceil : Z.of_nat c
                  = Z.of_nat first
                    + (if size iNode mod BLOCK_SIZE =? 0 then 0 else 1)).
  { unfold c, first. rewrite (ceil_div_of_size Hok) by done.
    pose proof (Z.div_pos (size iNode) BLOCK_SIZE Hs HB).
    destruct (_ =? 0); lia. }
  destruct (Z.eqb_spec (size iNode mod BLOCK_SIZE) 0) as [Hr|Hr].
  - assert (first = c) as -> by lia.
    etrans; [|apply (assign_handles_zeros (Z.to_nat MAX_DATA_BLOCKS - c)
                       (take c (blocks iNode)) hs
                       (Z.to_nat MAX_DATA_BLOCKS - c)); lia].
    by rewrite Hc, <- Hsplit.
  - assert (Hfirst : (S first = c)%nat) by lia.
    destruct hs as [|h hs].
    { simpl. rewrite Nat.sub_0_r, <- Hsplit.
      by destruct (Z.to_nat MAX_DATA_BLOCKS - first)%nat. }
    simpl in Hroom.
    destruct (Z.to_nat MAX_DATA_BLOCKS - first)%nat as [|fuel] eqn:Hfuel;
      [lia|].
    cbn [assign_handles].
    destruct (blocks iNode !! first) as [b|] eqn:Hb; last first.
    { apply lookup_ge_None in Hb. lia. }
    assert (Hne : b ≠ kInvalidHandle).
    { apply (Hinv _ _ Hb). lia. }
    apply Z.eqb_neq in Hne. rewrite Hne, Hfirst.
    etrans; [|apply (assign_handles_zeros fuel (take c (blocks iNode))
                       (h :: hs) (Z.to_nat MAX_DATA_BLOCKS - c));
              simpl; lia].
    by rewrite Hc, <- Hsplit.
Qed.

Lemma assign_keeps_contiguous iNode (hs : list Z) (dataLen : Z) :
  length (blocks iNode) = Z.to_nat MAX_DATA_BLOCKS →
  0 ≤ size iNode →
  0 < dataLen ≤ MAX_FILE_SIZE - size iNode →
  slots_contiguous iNode →
  Forall (λ h, h ≠ kInvalidHandle) hs →
  Z.of_nat (length hs)
  = ceil_div (size iNode + dataLen) BLOCK_SIZE
    - ceil_div (size iNode) BLOCK_SIZE →
  let first := Z.to_nat (size iNode / BLOCK_SIZE) in
  slots_contiguous
    {| i_magic := i_magic iNode; size := size iNode + dataLen;
       blocks := assign_handles (Z.to_nat MAX_DATA_BLOCKS - first) first
                   (blocks iNode) hs |}.
Proof.
  intros Hlen Hs HL Hinv Hhs Hcount first.
  pose proof (ceil_div_le_blocks (size iNode + dataLen)) as Hmax.
  pose proof (ceil_div_nonneg (size iNode) Hs) as Hmin.
  set (c := Z.to_nat (ceil_div (size iNode) BLOCK_SIZE)).
  destruct (slots_contiguous_split iNode Hlen Hinv) as [_ Hnz].
  fold c in Hnz.
  assert (Hc : length (take c (blocks iNode)) = c)
    by (rewrite length_take; lia).
  intros i b. cbn [blocks size].
  unfold first. rewrite assign_handles_contiguous by (done || lia).
  fold c. rewrite !lookup_app_Some, Hc.
  intros [Hb|[Hi [Hb|[Hi' Hb]]]].
  - pose proof (lookup_lt_Some _ _ _ Hb).
    split; [lia|]. intros _. by apply (Forall_lookup_1 _ _ _ _ Hnz Hb).
  - pose proof (lookup_lt_Some _ _ _ Hb).
    split; [lia|]. intros _. by apply (Forall_lookup_1 _ _ _ _ Hhs Hb).
  - apply lookup_replicate in Hb as [-> _]. unfold kInvalidHandle. lia.
Qed.

(** An append that is given its blocks keeps invariant 4: the inode it
    writes back has grown by the data, and its non-zero slots are again the
    first [ceil(size / BLOCK_SIZE)]. *)
Lemma append_keeps_slots_contiguous
    fs a_name a_data b ib i e handles fs1 fs' :
  strlen a_data ≠ 0%nat →
  read_block (_curDirHandle fs) fs = Ret (b, fs) →
  IsDirectory b = true →
  ForEachDirEntry (dir_of_bytes b) (name_matches a_name) fs
  = Ret (Some (i, e), fs) →
  read_block (block_num e) fs = Ret (ib, fs) →
  IsINode ib = true →
  Z.of_nat (strlen a_data) ≤ MAX_FILE_SIZE - size (inode_of_bytes ib) →
  slots_contiguous (inode_of_bytes ib) →
  allocate_handles
    (Z.to_nat (ceil_div (size (inode_of_bytes ib) + Z.of_nat (strlen a_data))
                 BLOCK_SIZE
               - ceil_div (size (inode_of_bytes ib)) BLOCK_SIZE)) [] fs
  = Ret ((handles, false), fs1) →
  append a_name a_data fs = Ret (tt, fs') →
  ∃ iNode',
    _bfs fs' !! Z.to_nat (block_num e) = Some (bytes_of_inode iNode')
    ∧ size iNode'
      = size (inode_of_bytes ib) + Z.of_nat (strlen a_data)
    ∧ slots_contiguous iNode'.
Proof.
  intros Hdata Hr Hd Hfind Hri Hi Hsize Hinv Halloc.
  destruct (inode_of_bytes_ok ib) as (_ & Hs & Hlen & _).
  pose proof (file_size_fits Hok) as Hfit.
  rewrite (append_eq _ _ _ _ _ _ _ Hdata Hr Hd Hfind Hri Hi). cbv zeta.
  rewrite wrap32_small by lia.
  destruct (Z.ltb_spec (MAX_FILE_SIZE - size (inode_of_bytes ib))
              (Z.of_nat (strlen a_data))); [lia|].
  assert (HL : 0 < Z.of_nat (strlen a_data)
               ≤ MAX_FILE_SIZE - size (inode_of_bytes ib)) by lia.
  rewrite (bind_Ret _ _ _ _ _
             (num_alloc_blocks_contiguous _ _ fs Hlen (proj1 Hs) HL Hinv)).
  rewrite (bind_Ret _ _ _ _ _ Halloc). cbv beta iota.
  intros (iNode' & fs2 & Hcopy & Hwrite)%bind_Ret_inv.
  apply allocate_handles_done in Halloc as (new & -> & Hcount & Hnew).
  apply copy_data_inv in Hcopy as (Hsize' & Hblocks & _);
    cbn [size blocks] in *; rewrite ?length_c_str in *; [|lia..].
  simpl app in Hblocks.
  apply write_block_inv in Hwrite as (-> & _ & Hrange).
  exists iNode'. split_and!.
  - simpl. by apply list_lookup_insert_eq.
  - done.
  - pose proof (assign_keeps_contiguous (inode_of_bytes ib) (rev new)
                  (Z.of_nat (strlen a_data)) Hlen (proj1 Hs)) as Hkeep.
    pose proof (ceil_div_mono (size (inode_of_bytes ib))
                  (size (inode_of_bytes ib) + Z.of_nat (strlen a_data)))
      as Hmono.
    destruct iNode' as [magic' size' blocks']. simpl in *. subst.
    intros j h Hj. apply (Hkeep HL Hinv); [| |done].
    + by apply Forall_rev.
    + rewrite length_rev, Hcount.
      lia.
Qed.

End SlotInvariant.

Lemma elem_of_take_l {A} (x : A) (n : nat) (l : list A) :
  x ∈ take n l → x ∈ l.
Proof.
  intros Hx. rewrite <- (take_drop n l). apply elem_of_app. by left.
Qed.

Lemma NoDup_take_l {A} (n : nat) (l : list A) : NoDup l → NoDup (take n l).
Proof.
  intros Hl. rewrite <- (take_drop n l) in Hl. by apply NoDup_app in Hl as [? _].
Qed.

Lemma elem_of_rev_iff {A} (x : A) (l : list A) : x ∈ rev l ↔ x ∈ l.
Proof. rewrite !list_elem_of_In. symmetry. apply in_rev. Qed.

Lemma NoDup_rev_l {A} (l : list A) : NoDup l → NoDup (rev l).
Proof.
  intros Hl. by apply NoDup_ListNoDup, List.NoDup_rev, NoDup_ListNoDup.
Qed.

(** ** Create, append, cat *)

Section RoundTrip.
Context `{Blocks} (Hok : BlocksOk).
Variables (fs : FileSys) (f D b bm : list Z).
Hypothesis Hdisk : disk_ok (_bfs fs).
Hypothesis Hcur : 0 < _curDirHandle fs < NUM_BLOCKS.
Hypothesis Hb : _bfs fs !! Z.to_nat (_curDirHandle fs) = Some b.
Hypothesis Hd : IsDirectory b = true.
Hypothesis Hbm : _bfs fs !! 0%nat = Some bm.
Hypothesis Hcurbit : bitmap_test bm (_curDirHandle fs) = true.
Hypothesis Hmiss :
  ForEachDirEntry (dir_of_bytes b) (name_matches f) fs = Ret (None, fs).
Hypothesis Hroom : num_entries (dir_of_bytes b) < MAX_DIR_ENTRIES.
Hypothesis Hslot :
  Exists (λ e, block_num e = kInvalidHandle) (dir_entries (dir_of_bytes b)).
Hypothesis Hname : Z.of_nat (strlen f) ≤ MAX_FNAME_SIZE.
Hypothesis HD0 : 0 ∉ D.
Hypothesis HDlen : 0 < Z.of_nat (length D) < MAX_FILE_SIZE.
Hypothesis Hfree :
  1 + ceil_div (Z.of_nat (length D)) BLOCK_SIZE
  ≤ Z.of_nat (length (free_blocks bm)).

#[local] Abbreviation cur := (_curDirHandle fs).
#[local] Abbreviation L := (Z.of_nat (length D)).
#[local] Abbreviation m := (Z.to_nat (ceil_div L BLOCK_SIZE)).

Lemma roundtrip_bounds :
  0 < BLOCK_SIZE ∧ 1 ≤ ceil_div L BLOCK_SIZE ≤ MAX_DATA_BLOCKS
  ∧ L / BLOCK_SIZE < MAX_DATA_BLOCKS
  ∧ ceil_div L BLOCK_SIZE ≤ L / BLOCK_SIZE + 1.
Proof.
  pose proof (block_size_pos Hok) as HB. unfold MAX_FILE_SIZE in HDlen.
  unfold ceil_div.
  assert (HB0 : BLOCK_SIZE ≠ 0) by lia.
  pose proof (Z.div_mod L BLOCK_SIZE HB0).
  pose proof (Z.mod_pos_bound L BLOCK_SIZE HB).
  pose proof (Z.div_mod (L + BLOCK_SIZE - 1) BLOCK_SIZE HB0).
  pose proof (Z.mod_pos_bound (L + BLOCK_SIZE - 1) BLOCK_SIZE HB).
  split_and!; try nia.
Qed.

Lemma roundtrip_dir_ok : dir_ok (dir_of_bytes b).
Proof.
  apply (dir_of_bytes_ok Hok). by eapply disk_ok_block.
Qed.

Lemma roundtrip_free :
  ∃ h1 t, free_blocks bm = h1 :: t
          ∧ first_free bm = Some h1
          ∧ 2 ≤ h1 < NUM_BLOCKS ∧ h1 ≠ cur
          ∧ (m ≤ length t)%nat
          ∧ NoDup (h1 :: t)
          ∧ Forall (λ h, 2 ≤ h < NUM_BLOCKS ∧ h ≠ cur) t.
Proof.
  destruct roundtrip_bounds as (_ & Hm & _).
  destruct (free_blocks bm) as [|h1 t] eqn:Hfb; [simpl in Hfree; lia|].
  exists h1, t.
  assert (Hall : ∀ h, h ∈ h1 :: t → 2 ≤ h < NUM_BLOCKS ∧ h ≠ cur).
  { intros h Hh. rewrite <- Hfb in Hh. apply free_blocks_spec in Hh as [? Hbit].
    split; [done|]. intros ->. congruence. }
  split_and!; try done.
  - unfold first_free. rewrite find_hd_filter.
    unfold free_blocks in Hfb. by rewrite Hfb.
  - apply Hall. by left.
  - apply Hall. by left.
  - apply Hall. by left.
  - cbn [length] in Hfree. lia.
  - rewrite <- Hfb. apply NoDup_free_blocks.
  - apply Forall_forall. intros h Hh. apply Hall. by right.
Qed.

Lemma roundtrip_miss fs2 :
  ForEachDirEntry (dir_of_bytes b) (name_matches f) fs2 = Ret (None, fs2).
Proof. by apply (name_lookup_pure _ _ _ _ _ _ Hmiss). Qed.

(** The state after [create f]. *)
Lemma roundtrip_create :
  ∃ h1 t i e,
    free_blocks bm = h1 :: t
    ∧ dir_entries (dir_of_bytes b) !! i = Some e
    ∧ let d1 := set_num_entries
                  (set_entry (dir_of_bytes b) i
                     {| name := strcpy (name e) f; block_num := h1 |})
                  (wrap32 (num_entries (dir_of_bytes b) + 1)) in
      create f fs
      = Ret (tt, with_disk fs
                   (<[Z.to_nat cur := bytes_of_dir d1]>
                      (<[Z.to_nat h1 := bytes_of_inode InitializeBlock_inode]>
                         (<[0%nat := bitmap_set bm h1]> (_bfs fs))))).
Proof.
  destruct roundtrip_free as (h1 & t & Hfb & Hfirst & _).
  destruct (InsertIntoDirectory_ok (dir_of_bytes b) h1 f roundtrip_miss
              Hroom Hname Hslot) as (i & e & He & Hins).
  exists h1, t, i, e. split_and!; [done..|]. intros d1.
  apply (MakeBlock_inserted Hok _ _ _ b bm); try done.
  - apply Hdisk.
  - apply read_block_ok; [lia|done].
Qed.

Section AfterCreate.
Variables (h1 : Z) (t : list Z) (i : nat) (e : DirEntry).
Hypothesis Hfb : free_blocks bm = h1 :: t.
Hypothesis He : dir_entries (dir_of_bytes b) !! i = Some e.

#[local] Abbreviation e1 :=
  {| name := strcpy (name e) f; block_num := h1 |}.
#[local] Abbreviation d1 :=
  (set_num_entries (set_entry (dir_of_bytes b) i e1)
     (wrap32 (num_entries (dir_of_bytes b) + 1))).
#[local] Abbreviation inode0 := (bytes_of_inode InitializeBlock_inode).
#[local] Abbreviation disk1 :=
  (<[Z.to_nat cur := bytes_of_dir d1]>
     (<[Z.to_nat h1 := inode0]> (<[0%nat := bitmap_set bm h1]> (_bfs fs)))).

Lemma after_create_handles :
  2 ≤ h1 < NUM_BLOCKS ∧ h1 ≠ cur ∧ (m ≤ length t)%nat
  ∧ NoDup (h1 :: t) ∧ Forall (λ h, 2 ≤ h < NUM_BLOCKS ∧ h ≠ cur) t.
Proof.
  destruct roundtrip_free as (h1' & t' & Hfb' & _ & Hfacts).
  rewrite Hfb in Hfb'. by injection Hfb' as <- <-.
Qed.

Lemma num_blocks_fits : NUM_BLOCKS < 4294967296.
Proof.
  pose proof (bitmap_fits Hok). pose proof (inode_fills_block Hok).
  pose proof (file_size_fits Hok) as Hfit. pose proof (data_blocks_pos Hok).
  unfold MAX_FILE_SIZE in Hfit. nia.
Qed.

Lemma after_create_dir_ok : dir_ok d1.
Proof.
  destruct after_create_handles as (Hh1 & _). pose proof num_blocks_fits.
  apply (dir_ok_insert Hok); [apply roundtrip_dir_ok|done|done|lia].
Qed.

Lemma inode0_ok : inode_ok InitializeBlock_inode.
Proof.
  pose proof (inode_magic_range Hok).
  split; [done|]. split; [done|]. split; simpl.
  - by rewrite length_replicate.
  - apply Forall_replicate. lia.
Qed.

Lemma after_create_disk :
  disk_ok disk1
  ∧ disk1 !! Z.to_nat cur = Some (bytes_of_dir d1)
  ∧ disk1 !! Z.to_nat h1 = Some inode0
  ∧ disk1 !! 0%nat = Some (bitmap_set bm h1).
Proof.
  destruct after_create_handles as (Hh1 & Hne & _).
  pose proof Hdisk as [Hlen _].
  split_and!.
  - repeat apply disk_ok_insert; try done.
    + unfold bitmap_set. rewrite length_alter. by eapply disk_ok_block.
    + apply (length_bytes_of_inode Hok), inode0_ok.
    + apply (length_bytes_of_dir Hok), after_create_dir_ok.
  - apply list_lookup_insert_eq. rewrite !length_insert. lia.
  - rewrite list_lookup_insert_ne by lia.
    apply list_lookup_insert_eq. rewrite !length_insert. lia.
  - rewrite !list_lookup_insert_ne by lia.
    apply list_lookup_insert_eq. lia.
Qed.

Lemma after_create_lookup fs2 :
  ForEachDirEntry d1 (name_matches f) fs2 = Ret (Some (i, e1), fs2).
Proof.
  destruct after_create_handles as (Hh1 & _).
  apply (name_lookup_insert 0 (dir_entries (dir_of_bytes b)) f fs2 i e h1);
    [apply roundtrip_miss|done|unfold kInvalidHandle; lia].
Qed.

Lemma after_create_ReadDirBlock fs2 :
  _curDirHandle fs2 = cur →
  _bfs fs2 !! Z.to_nat cur = Some (bytes_of_dir d1) →
  ReadDirBlock (_curDirHandle fs2) fs2 = Ret ((d1, true), fs2).
Proof.
  intros -> Hblk.
  rewrite (ReadDirBlock_eq _ _ (bytes_of_dir d1)) by (apply read_block_ok; [lia|done]).
  rewrite dir_of_bytes_of_dir by apply after_create_dir_ok.
  assert (IsDirectory (bytes_of_dir d1) = true) as ->; [|done].
  unfold IsDirectory, bytes_of_dir. rewrite u32_le32. simpl.
  rewrite wrap32_small by apply u32_range. exact Hd.
Qed.

Lemma ReadINodeBlock_of_inode fs2 iN :
  _bfs fs2 !! Z.to_nat h1 = Some (bytes_of_inode iN) →
  inode_ok iN → i_magic iN = INODE_MAGIC_NUM →
  ReadINodeBlock h1 fs2 = Ret ((iN, true), fs2).
Proof.
  destruct after_create_handles as (Hh1 & _). intros Hblk HiN Hmagic.
  rewrite (ReadINodeBlock_eq _ _ (bytes_of_inode iN))
    by (apply read_block_ok; [lia|done]).
  rewrite inode_of_bytes_of_inode by done.
  assert (IsINode (bytes_of_inode iN) = true) as ->; [|done].
  unfold IsINode, bytes_of_inode. rewrite u32_le32, Hmagic.
  rewrite wrap32_small by apply (inode_magic_range Hok). apply Z.eqb_refl.
Qed.

Lemma num_alloc_blocks_empty fs2 :
  num_alloc_blocks InitializeBlock_inode L fs2
  = Ret (ceil_div L BLOCK_SIZE, fs2).
Proof.
  destruct roundtrip_bounds as (HB & _). pose proof (data_blocks_pos Hok).
  unfold num_alloc_blocks, alloc_size. simpl size. simpl blocks.
  rewrite Z.mod_0_l, Z.div_0_l, Z.sub_0_r by lia.
  unfold array_get. simpl.
  replace (Z.to_nat MAX_DATA_BLOCKS) with (S (Z.to_nat MAX_DATA_BLOCKS - 1))
    by lia.
  simpl. unfold mbind, M_bind, mret, M_ret. simpl. do 2 f_equal.
  assert (Hc : ceil_div L BLOCK_SIZE
               = ceil_div (L - BLOCK_SIZE) BLOCK_SIZE + 1).
  { rewrite <- (ceil_div_add Hok). f_equal. lia. }
  rewrite Hc.
  destruct (Z.ltb_spec BLOCK_SIZE L).
  - rewrite <- (ceil_div_quot Hok (L - BLOCK_SIZE)) by lia.
    destruct ((L - BLOCK_SIZE) mod BLOCK_SIZE =? 0); lia.
  - rewrite Z.mod_0_l, Z.div_0_l by lia. simpl.
    rewrite ceil_div_small; lia.
Qed.

Lemma after_create_append :
  ∃ d2 iN hs rest,
    append f D (with_disk fs disk1) = Ret (tt, with_disk fs d2)
    ∧ disk_ok d2
    ∧ d2 !! Z.to_nat cur = Some (bytes_of_dir d1)
    ∧ d2 !! Z.to_nat h1 = Some (bytes_of_inode iN)
    ∧ inode_ok iN ∧ i_magic iN = INODE_MAGIC_NUM ∧ size iN = L
    ∧ blocks iN = hs ++ rest ∧ length hs = m
    ∧ Forall (λ h, 0 ≤ h < NUM_BLOCKS) (blocks iN)
    ∧ ∃ tail, file_data d2 hs = D ++ tail.
Proof.
  destruct roundtrip_bounds as (HB & Hm & HLB & _).
  destruct after_create_handles as (Hh1 & Hne & Hmt & Hnd & Ht).
  destruct after_create_disk as (Hdisk1 & Hcur1 & Hh1blk & Hbm1).
  pose proof num_blocks_fits as Hnum.
  pose proof (file_size_fits Hok) as Hfit.
  pose proof (data_blocks_pos Hok) as HMDB.
  set (fs1 := with_disk fs disk1).
  assert (Hstrlen : strlen D = length D) by (by apply strlen_no_nul).
  assert (Hdir1 : read_block (_curDirHandle fs1) fs1 = Ret (bytes_of_dir d1, fs1))
    by (apply read_block_ok; [simpl; lia|done]).
  assert (HisDir : IsDirectory (bytes_of_dir d1) = true).
  { unfold IsDirectory, bytes_of_dir. rewrite u32_le32. simpl.
    rewrite wrap32_small by apply u32_range. exact Hd. }
  assert (Hino1 : read_block (block_num e1) fs1 = Ret (inode0, fs1))
    by (apply read_block_ok; [simpl; lia|done]).
  assert (HisIno : IsINode inode0 = true).
  { unfold IsINode, bytes_of_inode. rewrite u32_le32. simpl.
    rewrite wrap32_small by apply (inode_magic_range Hok). apply Z.eqb_refl. }
  assert (Hfind : ForEachDirEntry (dir_of_bytes (bytes_of_dir d1))
                    (name_matches f) fs1 = Ret (Some (i, e1), fs1)).
  { rewrite dir_of_bytes_of_dir by apply after_create_dir_ok.
    apply after_create_lookup. }
  assert (Hnonempty : strlen D ≠ 0%nat) by lia.
  rewrite (append_eq fs1 f D _ _ _ _ Hnonempty Hdir1 HisDir Hfind Hino1 HisIno).
  rewrite (inode_of_bytes_of_inode _ inode0_ok). cbv zeta.
  rewrite Hstrlen. simpl size. rewrite Z.sub_0_r.
  rewrite wrap32_small by (split; [unfold MAX_FILE_SIZE; nia|exact Hfit]).
  destruct (Z.ltb_spec MAX_FILE_SIZE L); [lia|].
  rewrite (bind_Ret _ _ _ _ _ (num_alloc_blocks_empty fs1)).
  set (hs0 := take m t).
  set (bm2 := foldl bitmap_set (bitmap_set bm h1) hs0).
  assert (Hbmlen : Z.of_nat (length (bitmap_set bm h1)) = BLOCK_SIZE).
  { unfold bitmap_set. rewrite length_alter.
    exact (disk_ok_block _ _ _ Hdisk Hbm). }
  assert (Hfb1 : free_blocks (bitmap_set bm h1) = t).
  { apply (free_blocks_set Hok); [exact (disk_ok_block _ _ _ Hdisk Hbm)|done]. }
  assert (Halloc : allocate_handles m [] fs1
                   = Ret (([] ++ hs0, false),
                          with_disk fs1 (<[0%nat := bm2]> disk1))).
  { pose proof (allocate_handles_ok Hok m [] fs1 (bitmap_set bm h1)
                  Hbm1 Hbmlen) as Ha.
    rewrite Hfb1 in Ha. by apply Ha. }
  rewrite (bind_Ret _ _ _ _ _ Halloc). cbv beta iota. cbn [app].
  set (fs1' := with_disk fs1 (<[0%nat := bm2]> disk1)).
  assert (Hhs0 : length hs0 = m) by (unfold hs0; rewrite length_take; lia).
  assert (Hhs0range : Forall (λ h, 2 ≤ h < NUM_BLOCKS ∧ h ≠ cur) hs0).
  { unfold hs0. rewrite Forall_forall in Ht |- *.
    intros h Hh. apply Ht. by eapply elem_of_take_l. }
  assert (Hhs0nd : NoDup hs0 ∧ h1 ∉ hs0).
  { apply NoDup_cons in Hnd as [Hnotin Hndt]. split.
    - unfold hs0. by apply NoDup_take_l.
    - intros Hin. apply Hnotin. by eapply elem_of_take_l. }
  destruct Hhs0nd as [Hhs0nd Hh1hs0].
  rewrite Z.div_0_l by lia. change (Z.to_nat 0) with 0%nat.
  rewrite Nat.sub_0_r.
  assert (Hassign :
    assign_handles (Z.to_nat MAX_DATA_BLOCKS) 0
      (blocks InitializeBlock_inode) (rev hs0)
    = rev hs0 ++ replicate (Z.to_nat MAX_DATA_BLOCKS - m) 0).
  { pose proof (assign_handles_zeros (Z.to_nat MAX_DATA_BLOCKS) [] (rev hs0)
                  (Z.to_nat MAX_DATA_BLOCKS)) as Ha.
    rewrite length_rev, Hhs0 in Ha. simpl in Ha. apply Ha; lia. }
  rewrite Hassign. simpl i_magic.
  set (hs := rev hs0). set (rest := replicate (Z.to_nat MAX_DATA_BLOCKS - m) 0).
  assert (Hhslen : length hs = m) by (unfold hs; by rewrite length_rev).
  assert (Hhsrange : Forall (λ h, 2 ≤ h < NUM_BLOCKS ∧ h ≠ cur) hs).
  { unfold hs. rewrite Forall_forall in Hhs0range |- *.
    intros h Hh. apply Hhs0range. by apply elem_of_rev_iff. }
  assert (Hh1hs : h1 ∉ hs) by (unfold hs; by rewrite elem_of_rev_iff).
  rewrite c_str_no_nul by done.
  assert (Hdisk1' : disk_ok (_bfs fs1')).
  { unfold fs1'. simpl. apply disk_ok_insert; [done|].
    unfold bm2. clear -Hbmlen. revert Hbmlen. generalize (bitmap_set bm h1).
    induction hs0 as [|h hs0 IH]; intros bm0 Hlen; simpl; [done|].
    apply IH. unfold bitmap_set. by rewrite length_alter. }
  assert (Hcount : Z.of_nat (length hs) = ceil_div L BLOCK_SIZE)
    by (rewrite Hhslen; lia).
  assert (Hhsrange' : Forall (λ h, 0 ≤ h < NUM_BLOCKS) hs)
    by (eapply Forall_impl; [exact Hhsrange|]; simpl; lia).
  assert (Hhsnd : NoDup hs) by (unfold hs; by apply NoDup_rev_l).
  destruct (copy_data_aligned Hok (length D)
              D {| i_magic := INODE_MAGIC_NUM; size := 0; blocks := hs ++ rest |}
              fs1' hs rest 0 Hdisk1' ltac:(done) ltac:(done) ltac:(done)
              ltac:(done) ltac:(done) Hcount Hhsrange' Hhsnd)
    as (d' & Hcopy & Hd' & Hframe & tail & Hdata).
  { simpl. unfold MAX_FILE_SIZE in *. lia. }
  rewrite (bind_Ret _ _ _ _ _ Hcopy). simpl block_num.
  assert (Hlend' : Z.of_nat (length d') = NUM_BLOCKS) by apply Hd'.
  rewrite write_block_ok by (simpl; lia).
  set (iN := {| i_magic := INODE_MAGIC_NUM; size := 0 + L;
                blocks := hs ++ rest |}).
  exists (<[Z.to_nat h1 := bytes_of_inode iN]> d'), iN, hs, rest.
  assert (HiN : inode_ok iN).
  { pose proof (inode_magic_range Hok).
    split; [done|]. split; [simpl; unfold MAX_FILE_SIZE in *; lia|].
    split; simpl.
    - rewrite length_app, Hhslen. unfold rest. rewrite length_replicate. lia.
    - apply Forall_app. split.
      + eapply Forall_impl; [exact Hhsrange|]. simpl. lia.
      + apply Forall_replicate. lia. }
  split; [done|].
  split. { apply disk_ok_insert; [done|]. by apply (length_bytes_of_inode Hok). }
  split.
  { rewrite list_lookup_insert_ne by lia.
    rewrite Hframe; last first.
    { intros h Hh. rewrite Forall_forall in Hhsrange.
      specialize (Hhsrange _ Hh). lia. }
    unfold fs1'. simpl. rewrite list_lookup_insert_ne by lia. done. }
  split. { apply list_lookup_insert_eq. lia. }
  split; [exact HiN|]. split; [done|]. split; [simpl; lia|].
  split; [done|]. split; [done|].
  split.
  { simpl. apply Forall_app. split.
    - eapply Forall_impl; [exact Hhsrange|]. simpl. lia.
    - apply Forall_replicate. lia. }
  exists tail. rewrite <- Hdata. unfold file_data. f_equal.
  apply Forall_fmap_ext. rewrite Forall_forall. intros h Hh.
  rewrite list_lookup_insert_ne; [done|].
  intros Heq. apply Hh1hs.
  rewrite Forall_forall in Hhsrange. specialize (Hhsrange _ Hh).
  assert (h = h1) as -> by lia. done.
Qed.

Lemma after_append_cat d2 iN hs rest tail fs2 :
  disk_ok d2 →
  d2 !! Z.to_nat cur = Some (bytes_of_dir d1) →
  d2 !! Z.to_nat h1 = Some (bytes_of_inode iN) →
  inode_ok iN → i_magic iN = INODE_MAGIC_NUM → size iN = L →
  blocks iN = hs ++ rest → length hs = m →
  Forall (λ h, 0 ≤ h < NUM_BLOCKS) (blocks iN) →
  file_data d2 hs = D ++ tail →
  _bfs fs2 = d2 → _curDirHandle fs2 = cur →
  cat f fs2 = Ret (tt, with_response fs2 (_response fs2 ++ D ++ [NL])).
Proof.
  intros Hd2 Hcur2 Hh1blk HiN Hmagic Hsize Hblocks Hhslen Hrange Hdata
    Hfs2 Hcursor.
  destruct roundtrip_bounds as (HB & Hm & HLB & Hceil).
  destruct after_create_handles as (Hh1 & _).
  assert (Hdir2 : read_block (_curDirHandle fs2) fs2
                  = Ret (bytes_of_dir d1, fs2))
    by (apply read_block_ok; rewrite Hcursor, ?Hfs2; [lia|done]).
  assert (HisDir : IsDirectory (bytes_of_dir d1) = true).
  { unfold IsDirectory, bytes_of_dir. rewrite u32_le32. simpl.
    rewrite wrap32_small by apply u32_range. exact Hd. }
  assert (Hino2 : read_block (block_num e1) fs2 = Ret (bytes_of_inode iN, fs2))
    by (apply read_block_ok; rewrite ?Hfs2; [simpl; lia|done]).
  assert (HisIno : IsINode (bytes_of_inode iN) = true).
  { unfold IsINode, bytes_of_inode. rewrite u32_le32, Hmagic.
    rewrite wrap32_small by apply (inode_magic_range Hok). apply Z.eqb_refl. }
  assert (Hfind : ForEachDirEntry (dir_of_bytes (bytes_of_dir d1))
                    (name_matches f) fs2 = Ret (Some (i, e1), fs2)).
  { rewrite dir_of_bytes_of_dir by apply after_create_dir_ok.
    apply after_create_lookup. }
  unfold cat.
  rewrite (head_eq fs2 f _ _ _ _ _ Hdir2 HisDir Hfind Hino2 HisIno).
  rewrite (inode_of_bytes_of_inode _ HiN). cbv zeta. rewrite Hsize.
  destruct (Z.eqb_spec L 0); [lia|].
  destruct (Z.ltb_spec MAX_FILE_SIZE L); [lia|].
  assert (Hslots : ∀ j, 0 ≤ j ≤ L / BLOCK_SIZE → slot_readable (_bfs fs2) iN j).
  { intros j Hj. destruct HiN as (_ & _ & Hlen & _).
    destruct (blocks iN !! Z.to_nat j) as [h|] eqn:Hh; last first.
    { apply lookup_ge_None in Hh. lia. }
    rewrite Forall_lookup in Hrange. pose proof (Hrange _ _ Hh) as Hhr.
    rewrite Hfs2. destruct (disk_ok_lookup _ _ Hd2 Hhr) as (blk & Hblk & _).
    by exists h, blk. }
  erewrite bind_Ret; last first.
  { apply head_blocks_spec; [done|]. intros j Hj. apply Hslots.
    pose proof (Z.div_pos L BLOCK_SIZE). lia. }
  unfold respond, with_response. cbn [_response _bfs _curDirHandle _lastErr].
  rewrite <- app_assoc. do 4 f_equal.
  rewrite (head_chunks_take Hok); [|by rewrite Hfs2|lia|done].
  destruct (file_blocks_prefix (_bfs fs2) iN hs rest (L / BLOCK_SIZE + 1)
              Hblocks) as [more Hmore]; [lia|].
  rewrite Hmore, Hfs2, Hdata, <- app_assoc.
  rewrite take_app_length'; [done|lia].
Qed.

End AfterCreate.

(** The whole scenario on the file-system interface. *)
Lemma roundtrip_run :
  ∃ d1 d2,
    create f fs = Ret (tt, with_disk fs d1)
    ∧ append f D (with_disk fs d1) = Ret (tt, with_disk fs d2)
    ∧ cat f (with_disk fs d2)
      = Ret (tt, with_response (with_disk fs d2) (_response fs ++ D ++ [NL])).
Proof.
  destruct roundtrip_create as (h1 & t & i & e & Hfb & He & Hcreate).
  destruct (after_create_append h1 t i e Hfb He)
    as (d2 & iN & hs & rest & Happend & Hd2 & Hcur2 & Hh1 & HiN & Hmagic
        & Hsize & Hblocks & Hhslen & Hrange & tail & Hdata).
  eexists _, d2. split_and!; [exact Hcreate|exact Happend|].
  by apply (after_append_cat h1 t i e Hfb He d2 iN hs rest tail
              (with_disk fs d2)).
Qed.

End RoundTrip.

Lemma request_eq (command : M unit) fs fs' :
  command fs = Ret (tt, fs') →
  request command fs
  = Ret ((_lastErr fs', rev (pop_newlines (rev (_response fs'))) ++ [NL]),
         with_response (with_lastErr fs' kOK) []).
Proof. intros Hc. unfold request. by rewrite (bind_Ret _ _ _ _ _ Hc). Qed.

Lemma pop_newlines_rev_data (D : list Z) :
  last D ≠ Some NL →
  rev (pop_newlines (rev (D ++ [NL]))) = D.
Proof.
  intros Hlast. rewrite rev_app_distr. simpl.
  destruct (rev D) as [|c l] eqn:Hrev.
  - simpl. apply (f_equal (@rev Z)) in Hrev. by rewrite rev_involutive in Hrev.
  - assert (Hc : last D = Some c).
    { rewrite <- (rev_involutive D), Hrev. simpl. apply last_snoc. }
    simpl. destruct (Z.eqb_spec c NL) as [->|_]; [by rewrite Hc in Hlast|].
    by rewrite <- Hrev, rev_involutive.
Qed.

Section RoundTripClaim.
Context `{Blocks} (Hok : BlocksOk).

(** C3 (amended).  Let [f] be a name of at most [MAX_FNAME_SIZE] bytes that
    is not in the current directory, which has room for it, and let [D] be
    data without NUL of length [0 < |D| < MAX_FILE_SIZE]; let the disk be
    well-formed with the cursor on an allocated directory block and
    [1 + ceil(|D| / BLOCK_SIZE)] blocks free.  Then [create f; append f D;
    cat f] run to the end without error and leave exactly [D] followed by
    one newline in the response stream.  When [D] does not itself end in a
    newline, the three requests are answered [OK] and the body of the last
    reply is [D] followed by one newline. *)
Theorem create_append_cat_round_trip (fs : FileSys) (f D b bm : list Z) :
  disk_ok (_bfs fs) →
  0 < _curDirHandle fs < NUM_BLOCKS →
  _bfs fs !! Z.to_nat (_curDirHandle fs) = Some b →
  IsDirectory b = true →
  _bfs fs !! 0%nat = Some bm →
  bitmap_test bm (_curDirHandle fs) = true →
  ForEachDirEntry (dir_of_bytes b) (name_matches f) fs = Ret (None, fs) →
  num_entries (dir_of_bytes b) < MAX_DIR_ENTRIES →
  Exists (λ e, block_num e = kInvalidHandle) (dir_entries (dir_of_bytes b)) →
  Z.of_nat (strlen f) ≤ MAX_FNAME_SIZE →
  0 ∉ D →
  0 < Z.of_nat (length D) < MAX_FILE_SIZE →
  1 + ceil_div (Z.of_nat (length D)) BLOCK_SIZE
  ≤ Z.of_nat (length (free_blocks bm)) →
  _lastErr fs = kOK →
  _response fs = [] →
  ∃ fs',
    (create f;; append f D;; cat f) fs = Ret (tt, fs')
    ∧ _response fs' = D ++ [NL]
    ∧ _lastErr fs' = kOK
    ∧ (last D ≠ Some NL →
       (request (create f);; request (append f D);; request (cat f)) fs
       = Ret ((kOK, D ++ [NL]), with_response fs' [])).
Proof.
  intros Hdisk Hcur Hb Hd Hbm Hcurbit Hmiss Hroom Hslot Hname HD0 HDlen Hfree
    Herr Hresp.
  destruct (roundtrip_run Hok fs f D b bm Hdisk Hcur Hb Hd Hbm Hcurbit Hmiss
              Hroom Hslot Hname HD0 HDlen Hfree)
    as (d1 & d2 & Hcreate & Happend & Hcat).
  rewrite Hresp in Hcat. simpl in Hcat.
  eexists. split_and!.
  - rewrite (bind_Ret _ _ _ _ _ Hcreate), (bind_Ret _ _ _ _ _ Happend).
    exact Hcat.
  - done.
  - done.
  - intros Hlast.
    assert (Hquiet : ∀ d, with_response (with_lastErr (with_disk fs d) kOK) []
                          = with_disk fs d).
    { intros d. destruct fs. simpl in *. by subst. }
    rewrite (bind_Ret _ _ _ _ _ (request_eq _ _ _ Hcreate)), Hquiet.
    rewrite (bind_Ret _ _ _ _ _ (request_eq _ _ _ Happend)), Hquiet.
    rewrite (request_eq _ _ _ Hcat). simpl.
    rewrite Herr, (pop_newlines_rev_data D Hlast).
    unfold with_response, with_lastErr, with_disk. simpl. by rewrite Herr.
Qed.

End RoundTripClaim.

(** * Further properties of the operations and of the protocol *)

(** ** Names that are missing and blocks of the wrong kind *)

Section ErrorPaths.
Context `{Blocks} (Hok : BlocksOk).

(** The common start of the operations: the current directory is read
    and passes the magic check. *)
#[local] Ltac enter_directory Hr Hd :=
  unfold curDirHandle; unfold mbind at 1, M_bind at 1;
  rewrite (bind_Ret _ _ _ _ _ (ReadDirBlock_eq _ _ _ Hr)), Hd;
  cbv beta iota delta [negb].

(** X1.  When the cursor is on a directory that has no entry of the given
    name, [rmdir], [stat], [cat], [head] with any count, [rm] and [append]
    of non-empty data all end with [kFileNotExists] as the last error and
    leave the disk, the cursor and the response as they were. *)
Theorem missing_name_reports_not_exists (fs : FileSys) (a_name b : list Z) :
  read_block (_curDirHandle fs) fs = Ret (b, fs) →
  IsDirectory b = true →
  ForEachDirEntry (dir_of_bytes b) (name_matches a_name) fs = Ret (None, fs) →
  let missing := Ret (tt, with_lastErr fs kFileNotExists) in
  rmdir a_name fs = missing
  ∧ stat a_name fs = missing
  ∧ cat a_name fs = missing
  ∧ (∀ n, head a_name n fs = missing)
  ∧ rm a_name fs = missing
  ∧ (∀ d, strlen d ≠ 0%nat → append a_name d fs = missing).
Proof.
  intros Hr Hd Hfind missing.
  assert (Hhead : ∀ n, head a_name n fs = missing).
  { intros n. unfold head. enter_directory Hr Hd.
    by rewrite (bind_Ret _ _ _ _ _ Hfind). }
  split_and!; [| | |done| |].
  - unfold rmdir. enter_directory Hr Hd.
    by rewrite (bind_Ret _ _ _ _ _ Hfind).
  - unfold stat. enter_directory Hr Hd.
    by rewrite (bind_Ret _ _ _ _ _ Hfind).
  - apply Hhead.
  - unfold rm. enter_directory Hr Hd.
    by rewrite (bind_Ret _ _ _ _ _ Hfind).
  - intros d Hdata. unfold append.
    destruct (strlen d) as [|len]; [done|].
    change (Nat.eqb (S len) 0) with false. cbv iota.
    enter_directory Hr Hd.
    by rewrite (bind_Ret _ _ _ _ _ Hfind).
Qed.

(** X2.  When the name is found but the block of the entry does not carry
    the inode magic, [cat], [head], [rm] and [append] of non-empty data end
    with [kFileIsDir] and change nothing else: no block is read further,
    reclaimed or written. *)
Theorem file_operations_refuse_non_files
    (fs : FileSys) (a_name b target : list Z) (i : nat) (e : DirEntry) :
  read_block (_curDirHandle fs) fs = Ret (b, fs) →
  IsDirectory b = true →
  ForEachDirEntry (dir_of_bytes b) (name_matches a_name) fs
  = Ret (Some (i, e), fs) →
  read_block (block_num e) fs = Ret (target, fs) →
  IsINode target = false →
  let refused := Ret (tt, with_lastErr fs kFileIsDir) in
  cat a_name fs = refused
  ∧ (∀ n, head a_name n fs = refused)
  ∧ rm a_name fs = refused
  ∧ (∀ d, strlen d ≠ 0%nat → append a_name d fs = refused).
Proof.
  intros Hr Hd Hfind Ht Hi refused.
  assert (Hhead : ∀ n, head a_name n fs = refused).
  { intros n. unfold head. enter_directory Hr Hd.
    rewrite (bind_Ret _ _ _ _ _ Hfind).
    by rewrite (bind_Ret _ _ _ _ _ (ReadINodeBlock_eq _ _ _ Ht)), Hi. }
  split_and!; [apply Hhead|done| |].
  - unfold rm. enter_directory Hr Hd.
    rewrite (bind_Ret _ _ _ _ _ Hfind).
    by rewrite (bind_Ret _ _ _ _ _ (ReadINodeBlock_eq _ _ _ Ht)), Hi.
  - intros d Hdata. unfold append.
    destruct (strlen d) as [|len]; [done|].
    change (Nat.eqb (S len) 0) with false. cbv iota.
    enter_directory Hr Hd.
    rewrite (bind_Ret _ _ _ _ _ Hfind).
    by rewrite (bind_Ret _ _ _ _ _ (ReadINodeBlock_eq _ _ _ Ht)), Hi.
Qed.

(** X3.  [rmdir] of a name whose block is not a directory ends with
    [kFileNotDir]; of a directory whose count of entries is not zero, with
    [kDirNotEmpty].  In both cases nothing is reclaimed and the state is
    otherwise unchanged. *)
Theorem rmdir_refuses_files_and_non_empty_directories
    (fs : FileSys) (a_name b target : list Z) (i : nat) (e : DirEntry) :
  read_block (_curDirHandle fs) fs = Ret (b, fs) →
  IsDirectory b = true →
  ForEachDirEntry (dir_of_bytes b) (name_matches a_name) fs
  = Ret (Some (i, e), fs) →
  read_block (block_num e) fs = Ret (target, fs) →
  (IsDirectory target = false →
   rmdir a_name fs = Ret (tt, with_lastErr fs kFileNotDir))
  ∧ (IsDirectory target = true → num_entries (dir_of_bytes target) ≠ 0 →
     rmdir a_name fs = Ret (tt, with_lastErr fs kDirNotEmpty)).
Proof.
  intros Hr Hd Hfind Ht.
  assert (Heq : rmdir a_name fs
    = ('(rmDir, ok') ← ReadDirBlock (block_num e);
       if negb ok' then set_lastErr kFileNotDir
       else if num_entries rmDir =? 0 then
         reclaim_block (block_num e);;
         let e' := {| name := name e; block_num := kInvalidHandle |} in
         write_block (_curDirHandle fs)
           (bytes_of_dir
              (set_num_entries (set_entry (dir_of_bytes b) i e')
                 (wrap32 (num_entries (dir_of_bytes b) - 1))))
       else set_lastErr kDirNotEmpty) fs).
  { unfold rmdir. enter_directory Hr Hd.
    by rewrite (bind_Ret _ _ _ _ _ Hfind). }
  rewrite Heq, (bind_Ret _ _ _ _ _ (ReadDirBlock_eq _ _ _ Ht)).
  split.
  - intros ->. done.
  - intros -> Hn. cbv beta iota delta [negb]. apply Z.eqb_neq in Hn.
    by rewrite Hn.
Qed.

(** X4.  [append] to a file of size at most [MAX_FILE_SIZE] of data longer
    than the room left ([MAX_FILE_SIZE - size]) ends with
    [kAppendExceedsMaxSize] before any block is allocated or written. *)
Theorem append_beyond_max_size_is_refused
    (fs : FileSys) (a_name a_data b ib : list Z) (i : nat) (e : DirEntry) :
  read_block (_curDirHandle fs) fs = Ret (b, fs) →
  IsDirectory b = true →
  ForEachDirEntry (dir_of_bytes b) (name_matches a_name) fs
  = Ret (Some (i, e), fs) →
  read_block (block_num e) fs = Ret (ib, fs) →
  IsINode ib = true →
  size (inode_of_bytes ib) ≤ MAX_FILE_SIZE →
  MAX_FILE_SIZE - size (inode_of_bytes ib) < Z.of_nat (strlen a_data) →
  append a_name a_data fs = Ret (tt, with_lastErr fs kAppendExceedsMaxSize).
Proof.
  intros Hr Hd Hfind Hri Hi Hs Hlong.
  destruct (inode_of_bytes_ok ib) as (_ & Hsz & _).
  pose proof (file_size_fits Hok).
  assert (Hdata : strlen a_data ≠ 0%nat) by lia.
  rewrite (append_eq _ _ _ _ _ _ _ Hdata Hr Hd Hfind Hri Hi). cbv zeta.
  rewrite wrap32_small by lia.
  by destruct (Z.ltb_spec (MAX_FILE_SIZE - size (inode_of_bytes ib))
                 (Z.of_nat (strlen a_data))); [|lia].
Qed.

End ErrorPaths.

(** ** [MakeBlock] when no entry is made *)

Section MakeBlockFailure.
Context `{Blocks} (Hok : BlocksOk).

(** [InsertIntoDirectory] reads and writes nothing of the state but the
    last error, which it sets or leaves alone: it does the same in every
    state. *)
Lemma InsertIntoDirectory_frame a_dir a_handle a_name fs r a_dir' fs' :
  InsertIntoDirectory a_dir a_handle a_name fs = Ret ((r, a_dir'), fs') →
  ∃ err : option FileError,
    ∀ fs2, InsertIntoDirectory a_dir a_handle a_name fs2
           = Ret ((r, a_dir'), from_option (with_lastErr fs2) fs2 err).
Proof.
  unfold InsertIntoDirectory.
  intros (found & fs1 & Hfind & Hrest)%bind_Ret_inv.
  apply name_lookup_pure in Hfind as [-> Hfind].
  assert (Hfind' : ∀ fs2, ForEachDirEntry a_dir (name_matches a_name) fs2
                          = Ret (found, fs2)) by apply Hfind.
  destruct found as [x|].
  { injection Hrest as <- <- <-. exists (Some kFileExists).
    intros fs2. by rewrite (bind_Ret _ _ _ _ _ (Hfind' fs2)). }
  destruct (Z.leb_spec MAX_DIR_ENTRIES (num_entries a_dir)).
  { injection Hrest as <- <- <-. exists (Some kDirFull).
    intros fs2. by rewrite (bind_Ret _ _ _ _ _ (Hfind' fs2)). }
  destruct (Z.ltb_spec MAX_FNAME_SIZE (Z.of_nat (strlen a_name))).
  { injection Hrest as <- <- <-. exists (Some kFileNameTooLong).
    intros fs2. by rewrite (bind_Ret _ _ _ _ _ (Hfind' fs2)). }
  apply bind_Ret_inv in Hrest as (slot & fs2 & Hslot & Hrest).
  destruct (slot_lookup_ok 0 (dir_entries a_dir)) as (slot' & Hslot' & _).
  unfold ForEachDirEntry in Hslot. rewrite Hslot' in Hslot.
  injection Hslot as <- <-. exists None.
  intros fs2. rewrite (bind_Ret _ _ _ _ _ (Hfind' fs2)).
  unfold ForEachDirEntry. rewrite (bind_Ret _ _ _ _ _ (Hslot' fs2)).
  destruct slot' as [[i e]|]; by injection Hrest as <- <- <-.
Qed.

(** X5.  When [InsertIntoDirectory] refuses the entry, [mkdir] and [create]
    give the block they had taken back to the allocator: both return the
    state that the refusal left, and its disk, bitmap included, is the disk
    before the call. *)
Theorem failed_insert_gives_the_block_back
    (fs : FileSys) (a_name b bm : list Z) (handle : Z) (a_dir' : dirblock_t)
    (fs' : FileSys) :
  read_block (_curDirHandle fs) fs = Ret (b, fs) →
  _bfs fs !! 0%nat = Some bm →
  first_free bm = Some handle →
  InsertIntoDirectory (dir_of_bytes b) handle a_name fs
  = Ret ((false, a_dir'), fs') →
  mkdir a_name fs = Ret (tt, fs')
  ∧ create a_name fs = Ret (tt, fs')
  ∧ _bfs fs' = _bfs fs.
Proof.
  intros Hr Hbm Hfree Hins.
  pose proof (num_blocks_min Hok) as Hnum.
  pose proof Hfree as [Hrange Hclear]%first_free_inv.
  destruct (InsertIntoDirectory_frame _ _ _ _ _ _ _ Hins) as (err & Hany).
  rewrite Hany in Hins. injection Hins as <-.
  assert (Hmake : ∀ a_block,
    MakeBlock a_block a_name fs
    = Ret (tt, from_option (with_lastErr fs) fs err)).
  { intros a_block. unfold MakeBlock, curDirHandle.
    unfold mbind at 1, M_bind at 1. rewrite (bind_Ret _ _ _ _ _ Hr).
    erewrite bind_Ret; [|by rewrite (get_free_block_ok _ _ Hnum Hbm), Hfree].
    destruct (Z.eqb_spec handle kInvalidHandle) as [->|_];
      [unfold kInvalidHandle in Hrange; lia|].
    rewrite (bind_Ret _ _ _ _ _ (Hany _)). cbv beta iota.
    rewrite (reclaim_block_ok _ _ (bitmap_set bm handle)); [|lia..|];
      last first.
    { destruct err; simpl; apply list_lookup_insert_eq;
        by apply lookup_lt_Some in Hbm. }
    rewrite bitmap_clear_set by done. f_equal. f_equal.
    destruct err, fs; unfold with_disk, with_lastErr; simpl in *;
      by rewrite list_insert_insert_eq, list_insert_id. }
  split_and!; [apply Hmake..|by destruct err].
Qed.

(** X6.  On a disk without a free block [mkdir] and [create] end with
    [kDiskFull] for every name, also for one that exists already or is too
    long: the block is requested before the directory is looked at. *)
Theorem full_disk_is_reported_before_the_name_is_checked
    (fs : FileSys) (a_name b bm : list Z) :
  read_block (_curDirHandle fs) fs = Ret (b, fs) →
  _bfs fs !! 0%nat = Some bm →
  first_free bm = None →
  mkdir a_name fs = Ret (tt, with_lastErr fs kDiskFull)
  ∧ create a_name fs = Ret (tt, with_lastErr fs kDiskFull).
Proof.
  intros Hr Hbm Hfree.
  pose proof (num_blocks_min Hok) as Hnum.
  assert (Hmake : ∀ a_block,
    MakeBlock a_block a_name fs = Ret (tt, with_lastErr fs kDiskFull)).
  { intros a_block. unfold MakeBlock, curDirHandle.
    unfold mbind at 1, M_bind at 1. rewrite (bind_Ret _ _ _ _ _ Hr).
    erewrite bind_Ret; [|by rewrite (get_free_block_ok _ _ Hnum Hbm), Hfree].
    done. }
  split; apply Hmake.
Qed.

End MakeBlockFailure.

(** ** Bytes read as a struct and written back *)

Lemma le32_u32 (bs : list Z) :
  Forall (λ x, 0 ≤ x < 256) bs → (4 ≤ length bs)%nat →
  le32 (u32 bs) = take 4 bs.
Proof.
  intros Hbs Hlen.
  destruct bs as [|b0 [|b1 [|b2 [|b3 bs]]]]; simpl in Hlen; try lia.
  apply Forall_cons in Hbs as [H0 Hbs]. apply Forall_cons in Hbs as [H1 Hbs].
  apply Forall_cons in Hbs as [H2 Hbs]. apply Forall_cons in Hbs as [H3 _].
  unfold le32, u32. cbn [take].
  rewrite (Z.mod_small b0), (Z.mod_small b1), (Z.mod_small b2),
    (Z.mod_small b3) by lia.
  set (v := b0 + 256 * b1 + 65536 * b2 + 16777216 * b3).
  assert (E0 : v mod 256 = b0)
    by (unfold v; Z.div_mod_to_equations; lia).
  assert (E1 : (v / 256) mod 256 = b1)
    by (unfold v; Z.div_mod_to_equations; lia).
  assert (E2 : (v / 65536) mod 256 = b2)
    by (unfold v; Z.div_mod_to_equations; lia).
  assert (E3 : (v / 16777216) mod 256 = b3)
    by (unfold v; Z.div_mod_to_equations; lia).
  by rewrite E0, E1, E2, E3.
Qed.

Section Recode.
Context `{Blocks} (Hok : BlocksOk).

Lemma bytes_of_entry_of_bytes (bs : list Z) :
  Forall (λ x, 0 ≤ x < 256) bs → (ENTRY_LEN ≤ length bs)%nat →
  bytes_of_entry (entry_of_bytes bs) = take ENTRY_LEN bs.
Proof.
  intros Hbs Hlen. unfold bytes_of_entry, entry_of_bytes, ENTRY_LEN in *.
  cbn [name block_num].
  rewrite le32_u32; [|by apply Forall_drop|rewrite length_drop; lia].
  apply take_take_drop.
Qed.

Lemma bytes_of_entries_of_bytes (n : nat) (bs : list Z) :
  Forall (λ x, 0 ≤ x < 256) bs → (n * ENTRY_LEN ≤ length bs)%nat →
  concat (bytes_of_entry <$> entries_of_bytes n bs) = take (n * ENTRY_LEN) bs.
Proof.
  revert bs. induction n as [|n IH]; intros bs Hbs Hlen; [done|].
  cbn [entries_of_bytes fmap list_fmap concat].
  rewrite bytes_of_entry_of_bytes by (done || lia).
  rewrite IH; [|by apply Forall_drop|rewrite length_drop; lia].
  apply take_take_drop.
Qed.

Lemma take_entries_of_bytes (i n : nat) (bs : list Z) :
  (i ≤ n)%nat → take i (entries_of_bytes n bs) = entries_of_bytes i bs.
Proof.
  revert n bs. induction i as [|i IH]; intros n bs Hi; [done|].
  destruct n as [|n]; [lia|]. simpl. f_equal. apply IH. lia.
Qed.

Lemma drop_entries_of_bytes (i n : nat) (bs : list Z) :
  drop i (entries_of_bytes n bs)
  = entries_of_bytes (n - i) (drop (i * ENTRY_LEN) bs).
Proof.
  revert n bs. induction i as [|i IH]; intros n bs.
  - by rewrite Nat.sub_0_r.
  - destruct n as [|n]; [done|]. simpl. by rewrite IH, drop_drop.
Qed.

Lemma lookup_entries_of_bytes (i n : nat) (bs : list Z) (e : DirEntry) :
  entries_of_bytes n bs !! i = Some e →
  (i < n)%nat ∧ e = entry_of_bytes (drop (i * ENTRY_LEN) bs).
Proof.
  intros He.
  assert (Hd : drop i (entries_of_bytes n bs) !! 0%nat = Some e).
  { by rewrite lookup_drop, Nat.add_0_r. }
  rewrite drop_entries_of_bytes in Hd.
  destruct (n - i)%nat as [|k] eqn:Hk; [done|].
  simpl in Hd. injection Hd as <-. split; [lia|done].
Qed.

(** Writing back a directory read from a block of bytes, with another
    name in slot [i], changes the name bytes of that slot and no other
    byte. *)
Lemma bytes_of_dir_set_name (b : list Z) (i : nat) (e : DirEntry)
    (a_name : list Z) :
  Z.of_nat (length b) = BLOCK_SIZE →
  Forall (λ x, 0 ≤ x < 256) b →
  dir_entries (dir_of_bytes b) !! i = Some e →
  Z.of_nat (strlen a_name) ≤ MAX_FNAME_SIZE →
  bytes_of_dir
    (set_entry (dir_of_bytes b) i
       {| name := strcpy (name e) a_name; block_num := block_num e |})
  = name_bytes_replaced b i a_name.
Proof.
  intros Hlen Hb He Hname.
  pose proof (dir_fills_block Hok) as Hfill.
  pose proof (dir_entries_pos Hok) as Hpos.
  pose proof (fname_size_nonneg Hok) as Hfn.
  pose proof (ENTRY_LEN_eq Hok) as HE.
  set (n := Z.to_nat MAX_DIR_ENTRIES).
  set (bs := drop 8 b).
  assert (Hbs : Forall (λ x, 0 ≤ x < 256) bs) by (by apply Forall_drop).
  assert (Hblen : length b = (8 + n * ENTRY_LEN)%nat).
  { apply Nat2Z.inj. rewrite Nat2Z.inj_add, Nat2Z.inj_mul, HE. unfold n.
    rewrite Z2Nat.id by lia. lia. }
  assert (Hbslen : length bs = (n * ENTRY_LEN)%nat).
  { unfold bs. rewrite length_drop. lia. }
  assert (Hb8 : (8 ≤ length b)%nat) by lia.
  cbn [dir_of_bytes dir_entries] in He. fold n bs in He.
  apply lookup_entries_of_bytes in He as [Hi ->].
  unfold bytes_of_dir, set_entry, dir_of_bytes.
  cbn [d_magic num_entries dir_entries name block_num]. fold n bs.
  rewrite le32_u32 by (done || lia).
  rewrite le32_u32; [|by apply Forall_drop|rewrite length_drop; lia].
  rewrite insert_take_drop
    by (rewrite (proj1 (entries_of_bytes_ok n bs ltac:(lia))); done).
  rewrite take_entries_of_bytes by lia.
  rewrite drop_entries_of_bytes.
  rewrite fmap_app, concat_app. cbn [fmap list_fmap concat].
  rewrite bytes_of_entries_of_bytes by (done || nia).
  rewrite bytes_of_entries_of_bytes;
    [|by apply Forall_drop|rewrite length_drop; nia].
  unfold bytes_of_entry. cbn [name block_num].
  unfold entry_of_bytes at 2. cbn [block_num].
  rewrite le32_u32;
    [|by do 2 apply Forall_drop
     |rewrite !length_drop; unfold ENTRY_LEN in *; nia].
  unfold entry_of_bytes. cbn [name].
  unfold name_bytes_replaced. cbv zeta.
  assert (Htake : take (8 + i * ENTRY_LEN) b
                  = take 4 b ++ take 4 (drop 4 b) ++ take (i * ENTRY_LEN) bs).
  { unfold bs. rewrite app_assoc, (take_take_drop b 4 4).
    by rewrite (take_take_drop b 8). }
  rewrite Htake, <- !app_assoc. do 3 f_equal.
  unfold bs. rewrite !drop_drop. f_equal.
  set (X := drop (8 + i * ENTRY_LEN + NAME_LEN) b).
  replace (drop (8 + S i * ENTRY_LEN) b) with (drop 4 X).
  - rewrite take_take_drop. apply take_ge.
    unfold X. rewrite length_drop. unfold ENTRY_LEN in *. nia.
  - unfold X. rewrite drop_drop. f_equal. unfold ENTRY_LEN. lia.
Qed.

End Recode.

(** ** Making and removing *)

(** A slot that is not in use matches no name. *)
Lemma name_matches_unused `{Blocks} a_name e fs :
  block_num e = kInvalidHandle → name_matches a_name e fs = Ret (false, fs).
Proof. intros He. unfold name_matches. by rewrite He. Qed.

(** Replacing an unused slot by an unused slot changes no lookup. *)
Lemma name_lookup_unused_slot `{Blocks} k es j e e' a_name fs :
  es !! j = Some e →
  block_num e = kInvalidHandle → block_num e' = kInvalidHandle →
  ForEachDirEntry_from k (<[j := e']> es) (name_matches a_name) fs
  = ForEachDirEntry_from k es (name_matches a_name) fs.
Proof.
  revert k j. induction es as [|e0 es IH]; intros k j Hj He He'; [done|].
  destruct j as [|j]; simpl in *.
  - injection Hj as ->. unfold mbind, M_bind.
    by rewrite !name_matches_unused.
  - unfold mbind, M_bind.
    destruct (name_matches a_name e0 fs) as [[[] fs0]| |] eqn:Hm; try done.
    assert (fs0 = fs) as ->.
    { revert Hm. unfold name_matches, mret, M_ret.
      destruct (block_num e0 =? kInvalidHandle); [by intros [= <-]|].
      destruct (strcmp_eq _ _); [by intros [= _ <-]|done]. }
    by apply IH.
Qed.

Section FreshBlocks.
Context `{Blocks} (Hok : BlocksOk).

Lemma IsDirectory_bytes_of_dir d :
  dir_ok d → IsDirectory (bytes_of_dir d) = (d_magic d =? DIR_MAGIC_NUM).
Proof.
  intros (Hm & _). unfold IsDirectory, bytes_of_dir.
  by rewrite u32_le32, wrap32_small.
Qed.

Lemma InitializeBlock_dir_ok : dir_ok InitializeBlock_dir.
Proof.
  pose proof (dir_magic_range Hok).
  split; [done|]. split; [done|]. split; simpl.
  - by rewrite length_replicate.
  - apply Forall_replicate. split; simpl; [|done].
    by rewrite length_replicate.
Qed.

Lemma InitializeBlock_inode_ok : inode_ok InitializeBlock_inode.
Proof.
  pose proof (inode_magic_range Hok).
  split; [done|]. split; [done|]. split; simpl.
  - by rewrite length_replicate.
  - apply Forall_replicate. lia.
Qed.

Lemma IsINode_bytes_of_inode iN :
  inode_ok iN → IsINode (bytes_of_inode iN) = (i_magic iN =? INODE_MAGIC_NUM).
Proof.
  intros (Hm & _). unfold IsINode, bytes_of_inode.
  by rewrite u32_le32, wrap32_small.
Qed.


End FreshBlocks.

Section Made.
Context `{Blocks} (Hok : BlocksOk).
Variables (fs : FileSys) (a_name b bm : list Z) (h : Z).
Hypothesis Hdisk : disk_ok (_bfs fs).
Hypothesis Hcur : 0 < _curDirHandle fs < NUM_BLOCKS.
Hypothesis Hb : _bfs fs !! Z.to_nat (_curDirHandle fs) = Some b.
Hypothesis Hd : IsDirectory b = true.
Hypothesis Hbm : _bfs fs !! 0%nat = Some bm.
Hypothesis Hcurbit : bitmap_test bm (_curDirHandle fs) = true.
Hypothesis Hmiss :
  ForEachDirEntry (dir_of_bytes b) (name_matches a_name) fs = Ret (None, fs).
Hypothesis Hroom : num_entries (dir_of_bytes b) < MAX_DIR_ENTRIES.
Hypothesis Hslot :
  Exists (λ e, block_num e = kInvalidHandle) (dir_entries (dir_of_bytes b)).
Hypothesis Hname : Z.of_nat (strlen a_name) ≤ MAX_FNAME_SIZE.
Hypothesis Hfree : first_free bm = Some h.

#[local] Abbreviation cur := (_curDirHandle fs).

Lemma made_handle : 2 ≤ h < NUM_BLOCKS ∧ h ≠ cur ∧ bitmap_test bm h = false.
Proof.
  pose proof Hfree as [Hrange Hclear]%first_free_inv.
  split_and!; [lia..| |done]. intros ->. congruence.
Qed.

Lemma made_dir_ok : dir_ok (dir_of_bytes b).
Proof. apply (dir_of_bytes_ok Hok). by eapply disk_ok_block. Qed.

Lemma made_miss fs2 :
  ForEachDirEntry (dir_of_bytes b) (name_matches a_name) fs2 = Ret (None, fs2).
Proof. by apply (name_lookup_pure _ _ _ _ _ _ Hmiss). Qed.

Lemma made_slot :
  ∃ i e,
    dir_entries (dir_of_bytes b) !! i = Some e
    ∧ block_num e = kInvalidHandle
    ∧ first_unused_slot (dir_of_bytes b) i
    ∧ ∀ handle fs2,
        InsertIntoDirectory (dir_of_bytes b) handle a_name fs2
        = Ret ((true,
                set_num_entries
                  (set_entry (dir_of_bytes b) i
                     {| name := strcpy (name e) a_name;
                        block_num := handle |})
                  (wrap32 (num_entries (dir_of_bytes b) + 1))), fs2).
Proof.
  destruct (slot_lookup_ok 0 (dir_entries (dir_of_bytes b)))
    as (found & Hf & Hsome).
  destruct (Hsome Hslot) as [[i e] ->].
  pose proof (Hf fs) as [_ (k & -> & Hk & He & Hfirst)]%slot_lookup_inv.
  exists k, e. split_and!; [done..|split; [by exists e|done]|].
  intros handle fs2.
  unfold InsertIntoDirectory. rewrite (bind_Ret _ _ _ _ _ (made_miss fs2)).
  destruct (Z.leb_spec MAX_DIR_ENTRIES (num_entries (dir_of_bytes b)));
    [lia|].
  destruct (Z.ltb_spec MAX_FNAME_SIZE (Z.of_nat (strlen a_name))); [lia|].
  unfold ForEachDirEntry. by rewrite (bind_Ret _ _ _ _ _ (Hf fs2)).
Qed.

Section Slot.
Variables (i : nat) (e : DirEntry).
Hypothesis He : dir_entries (dir_of_bytes b) !! i = Some e.
Hypothesis Hunused : block_num e = kInvalidHandle.
Hypothesis Hins : ∀ handle fs2,
  InsertIntoDirectory (dir_of_bytes b) handle a_name fs2
  = Ret ((true,
          set_num_entries
            (set_entry (dir_of_bytes b) i
               {| name := strcpy (name e) a_name; block_num := handle |})
            (wrap32 (num_entries (dir_of_bytes b) + 1))), fs2).

#[local] Abbreviation e1 :=
  {| name := strcpy (name e) a_name; block_num := h |}.
#[local] Abbreviation e0 :=
  {| name := strcpy (name e) a_name; block_num := kInvalidHandle |}.
#[local] Abbreviation d1 :=
  (set_num_entries (set_entry (dir_of_bytes b) i e1)
     (wrap32 (num_entries (dir_of_bytes b) + 1))).
#[local] Abbreviation d2 := (set_entry (dir_of_bytes b) i e0).
#[local] Abbreviation disk1 a_block :=
  (<[Z.to_nat cur := bytes_of_dir d1]>
     (<[Z.to_nat h := a_block]> (<[0%nat := bitmap_set bm h]> (_bfs fs)))).
#[local] Abbreviation disk2 a_block :=
  (<[Z.to_nat cur := bytes_of_dir d2]> (<[Z.to_nat h := a_block]> (_bfs fs))).

Lemma made_state a_block :
  MakeBlock a_block a_name fs = Ret (tt, with_disk fs (disk1 a_block)).
Proof.
  apply (MakeBlock_inserted Hok _ _ _ b bm); try done.
  - apply Hdisk.
  - apply read_block_ok; [lia|done].
Qed.

Lemma made_fits : NUM_BLOCKS < 4294967296 ∧ MAX_DIR_ENTRIES < 4294967296.
Proof.
  pose proof (bitmap_fits Hok). pose proof (inode_fills_block Hok).
  pose proof (file_size_fits Hok) as Hfit. pose proof (data_blocks_pos Hok).
  pose proof (dir_fills_block Hok). pose proof (fname_size_nonneg Hok).
  pose proof (dir_entries_pos Hok).
  unfold MAX_FILE_SIZE in Hfit. split; nia.
Qed.

Lemma made_d1_ok : dir_ok d1.
Proof.
  destruct made_handle as (Hh & _). destruct made_fits.
  apply (dir_ok_insert Hok); [apply made_dir_ok|done|done|lia].
Qed.

Lemma made_d2_ok : dir_ok d2.
Proof.
  destruct made_dir_ok as (Hm & Hn & Hlen & Hes).
  split; [done|]. split; [done|]. split; simpl; [by rewrite length_insert|].
  apply Forall_insert; [done|]. split; simpl; [|done].
  rewrite Forall_lookup in Hes. destruct (Hes _ _ He) as [Hlen' _].
  rewrite length_strcpy; [done|]. rewrite Hlen'. unfold NAME_LEN.
  pose proof (fname_size_nonneg Hok). lia.
Qed.

Lemma made_disk a_block :
  Z.of_nat (length a_block) = BLOCK_SIZE →
  disk_ok (disk1 a_block)
  ∧ disk1 a_block !! Z.to_nat cur = Some (bytes_of_dir d1)
  ∧ disk1 a_block !! Z.to_nat h = Some a_block
  ∧ disk1 a_block !! 0%nat = Some (bitmap_set bm h).
Proof.
  intros Hblock. destruct made_handle as (Hh & Hne & _).
  pose proof Hdisk as [Hlen _].
  split_and!.
  - repeat apply disk_ok_insert; try done.
    + unfold bitmap_set. rewrite length_alter. by eapply disk_ok_block.
    + apply (length_bytes_of_dir Hok), made_d1_ok.
  - apply list_lookup_insert_eq. rewrite !length_insert. lia.
  - rewrite list_lookup_insert_ne by lia.
    apply list_lookup_insert_eq. rewrite !length_insert. lia.
  - rewrite !list_lookup_insert_ne by lia.
    apply list_lookup_insert_eq. lia.
Qed.

Lemma made_lookup fs2 :
  ForEachDirEntry d1 (name_matches a_name) fs2 = Ret (Some (i, e1), fs2).
Proof.
  destruct made_handle as (Hh & _).
  apply (name_lookup_insert 0 (dir_entries (dir_of_bytes b)) a_name fs2 i e h);
    [apply made_miss|done|unfold kInvalidHandle; lia].
Qed.

Lemma made_ReadDirBlock fs2 :
  _curDirHandle fs2 = cur →
  _bfs fs2 !! Z.to_nat cur = Some (bytes_of_dir d1) →
  read_block (_curDirHandle fs2) fs2 = Ret (bytes_of_dir d1, fs2)
  ∧ IsDirectory (bytes_of_dir d1) = true
  ∧ dir_of_bytes (bytes_of_dir d1) = d1.
Proof.
  intros -> Hblk. split_and!.
  - apply read_block_ok; [lia|done].
  - rewrite IsDirectory_bytes_of_dir by apply made_d1_ok. exact Hd.
  - apply dir_of_bytes_of_dir, made_d1_ok.
Qed.

(** The end of [rmdir] and of [rm]: the block goes back to the bitmap and
    the entry is cleared.  Together with the making of the block this
    leaves the bitmap and the count of entries as they were. *)
Lemma made_removed a_block :
  Z.of_nat (length a_block) = BLOCK_SIZE →
  (reclaim_block (block_num e1);;
   write_block cur
     (bytes_of_dir
        (set_num_entries
           (set_entry d1 i {| name := name e1; block_num := kInvalidHandle |})
           (wrap32 (num_entries d1 - 1)))))
    (with_disk fs (disk1 a_block))
  = Ret (tt, with_disk fs (disk2 a_block)).
Proof.
  intros Hblock. destruct made_handle as (Hh & Hne & Hclear).
  destruct (made_disk a_block Hblock) as (Hd1 & Hcur1 & Hh1 & Hbm1).
  destruct made_fits as [_ Hfits].
  destruct made_dir_ok as (_ & Hn & _).
  pose proof Hdisk as [Hlen _].
  assert (Hdir :
    set_num_entries
      (set_entry d1 i {| name := name e1; block_num := kInvalidHandle |})
      (wrap32 (num_entries d1 - 1))
    = d2).
  { unfold set_num_entries, set_entry.
    cbn [d_magic num_entries dir_entries name].
    rewrite list_insert_insert_eq. f_equal.
    rewrite (wrap32_small (_ + 1)) by lia.
    rewrite wrap32_small by lia. lia. }
  rewrite Hdir.
  erewrite bind_Ret; last first.
  { apply reclaim_block_ok; [simpl; lia|lia|exact Hbm1]. }
  rewrite write_block_ok; [|lia|simpl; rewrite !length_insert; lia].
  f_equal. f_equal. unfold with_disk. cbn [_bfs _curDirHandle _lastErr _response].
  f_equal. rewrite bitmap_clear_set by done.
  apply list_eq. intros n.
  destruct (decide (n = Z.to_nat cur)) as [->|Hn1].
  { rewrite !list_lookup_insert_eq; rewrite ?length_insert; lia || done. }
  rewrite !(list_lookup_insert_ne _ (Z.to_nat cur)) by done.
  destruct (decide (n = 0%nat)) as [->|Hn0].
  { rewrite list_lookup_insert_eq by (rewrite ?length_insert; lia).
    rewrite list_lookup_insert_ne by lia. done. }
  rewrite !(list_lookup_insert_ne _ 0%nat) by done.
  rewrite (list_lookup_insert_ne _ (Z.to_nat cur)) by done.
  destruct (decide (n = Z.to_nat h)) as [->|Hnh].
  { rewrite !list_lookup_insert_eq; rewrite ?length_insert; lia || done. }
  rewrite !(list_lookup_insert_ne _ (Z.to_nat h)) by done.
  by rewrite (list_lookup_insert_ne _ 0%nat) by done.
Qed.

(** What is left of the making once the block has been removed again. *)
Lemma made_removed_state a_block :
  Z.of_nat (length a_block) = BLOCK_SIZE →
  let fs' := with_disk fs (disk2 a_block) in
  _bfs fs' !! 0%nat = Some bm
  ∧ (∀ n, n ≠ Z.to_nat cur → n ≠ Z.to_nat h → _bfs fs' !! n = _bfs fs !! n)
  ∧ _bfs fs' !! Z.to_nat cur = Some (bytes_of_dir d2)
  ∧ IsDirectory (bytes_of_dir d2) = true
  ∧ num_entries (dir_of_bytes (bytes_of_dir d2)) = num_entries (dir_of_bytes b)
  ∧ block_num <$> dir_entries (dir_of_bytes (bytes_of_dir d2))
    = block_num <$> dir_entries (dir_of_bytes b)
  ∧ ∀ n fs2,
      ForEachDirEntry (dir_of_bytes (bytes_of_dir d2)) (name_matches n) fs2
      = ForEachDirEntry (dir_of_bytes b) (name_matches n) fs2.
Proof.
  intros Hblock fs'. destruct made_handle as (Hh & Hne & Hclear).
  pose proof Hdisk as [Hlen _].
  rewrite dir_of_bytes_of_dir by apply made_d2_ok.
  split_and!.
  - simpl. by rewrite !list_lookup_insert_ne by lia.
  - intros n Hn1 Hn2. simpl. by rewrite !list_lookup_insert_ne by done.
  - simpl. apply list_lookup_insert_eq. rewrite length_insert. lia.
  - rewrite IsDirectory_bytes_of_dir by apply made_d2_ok. exact Hd.
  - done.
  - unfold set_entry. cbn [dir_entries].
    rewrite list_fmap_insert. cbn [block_num]. rewrite <- Hunused.
    apply list_insert_id. by rewrite list_lookup_fmap, He.
  - intros n fs2. unfold ForEachDirEntry, set_entry. cbn [dir_entries].
    by apply (name_lookup_unused_slot _ _ _ e).
Qed.

Lemma made_mkdir_rmdir :
  (mkdir a_name;; rmdir a_name) fs
  = Ret (tt, with_disk fs (disk2 (bytes_of_dir InitializeBlock_dir))).
Proof.
  pose proof (length_bytes_of_dir Hok _ (InitializeBlock_dir_ok Hok)) as Hblock.
  destruct made_handle as (Hh & Hne & Hclear).
  destruct (made_disk _ Hblock) as (Hd1 & Hcur1 & Hh1 & Hbm1).
  unfold mkdir. rewrite (bind_Ret _ _ _ _ _ (made_state _)).
  set (fs1 := with_disk fs _).
  destruct (made_ReadDirBlock fs1 eq_refl Hcur1) as (Hr1 & Hdir1 & Hdec1).
  unfold rmdir, curDirHandle. unfold mbind at 1, M_bind at 1.
  rewrite (bind_Ret _ _ _ _ _ (ReadDirBlock_eq _ _ _ Hr1)), Hdir1, Hdec1.
  cbv beta iota delta [negb].
  rewrite (bind_Ret _ _ _ _ _ (made_lookup fs1)). cbv beta iota.
  cbn [block_num].
  erewrite bind_Ret; last first.
  { apply ReadDirBlock_eq. apply read_block_ok; [lia|exact Hh1]. }
  rewrite IsDirectory_bytes_of_dir by apply (InitializeBlock_dir_ok Hok).
  rewrite dir_of_bytes_of_dir by apply (InitializeBlock_dir_ok Hok).
  cbn [d_magic InitializeBlock_dir num_entries]. rewrite Z.eqb_refl.
  cbv beta iota delta [negb]. change (0 =? 0) with true. cbv iota.
  apply (made_removed _ Hblock).
Qed.

Lemma made_create_rm :
  (create a_name;; rm a_name) fs
  = Ret (tt, with_disk fs (disk2 (bytes_of_inode InitializeBlock_inode))).
Proof.
  pose proof (length_bytes_of_inode Hok _ (InitializeBlock_inode_ok Hok)) as Hblock.
  destruct made_handle as (Hh & Hne & Hclear).
  destruct (made_disk _ Hblock) as (Hd1 & Hcur1 & Hh1 & Hbm1).
  unfold create. rewrite (bind_Ret _ _ _ _ _ (made_state _)).
  set (fs1 := with_disk fs _).
  destruct (made_ReadDirBlock fs1 eq_refl Hcur1) as (Hr1 & Hdir1 & Hdec1).
  unfold rm, curDirHandle. unfold mbind at 1, M_bind at 1.
  rewrite (bind_Ret _ _ _ _ _ (ReadDirBlock_eq _ _ _ Hr1)), Hdir1, Hdec1.
  cbv beta iota delta [negb].
  rewrite (bind_Ret _ _ _ _ _ (made_lookup fs1)). cbv beta iota.
  cbn [block_num].
  erewrite bind_Ret; last first.
  { apply ReadINodeBlock_eq. apply read_block_ok; [lia|exact Hh1]. }
  rewrite IsINode_bytes_of_inode by apply (InitializeBlock_inode_ok Hok).
  rewrite inode_of_bytes_of_inode by apply (InitializeBlock_inode_ok Hok).
  cbn [i_magic InitializeBlock_inode size]. rewrite Z.eqb_refl.
  cbv beta iota delta [negb]. change (0 =? 0) with true. cbv iota.
  unfold mbind at 1, M_bind at 1. unfold mret at 1, M_ret at 1.
  cbv beta iota.
  apply (made_removed _ Hblock).
Qed.


End Slot.
End Made.

Section MakeAndRemove.
Context `{Blocks} (Hok : BlocksOk).

(** X7.  [mkdir] of a new name that fits, in a directory with room, followed
    by [rmdir] of the same name, returns, and the state it leaves is the
    state before the two calls with two blocks replaced: the block that was
    handed out holds an initialised directory, and the block of the current
    directory is its old contents with [strcpy] of the name written over
    the name bytes of its first unused slot.  No other byte of the disk,
    and neither cursor, last error nor response, has changed; so the
    bitmap, the count of entries, the handle of every slot and the answer
    to every lookup are as before. *)
Theorem mkdir_rmdir_round_trip (fs : FileSys) (a_name b bm : list Z) (h : Z) :
  disk_ok (_bfs fs) →
  Forall (λ x, 0 ≤ x < 256) b →
  0 < _curDirHandle fs < NUM_BLOCKS →
  _bfs fs !! Z.to_nat (_curDirHandle fs) = Some b →
  IsDirectory b = true →
  _bfs fs !! 0%nat = Some bm →
  bitmap_test bm (_curDirHandle fs) = true →
  ForEachDirEntry (dir_of_bytes b) (name_matches a_name) fs = Ret (None, fs) →
  num_entries (dir_of_bytes b) < MAX_DIR_ENTRIES →
  Exists (λ e, block_num e = kInvalidHandle) (dir_entries (dir_of_bytes b)) →
  Z.of_nat (strlen a_name) ≤ MAX_FNAME_SIZE →
  first_free bm = Some h →
  ∃ i,
    first_unused_slot (dir_of_bytes b) i
    ∧ let fs' :=
        with_disk fs
          (<[Z.to_nat (_curDirHandle fs) := name_bytes_replaced b i a_name]>
             (<[Z.to_nat h := bytes_of_dir InitializeBlock_dir]> (_bfs fs))) in
      (mkdir a_name;; rmdir a_name) fs = Ret (tt, fs')
      ∧ restored_but_for h fs fs'.
Proof.
  intros Hdisk Hbytes Hcur Hb Hd Hbm Hcurbit Hmiss Hroom Hslot Hname Hfree.
  destruct (made_slot fs a_name b Hmiss Hroom Hslot Hname)
    as (i & e & He & Hunused & Hfirst & Hins).
  exists i. split; [exact Hfirst|].
  pose proof (bytes_of_dir_set_name Hok b i e a_name
                (disk_ok_block _ _ _ Hdisk Hb) Hbytes He Hname) as Hblk.
  rewrite Hunused in Hblk. cbv zeta. rewrite <- Hblk. split.
  { eapply (made_mkdir_rmdir Hok); eassumption. }
  edestruct (made_removed_state Hok fs a_name b bm h)
    as (H0 & Hrest & Hc & Hdir & Hn & Hhandles & Hlook);
    [eassumption..|
     apply (length_bytes_of_dir Hok _ (InitializeBlock_dir_ok Hok))|].
  split_and!; [done..|by rewrite H0|done|].
  eexists b, _. split_and!; [done|exact Hc|by rewrite Hdir|done..].
Qed.

(** X8.  [create] of a new name that fits, in a directory with room,
    followed by [rm] of the same name, returns, and the state it leaves is
    the state before the two calls with two blocks replaced: the block that
    was handed out holds an initialised inode, and the block of the current
    directory is its old contents with [strcpy] of the name written over
    the name bytes of its first unused slot.  No other byte of the disk,
    and neither cursor, last error nor response, has changed; so the
    bitmap, the count of entries, the handle of every slot and the answer
    to every lookup are as before. *)
Theorem create_rm_round_trip (fs : FileSys) (a_name b bm : list Z) (h : Z) :
  disk_ok (_bfs fs) →
  Forall (λ x, 0 ≤ x < 256) b →
  0 < _curDirHandle fs < NUM_BLOCKS →
  _bfs fs !! Z.to_nat (_curDirHandle fs) = Some b →
  IsDirectory b = true →
  _bfs fs !! 0%nat = Some bm →
  bitmap_test bm (_curDirHandle fs) = true →
  ForEachDirEntry (dir_of_bytes b) (name_matches a_name) fs = Ret (None, fs) →
  num_entries (dir_of_bytes b) < MAX_DIR_ENTRIES →
  Exists (λ e, block_num e = kInvalidHandle) (dir_entries (dir_of_bytes b)) →
  Z.of_nat (strlen a_name) ≤ MAX_FNAME_SIZE →
  first_free bm = Some h →
  ∃ i,
    first_unused_slot (dir_of_bytes b) i
    ∧ let fs' :=
        with_disk fs
          (<[Z.to_nat (_curDirHandle fs) := name_bytes_replaced b i a_name]>
             (<[Z.to_nat h := bytes_of_inode InitializeBlock_inode]> (_bfs fs))) in
      (create a_name;; rm a_name) fs = Ret (tt, fs')
      ∧ restored_but_for h fs fs'.
Proof.
  intros Hdisk Hbytes Hcur Hb Hd Hbm Hcurbit Hmiss Hroom Hslot Hname Hfree.
  destruct (made_slot fs a_name b Hmiss Hroom Hslot Hname)
    as (i & e & He & Hunused & Hfirst & Hins).
  exists i. split; [exact Hfirst|].
  pose proof (bytes_of_dir_set_name Hok b i e a_name
                (disk_ok_block _ _ _ Hdisk Hb) Hbytes He Hname) as Hblk.
  rewrite Hunused in Hblk. cbv zeta. rewrite <- Hblk. split.
  { eapply (made_create_rm Hok); eassumption. }
  edestruct (made_removed_state Hok fs a_name b bm h)
    as (H0 & Hrest & Hc & Hdir & Hn & Hhandles & Hlook);
    [eassumption..|
     apply (length_bytes_of_inode Hok _ (InitializeBlock_inode_ok Hok))|].
  split_and!; [done..|by rewrite H0|done|].
  eexists b, _. split_and!; [done|exact Hc|by rewrite Hdir|done..].
Qed.


End MakeAndRemove.

(** ** Listings, and what the reading operations keep *)

Lemma array_str_terminated (buf : list Z) :
  0 ∈ buf → array_str buf = Some (c_str buf).
Proof.
  induction buf as [|c buf IH]; [by intros ?%elem_of_nil|].
  intros Hin. unfold c_str. simpl.
  destruct (Z.eqb_spec c 0) as [->|Hc]; [done|].
  apply elem_of_cons in Hin as [?|Hin]; [congruence|].
  rewrite (IH Hin). done.
Qed.

Section Listing.
Context `{Blocks}.

Lemma ls_entries_spec k es fs :
  Forall (λ e, block_num e ≠ kInvalidHandle →
               0 ∈ name e ∧ 0 ≤ block_num e < NUM_BLOCKS
               ∧ is_Some (_bfs fs !! Z.to_nat (block_num e))) es →
  ForEachDirEntry_from k es ls_entry fs
  = Ret (None, with_response fs
                 (_response fs ++ concat (listing_line (_bfs fs) <$> es))).
Proof.
  intros Hes. revert k fs Hes.
  induction es as [|e es IH]; intros k fs Hes.
  - simpl. rewrite app_nil_r. by destruct fs.
  - apply Forall_cons in Hes as [He Hes].
    cbn [ForEachDirEntry_from].
    assert (Hline : ls_entry e fs
      = Ret (false, with_response fs
                      (_response fs ++ listing_line (_bfs fs) e))).
    { unfold ls_entry, listing_line.
      destruct (Z.eqb_spec (block_num e) kInvalidHandle) as [Hz|Hz].
      { simpl. rewrite app_nil_r. by destruct fs. }
      destruct (He Hz) as (Hnul & Hrange & [blk Hblk]).
      rewrite (array_str_terminated _ Hnul), Hblk. simpl.
      unfold mbind, M_bind. simpl.
      rewrite (read_block_ok _ _ blk) by done.
      destruct (IsDirectory blk); simpl; unfold with_response; simpl;
        by rewrite <- !app_assoc. }
    rewrite (bind_Ret _ _ _ _ _ Hline). cbv iota.
    rewrite IH by done. simpl. unfold with_response. simpl.
    by rewrite <- app_assoc.
Qed.

(** X10.  [ls] on a directory whose used entries have terminated names and
    handles of blocks on the disk writes, in slot order, one line for each
    used entry, the name followed by a slash when the block of the entry is
    a directory, then one more newline; unused slots write nothing, and
    nothing but the response changes. *)
Theorem ls_lists_the_used_entries (fs : FileSys) (b : list Z) :
  read_block (_curDirHandle fs) fs = Ret (b, fs) →
  IsDirectory b = true →
  Forall (λ e, block_num e ≠ kInvalidHandle →
               0 ∈ name e ∧ 0 ≤ block_num e < NUM_BLOCKS
               ∧ is_Some (_bfs fs !! Z.to_nat (block_num e)))
         (dir_entries (dir_of_bytes b)) →
  ls fs
  = Ret (tt, with_response fs
               (_response fs
                ++ concat (listing_line (_bfs fs)
                           <$> dir_entries (dir_of_bytes b))
                ++ [NL])).
Proof.
  intros Hr Hd Hes. unfold ls, curDirHandle.
  unfold mbind at 1, M_bind at 1.
  rewrite (bind_Ret _ _ _ _ _ (ReadDirBlock_eq _ _ _ Hr)), Hd.
  cbv beta iota delta [negb]. unfold ForEachDirEntry.
  rewrite (bind_Ret _ _ _ _ _ (ls_entries_spec _ _ _ Hes)).
  unfold respond, with_response. simpl. by rewrite <- app_assoc.
Qed.

End Listing.

Section Frame.
Context `{Blocks}.

Lemma preserves_ret {A} R (a : A) : Reflexive R → preserves R (mret a).
Proof. intros HR fs a' fs' [= <- <-]. apply HR. Qed.

Lemma preserves_bind {A B} R (c : M A) (k : A → M B) :
  Transitive R → preserves R c → (∀ a, preserves R (k a)) →
  preserves R (c ≫= k).
Proof.
  intros HR Hc Hk fs b fs' (a & fs1 & H1 & H2)%bind_Ret_inv.
  etrans; [by eapply Hc|by eapply Hk].
Qed.

#[local] Instance same_disk_and_cursor_refl : Reflexive same_disk_and_cursor.
Proof. by intros fs. Qed.

#[local] Instance same_disk_and_cursor_trans :
  Transitive same_disk_and_cursor.
Proof. intros x y z [? ?] [? ?]. split; congruence. Qed.

#[local] Instance same_disk_and_response_refl :
  Reflexive same_disk_and_response.
Proof. by intros fs. Qed.

#[local] Instance same_disk_and_response_trans :
  Transitive same_disk_and_response.
Proof. intros x y z [? ?] [? ?]. split; congruence. Qed.

Lemma preserves_read_block R n : Reflexive R → preserves R (read_block n).
Proof. intros HR fs b fs' (-> & _)%read_block_inv. apply HR. Qed.

Lemma preserves_array_get {A} R (a : list A) i :
  Reflexive R → preserves R (array_get a i).
Proof.
  intros HR fs x fs'. unfold array_get. destruct (i <? 0); [done|].
  destruct (a !! Z.to_nat i); [|done]. intros [= <- <-]. apply HR.
Qed.

Lemma preserves_undefined {A} R : preserves R (@undefined A).
Proof. by intros fs a fs'. Qed.

Lemma cursor_respond s : preserves same_disk_and_cursor (respond s).
Proof. by intros fs a fs' [= <- <-]. Qed.

Lemma cursor_set_lastErr e : preserves same_disk_and_cursor (set_lastErr e).
Proof. by intros fs a fs' [= <- <-]. Qed.

Lemma response_set_lastErr e :
  preserves same_disk_and_response (set_lastErr e).
Proof. by intros fs a fs' [= <- <-]. Qed.

Lemma response_set_curDirHandle h :
  preserves same_disk_and_response (set_curDirHandle h).
Proof. by intros fs a fs' [= <- <-]. Qed.

Lemma preserves_curDirHandle R : Reflexive R → preserves R curDirHandle.
Proof. intros HR fs a fs' [= <- <-]. apply HR. Qed.

Lemma preserves_name_lookup R k es a_name :
  Reflexive R →
  preserves R (ForEachDirEntry_from k es (name_matches a_name)).
Proof. intros HR fs a fs' [-> _]%name_lookup_pure. apply HR. Qed.

Create HintDb frame discriminated.

#[local] Hint Resolve preserves_ret preserves_bind preserves_read_block
  preserves_array_get preserves_undefined cursor_respond cursor_set_lastErr
  response_set_lastErr response_set_curDirHandle preserves_curDirHandle
  preserves_name_lookup same_disk_and_cursor_refl same_disk_and_cursor_trans
  same_disk_and_response_refl same_disk_and_response_trans : frame.

#[local] Ltac frame :=
  repeat first
    [ progress intros
    | apply preserves_bind; [eauto with frame| |]
    | match goal with
      | |- preserves _ (match ?x with _ => _ end) => destruct x
      | |- preserves _ (if ?x then _ else _) => destruct x
      | |- preserves _ (let '(_, _) := ?x in _) => destruct x
      end
    | solve [eauto with frame] ].

Lemma cursor_ReadDirBlock h : preserves same_disk_and_cursor (ReadDirBlock h).
Proof. unfold ReadDirBlock. frame. Qed.

Lemma response_ReadDirBlock h :
  preserves same_disk_and_response (ReadDirBlock h).
Proof. unfold ReadDirBlock. frame. Qed.

Lemma cursor_ReadINodeBlock h :
  preserves same_disk_and_cursor (ReadINodeBlock h).
Proof. unfold ReadINodeBlock. frame. Qed.

#[local] Hint Resolve cursor_ReadDirBlock response_ReadDirBlock
  cursor_ReadINodeBlock : frame.

Lemma cursor_ls_entries k es :
  preserves same_disk_and_cursor (ForEachDirEntry_from k es ls_entry).
Proof.
  revert k. induction es as [|e es IH]; intros k; simpl; [frame|].
  apply preserves_bind; [apply _| |intros []; frame].
  unfold ls_entry. frame.
Qed.

Lemma cursor_head_blocks n i numBlocks a_size iNode :
  preserves same_disk_and_cursor (head_blocks n i numBlocks a_size iNode).
Proof. revert i. induction n as [|n IH]; intros i; simpl; frame. Qed.

#[local] Hint Resolve cursor_ls_entries cursor_head_blocks : frame.

Lemma cursor_ls : preserves same_disk_and_cursor ls.
Proof. unfold ls, ForEachDirEntry. frame. Qed.

Lemma cursor_head a_name a_size :
  preserves same_disk_and_cursor (head a_name a_size).
Proof.
  unfold head, ForEachDirEntry, PrintFailedToFindFile. frame.
Qed.

Lemma cursor_stat a_name : preserves same_disk_and_cursor (stat a_name).
Proof.
  unfold stat, ForEachDirEntry, PrintFailedToFindFile. frame.
Qed.

Lemma response_cd a_name : preserves same_disk_and_response (cd a_name).
Proof.
  unfold cd, ForEachDirEntry, PrintFailedToFindFile. frame.
Qed.

(** X11.  Whenever they return, [ls], [cat], [head] and [stat] leave the
    disk and the cursor as they were, and [cd] and [home] leave the disk and
    the response as they were. *)
Theorem reading_operations_never_write
    (fs fs' : FileSys) (a_name : list Z) (a_size : Z) :
  (ls fs = Ret (tt, fs') ∨ cat a_name fs = Ret (tt, fs')
   ∨ head a_name a_size fs = Ret (tt, fs') ∨ stat a_name fs = Ret (tt, fs') →
   _bfs fs' = _bfs fs ∧ _curDirHandle fs' = _curDirHandle fs)
  ∧ (cd a_name fs = Ret (tt, fs') ∨ home fs = Ret (tt, fs') →
     _bfs fs' = _bfs fs ∧ _response fs' = _response fs).
Proof.
  split.
  - intros [Hop|[Hop|[Hop|Hop]]].
    + by apply (cursor_ls _ _ _ Hop).
    + by apply (cursor_head _ _ _ _ _ Hop).
    + by apply (cursor_head _ _ _ _ _ Hop).
    + by apply (cursor_stat _ _ _ _ Hop).
  - intros [Hop|Hop].
    + by apply (response_cd _ _ _ _ Hop).
    + by injection Hop as <-.
Qed.

End Frame.

(** ** What [head] emits *)

Section HeadPrefix.
Context `{Blocks} (Hok : BlocksOk).

(** X12.  For a file that is not empty, [head] with count [a_size] writes
    exactly [n = min a_size size] bytes, the first [n] bytes of the blocks
    that the slots [0 ..  n / BLOCK_SIZE] point to, and a newline, provided
    those slots hold handles of blocks on the disk. *)
Theorem head_emits_a_prefix
    (fs : FileSys) (a_name b ib : list Z) (a_size : Z) (i : nat)
    (e : DirEntry) :
  disk_ok (_bfs fs) →
  read_block (_curDirHandle fs) fs = Ret (b, fs) →
  IsDirectory b = true →
  ForEachDirEntry (dir_of_bytes b) (name_matches a_name) fs
  = Ret (Some (i, e), fs) →
  read_block (block_num e) fs = Ret (ib, fs) →
  IsINode ib = true →
  size (inode_of_bytes ib) ≠ 0 →
  0 ≤ a_size →
  let n := Z.min a_size (size (inode_of_bytes ib)) in
  (∀ j, 0 ≤ j ≤ n / BLOCK_SIZE →
        slot_readable (_bfs fs) (inode_of_bytes ib) j) →
  ∃ data,
    head a_name a_size fs
    = Ret (tt, with_response fs (_response fs ++ data ++ [NL]))
    ∧ data = take (Z.to_nat n)
               (concat (file_block (_bfs fs) (inode_of_bytes ib)
                        <$> seqZ 0 (n / BLOCK_SIZE + 1)))
    ∧ Z.of_nat (length data) = n.
Proof.
  pose proof (block_size_pos Hok) as HB.
  intros Hdisk Hr Hd Hfind Hri Hi Hsize Ha n Hslots.
  set (iNode := inode_of_bytes ib) in *.
  destruct (inode_of_bytes_ok ib) as (_ & Hs & _). fold iNode in Hs.
  assert (Hn : 0 ≤ n) by (unfold n; lia).
  assert (Hq : 0 ≤ n / BLOCK_SIZE) by (apply Z.div_pos; lia).
  eexists. split_and!; [|done|].
  - rewrite (head_eq _ _ _ _ _ _ _ Hr Hd Hfind Hri Hi). fold iNode. cbv zeta.
    destruct (Z.eqb_spec (size iNode) 0) as [|_]; [done|].
    assert (Hsize' : (if a_size <? size iNode then a_size else size iNode) = n).
    { unfold n. destruct (Z.ltb_spec a_size (size iNode)); lia. }
    rewrite Hsize'.
    erewrite bind_Ret; last first.
    { apply head_blocks_spec; [done|]. intros j Hj. apply Hslots. lia. }
    unfold respond, with_response. cbn [_response _bfs _curDirHandle _lastErr].
    rewrite <- app_assoc. do 4 f_equal.
    rewrite <- (head_chunks_take Hok) by done.
    by rewrite Z2Nat.id by lia.
  - rewrite length_take.
    pose proof (length_file_blocks (_bfs fs) iNode
                  (Z.to_nat (n / BLOCK_SIZE + 1)) Hdisk) as Hlen.
    rewrite Z2Nat.id in Hlen by lia.
    rewrite Nat2Z.inj_min, Hlen, Z2Nat.id; [|lia|].
    + assert (HB0 : BLOCK_SIZE ≠ 0) by lia.
      pose proof (Z.div_mod n BLOCK_SIZE HB0).
      pose proof (Z.mod_pos_bound n BLOCK_SIZE HB). nia.
    + intros j Hj. apply Hslots. lia.
Qed.

(** The read loop stops being defined at the first slot that the array
    does not have. *)
Lemma head_blocks_past_the_array n i numBlocks a_size iNode fs (k : Z) :
  0 ≤ i ≤ k → k < i + Z.of_nat n →
  (∀ j, i ≤ j < k → slot_readable (_bfs fs) iNode j) →
  blocks iNode !! Z.to_nat k = None →
  head_blocks n i numBlocks a_size iNode fs = Undefined.
Proof.
  revert i fs. induction n as [|n IH]; intros i fs Hi Hk Hslots Hnone; [lia|].
  cbn [head_blocks].
  destruct (decide (i = k)) as [->|Hne].
  - unfold mbind at 1, M_bind at 1. unfold array_get.
    destruct (Z.ltb_spec k 0); [done|]. by rewrite Hnone.
  - assert (Hin : i ≤ i < k) by lia.
    destruct (Hslots i Hin) as (h & blk & Hh & Hrange & Hblk).
    rewrite (bind_Ret _ _ _ _ _ (array_get_ok _ _ _ _ (proj1 Hi) Hh)).
    rewrite (bind_Ret _ _ _ _ _ (read_block_ok _ _ _ Hrange Hblk)).
    set (out := if i =? numBlocks - 1 then _ else _).
    assert (∃ s, out fs = Ret (tt, with_response fs s)) as [s Hout].
    { unfold out. destruct (i =? numBlocks - 1); by eexists. }
    rewrite (bind_Ret _ _ _ _ _ Hout).
    apply IH; [lia|lia| |done].
    intros j Hj. apply Hslots. lia.
Qed.

(** X13.  For a file whose size is [MAX_FILE_SIZE] or more, [cat], and
    [head] with a count of at least [MAX_FILE_SIZE], read
    [blocks[MAX_DATA_BLOCKS]], one slot past the array of the inode: the
    result is not defined. *)
Theorem head_of_a_full_file_is_undefined
    (fs : FileSys) (a_name b ib : list Z) (a_size : Z) (i : nat)
    (e : DirEntry) :
  read_block (_curDirHandle fs) fs = Ret (b, fs) →
  IsDirectory b = true →
  ForEachDirEntry (dir_of_bytes b) (name_matches a_name) fs
  = Ret (Some (i, e), fs) →
  read_block (block_num e) fs = Ret (ib, fs) →
  IsINode ib = true →
  MAX_FILE_SIZE ≤ size (inode_of_bytes ib) →
  (∀ j, 0 ≤ j < MAX_DATA_BLOCKS →
        slot_readable (_bfs fs) (inode_of_bytes ib) j) →
  cat a_name fs = Undefined
  ∧ (MAX_FILE_SIZE ≤ a_size → head a_name a_size fs = Undefined).
Proof.
  pose proof (block_size_pos Hok) as HB.
  pose proof (data_blocks_pos Hok) as HM.
  intros Hr Hd Hfind Hri Hi Hsize Hslots.
  set (iNode := inode_of_bytes ib) in *.
  destruct (inode_of_bytes_ok ib) as (_ & Hs & Hlen & _). fold iNode in Hs, Hlen.
  assert (Hhead : ∀ n, MAX_FILE_SIZE ≤ n → head a_name n fs = Undefined).
  { intros n Hn.
    rewrite (head_eq _ _ _ _ _ _ _ Hr Hd Hfind Hri Hi). fold iNode. cbv zeta.
    unfold MAX_FILE_SIZE in *.
    destruct (Z.eqb_spec (size iNode) 0) as [|_]; [nia|].
    set (n' := if n <? size iNode then n else size iNode).
    assert (Hn' : MAX_DATA_BLOCKS * BLOCK_SIZE ≤ n').
    { unfold n'. destruct (Z.ltb_spec n (size iNode)); lia. }
    assert (Hq : MAX_DATA_BLOCKS ≤ n' / BLOCK_SIZE).
    { apply Z.div_le_lower_bound; lia. }
    unfold mbind, M_bind.
    rewrite (head_blocks_past_the_array _ _ _ _ _ _ MAX_DATA_BLOCKS);
      [done|lia|lia|..].
    - intros j Hj. apply Hslots. lia.
    - apply lookup_ge_None. lia. }
  split; [apply Hhead; lia|apply Hhead].
Qed.

End HeadPrefix.

(** ** [append] and the contents of a file *)

Lemma file_data_app (d : list (list Z)) (hs1 hs2 : list Z) :
  file_data d (hs1 ++ hs2) = file_data d hs1 ++ file_data d hs2.
Proof. unfold file_data. by rewrite fmap_app, concat_app. Qed.

Lemma file_data_frame (d d' : list (list Z)) (hs : list Z) :
  (∀ h, h ∈ hs → d' !! Z.to_nat h = d !! Z.to_nat h) →
  file_data d' hs = file_data d hs.
Proof.
  intros Hsame. unfold file_data. f_equal. apply list_fmap_ext.
  intros i h Hh. rewrite Hsame; [done|]. by eapply list_elem_of_lookup_2.
Qed.

Section Contents.
Context `{Blocks} (Hok : BlocksOk).

Lemma length_file_data (d : list (list Z)) (hs : list Z) :
  disk_ok d → Forall (λ h, 0 ≤ h < NUM_BLOCKS) hs →
  Z.of_nat (length (file_data d hs)) = Z.of_nat (length hs) * BLOCK_SIZE.
Proof.
  intros Hd Hhs. induction Hhs as [|h hs Hh Hhs IH]; [done|].
  unfold file_data in *. cbn [fmap list_fmap concat length].
  rewrite length_app, Nat2Z.inj_add, IH.
  destruct (disk_ok_lookup _ _ Hd Hh) as (blk & -> & Hlen). simpl. lia.
Qed.

(** The copy loop of [append] from any place in a block: the bytes of the
    block before that place stay, the data follows them, and goes on in
    the blocks of the next slots. *)
Lemma copy_data_spec fuel data iNode fs hs rest q r :
  disk_ok (_bfs fs) →
  0 ≤ q → 0 ≤ r < BLOCK_SIZE →
  size iNode = q * BLOCK_SIZE + r →
  drop (Z.to_nat q) (blocks iNode) = hs ++ rest →
  (length data ≤ fuel)%nat →
  data ≠ [] →
  Z.of_nat (length hs) = ceil_div (r + Z.of_nat (length data)) BLOCK_SIZE →
  Forall (λ h, 0 ≤ h < NUM_BLOCKS) hs → NoDup hs →
  size iNode + Z.of_nat (length data) < 4294967296 →
  ∃ d',
    copy_data fuel iNode data fs
    = Ret ({| i_magic := i_magic iNode;
              size := size iNode + Z.of_nat (length data);
              blocks := blocks iNode |}, with_disk fs d')
    ∧ disk_ok d'
    ∧ (∀ x, (∀ h, h ∈ hs → x ≠ Z.to_nat h) → d' !! x = _bfs fs !! x)
    ∧ ∃ tail, file_data d' hs
              = take (Z.to_nat r) (file_data (_bfs fs) hs) ++ data ++ tail.
Proof.
  pose proof (block_size_pos Hok) as HB.
  intros Hdisk Hq Hr Hsize Hdrop Hfuel Hdata Hcount Hrange Hnd Hfit.
  destruct (decide (r = 0)) as [->|Hr0].
  { rewrite Z.add_0_r in Hsize. rewrite Z.add_0_l in Hcount.
    destruct (copy_data_aligned Hok fuel data iNode fs hs rest q)
      as (d' & Hcopy & Hd' & Hframe & tail & Htail); try done; [lia|].
    exists d'. split_and!; [done..|]. by exists tail. }
  assert (HL : 0 < Z.of_nat (length data)).
  { destruct data; [done|]. simpl. lia. }
  destruct fuel as [|fuel]; [lia|].
  destruct hs as [|h hs'].
  { exfalso. cbn [length] in Hcount. unfold ceil_div in Hcount.
    assert (1 ≤ (r + Z.of_nat (length data) + BLOCK_SIZE - 1) / BLOCK_SIZE).
    { apply Z.div_le_lower_bound; lia. }
    lia. }
  apply Forall_cons in Hrange as [Hh Hrange].
  apply NoDup_cons in Hnd as [Hh_notin Hnd].
  destruct (disk_ok_lookup _ _ Hdisk Hh) as (blk & Hblk & Hblklen).
  assert (Hdiv : size iNode / BLOCK_SIZE = q).
  { rewrite Hsize. symmetry. apply (Z.div_unique_pos _ _ _ r); lia. }
  assert (Hmod : size iNode mod BLOCK_SIZE = r).
  { rewrite Hsize. symmetry. apply (Z.mod_unique_pos _ _ q); lia. }
  assert (Hslot : blocks iNode !! Z.to_nat (size iNode / BLOCK_SIZE) = Some h).
  { rewrite Hdiv.
    rewrite <- (Nat.add_0_r (Z.to_nat q)), <- lookup_drop, Hdrop. done. }
  set (n := Nat.min (length blk - Z.to_nat r) (length data)).
  set (blk' := take (Z.to_nat r) blk ++ take n data
               ++ drop (Z.to_nat r + n) blk).
  assert (Hblk'len : Z.of_nat (length blk') = BLOCK_SIZE).
  { unfold blk', n. rewrite !length_app, !length_take, length_drop. lia. }
  set (iNode' := {| i_magic := i_magic iNode;
                    size := size iNode + Z.of_nat n;
                    blocks := blocks iNode |}).
  set (fs1 := with_disk fs (<[Z.to_nat h := blk']> (_bfs fs))).
  assert (Hstep : copy_data (S fuel) iNode data fs
                  = copy_data fuel iNode' (drop n data) fs1).
  { destruct data as [|c data0]; [done|].
    set (data := c :: data0) in *.
    unfold data at 1. cbn [copy_data]. fold data.
    erewrite bind_Ret;
      [|apply array_get_ok; [apply Z.div_pos; lia|exact Hslot]].
    rewrite (bind_Ret _ _ _ _ _ (read_block_ok _ _ _ Hh Hblk)).
    rewrite Hmod.
    rewrite copy_bytes_spec by (done || lia). fold n blk'.
    erewrite bind_Ret; [done|].
    apply write_block_ok; [done|].
    apply lookup_lt_Some in Hblk. done. }
  assert (Hdisk1 : disk_ok (_bfs fs1)) by (by apply disk_ok_insert).
  assert (Hold : take (Z.to_nat r) (file_data (_bfs fs) (h :: hs'))
                 = take (Z.to_nat r) blk).
  { unfold file_data. cbn [fmap list_fmap concat]. rewrite Hblk. simpl.
    apply take_app_le. lia. }
  rewrite Hold.
  destruct (decide (length data ≤ Z.to_nat BLOCK_SIZE - Z.to_nat r)%nat)
    as [Hshort|Hlong].
  - (* the data ends in this block *)
    assert (Hn : n = length data) by (unfold n; lia).
    assert (Hnil : drop n data = []).
    { apply length_zero_iff_nil. rewrite length_drop. lia. }
    assert (hs' = []) as ->.
    { apply length_zero_iff_nil. cbn [length] in Hcount.
      assert (ceil_div (r + Z.of_nat (length data)) BLOCK_SIZE = 1); [|lia].
      unfold ceil_div. symmetry.
      apply (Z.div_unique_pos _ _ _ (r + Z.of_nat (length data) - 1)); lia. }
    exists (_bfs fs1). split_and!.
    + rewrite Hstep, Hnil. destruct fuel; simpl;
        unfold iNode'; rewrite Hn; reflexivity.
    + done.
    + intros x Hx. simpl. apply list_lookup_insert_ne. intros <-.
      apply (Hx h); [by left|done].
    + exists (drop (Z.to_nat r + n) blk).
      unfold file_data. cbn [fmap list_fmap concat]. simpl.
      rewrite list_lookup_insert_eq by (by apply lookup_lt_Some in Hblk).
      simpl. rewrite app_nil_r. unfold blk'. rewrite Hn.
      by rewrite firstn_all.
  - (* the data goes on in the next blocks *)
    assert (Hn : Z.of_nat n = BLOCK_SIZE - r) by (unfold n; lia).
    destruct (copy_data_aligned Hok fuel (drop n data) iNode' fs1 hs' rest
                (q + 1))
      as (d' & Hcopy & Hd' & Hframe & tail & Htail); try done.
    + lia.
    + simpl. lia.
    + intros _. simpl. lia.
    + simpl. replace (Z.to_nat (q + 1)) with (Z.to_nat q + 1)%nat by lia.
      rewrite <- drop_drop, Hdrop. done.
    + rewrite length_drop. lia.
    + rewrite length_drop. cbn [length] in Hcount.
      replace (r + Z.of_nat (length data))
        with (Z.of_nat (length data - n) + 1 * BLOCK_SIZE) in Hcount by lia.
      rewrite (ceil_div_add Hok) in Hcount. lia.
    + simpl. rewrite length_drop. lia.
    + exists d'. split_and!.
      * rewrite Hstep, Hcopy. unfold iNode', fs1. simpl.
        rewrite with_disk_with_disk. do 3 f_equal. rewrite length_drop. lia.
      * done.
      * intros x Hx. rewrite Hframe.
        -- simpl. apply list_lookup_insert_ne. intros <-.
           apply (Hx h); [by left|done].
        -- intros h' Hh'. apply Hx. by right.
      * exists tail. unfold file_data in *. cbn [fmap list_fmap concat].
        rewrite Hframe; last first.
        { intros h' Hh' Heq. assert (h = h'); [|by subst].
          rewrite Forall_forall in Hrange. specialize (Hrange _ Hh'). lia. }
        simpl. rewrite list_lookup_insert_eq
          by (by apply lookup_lt_Some in Hblk).
        simpl. rewrite Htail. unfold blk'.
        rewrite (drop_ge blk) by lia.
        rewrite app_nil_r, <- !app_assoc. f_equal.
        rewrite app_assoc. by rewrite take_drop.
Qed.

End Contents.

Section AppendContents.
Context `{Blocks} (Hok : BlocksOk).

Lemma ceil_div_rem (q r : Z) :
  0 ≤ r < BLOCK_SIZE →
  ceil_div (q * BLOCK_SIZE + r) BLOCK_SIZE = q + (if r =? 0 then 0 else 1).
Proof.
  intros Hr. rewrite Z.add_comm, (ceil_div_add Hok).
  destruct (Z.eqb_spec r 0) as [->|Hr0].
  - rewrite ceil_div_small by lia. lia.
  - assert (ceil_div r BLOCK_SIZE = 1); [|lia]. unfold ceil_div. symmetry.
    apply (Z.div_unique_pos _ _ _ (r - 1)); lia.
Qed.

(** The bytes of the last block of a file that belong to it. *)
Lemma take_file_data_last d (r : Z) (old new : list Z) :
  disk_ok d → 0 ≤ r < BLOCK_SIZE →
  Forall (λ h, 0 ≤ h < NUM_BLOCKS) old →
  Z.of_nat (length old) = (if r =? 0 then 0 else 1) →
  take (Z.to_nat r) (file_data d (old ++ new))
  = take (Z.to_nat r) (file_data d old)
  ∧ Z.of_nat (length (take (Z.to_nat r) (file_data d old))) = r.
Proof.
  intros Hd Hr Hold Hlen. destruct (Z.eqb_spec r 0) as [->|Hr0].
  - done.
  - destruct old as [|h [|? ?]]; simpl in Hlen; try lia.
    apply Forall_cons in Hold as [Hh _].
    destruct (disk_ok_lookup _ _ Hd Hh) as (blk & Hblk & Hblklen).
    unfold file_data. cbn [app fmap list_fmap concat]. rewrite Hblk. simpl.
    rewrite app_nil_r. split.
    + apply take_app_le. lia.
    + rewrite length_take. lia.
Qed.

End AppendContents.

Section AppendTheorem.
Context `{Blocks} (Hok : BlocksOk).

Lemma length_foldl_bitmap_set (hs : list Z) (bm : list Z) :
  length (foldl bitmap_set bm hs) = length bm.
Proof.
  revert bm. induction hs as [|h hs IH]; intros bm; simpl; [done|].
  rewrite IH. unfold bitmap_set. by rewrite length_alter.
Qed.

Lemma num_blocks_below_u32 : NUM_BLOCKS < 4294967296.
Proof.
  pose proof (bitmap_fits Hok). pose proof (inode_fills_block Hok).
  pose proof (file_size_fits Hok) as Hfit. pose proof (data_blocks_pos Hok).
  unfold MAX_FILE_SIZE in Hfit. nia.
Qed.

Lemma append_spec
    (fs : FileSys) (a_name a_data b ib bm : list Z) (i : nat) (e : DirEntry) :
  let iNode := inode_of_bytes ib in
  let L := Z.of_nat (strlen a_data) in
  disk_ok (_bfs fs) →
  read_block (_curDirHandle fs) fs = Ret (b, fs) →
  IsDirectory b = true →
  ForEachDirEntry (dir_of_bytes b) (name_matches a_name) fs
  = Ret (Some (i, e), fs) →
  read_block (block_num e) fs = Ret (ib, fs) →
  IsINode ib = true →
  _bfs fs !! 0%nat = Some bm →
  bitmap_test bm (block_num e) = true →
  slots_contiguous iNode →
  NoDup (file_handles iNode) →
  Forall (λ h, 0 ≤ h < NUM_BLOCKS ∧ h ≠ block_num e
               ∧ bitmap_test bm h = true) (file_handles iNode) →
  0 < L →
  size iNode + L ≤ MAX_FILE_SIZE →
  ceil_div (size iNode + L) BLOCK_SIZE - ceil_div (size iNode) BLOCK_SIZE
  ≤ Z.of_nat (length (free_blocks bm)) →
  ∃ fs' iNode',
    append a_name a_data fs = Ret (tt, fs')
    ∧ _curDirHandle fs' = _curDirHandle fs
    ∧ _lastErr fs' = _lastErr fs
    ∧ _response fs' = _response fs
    ∧ disk_ok (_bfs fs')
    ∧ _bfs fs' !! Z.to_nat (block_num e) = Some (bytes_of_inode iNode')
    ∧ inode_ok iNode'
    ∧ i_magic iNode' = i_magic iNode
    ∧ size iNode' = size iNode + L
    ∧ slots_contiguous iNode'
    ∧ Forall (λ h, 0 ≤ h < NUM_BLOCKS) (file_handles iNode')
    ∧ file_contents (_bfs fs') iNode'
      = file_contents (_bfs fs) iNode ++ c_str a_data
    ∧ ∀ x, 0 < x → x ≠ block_num e → x ∉ file_handles iNode →
           bitmap_test bm x = true →
           _bfs fs' !! Z.to_nat x = _bfs fs !! Z.to_nat x.
Proof.
  intros iNode L Hdisk Hr Hd Hfind Hri Hi Hbm He Hcont Hnd Hfile HL Hfit
    Hfree.
  pose proof (block_size_pos Hok) as HB.
  pose proof (file_size_fits Hok) as H32.
  pose proof (data_blocks_pos Hok) as HMDB.
  destruct (inode_of_bytes_ok ib) as (Hmagic & Hsz & Hlen & Hu32).
  fold iNode in Hmagic, Hsz, Hlen, Hu32.
  destruct (read_block_inv _ _ _ _ Hri) as (_ & Hhe & Hib).
  set (D := c_str a_data).
  assert (HD : Z.of_nat (length D) = L)
    by (unfold D, L; by rewrite length_c_str).
  assert (HB0 : BLOCK_SIZE ≠ 0) by lia.
  pose proof (Z.div_mod (size iNode) BLOCK_SIZE HB0) as Hqr.
  pose proof (Z.mod_pos_bound (size iNode) BLOCK_SIZE HB) as Hrr.
  assert (Hq0 : 0 ≤ size iNode / BLOCK_SIZE) by (apply Z.div_pos; lia).
  set (q := size iNode / BLOCK_SIZE) in *.
  set (r := size iNode mod BLOCK_SIZE) in *.
  assert (Hsize : size iNode = q * BLOCK_SIZE + r) by lia.
  assert (Hc : ceil_div (size iNode) BLOCK_SIZE
               = q + (if r =? 0 then 0 else 1)).
  { rewrite Hsize. by apply (ceil_div_rem Hok). }
  assert (Hif : 0 ≤ (if r =? 0 then 0 else 1) ≤ 1)
    by (destruct (r =? 0); lia).
  assert (HcL : ceil_div (size iNode + L) BLOCK_SIZE
                = ceil_div (r + L) BLOCK_SIZE + q).
  { rewrite <- (ceil_div_add Hok). f_equal. lia. }
  pose proof (ceil_div_le_blocks Hok (size iNode + L) Hfit) as HcMax.
  pose proof (ceil_div_mono Hok (size iNode) (size iNode + L) ltac:(lia))
    as Hmono.
  pose proof (ceil_div_nonneg Hok (size iNode) ltac:(lia)) as Hc0.
  set (c := Z.to_nat (ceil_div (size iNode) BLOCK_SIZE)).
  set (k := Z.to_nat (ceil_div (size iNode + L) BLOCK_SIZE
                      - ceil_div (size iNode) BLOCK_SIZE)).
  assert (Hdata : strlen a_data ≠ 0%nat) by lia.
  rewrite (append_eq _ _ _ _ _ _ _ Hdata Hr Hd Hfind Hri Hi). cbv zeta.
  fold iNode L.
  rewrite wrap32_small by lia.
  destruct (Z.ltb_spec (MAX_FILE_SIZE - size iNode) L); [lia|].
  rewrite (bind_Ret _ _ _ _ _
             (num_alloc_blocks_contiguous Hok iNode L fs Hlen
                ltac:(lia) ltac:(lia) Hcont)).
  fold k q.
  set (hs0 := take k (free_blocks bm)).
  set (bm2 := foldl bitmap_set bm hs0).
  assert (Hbmlen : Z.of_nat (length bm) = BLOCK_SIZE)
    by exact (disk_ok_block _ _ _ Hdisk Hbm).
  assert (Halloc : allocate_handles k [] fs
                   = Ret (([] ++ hs0, false),
                          with_disk fs (<[0%nat := bm2]> (_bfs fs)))).
  { apply (allocate_handles_ok Hok); [done|done|]. unfold k. lia. }
  rewrite (bind_Ret _ _ _ _ _ Halloc). cbv beta iota. cbn [app].
  set (fs1 := with_disk fs (<[0%nat := bm2]> (_bfs fs))).
  assert (Hhs0len : length hs0 = k).
  { unfold hs0. rewrite length_take. unfold k. lia. }
  assert (Hhs0 : Forall (λ h, 2 ≤ h < NUM_BLOCKS ∧ bitmap_test bm h = false)
                   hs0).
  { rewrite Forall_forall. intros h Hh. apply free_blocks_spec.
    by eapply elem_of_take_l. }
  assert (Hhs0nd : NoDup hs0).
  { unfold hs0. apply NoDup_take_l, NoDup_free_blocks. }
  set (new := rev hs0).
  assert (Hnewlen : length new = k) by (unfold new; by rewrite length_rev).
  assert (Hnew : Forall (λ h, 2 ≤ h < NUM_BLOCKS ∧ bitmap_test bm h = false)
                   new).
  { rewrite Forall_forall in Hhs0 |- *. intros h Hh. apply Hhs0.
    by apply elem_of_rev_iff. }
  assert (Hnewnd : NoDup new) by (unfold new; by apply NoDup_rev_l).
  pose proof (assign_handles_contiguous Hok iNode new Hlen ltac:(lia) Hcont)
    as Hassign.
  cbv zeta in Hassign. fold c q in Hassign.
  assert (Hroom : (c + length new ≤ Z.to_nat MAX_DATA_BLOCKS)%nat)
    by (rewrite Hnewlen; unfold c, k; lia).
  specialize (Hassign Hroom). rewrite Hassign.
  set (rest := replicate (Z.to_nat MAX_DATA_BLOCKS - c - length new) 0).
  set (old := take c (blocks iNode)).
  change (file_handles iNode) with old in Hnd, Hfile |- *.
  assert (Holdlen : length old = c).
  { unfold old. rewrite length_take. unfold c. lia. }
  assert (Hqc : (Z.to_nat q ≤ c)%nat) by (unfold c; lia).
  set (last := drop (Z.to_nat q) old).
  assert (Hlastlen : Z.of_nat (length last) = (if r =? 0 then 0 else 1)).
  { unfold last. rewrite length_drop, Holdlen. unfold c. lia. }
  assert (Hold : old = take (Z.to_nat q) (blocks iNode) ++ last).
  { unfold last. rewrite <- (take_drop (Z.to_nat q) old) at 1. f_equal.
    unfold old. rewrite take_take. f_equal. lia. }
  set (whole := take (Z.to_nat q) (blocks iNode)) in *.
  assert (Hwholelen : length whole = Z.to_nat q).
  { unfold whole. rewrite length_take. lia. }
  set (iNode1 := {| i_magic := i_magic iNode; size := size iNode;
                    blocks := old ++ new ++ rest |}).
  assert (Hdisk1 : disk_ok (_bfs fs1)).
  { unfold fs1. simpl. apply disk_ok_insert; [done|].
    unfold bm2. by rewrite length_foldl_bitmap_set. }
  assert (Hsplit : Forall (λ h, 0 ≤ h < NUM_BLOCKS ∧ h ≠ block_num e
                                ∧ bitmap_test bm h = true) whole
                   ∧ Forall (λ h, 0 ≤ h < NUM_BLOCKS ∧ h ≠ block_num e
                                  ∧ bitmap_test bm h = true) last).
  { rewrite Hold in Hfile. by apply Forall_app in Hfile. }
  destruct Hsplit as [Hwhole Hlast].
  assert (Hndsplit : NoDup whole ∧ (∀ h, h ∈ whole → h ∉ last) ∧ NoDup last).
  { rewrite Hold in Hnd. by apply NoDup_app in Hnd. }
  destruct Hndsplit as (Hwholend & Hdisj & Hlastnd).
  assert (Hhs : Forall (λ h, 0 ≤ h < NUM_BLOCKS) (last ++ new)).
  { apply Forall_app. split.
    - eapply Forall_impl; [exact Hlast|]. simpl. lia.
    - eapply Forall_impl; [exact Hnew|]. simpl. lia. }
  assert (Hhsnd : NoDup (last ++ new)).
  { apply NoDup_app. split_and!; [done| |done].
    intros h Hh1 Hh2. rewrite Forall_forall in Hlast, Hnew.
    destruct (Hlast _ Hh1) as (_ & _ & Ht). destruct (Hnew _ Hh2) as [_ Hf].
    congruence. }
  assert (HDne : D ≠ []).
  { intros HDnil. rewrite HDnil in HD. simpl in HD. lia. }
  destruct (copy_data_spec Hok (strlen a_data) D iNode1 fs1 (last ++ new)
              rest q r)
    as (d' & Hcopy & Hd' & Hframe & tail & Htail); try done.
  { simpl. rewrite Hold, <- !app_assoc.
    rewrite drop_app_length'; [done|]. done. }
  { unfold D. by rewrite length_c_str. }
  { rewrite length_app, Nat2Z.inj_add, Hlastlen, Hnewlen, HD.
    unfold k. lia. }
  { unfold iNode1. cbn [size]. rewrite HD. lia. }
  rewrite (bind_Ret _ _ _ _ _ Hcopy).
  assert (Hlend' : Z.of_nat (length d') = NUM_BLOCKS) by apply Hd'.
  rewrite write_block_ok by (simpl; lia).
  set (iNode2 := {| i_magic := i_magic iNode1;
                    size := size iNode1 + Z.of_nat (length D);
                    blocks := blocks iNode1 |}).
  set (d2 := <[Z.to_nat (block_num e) := bytes_of_inode iNode2]> d').
  exists (with_disk fs d2), iNode2.
  pose proof num_blocks_below_u32 as Hnum.
  assert (HiN2 : inode_ok iNode2).
  { unfold inode_ok, iNode2, iNode1. cbn [i_magic size blocks].
    split_and!; [lia|lia|lia|lia| |].
    - rewrite !length_app, Holdlen. unfold rest. rewrite length_replicate.
      rewrite Hnewlen. unfold c, k. lia.
    - rewrite !Forall_app. split_and!.
      + unfold old. by apply Forall_take.
      + eapply Forall_impl; [exact Hnew|]. simpl. lia.
      + apply Forall_replicate. lia. }
  assert (Hnonzero : Forall (λ h, h ≠ 0) old).
  { apply (slots_contiguous_split iNode Hlen Hcont). }
  assert (Hwhole0 : Forall (λ h, h ≠ 0) whole).
  { rewrite Hold in Hnonzero. by apply Forall_app in Hnonzero as [? _]. }
  assert (Hlast0 : Forall (λ h, h ≠ 0) last).
  { rewrite Hold in Hnonzero. by apply Forall_app in Hnonzero as [_ ?]. }
  assert (Hd2d' : ∀ x, 0 ≤ x → x ≠ block_num e →
                       d2 !! Z.to_nat x = d' !! Z.to_nat x).
  { intros x Hx Hne. unfold d2. apply list_lookup_insert_ne. lia. }
  assert (Hfs1fs : ∀ x, 0 ≤ x → x ≠ 0 →
                        _bfs fs1 !! Z.to_nat x = _bfs fs !! Z.to_nat x).
  { intros x Hx Hne. unfold fs1. simpl. apply list_lookup_insert_ne. lia. }
  assert (Hd'fs1 : ∀ x, 0 ≤ x → x ∉ last → bitmap_test bm x = true →
                        d' !! Z.to_nat x = _bfs fs1 !! Z.to_nat x).
  { intros x Hx Hxl Hxt. apply Hframe. intros h Hh Heq.
    apply elem_of_app in Hh as [Hh|Hh].
    - rewrite Forall_forall in Hlast. destruct (Hlast _ Hh) as (? & _).
      assert (x = h) as -> by lia. done.
    - rewrite Forall_forall in Hnew. destruct (Hnew _ Hh) as (? & Hf).
      assert (x = h) as -> by lia. congruence. }
  split; [reflexivity|]. split; [done|]. split; [done|]. split; [done|].
  split.
  { simpl. apply disk_ok_insert; [done|].
    by apply (length_bytes_of_inode Hok). }
  split. { simpl. apply list_lookup_insert_eq. lia. }
  split; [done|]. split; [done|].
  split. { unfold iNode2, iNode1. cbn [size]. lia. }
  assert (Htake : take (Z.to_nat (ceil_div (size iNode + L) BLOCK_SIZE))
                    (old ++ new ++ rest) = whole ++ (last ++ new)).
  { rewrite (app_assoc old). rewrite take_app_length'.
    - rewrite Hold. by rewrite <- app_assoc.
    - rewrite length_app, Holdlen, Hnewlen. unfold c, k. lia. }
  split.
  { pose proof (assign_keeps_contiguous Hok iNode new L Hlen ltac:(lia)
                  ltac:(lia) Hcont) as Hkeep.
    cbv zeta in Hkeep. fold q c in Hkeep. rewrite Hassign in Hkeep.
    unfold iNode2, iNode1. cbn [i_magic size blocks]. rewrite HD.
    apply Hkeep.
    - eapply Forall_impl; [exact Hnew|]. simpl. unfold kInvalidHandle. lia.
    - rewrite Hnewlen. unfold k. lia. }
  split.
  { unfold file_handles, iNode2, iNode1. cbn [size blocks]. rewrite HD, Htake.
    apply Forall_app. split; [|done].
    eapply Forall_impl; [exact Hwhole|]. simpl. lia. }
  split.
  - unfold file_contents, file_handles.
    change (take (Z.to_nat (ceil_div (size iNode) BLOCK_SIZE))
              (blocks iNode)) with old.
    unfold iNode2 at 1 2 3, iNode1. cbn [size blocks _bfs with_disk].
    rewrite HD.
    rewrite Htake, Hold, !file_data_app.
    assert (HW : file_data d2 whole = file_data (_bfs fs) whole).
    { apply file_data_frame. intros h Hh.
      rewrite Forall_forall in Hwhole, Hwhole0.
      destruct (Hwhole _ Hh) as (Hrange & Hne & Ht).
      pose proof (Hwhole0 _ Hh).
      rewrite Hd2d', Hd'fs1, Hfs1fs by (done || lia || by apply Hdisj).
      done. }
    assert (HT : file_data d2 (last ++ new) = file_data d' (last ++ new)).
    { apply file_data_frame. intros h Hh.
      apply Hd2d'.
      - rewrite Forall_forall in Hhs. specialize (Hhs _ Hh). lia.
      - apply elem_of_app in Hh as [Hh|Hh].
        + rewrite Forall_forall in Hlast. by destruct (Hlast _ Hh) as (_ & ? & _).
        + rewrite Forall_forall in Hnew. destruct (Hnew _ Hh) as (_ & Hf).
          intros ->. congruence. }
    rewrite <- (file_data_app d2 last new), HW, HT, Htail.
    assert (Hlastrange : Forall (λ h, 0 ≤ h < NUM_BLOCKS) last).
    { eapply Forall_impl; [exact Hlast|]. simpl. lia. }
    destruct (take_file_data_last (_bfs fs1) r last new Hdisk1 Hrr
                Hlastrange Hlastlen) as [Hlast1 Hlastr].
    rewrite Hlast1.
    assert (HL1 : file_data (_bfs fs1) last = file_data (_bfs fs) last).
    { apply file_data_frame. intros h Hh.
      rewrite Forall_forall in Hlastrange, Hlast0.
      specialize (Hlastrange _ Hh). specialize (Hlast0 _ Hh).
      apply Hfs1fs; lia. }
    rewrite HL1 in Hlastr |- *.
    assert (HWlen : Z.of_nat (length (file_data (_bfs fs) whole))
                    = q * BLOCK_SIZE).
    { rewrite length_file_data; [lia|done|].
      eapply Forall_impl; [exact Hwhole|]. simpl. lia. }
    set (W := file_data (_bfs fs) whole) in *.
    set (T := take (Z.to_nat r) (file_data (_bfs fs) last)) in *.
    replace (W ++ T ++ D ++ tail) with ((W ++ T ++ D) ++ tail)
      by (by rewrite <- !app_assoc).
    rewrite take_app_length'
      by (rewrite !length_app; lia).
    rewrite (app_assoc W T D). f_equal.
    replace (Z.to_nat (size iNode))
      with (length W + Z.to_nat r)%nat by lia.
    by rewrite take_app_add'.
  - intros x Hx Hne Hxold Hxt.
    rewrite Hd2d', Hd'fs1, Hfs1fs; try done; try lia.
    intros Hxl. apply Hxold. rewrite Hold. apply elem_of_app. by right.
Qed.
End AppendTheorem.

Lemma take_common_prefix {A} (n : nat) (X Y a b : list A) :
  X ++ a = Y ++ b → (n ≤ length X)%nat → (n ≤ length Y)%nat →
  take n X = take n Y.
Proof.
  intros Heq HX HY.
  rewrite <- (take_app_le X a), <- (take_app_le Y b) by done.
  by rewrite Heq.
Qed.

Section HeadContents.
Context `{Blocks} (Hok : BlocksOk).

(** What [head] emits, in terms of the contents of the file. *)
Lemma head_contents fs a_name a_size b ib i e :
  let iNode := inode_of_bytes ib in
  disk_ok (_bfs fs) →
  read_block (_curDirHandle fs) fs = Ret (b, fs) →
  IsDirectory b = true →
  ForEachDirEntry (dir_of_bytes b) (name_matches a_name) fs
  = Ret (Some (i, e), fs) →
  read_block (block_num e) fs = Ret (ib, fs) →
  IsINode ib = true →
  slots_contiguous iNode →
  Forall (λ h, 0 ≤ h < NUM_BLOCKS) (file_handles iNode) →
  0 < size iNode → 0 ≤ a_size →
  Z.min a_size (size iNode) < MAX_FILE_SIZE →
  head a_name a_size fs
  = Ret (tt, with_response fs
               (_response fs
                ++ take (Z.to_nat a_size) (file_contents (_bfs fs) iNode)
                ++ [NL])).
Proof.
  pose proof (block_size_pos Hok) as HB.
  pose proof (num_blocks_min Hok) as HNB.
  intros iNode Hdisk Hr Hd Hfind Hri Hi Hcont Hrange Hsize Ha Hmax.
  destruct (inode_of_bytes_ok ib) as (_ & Hs & Hlen & _).
  fold iNode in Hs, Hlen.
  set (n := Z.min a_size (size iNode)) in *.
  assert (Hn : 0 ≤ n) by (unfold n; lia).
  assert (HB0 : BLOCK_SIZE ≠ 0) by lia.
  pose proof (Z.div_mod (size iNode) BLOCK_SIZE HB0) as Hqr.
  pose proof (Z.mod_pos_bound (size iNode) BLOCK_SIZE HB) as Hrr.
  pose proof (Z.div_mod n BLOCK_SIZE HB0) as Hnqr.
  pose proof (Z.mod_pos_bound n BLOCK_SIZE HB) as Hnrr.
  assert (Hq : 0 ≤ n / BLOCK_SIZE) by (apply Z.div_pos; lia).
  assert (Hqq : n / BLOCK_SIZE ≤ size iNode / BLOCK_SIZE).
  { apply Z.div_le_mono; unfold n; lia. }
  assert (HqM : n / BLOCK_SIZE < MAX_DATA_BLOCKS).
  { apply Z.div_lt_upper_bound; [lia|]. unfold MAX_FILE_SIZE in Hmax. lia. }
  assert (Hc : ceil_div (size iNode) BLOCK_SIZE
               = size iNode / BLOCK_SIZE
                 + (if size iNode mod BLOCK_SIZE =? 0 then 0 else 1)).
  { rewrite Hqr at 1. rewrite (Z.mul_comm BLOCK_SIZE).
    by apply (ceil_div_rem Hok). }
  assert (Hif : 0 ≤ (if size iNode mod BLOCK_SIZE =? 0 then 0 else 1) ≤ 1)
    by (destruct (size iNode mod BLOCK_SIZE =? 0); lia).
  assert (HcB : size iNode ≤ ceil_div (size iNode) BLOCK_SIZE * BLOCK_SIZE).
  { rewrite Hc. destruct (Z.eqb_spec (size iNode mod BLOCK_SIZE) 0); nia. }
  set (c := Z.to_nat (ceil_div (size iNode) BLOCK_SIZE)) in *.
  set (old := take c (blocks iNode)).
  change (file_handles iNode) with old in Hrange.
  assert (Hslots : ∀ j, 0 ≤ j ≤ n / BLOCK_SIZE →
                        slot_readable (_bfs fs) iNode j).
  { intros j Hj.
    destruct (blocks iNode !! Z.to_nat j) as [h|] eqn:Hh; last first.
    { apply lookup_ge_None in Hh. lia. }
    assert (Hhr : 0 ≤ h < NUM_BLOCKS).
    { destruct (decide (Z.to_nat j < c)%nat) as [Hlt|Hge].
      - rewrite Forall_lookup in Hrange. apply (Hrange (Z.to_nat j)).
        unfold old. by rewrite lookup_take_lt.
      - destruct (decide (h = 0)) as [->|Hne]; [lia|].
        apply (Hcont _ _ Hh) in Hne. unfold c in Hge. lia. }
    destruct (disk_ok_lookup _ _ Hdisk Hhr) as (blk & Hblk & _).
    by exists h, blk. }
  rewrite (head_eq _ _ _ _ _ _ _ Hr Hd Hfind Hri Hi). fold iNode. cbv zeta.
  destruct (Z.eqb_spec (size iNode) 0) as [|_]; [lia|].
  assert (Hsize' : (if a_size <? size iNode then a_size else size iNode) = n).
  { unfold n. destruct (Z.ltb_spec a_size (size iNode)); lia. }
  rewrite Hsize'.
  erewrite bind_Ret; last first.
  { apply head_blocks_spec; [done|]. intros j Hj. apply Hslots. lia. }
  unfold respond, with_response. cbn [_response _bfs _curDirHandle _lastErr].
  rewrite <- app_assoc. do 4 f_equal.
  rewrite (head_chunks_take Hok) by done.
  unfold file_contents. change (file_handles iNode) with old.
  rewrite take_take. f_equal.
  replace (Z.to_nat a_size `min` Z.to_nat (size iNode))%nat
    with (Z.to_nat n) by (unfold n; lia).
  destruct (file_blocks_prefix (_bfs fs) iNode old (drop c (blocks iNode))
              (Z.of_nat c + 1)) as [more Hmore].
  { unfold old. by rewrite take_drop. }
  { unfold old. rewrite length_take. lia. }
  apply (take_common_prefix _ _ _
           (concat (file_block (_bfs fs) iNode
                    <$> seqZ (n / BLOCK_SIZE + 1)
                          (Z.of_nat c + 1 - (n / BLOCK_SIZE + 1))))
           more).
  - rewrite <- Hmore, <- concat_app, <- fmap_app. do 2 f_equal.
    rewrite <- (seqZ_app 0) by (unfold c; lia). f_equal. lia.
  - pose proof (length_file_blocks (_bfs fs) iNode
                  (Z.to_nat (n / BLOCK_SIZE + 1)) Hdisk) as Hl.
    rewrite Z2Nat.id in Hl by lia.
    assert (Z.of_nat (length (concat (file_block (_bfs fs) iNode
                                      <$> seqZ 0 (n / BLOCK_SIZE + 1))))
            = (n / BLOCK_SIZE + 1) * BLOCK_SIZE) as Hl'.
    { apply Hl. intros j Hj. apply Hslots. lia. }
    nia.
  - assert (Z.of_nat (length (file_data (_bfs fs) old))
            = Z.of_nat (length old) * BLOCK_SIZE) as Hl.
    { by apply (length_file_data (_bfs fs) old). }
    assert (length old = Nat.min c (Z.to_nat MAX_DATA_BLOCKS)) as Hlo.
    { unfold old. rewrite length_take. lia. }
    assert (Hcz : Z.of_nat c = ceil_div (size iNode) BLOCK_SIZE).
    { pose proof (Z.div_pos (size iNode) BLOCK_SIZE). unfold c. lia. }
    unfold MAX_FILE_SIZE in Hmax.
    destruct (Nat.min_spec c (Z.to_nat MAX_DATA_BLOCKS)) as [[_ Hm]|[_ Hm]];
      rewrite Hlo, Hm in Hl; unfold n in *; nia.
Qed.

End HeadContents.

Section AppendClaims.
Context `{Blocks} (Hok : BlocksOk).

(** X14.  [append] of non-empty data to a file with contiguous slots, with
    room in the file and enough free blocks, returns; the inode block then
    holds an inode whose size has grown by the length of the data, and the
    contents of the file are the old contents followed by the data up to its
    terminator, also when the old size is not a multiple of the block size.
    Cursor, last error and response stay, and no block is written other than
    the superblock, the inode, the blocks of the file and blocks that were
    free. *)
Theorem append_extends_the_file
    (fs : FileSys) (a_name a_data b ib bm : list Z) (i : nat) (e : DirEntry) :
  let iNode := inode_of_bytes ib in
  let L := Z.of_nat (strlen a_data) in
  disk_ok (_bfs fs) →
  read_block (_curDirHandle fs) fs = Ret (b, fs) →
  IsDirectory b = true →
  ForEachDirEntry (dir_of_bytes b) (name_matches a_name) fs
  = Ret (Some (i, e), fs) →
  read_block (block_num e) fs = Ret (ib, fs) →
  IsINode ib = true →
  _bfs fs !! 0%nat = Some bm →
  bitmap_test bm (block_num e) = true →
  slots_contiguous iNode →
  NoDup (file_handles iNode) →
  Forall (λ h, 0 ≤ h < NUM_BLOCKS ∧ h ≠ block_num e
               ∧ bitmap_test bm h = true) (file_handles iNode) →
  0 < L →
  size iNode + L ≤ MAX_FILE_SIZE →
  ceil_div (size iNode + L) BLOCK_SIZE - ceil_div (size iNode) BLOCK_SIZE
  ≤ Z.of_nat (length (free_blocks bm)) →
  ∃ fs' ib',
    append a_name a_data fs = Ret (tt, fs')
    ∧ _curDirHandle fs' = _curDirHandle fs
    ∧ _lastErr fs' = _lastErr fs
    ∧ _response fs' = _response fs
    ∧ _bfs fs' !! Z.to_nat (block_num e) = Some ib'
    ∧ IsINode ib' = true
    ∧ size (inode_of_bytes ib') = size iNode + L
    ∧ file_contents (_bfs fs') (inode_of_bytes ib')
      = file_contents (_bfs fs) iNode ++ c_str a_data
    ∧ ∀ x, 0 < x → x ≠ block_num e → x ∉ file_handles iNode →
           bitmap_test bm x = true →
           _bfs fs' !! Z.to_nat x = _bfs fs !! Z.to_nat x.
Proof.
  intros iNode L Hdisk Hr Hd Hfind Hri Hi Hbm He Hcont Hnd Hfile HL Hfit
    Hfree.
  destruct (append_spec Hok fs a_name a_data b ib bm i e Hdisk Hr Hd Hfind
              Hri Hi Hbm He Hcont Hnd Hfile HL Hfit Hfree)
    as (fs' & iNode' & Happ & Hc' & He' & Hr' & _ & Hblk & HiN & Hmagic
        & Hsize & _ & _ & Hcontents & Hframe).
  exists fs', (bytes_of_inode iNode').
  rewrite (inode_of_bytes_of_inode _ HiN).
  split_and!; try done.
  unfold IsINode, bytes_of_inode. rewrite u32_le32.
  rewrite wrap32_small by apply HiN. rewrite Hmagic. exact Hi.
Qed.

(** X15.  After an [append] of non-empty data to a file with contiguous
    slots, with enough free blocks, that leaves the file below
    [MAX_FILE_SIZE], [cat] of the same name adds to the response the old
    contents of the file, the appended data and a newline. *)
Theorem append_then_cat_shows_old_and_new_data
    (fs : FileSys) (a_name a_data b ib bm : list Z) (i : nat) (e : DirEntry) :
  let iNode := inode_of_bytes ib in
  let L := Z.of_nat (strlen a_data) in
  disk_ok (_bfs fs) →
  read_block (_curDirHandle fs) fs = Ret (b, fs) →
  IsDirectory b = true →
  ForEachDirEntry (dir_of_bytes b) (name_matches a_name) fs
  = Ret (Some (i, e), fs) →
  read_block (block_num e) fs = Ret (ib, fs) →
  IsINode ib = true →
  _bfs fs !! 0%nat = Some bm →
  0 < _curDirHandle fs →
  bitmap_test bm (_curDirHandle fs) = true →
  bitmap_test bm (block_num e) = true →
  slots_contiguous iNode →
  NoDup (file_handles iNode) →
  Forall (λ h, 0 ≤ h < NUM_BLOCKS ∧ h ≠ block_num e
               ∧ bitmap_test bm h = true) (file_handles iNode) →
  _curDirHandle fs ∉ file_handles iNode →
  0 < L →
  size iNode + L < MAX_FILE_SIZE →
  ceil_div (size iNode + L) BLOCK_SIZE - ceil_div (size iNode) BLOCK_SIZE
  ≤ Z.of_nat (length (free_blocks bm)) →
  ∃ fs',
    (append a_name a_data;; cat a_name) fs = Ret (tt, fs')
    ∧ _response fs'
      = _response fs ++ file_contents (_bfs fs) iNode ++ c_str a_data ++ [NL]
    ∧ _curDirHandle fs' = _curDirHandle fs
    ∧ _lastErr fs' = _lastErr fs.
Proof.
  intros iNode L Hdisk Hr Hd Hfind Hri Hi Hbm Hcur0 Hcurbit He Hcont Hnd
    Hfile Hcurfile HL Hfit Hfree.
  pose proof (file_size_fits Hok) as H32.
  assert (Hfit' : size iNode + L ≤ MAX_FILE_SIZE) by lia.
  destruct (append_spec Hok fs a_name a_data b ib bm i e Hdisk Hr Hd Hfind
              Hri Hi Hbm He Hcont Hnd Hfile HL Hfit' Hfree)
    as (fs1 & iNode1 & Happ & Hc1 & He1 & Hr1 & Hdisk1 & Hblk & HiN & Hmagic
        & Hsize & Hcont1 & Hrange1 & Hcontents & Hframe).
  destruct (inode_of_bytes_ok ib) as (_ & Hsz & _). subst iNode L.
  destruct (read_block_inv _ _ _ _ Hr) as (_ & Hcur & Hb).
  destruct (read_block_inv _ _ _ _ Hri) as (_ & Hhe & Hib).
  assert (Hne : _curDirHandle fs ≠ block_num e).
  { intros Heq. rewrite Heq, Hib in Hb. injection Hb as ->.
    unfold IsDirectory, IsINode in Hd, Hi.
    apply Z.eqb_eq in Hd, Hi. pose proof (magic_distinct Hok). congruence. }
  assert (Hr' : read_block (_curDirHandle fs1) fs1 = Ret (b, fs1)).
  { rewrite Hc1. apply read_block_ok; [done|]. by rewrite Hframe. }
  assert (Hfind' : ForEachDirEntry (dir_of_bytes b) (name_matches a_name) fs1
                   = Ret (Some (i, e), fs1)).
  { by apply (name_lookup_pure _ _ _ _ _ _ Hfind). }
  assert (Hri' : read_block (block_num e) fs1
                 = Ret (bytes_of_inode iNode1, fs1))
    by (by apply read_block_ok).
  assert (Hi' : IsINode (bytes_of_inode iNode1) = true).
  { unfold IsINode, bytes_of_inode. rewrite u32_le32.
    rewrite wrap32_small by apply HiN. rewrite Hmagic. exact Hi. }
  pose proof (head_contents Hok fs1 a_name MAX_FILE_SIZE b
                (bytes_of_inode iNode1) i e Hdisk1 Hr' Hd Hfind' Hri' Hi')
    as Hcat.
  cbv zeta in Hcat. rewrite (inode_of_bytes_of_inode _ HiN) in Hcat.
  assert (Hpos : 0 < size iNode1) by lia.
  assert (Hmax0 : 0 ≤ MAX_FILE_SIZE) by lia.
  assert (Hmin : Z.min MAX_FILE_SIZE (size iNode1) < MAX_FILE_SIZE) by lia.
  specialize (Hcat Hcont1 Hrange1 Hpos Hmax0 Hmin).
  eexists. split.
  { rewrite (bind_Ret _ _ _ _ _ Happ). unfold cat. exact Hcat. }
  cbn [_response _curDirHandle _lastErr with_response].
  split_and!; [|done|done].
  rewrite Hr1. f_equal. rewrite app_assoc, <- Hcontents. f_equal.
  apply take_ge. unfold file_contents. rewrite length_take. lia.
Qed.

End AppendClaims.

(** ** What [stat] reports *)

Section Stat.
Context `{Blocks} (Hok : BlocksOk).

(** X16.  [stat] of a name whose block is not a directory reads the block as
    an inode and writes four lines: the handle, the size, a count of blocks
    and the first data block.  For a file that is not empty the count is
    [size / BLOCK_SIZE + 2]: the inode block and the [ceil(size /
    BLOCK_SIZE)] data blocks, and one more when the size is a multiple of
    the block size.  Nothing but the response changes. *)
Theorem stat_counts_one_block_more_on_full_blocks
    (fs : FileSys) (a_name b buf : list Z) (i : nat) (e : DirEntry) :
  read_block (_curDirHandle fs) fs = Ret (b, fs) →
  IsDirectory b = true →
  ForEachDirEntry (dir_of_bytes b) (name_matches a_name) fs
  = Ret (Some (i, e), fs) →
  read_block (block_num e) fs = Ret (buf, fs) →
  IsDirectory buf = false →
  let iNode := inode_of_bytes buf in
  stat a_name fs
  = Ret (tt, with_response fs
               (_response fs
                ++ (literal "iNode block: " ++ to_string (block_num e)
                    ++ [NL])
                ++ (literal "Bytes in files: " ++ to_string (size iNode)
                    ++ [NL])
                ++ (literal "Number of blocks: "
                    ++ to_string
                         (if size iNode =? 0 then 1
                          else 1 + ceil_div (size iNode) BLOCK_SIZE
                               + (if size iNode mod BLOCK_SIZE =? 0
                                  then 1 else 0))
                    ++ [NL])
                ++ (literal "First block: "
                    ++ (if size iNode =? 0 then literal "N/A"
                        else to_string (default 0 (blocks iNode !! 0%nat)))
                    ++ [NL]))).
Proof.
  intros Hr Hd Hfind Hrb Hfile iNode.
  pose proof (block_size_pos Hok) as HB.
  pose proof (inode_fills_block Hok) as Hfill.
  pose proof (data_blocks_pos Hok) as HMDB.
  destruct (inode_of_bytes_ok buf) as (_ & Hsz & Hlen & _).
  fold iNode in Hsz, Hlen.
  unfold stat, curDirHandle. unfold mbind at 1, M_bind at 1.
  rewrite (bind_Ret _ _ _ _ _ (ReadDirBlock_eq _ _ _ Hr)), Hd.
  cbv beta iota delta [negb].
  rewrite (bind_Ret _ _ _ _ _ Hfind), (bind_Ret _ _ _ _ _ Hrb), Hfile.
  cbv zeta. fold iNode.
  assert (Hcount : wrap32 (size iNode / BLOCK_SIZE + 2)
                   = 1 + ceil_div (size iNode) BLOCK_SIZE
                     + (if size iNode mod BLOCK_SIZE =? 0 then 1 else 0)).
  { assert (HB0 : BLOCK_SIZE ≠ 0) by lia.
    pose proof (Z.div_mod (size iNode) BLOCK_SIZE HB0) as Hqr.
    pose proof (Z.mod_pos_bound (size iNode) BLOCK_SIZE HB) as Hrr.
    assert (Hq : 0 ≤ size iNode / BLOCK_SIZE) by (apply Z.div_pos; lia).
    assert (Hq' : size iNode / BLOCK_SIZE ≤ size iNode)
      by (apply Z.div_le_upper_bound; nia).
    assert (Hq'' : size iNode / BLOCK_SIZE * 12 ≤ size iNode) by nia.
    rewrite wrap32_small by lia.
    rewrite Hqr at 2. rewrite (Z.mul_comm BLOCK_SIZE).
    rewrite (ceil_div_rem Hok) by done.
    destruct (size iNode mod BLOCK_SIZE =? 0); lia. }
  rewrite Hcount.
  destruct (size iNode =? 0) eqn:Hzero.
  - unfold mbind, M_bind, respond, with_response.
    cbn [_response _bfs _curDirHandle _lastErr].
    rewrite <- !app_assoc. reflexivity.
  - destruct (blocks iNode !! 0%nat) as [first|] eqn:Hfirst; last first.
    { apply lookup_ge_None in Hfirst. lia. }
    unfold mbind, M_bind, respond, with_response, array_get.
    cbn [_response _bfs _curDirHandle _lastErr].
    change (0 <? 0) with false. change (Z.to_nat 0) with 0%nat.
    cbv iota. rewrite Hfirst. unfold mret, M_ret.
    cbn [_response _bfs _curDirHandle _lastErr default].
    rewrite <- !app_assoc. reflexivity.
Qed.

End Stat.

(** ** Strings *)

Lemma find_first_of_from_skip (s1 s2 chars : list Z) (i : Z) :
  Forall (λ c, c ∉ chars) s1 →
  find_first_of_from (s1 ++ s2) chars i
  = find_first_of_from s2 chars (i + Z.of_nat (length s1)).
Proof.
  intros Hs1. revert i. induction Hs1 as [|c s1 Hc Hs1 IH]; intros i.
  - simpl. f_equal. lia.
  - cbn [app find_first_of_from length]. rewrite bool_decide_eq_false_2 by done.
    rewrite IH. f_equal. lia.
Qed.

Lemma find_first_of_from_hit (c : Z) (s chars : list Z) (i : Z) :
  c ∈ chars → find_first_of_from (c :: s) chars i = i.
Proof. intros Hc. simpl. by rewrite bool_decide_eq_true_2. Qed.

Lemma find_first_of_from_none (s chars : list Z) (i : Z) :
  Forall (λ c, c ∉ chars) s → find_first_of_from s chars i = npos.
Proof.
  intros Hs. rewrite <- (app_nil_r s), find_first_of_from_skip by done. done.
Qed.

(** The first of [chars] behind a prefix that has none of them. *)
Lemma find_first_of_hit (pre s : list Z) (c : Z) (chars : list Z) (pos : nat) :
  (pos ≤ length pre)%nat →
  Forall (λ c, c ∉ chars) (drop pos pre) → c ∈ chars →
  find_first_of (pre ++ c :: s) chars (Z.of_nat pos)
  = Z.of_nat (length pre).
Proof.
  intros Hpos Hpre Hc. unfold find_first_of.
  rewrite length_app. cbn [length].
  destruct (Z.leb_spec (Z.of_nat (length pre + S (length s))) (Z.of_nat pos));
    [lia|].
  rewrite Nat2Z.id, drop_app_le by done.
  rewrite find_first_of_from_skip, find_first_of_from_hit by done.
  rewrite length_drop. lia.
Qed.

Lemma find_first_of_first (pre s : list Z) (c : Z) (chars : list Z) :
  Forall (λ c, c ∉ chars) pre → c ∈ chars →
  find_first_of (pre ++ c :: s) chars 0 = Z.of_nat (length pre).
Proof. intros. by apply (find_first_of_hit pre s c chars 0); [lia|..]. Qed.

Lemma find_first_of_none (s chars : list Z) (pos : Z) :
  Forall (λ c, c ∉ chars) s → find_first_of s chars pos = npos.
Proof.
  intros Hs. unfold find_first_of. destruct (_ <=? _); [done|].
  apply find_first_of_from_none. by apply Forall_drop.
Qed.

Lemma substr_middle (pre s post : list Z) :
  substr (pre ++ s ++ post) (Z.of_nat (length pre)) (Z.of_nat (length s))
  = Some s.
Proof.
  unfold substr. rewrite !length_app.
  destruct (Z.ltb_spec (Z.of_nat (length pre + (length s + length post)))
              (Z.of_nat (length pre))); [lia|].
  rewrite Nat2Z.id, drop_app_length. f_equal.
  rewrite Z.min_l by lia. rewrite Nat2Z.id. by rewrite take_app_length.
Qed.

Lemma substr_prefix (s post : list Z) :
  substr (s ++ post) 0 (Z.of_nat (length s)) = Some s.
Proof. apply (substr_middle [] s post). Qed.

(** A tail that is asked for with more characters than it has. *)
Lemma substr_tail (pre s : list Z) (len : Z) :
  Z.of_nat (length s) ≤ len →
  substr (pre ++ s) (Z.of_nat (length pre)) len = Some s.
Proof.
  intros Hlen. unfold substr. rewrite !length_app.
  destruct (Z.ltb_spec (Z.of_nat (length pre + length s))
              (Z.of_nat (length pre))); [lia|].
  rewrite Nat2Z.id, drop_app_length. f_equal.
  rewrite Z.min_r by lia. apply take_ge. lia.
Qed.

Lemma wrap64_small (v : Z) : 0 ≤ v ≤ npos → wrap64 v = v.
Proof. intros Hv. unfold wrap64. apply Z.mod_small. unfold npos in Hv. lia. Qed.

(** ** Numbers and their digits *)

Lemma digits_value_stop (rest : list Z) (a : Z) :
  no_digit_ahead rest → digits_value rest a = a.
Proof. destruct rest as [|c rest]; simpl; [done|]. by intros ->. Qed.

Lemma digits_spec (fuel : nat) (v : Z) (acc : list Z) :
  0 ≤ v → (Z.to_nat v < fuel)%nat →
  ∃ d ds,
    digits fuel v acc = (d :: ds) ++ acc
    ∧ isdigit d = true
    ∧ ∀ rest a, digits_value ((d :: ds) ++ rest) a
                = digits_value rest (a * 10 ^ Z.of_nat (length (d :: ds)) + v).
Proof.
  revert v acc. induction fuel as [|fuel IH]; intros v acc Hv Hfuel; [lia|].
  cbn [digits].
  assert (Hd : 0 ≤ v mod 10 < 10) by (apply Z.mod_pos_bound; lia).
  assert (Hdigit : isdigit (48 + v mod 10) = true).
  { unfold isdigit. apply andb_true_iff. split; apply Z.leb_le; lia. }
  pose proof (Z.div_mod v 10 ltac:(lia)) as Hdm.
  destruct (Z.eqb_spec (v / 10) 0) as [Hq|Hq].
  - exists (48 + v mod 10), []. split_and!; [done..|].
    intros rest a. cbn [app digits_value length]. rewrite Hdigit.
    f_equal. change (Z.of_nat 1) with 1. lia.
  - assert (Hq' : 0 < v / 10) by (pose proof (Z.div_pos v 10); lia).
    destruct (IH (v / 10) ((48 + v mod 10) :: acc)) as (d & ds & Heq & Hd1 & Hval);
      [lia|lia|].
    exists d, (ds ++ [48 + v mod 10]). split_and!; [|done|].
    + rewrite Heq. cbn [app]. by rewrite <- app_assoc.
    + intros rest a.
      replace ((d :: ds ++ [48 + v mod 10]) ++ rest)
        with ((d :: ds) ++ (48 + v mod 10) :: rest)
        by (cbn [app]; by rewrite <- app_assoc).
      rewrite Hval. cbn [digits_value]. rewrite Hdigit. f_equal.
      cbn [length]. rewrite length_app. cbn [length].
      replace (Z.of_nat (S (length ds + 1)))
        with (Z.of_nat (S (length ds)) + 1) by lia.
      rewrite Z.pow_add_r by lia. lia.
Qed.

Lemma to_string_spec (v : Z) :
  0 ≤ v →
  ∃ d ds, to_string v = d :: ds ∧ isdigit d = true
          ∧ ∀ rest, no_digit_ahead rest → digits_value (d :: ds ++ rest) 0 = v.
Proof.
  intros Hv. unfold to_string.
  destruct (digits_spec (S (Z.to_nat v)) v [] Hv) as (d & ds & Heq & Hd & Hval);
    [lia|].
  exists d, ds. rewrite Heq, app_nil_r. split_and!; [done..|].
  intros rest Hrest. change (d :: ds ++ rest) with ((d :: ds) ++ rest).
  rewrite (Hval rest 0). by rewrite digits_value_stop.
Qed.

Lemma isdigit_not_space (c : Z) : isdigit c = true → isspace c = false.
Proof.
  unfold isdigit, isspace. intros [?%Z.leb_le ?%Z.leb_le]%andb_true_iff.
  apply bool_decide_eq_false_2. rewrite !elem_of_cons, elem_of_nil. lia.
Qed.

Lemma parse_to_string (v : Z) (rest : list Z) :
  0 ≤ v → no_digit_ahead rest →
  parse_integer (to_string v ++ rest) = Some v.
Proof.
  intros Hv Hrest.
  destruct (to_string_spec v Hv) as (d & ds & -> & Hd & Hval).
  unfold parse_integer. cbn [app skip_space].
  rewrite (isdigit_not_space _ Hd).
  pose proof Hd as [?%Z.leb_le ?%Z.leb_le]%andb_true_iff.
  destruct (Z.eqb_spec d 45); [lia|]. destruct (Z.eqb_spec d 43); [lia|].
  rewrite Hd. by rewrite (Hval rest Hrest).
Qed.

Lemma parse_to_string_int (v : Z) (rest : list Z) :
  no_digit_ahead rest →
  parse_integer (to_string_int v ++ rest) = Some v.
Proof.
  intros Hrest. unfold to_string_int.
  destruct (Z.ltb_spec v 0); [|by apply parse_to_string].
  destruct (to_string_spec (- v)) as (d & ds & Heq & Hd & Hval); [lia|].
  unfold parse_integer. rewrite Heq. cbn [app skip_space].
  change (isspace 45) with false. cbv iota. change (45 =? 45) with true.
  cbv iota. rewrite Hd. rewrite (Hval rest Hrest). f_equal. lia.
Qed.

Lemma stoi_to_string_int (v : Z) (rest : list Z) :
  -2147483648 ≤ v ≤ 2147483647 → no_digit_ahead rest →
  stoi (to_string_int v ++ rest) = Some v.
Proof.
  intros Hv Hrest. unfold stoi. rewrite parse_to_string_int by done. simpl.
  destruct (Z.leb_spec (-2147483648) v), (Z.leb_spec v 2147483647);
    done || lia.
Qed.

Lemma stoull_to_string (v : Z) (rest : list Z) :
  0 ≤ v ≤ npos → no_digit_ahead rest →
  stoull (32 :: to_string v ++ rest) = Some v.
Proof.
  intros Hv Hrest. unfold stoull.
  assert (parse_integer (32 :: to_string v ++ rest) = Some v) as ->.
  { rewrite <- (parse_to_string v rest) by (lia || done). done. }
  simpl. destruct (Z.leb_spec (Z.abs v) npos); [|lia].
  by rewrite wrap64_small.
Qed.

Lemma digits_are_digits (fuel : nat) (v : Z) (acc : list Z) :
  0 ≤ v → Forall (λ c, isdigit c = true) acc →
  Forall (λ c, isdigit c = true) (digits fuel v acc).
Proof.
  revert v acc. induction fuel as [|fuel IH]; intros v acc Hv Hacc; [done|].
  cbn [digits].
  assert (Hd : 0 ≤ v mod 10 < 10) by (apply Z.mod_pos_bound; lia).
  assert (Hdigit : isdigit (48 + v mod 10) = true).
  { unfold isdigit. apply andb_true_iff. split; apply Z.leb_le; lia. }
  destruct (v / 10 =? 0); [by constructor|].
  apply IH; [apply Z.div_pos; lia|by constructor].
Qed.

Lemma length_digits (fuel : nat) (v : Z) (acc : list Z) :
  (length (digits fuel v acc) ≤ fuel + length acc)%nat.
Proof.
  revert v acc. induction fuel as [|fuel IH]; intros v acc; [done|].
  cbn [digits]. destruct (v / 10 =? 0); [simpl; lia|].
  etrans; [apply IH|]. simpl. lia.
Qed.

Lemma to_string_digits (v : Z) :
  0 ≤ v → Forall (λ c, isdigit c = true) (to_string v).
Proof. intros Hv. by apply digits_are_digits. Qed.

Lemma length_to_string (v : Z) :
  0 ≤ v → Z.of_nat (length (to_string v)) ≤ v + 1.
Proof.
  intros Hv. unfold to_string.
  pose proof (length_digits (S (Z.to_nat v)) v []). simpl in *. lia.
Qed.

Lemma to_string_free_of (v x : Z) :
  0 ≤ v → isdigit x = false → x ∉ to_string v.
Proof.
  intros Hv Hx Hin. pose proof (to_string_digits v Hv) as Hall.
  rewrite Forall_forall in Hall. specialize (Hall _ Hin). congruence.
Qed.

Lemma to_string_int_free_of (v x : Z) :
  isdigit x = false → x ≠ 45 → x ∉ to_string_int v.
Proof.
  intros Hx H45. unfold to_string_int. destruct (v <? 0) eqn:Hv.
  - apply Z.ltb_lt in Hv. intros [?|Hin]%elem_of_cons; [done|].
    by apply (to_string_free_of (- v) x); [lia|..].
  - apply Z.ltb_ge in Hv. by apply to_string_free_of.
Qed.

Lemma length_to_string_int (v : Z) :
  Z.of_nat (length (to_string_int v)) ≤ Z.abs v + 2.
Proof.
  unfold to_string_int. destruct (v <? 0) eqn:Hv.
  - apply Z.ltb_lt in Hv. pose proof (length_to_string (- v)).
    cbn [length]. lia.
  - apply Z.ltb_ge in Hv. pose proof (length_to_string v). lia.
Qed.

(** ** The command parser of the server *)

Lemma free_of (x : Z) (s : list Z) : x ∉ s → Forall (λ c, c ∉ [x]) s.
Proof.
  intros Hx. apply Forall_forall. intros c Hc ->%list_elem_of_singleton. done.
Qed.

Lemma free_of_both (x y : Z) (s : list Z) :
  x ∉ s → y ∉ s → Forall (λ c, c ∉ [x; y]) s.
Proof.
  intros Hx Hy. apply Forall_forall. intros c Hc.
  rewrite !elem_of_cons, elem_of_nil. intros [->|[->|[]]]; done.
Qed.

(** Both sides are the same list, bracketed in two ways. *)
#[local] Ltac reassoc :=
  repeat first [rewrite <- app_assoc | progress cbn [app]]; reflexivity.

Section Parser.
Context `{Blocks}.

(** The first word of a message that goes on behind a blank or a carriage
    return. *)
Lemma key_of_message (word rest : list Z) (c : Z) :
  32 ∉ word → 13 ∉ word → c ∈ [32; 13] →
  substr (word ++ c :: rest) 0 (find_first_of (word ++ c :: rest) [32; 13] 0)
  = Some word.
Proof.
  intros H32 H13 Hc.
  rewrite find_first_of_first; [|by apply free_of_both|done].
  apply substr_prefix.
Qed.

Lemma with_name_message (command : list Z → M unit) (word a_name : list Z)
    (fs : FileSys) :
  32 ∉ word → 13 ∉ word → 32 ∉ a_name → 13 ∉ a_name →
  Z.of_nat (length word + length a_name) < npos →
  with_name command (on_the_wire (word ++ [32] ++ a_name ++ CRLF)) fs
  = command a_name fs.
Proof.
  intros Hw32 Hw13 Hn32 Hn13 Hlen. unfold with_name, on_the_wire, CRLF.
  cbv zeta.
  set (msg := (word ++ [32] ++ a_name ++ [13; 10]) ++ [0]).
  assert (Hsp : find_first_of msg [32] 0 = Z.of_nat (length word)).
  { unfold msg. rewrite <- !app_assoc. cbn [app].
    apply find_first_of_first; [by apply free_of|by left]. }
  assert (Hcr : find_first_of msg [13] 0
                = Z.of_nat (length word) + 1 + Z.of_nat (length a_name)).
  { unfold msg.
    replace ((word ++ [32] ++ a_name ++ [13; 10]) ++ [0])
      with ((word ++ 32 :: a_name) ++ 13 :: [10; 0])
      by reassoc.
    rewrite find_first_of_first; [| |by left].
    - rewrite length_app. cbn [length]. lia.
    - apply Forall_app. split; [by apply free_of|].
      constructor; [|by apply free_of].
      by intros ?%list_elem_of_singleton. }
  rewrite Hsp, Hcr.
  rewrite (wrap64_small (Z.of_nat (length word) + 1)) by lia.
  replace (Z.of_nat (length word) + 1 + Z.of_nat (length a_name)
           - (Z.of_nat (length word) + 1))
    with (Z.of_nat (length a_name)) by lia.
  rewrite (wrap64_small (Z.of_nat (length a_name))) by lia.
  assert (Hsub : substr msg (Z.of_nat (length word) + 1)
                   (Z.of_nat (length a_name)) = Some a_name).
  { unfold msg.
    replace ((word ++ [32] ++ a_name ++ [13; 10]) ++ [0])
      with ((word ++ [32]) ++ a_name ++ [13; 10; 0])
      by reassoc.
    replace (Z.of_nat (length word) + 1)
      with (Z.of_nat (length (word ++ [32])))
      by (rewrite length_app; simpl; lia).
    apply substr_middle. }
  by rewrite Hsub.
Qed.

Lemma with_name_and_word_message (command : list Z → list Z → M unit)
    (word a_name a_data : list Z) (fs : FileSys) :
  32 ∉ word → 13 ∉ word → 32 ∉ a_name → 13 ∉ a_data →
  Z.of_nat (length word + length a_name + length a_data) + 1 < npos →
  with_name_and_word command
    (on_the_wire (word ++ [32] ++ a_name ++ [32] ++ a_data ++ CRLF)) fs
  = command a_name a_data fs.
Proof.
  intros Hw32 Hw13 Hn32 Hd13 Hlen.
  unfold with_name_and_word, on_the_wire, CRLF. cbv zeta.
  set (msg := (word ++ [32] ++ a_name ++ [32] ++ a_data ++ [13; 10]) ++ [0]).
  set (p1 := Z.of_nat (length word) + 1).
  set (p2 := p1 + Z.of_nat (length a_name)).
  assert (Hsp : find_first_of msg [32] 0 = Z.of_nat (length word)).
  { unfold msg. rewrite <- !app_assoc. cbn [app].
    apply find_first_of_first; [by apply free_of|by left]. }
  rewrite Hsp.
  rewrite (wrap64_small (Z.of_nat (length word) + 1)) by lia. fold p1.
  assert (Hsp2 : find_first_of msg [32] p1 = p2).
  { unfold msg.
    replace ((word ++ [32] ++ a_name ++ [32] ++ a_data ++ [13; 10]) ++ [0])
      with ((word ++ 32 :: a_name) ++ 32 :: a_data ++ [13; 10; 0])
      by reassoc.
    replace p1 with (Z.of_nat (S (length word))) by (unfold p1; lia).
    rewrite (find_first_of_hit _ _ 32 [32] (S (length word)));
      [|rewrite length_app; simpl; lia| |by left].
    - rewrite length_app. cbn [length]. unfold p2, p1. lia.
    - replace (S (length word)) with (length (word ++ [32]))
        by (rewrite length_app; simpl; lia).
      replace (word ++ 32 :: a_name) with ((word ++ [32]) ++ a_name)
        by (by rewrite <- app_assoc).
      rewrite drop_app_length. by apply free_of. }
  rewrite Hsp2.
  replace (p2 - p1) with (Z.of_nat (length a_name)) by (unfold p2; lia).
  rewrite (wrap64_small (Z.of_nat (length a_name))) by lia.
  rewrite (wrap64_small (p2 + 1)) by (unfold p2, p1; lia).
  assert (Hname : substr msg p1 (Z.of_nat (length a_name)) = Some a_name).
  { unfold msg.
    replace ((word ++ [32] ++ a_name ++ [32] ++ a_data ++ [13; 10]) ++ [0])
      with ((word ++ [32]) ++ a_name ++ (32 :: a_data ++ [13; 10; 0]))
      by reassoc.
    replace p1 with (Z.of_nat (length (word ++ [32])))
      by (unfold p1; rewrite length_app; simpl; lia).
    apply substr_middle. }
  rewrite Hname. unfold uncaught at 1.
  unfold mbind at 1, M_bind at 1. unfold mret at 1, M_ret at 1.
  cbv beta iota zeta.
  assert (Hcr : find_first_of msg [13] (p2 + 1)
                = p2 + 1 + Z.of_nat (length a_data)).
  { unfold msg.
    replace ((word ++ [32] ++ a_name ++ [32] ++ a_data ++ [13; 10]) ++ [0])
      with (((word ++ 32 :: a_name ++ [32]) ++ a_data) ++ 13 :: [10; 0])
      by reassoc.
    replace (p2 + 1)
      with (Z.of_nat (length (word ++ 32 :: a_name ++ [32])))
      by (unfold p2, p1; rewrite !length_app; cbn [length];
          rewrite length_app; simpl; lia).
    rewrite (find_first_of_hit _ _ 13 [13]);
      [|rewrite (length_app _ a_data); lia| |by left].
    - rewrite (length_app _ a_data). lia.
    - rewrite drop_app_length. by apply free_of. }
  rewrite Hcr.
  replace (p2 + 1 + Z.of_nat (length a_data) - (p2 + 1))
    with (Z.of_nat (length a_data)) by lia.
  rewrite (wrap64_small (Z.of_nat (length a_data))) by lia.
  assert (Hdata : substr msg (p2 + 1) (Z.of_nat (length a_data))
                  = Some a_data).
  { unfold msg.
    replace ((word ++ [32] ++ a_name ++ [32] ++ a_data ++ [13; 10]) ++ [0])
      with ((word ++ 32 :: a_name ++ [32]) ++ a_data ++ [13; 10; 0])
      by reassoc.
    replace (p2 + 1)
      with (Z.of_nat (length (word ++ 32 :: a_name ++ [32])))
      by (unfold p2, p1; rewrite !length_app; cbn [length];
          rewrite length_app; simpl; lia).
    apply substr_middle. }
  by rewrite Hdata.
Qed.

End Parser.

(** A fact about closed lists of characters. *)
#[local] Ltac closed := refine (bool_decide_unpack _ _); vm_compute; exact I.

Section Requests.
Context `{Blocks}.

Lemma call_with_name (word : string) (command : list Z → M unit)
    (a_name : list Z) (fs : FileSys) :
  32 ∉ literal word → 13 ∉ literal word →
  table_find (literal word) _commandTable = Some (with_name command) →
  32 ∉ a_name → 13 ∉ a_name →
  Z.of_nat (length (literal word) + length a_name) < npos →
  CommandParser_call (on_the_wire (literal word ++ [32] ++ a_name ++ CRLF)) fs
  = (command a_name;; mret true) fs.
Proof.
  intros Hw32 Hw13 Hfind Hn32 Hn13 Hlen. unfold CommandParser_call.
  assert (Hkey : substr (on_the_wire (literal word ++ [32] ++ a_name ++ CRLF))
                   0 (find_first_of
                        (on_the_wire (literal word ++ [32] ++ a_name ++ CRLF))
                        [32; 13] 0)
                 = Some (literal word)).
  { unfold on_the_wire. rewrite <- !app_assoc. cbn [app].
    apply key_of_message; [done..|]. by left. }
  rewrite Hkey. unfold uncaught at 1.
  unfold mbind at 1, M_bind at 1. unfold mret at 1, M_ret at 1.
  cbv beta iota. rewrite Hfind.
  unfold mbind, M_bind. by rewrite with_name_message.
Qed.

Lemma call_with_name_and_word (word : string)
    (command : list Z → list Z → M unit) (a_name a_data : list Z)
    (fs : FileSys) :
  32 ∉ literal word → 13 ∉ literal word →
  table_find (literal word) _commandTable
  = Some (with_name_and_word command) →
  32 ∉ a_name → 13 ∉ a_data →
  Z.of_nat (length (literal word) + length a_name + length a_data) + 1
  < npos →
  CommandParser_call
    (on_the_wire (literal word ++ [32] ++ a_name ++ [32] ++ a_data ++ CRLF)) fs
  = (command a_name a_data;; mret true) fs.
Proof.
  intros Hw32 Hw13 Hfind Hn32 Hd13 Hlen. unfold CommandParser_call.
  set (msg := on_the_wire _).
  assert (Hkey : substr msg 0 (find_first_of msg [32; 13] 0)
                 = Some (literal word)).
  { unfold msg, on_the_wire. rewrite <- !app_assoc. cbn [app].
    apply key_of_message; [done..|]. by left. }
  rewrite Hkey. unfold uncaught at 1.
  unfold mbind at 1, M_bind at 1. unfold mret at 1, M_ret at 1.
  cbv beta iota. rewrite Hfind.
  unfold mbind, M_bind. unfold msg. by rewrite with_name_and_word_message.
Qed.

Lemma call_without_name (word : string) (command : M unit) (fs : FileSys) :
  32 ∉ literal word → 13 ∉ literal word →
  table_find (literal word) _commandTable = Some (λ _, command) →
  CommandParser_call (on_the_wire (literal word ++ CRLF)) fs
  = (command;; mret true) fs.
Proof.
  intros Hw32 Hw13 Hfind. unfold CommandParser_call.
  set (msg := on_the_wire _).
  assert (Hkey : substr msg 0 (find_first_of msg [32; 13] 0)
                 = Some (literal word)).
  { unfold msg, on_the_wire, CRLF. rewrite <- !app_assoc. cbn [app].
    apply key_of_message; [done..|]. right. by left. }
  rewrite Hkey. unfold uncaught at 1.
  unfold mbind at 1, M_bind at 1. unfold mret at 1, M_ret at 1.
  cbv beta iota. by rewrite Hfind.
Qed.

(** What the server makes of each message of the shell. *)
Lemma rpc_messages_run
    (a_name a_data : list Z) (n : Z) (fs : FileSys) :
  32 ∉ a_name → 13 ∉ a_name → 13 ∉ a_data →
  -2147483648 ≤ n ≤ 2147483647 →
  Z.of_nat (length a_name + length a_data) < 4611686018427387904 →
  let runs (message : list Z) (command : M unit) :=
    CommandParser_call (on_the_wire message) fs = (command;; mret true) fs in
  runs (mkdir_rpc a_name) (mkdir a_name)
  ∧ runs (cd_rpc a_name) (cd a_name)
  ∧ runs home_rpc home
  ∧ runs (rmdir_rpc a_name) (rmdir a_name)
  ∧ runs ls_rpc ls
  ∧ runs (create_rpc a_name) (create a_name)
  ∧ runs (append_rpc a_name a_data) (append a_name a_data)
  ∧ runs (cat_rpc a_name) (cat a_name)
  ∧ runs (head_rpc a_name n) (head a_name (wrap32 n))
  ∧ runs (rm_rpc a_name) (rm a_name)
  ∧ runs (stat_rpc a_name) (stat a_name).
Proof.
  intros Hn32 Hn13 Hd13 Hn Hlen runs. unfold runs, npos in *.
  assert (Hone : ∀ (word : string) command,
    32 ∉ literal word → 13 ∉ literal word →
    Z.of_nat (length (literal word)) < 10 →
    table_find (literal word) _commandTable = Some (with_name command) →
    CommandParser_call
      (on_the_wire (literal word ++ [32] ++ a_name ++ CRLF)) fs
    = (command a_name;; mret true) fs).
  { intros word command ? ? ? ?. apply call_with_name; try assumption.
    unfold npos. lia. }
  split_and!.
  - change (mkdir_rpc a_name) with (literal "mkdir" ++ [32] ++ a_name ++ CRLF).
    apply (Hone "mkdir"%string mkdir); first [reflexivity | closed].
  - change (cd_rpc a_name) with (literal "cd" ++ [32] ++ a_name ++ CRLF).
    apply (Hone "cd"%string cd); first [reflexivity | closed].
  - apply (call_without_name "home" home); first [reflexivity | closed].
  - change (rmdir_rpc a_name) with (literal "rmdir" ++ [32] ++ a_name ++ CRLF).
    apply (Hone "rmdir"%string rmdir); first [reflexivity | closed].
  - apply (call_without_name "ls" ls); first [reflexivity | closed].
  - change (create_rpc a_name)
      with (literal "create" ++ [32] ++ a_name ++ CRLF).
    apply (Hone "create"%string create); first [reflexivity | closed].
  - change (append_rpc a_name a_data)
      with (literal "append" ++ [32] ++ a_name ++ [32] ++ a_data ++ CRLF).
    apply (call_with_name_and_word "append" append);
      [closed|closed|reflexivity|assumption|assumption|].
    unfold npos. change (length (literal "append")) with 6%nat. lia.
  - change (cat_rpc a_name) with (literal "cat" ++ [32] ++ a_name ++ CRLF).
    apply (Hone "cat"%string cat); first [reflexivity | closed].
  - change (head_rpc a_name n)
      with (literal "head" ++ [32] ++ a_name ++ [32] ++ to_string_int n
            ++ CRLF).
    etrans.
    { apply (call_with_name_and_word "head"
               (λ fileName size,
                  n ← uncaught (stoi size); head fileName (wrap32 n)));
        [closed|closed|reflexivity|assumption| |].
      - apply to_string_int_free_of; [reflexivity|lia].
      - pose proof (length_to_string_int n). unfold npos.
        change (length (literal "head")) with 4%nat. lia. }
    rewrite <- (app_nil_r (to_string_int n)) at 1.
    rewrite stoi_to_string_int; [reflexivity|assumption|exact I].
  - change (rm_rpc a_name) with (literal "rm" ++ [32] ++ a_name ++ CRLF).
    apply (Hone "rm"%string rm); first [reflexivity | closed].
  - change (stat_rpc a_name) with (literal "stat" ++ [32] ++ a_name ++ CRLF).
    apply (Hone "stat"%string stat); first [reflexivity | closed].
Qed.

(** X17.  The message that each remote procedure call of the shell builds
    makes the command parser of the server run the operation of that name on
    the same arguments, when the name has no space and no carriage return
    and the data no carriage return: the bytes sent, terminator included,
    are parsed back into the name and the data.  The count of [head] arrives
    as the [unsigned int] of the [int] sent. *)
Theorem requests_run_their_operation
    (a_name a_data : list Z) (n : Z) (fs : FileSys) :
  32 ∉ a_name → 13 ∉ a_name → 13 ∉ a_data →
  -2147483648 ≤ n ≤ 2147483647 →
  Z.of_nat (length a_name + length a_data) < 4611686018427387904 →
  let runs (message : list Z) (command : M unit) :=
    CommandParser_call (on_the_wire message) fs = (command;; mret true) fs in
  runs (mkdir_rpc a_name) (mkdir a_name)
  ∧ runs (cd_rpc a_name) (cd a_name)
  ∧ runs home_rpc home
  ∧ runs (rmdir_rpc a_name) (rmdir a_name)
  ∧ runs ls_rpc ls
  ∧ runs (create_rpc a_name) (create a_name)
  ∧ runs (append_rpc a_name a_data) (append a_name a_data)
  ∧ runs (cat_rpc a_name) (cat a_name)
  ∧ runs (head_rpc a_name n) (head a_name (wrap32 n))
  ∧ runs (rm_rpc a_name) (rm a_name)
  ∧ runs (stat_rpc a_name) (stat a_name).
Proof. exact (rpc_messages_run a_name a_data n fs). Qed.

(** A request with the command word alone. *)
Lemma call_with_word_alone (word : string) (command : list Z → M unit)
    (fs : FileSys) :
  32 ∉ literal word → 13 ∉ literal word →
  Z.of_nat (length (literal word)) < 10 →
  table_find (literal word) _commandTable = Some (with_name command) →
  CommandParser_call (on_the_wire (literal word ++ CRLF)) fs
  = (command (literal word);; mret true) fs.
Proof.
  intros Hw32 Hw13 Hlen Hfind. unfold CommandParser_call.
  set (msg := on_the_wire _).
  assert (Hmsg : msg = literal word ++ 13 :: [10; 0]).
  { unfold msg, on_the_wire, CRLF. by rewrite <- app_assoc. }
  assert (Hkey : substr msg 0 (find_first_of msg [32; 13] 0)
                 = Some (literal word)).
  { rewrite Hmsg. apply key_of_message; [done..|]. right. by left. }
  rewrite Hkey. unfold uncaught at 1.
  unfold mbind at 1, M_bind at 1. unfold mret at 1, M_ret at 1.
  cbv beta iota. rewrite Hfind.
  unfold mbind at 1, M_bind at 1. unfold with_name. cbv zeta.
  assert (Hsp : find_first_of msg [32] 0 = npos).
  { rewrite Hmsg. apply find_first_of_none, Forall_app. split.
    - by apply free_of.
    - repeat constructor; by intros ?%list_elem_of_singleton. }
  assert (Hcr : find_first_of msg [13] 0 = Z.of_nat (length (literal word))).
  { rewrite Hmsg. apply find_first_of_first; [by apply free_of|by left]. }
  rewrite Hsp, Hcr. change (wrap64 (npos + 1)) with 0.
  rewrite Z.sub_0_r, wrap64_small by (unfold npos; lia).
  rewrite Hmsg, substr_prefix. done.
Qed.

(** X18.  A request that consists of a command word alone, without a space,
    makes the one-name commands run on the command word itself: the position
    after the first space wraps round to 0, so [mkdir] alone makes a
    directory called [mkdir]. *)
Theorem request_without_a_name_uses_the_command_word (fs : FileSys) :
  let runs (word : string) (command : list Z → M unit) :=
    CommandParser_call (on_the_wire (literal word ++ CRLF)) fs
    = (command (literal word);; mret true) fs in
  runs "mkdir"%string mkdir ∧ runs "cd"%string cd
  ∧ runs "rmdir"%string rmdir ∧ runs "create"%string create
  ∧ runs "stat"%string stat ∧ runs "cat"%string cat ∧ runs "rm"%string rm.
Proof.
  intros runs. unfold runs.
  split_and!; apply call_with_word_alone; first [reflexivity | assumption | closed].
Qed.

Lemma table_find_none {A} (key : list Z) (table : list (list Z * A)) :
  key ∉ table.*1 → table_find key table = None.
Proof.
  induction table as [|[k v] table IH]; [done|].
  intros Hkey. cbn [table_find].
  rewrite fmap_cons, not_elem_of_cons in Hkey. destruct Hkey as [Hk Hkey].
  rewrite bool_decide_eq_false_2 by done. by apply IH.
Qed.

Lemma table_find_some {A} (key : list Z) (table : list (list Z * A)) v :
  table_find key table = Some v → key ∈ table.*1.
Proof.
  induction table as [|[k v'] table IH]; [done|]. cbn [table_find].
  rewrite fmap_cons. destruct (decide (k = key)) as [->|Hne].
  - intros _. by left.
  - rewrite bool_decide_eq_false_2 by done. intros ?%IH. by right.
Qed.

(** X19.  A message whose first word is none of the eleven commands leaves
    the file system as it is, pending error and response included, and the
    reply of the server is [509 COMMAND_NOT_FOUND] with a length of 0 and no
    body. *)
Theorem unknown_command_is_answered_without_running_anything
    (a_msg key : list Z) (fs : FileSys) :
  substr a_msg 0 (find_first_of a_msg [32; 13] 0) = Some key →
  key ∉ literal <$> ["mkdir"; "ls"; "cd"; "home"; "rmdir"; "create";
                     "append"; "stat"; "cat"; "head"; "rm"]%string →
  CommandParser_call a_msg fs = Ret (false, fs)
  ∧ main_round a_msg fs
    = Ret (literal "509 COMMAND_NOT_FOUND" ++ CRLF
           ++ literal "Length: 0" ++ CRLF ++ CRLF, fs).
Proof.
  intros Hkey Hunknown.
  assert (Hcall : CommandParser_call a_msg fs = Ret (false, fs)).
  { unfold CommandParser_call. rewrite Hkey. unfold uncaught at 1.
    unfold mbind at 1, M_bind at 1. unfold mret at 1, M_ret at 1.
    cbv beta iota. by rewrite table_find_none. }
  split; [done|]. unfold main_round. by rewrite (bind_Ret _ _ _ _ _ Hcall).
Qed.

Lemma reply_arguments_commute (fs : FileSys) :
  (lastErr ← getLastErr; body ← getQueryResponse; mret (lastErr, body)) fs
  = (body ← getQueryResponse; lastErr ← getLastErr; mret (lastErr, body)) fs.
Proof. reflexivity. Qed.

Lemma CommandParser_call_inv (a_msg : list Z) (fs fs' : FileSys) known :
  CommandParser_call a_msg fs = Ret (known, fs') →
  if known then True else fs' = fs.
Proof.
  unfold CommandParser_call. destruct (substr _ _ _) as [key|]; [|done].
  unfold uncaught at 1. unfold mbind at 1, M_bind at 1.
  unfold mret at 1, M_ret at 1. cbv beta iota.
  destruct (table_find key _commandTable) as [command|].
  - intros (u & fs1 & _ & [= <- <-])%bind_Ret_inv. done.
  - by intros [= <- <-].
Qed.

(** X20.  A round of the server loop that starts with no pending error and
    an empty response ends that way, whatever the message was, and the reply
    is a message built by [PrepareMessage]: no reply carries the error or
    the output of an earlier command. *)
Theorem replies_carry_nothing_over
    (a_msg reply : list Z) (fs fs' : FileSys) :
  main_round a_msg fs = Ret (reply, fs') →
  _lastErr fs = kOK → _response fs = [] →
  _lastErr fs' = kOK ∧ _response fs' = []
  ∧ ∃ lastErr body, reply = PrepareMessage lastErr body.
Proof.
  unfold main_round.
  intros (known & fs1 & Hcall & Hrest)%bind_Ret_inv Herr Hresp.
  apply CommandParser_call_inv in Hcall. destruct known.
  - cbv beta iota delta [negb] in Hrest.
    apply bind_Ret_inv in Hrest as (e & fs2 & [= <- <-] & Hrest).
    apply bind_Ret_inv in Hrest as (body & fs3 & [= <- <-] & [= <- <-]).
    split_and!; [done..|]. by eexists _, _.
  - subst fs1. injection Hrest as <- <-. split_and!; [done..|].
    by exists kCommandNotFound, [].
Qed.

End Requests.

(** ** Replies *)

Section Replies.
Context `{Blocks}.

Lemma status_line_facts (e : FileError) :
  ∃ line, status_line e = (line ++ [NL])
          ∧ (NL ∉ line)
          ∧ Z.of_nat (length line) < 100
          ∧ stoi (status_line e) = Some (error_code e).
Proof.
  exists (removelast (status_line e)).
  destruct e; split_and!; first [reflexivity | closed].
Qed.

Lemma PrepareMessage_eq (e : FileError) (body : list Z) :
  PrepareMessage e body
  = status_line e
    ++ (literal "Length:" ++ 32 :: to_string (Z.of_nat (length body)) ++ CRLF)
    ++ CRLF ++ body.
Proof.
  unfold PrepareMessage, status_line. cbv zeta.
  change (literal "Length: ") with (literal "Length:" ++ [32]).
  repeat first [rewrite <- app_assoc | progress cbn [app]]. reflexivity.
Qed.

(** X21.  The shell reads back what the server sends: for every error code
    and every body below 2^62 bytes, [PrintResponse] on the bytes of
    [PrepareMessage], terminator included, writes the body and a newline to
    [cout] and the text of the error code, if any, to [cerr], and catches no
    exception. *)
Theorem reply_is_read_back (e : FileError) (body : list Z) :
  Z.of_nat (length body) < 4611686018427387904 →
  Shell.PrintResponse (on_the_wire (PrepareMessage e body))
  = {| Shell.cout := body ++ [NL];
       Shell.cerr := Shell.status_text (error_code e);
       Shell.caught := false |}.
Proof.
  intros Hbody.
  destruct (status_line_facts e) as (line & Hline & Hnl & Hlen1 & Hstoi).
  set (len := Z.of_nat (length body)) in *.
  assert (Hlen0 : 0 ≤ len) by (unfold len; lia).
  set (ds := to_string len).
  pose proof (length_to_string len Hlen0) as Hdigits. fold ds in Hdigits.
  assert (Hdnl : NL ∉ ds) by (by apply to_string_free_of).
  set (h1 := line ++ [NL]).
  set (h2 := literal "Length:" ++ 32 :: ds ++ CRLF).
  assert (Hmsg : on_the_wire (PrepareMessage e body)
                 = h1 ++ h2 ++ CRLF ++ body ++ [0]).
  { unfold on_the_wire. rewrite PrepareMessage_eq, Hline.
    unfold h1, h2. fold len ds. by rewrite <- !app_assoc. }
  rewrite Hmsg. set (msg := h1 ++ _).
  assert (Hh1 : Z.of_nat (length h1) = Z.of_nat (length line) + 1).
  { unfold h1. rewrite length_app. simpl. lia. }
  assert (Hh2 : Z.of_nat (length h2) = 10 + Z.of_nat (length ds)).
  { unfold h2. rewrite length_app. cbn [length].
    rewrite length_app. change (length (literal "Length:")) with 7%nat.
    simpl. lia. }
  assert (Hp1 : find_first_of msg [NL] 0 = Z.of_nat (length line)).
  { unfold msg, h1. rewrite <- !app_assoc. cbn [app].
    apply find_first_of_first; [by apply free_of|by left]. }
  assert (Hp2 : find_first_of msg [NL] (Z.of_nat (length h1))
                = Z.of_nat (length h1) + Z.of_nat (length h2) - 1).
  { unfold msg.
    replace (h1 ++ h2 ++ CRLF ++ body ++ [0])
      with ((h1 ++ literal "Length:" ++ 32 :: ds ++ [13])
            ++ NL :: CRLF ++ body ++ [0]).
    2:{ unfold h2, CRLF.
        repeat first [rewrite <- app_assoc | progress cbn [app]].
        reflexivity. }
    rewrite (find_first_of_hit _ _ NL [NL] (length h1));
      [|rewrite (length_app h1); lia| |by left].
    - rewrite (length_app h1), Nat2Z.inj_add, Hh2. f_equal.
      rewrite length_app. cbn [length]. rewrite length_app.
      change (length (literal "Length:")) with 7%nat. simpl. lia.
    - rewrite drop_app_length. apply Forall_app. split; [closed|].
      constructor; [by intros ?%list_elem_of_singleton|].
      apply Forall_app. split; [by apply free_of|].
      constructor; [by intros ?%list_elem_of_singleton|done]. }
  assert (Hp3 : find_first_of msg [NL]
                  (Z.of_nat (length h1) + Z.of_nat (length h2))
                = Z.of_nat (length h1) + Z.of_nat (length h2) + 1).
  { unfold msg.
    replace (h1 ++ h2 ++ CRLF ++ body ++ [0])
      with (((h1 ++ h2) ++ [13]) ++ NL :: body ++ [0]).
    2:{ unfold CRLF.
        repeat first [rewrite <- app_assoc | progress cbn [app]].
        reflexivity. }
    rewrite <- Nat2Z.inj_add, <- length_app.
    rewrite (find_first_of_hit _ _ NL [NL] (length (h1 ++ h2)));
      [|rewrite (length_app (h1 ++ h2)); lia| |by left].
    - rewrite (length_app (h1 ++ h2)). simpl. lia.
    - rewrite drop_app_length.
      constructor; [by intros ?%list_elem_of_singleton|done]. }
  unfold Shell.PrintResponse. cbv zeta.
  rewrite Hp1. rewrite (wrap64_small (Z.of_nat (length line) + 1))
    by (unfold npos; lia).
  rewrite <- Hh1.
  assert (Hs1 : substr msg 0 (Z.of_nat (length h1)) = Some h1)
    by apply substr_prefix.
  rewrite Hs1, Hp2.
  replace (Z.of_nat (length h1) + Z.of_nat (length h2) - 1 + 1)
    with (Z.of_nat (length h1) + Z.of_nat (length h2)) by lia.
  rewrite (wrap64_small (Z.of_nat (length h1) + Z.of_nat (length h2)))
    by (unfold npos; lia).
  replace (Z.of_nat (length h1) + Z.of_nat (length h2) - Z.of_nat (length h1))
    with (Z.of_nat (length h2)) by lia.
  rewrite (wrap64_small (Z.of_nat (length h2))) by (unfold npos; lia).
  assert (Hs2 : substr msg (Z.of_nat (length h1)) (Z.of_nat (length h2))
                = Some h2) by apply substr_middle.
  rewrite Hs2, Hp3.
  rewrite (wrap64_small (_ + 1 + 1)) by (unfold npos; lia).
  unfold h1 at 1. rewrite <- Hline, Hstoi.
  assert (Hsp : find_first_of h2 [32] 0 = 7).
  { unfold h2.
    apply (find_first_of_first (literal "Length:") _ 32 [32]);
      [closed|by left]. }
  rewrite Hsp.
  assert (Hs3 : substr h2 7 npos = Some (32 :: ds ++ CRLF)).
  { unfold h2. apply (substr_tail (literal "Length:")).
    cbn [length]. rewrite length_app. unfold npos. simpl. lia. }
  rewrite Hs3. cbn [mbind option_bind]. unfold ds.
  rewrite stoull_to_string; [|unfold npos; lia|reflexivity].
  destruct (Z.ltb_spec 0 len) as [Hpos|Hzero].
  - assert (Hs4 : substr msg (Z.of_nat (length h1) + Z.of_nat (length h2)
                              + 1 + 1) len = Some body).
    { unfold msg, len.
      replace (h1 ++ h2 ++ CRLF ++ body ++ [0])
        with ((h1 ++ h2 ++ CRLF) ++ body ++ [0])
        by (by rewrite <- !app_assoc).
      replace (Z.of_nat (length h1) + Z.of_nat (length h2) + 1 + 1)
        with (Z.of_nat (length (h1 ++ h2 ++ CRLF)))
        by (rewrite !length_app; simpl; lia).
      apply substr_middle. }
    by rewrite Hs4.
  - assert (body = []) as -> by (apply length_zero_iff_nil; lia). done.
Qed.

End Replies.

(** ** From the command line to the operation *)

Lemma no_space_free_of (word : list Z) :
  no_space word → (32 ∉ word) ∧ (13 ∉ word).
Proof.
  intros Hw. unfold no_space in Hw. rewrite Forall_forall in Hw.
  split; intros Hin; by specialize (Hw _ Hin).
Qed.

Lemma read_chars_spec (s : list Z) :
  no_space (read_chars s).1
  ∧ (length (read_chars s).1 + length (read_chars s).2 = length s)%nat.
Proof.
  induction s as [|c s [IH1 IH2]]; simpl; [by split; [constructor|]|].
  destruct (isspace c) eqn:Hc; simpl; [by split; [constructor|]|].
  destruct (read_chars s) as [word rest]. simpl in *.
  split; [by constructor|lia].
Qed.

Lemma length_skip_space (s : list Z) : (length (skip_space s) ≤ length s)%nat.
Proof.
  induction s as [|c s IH]; simpl; [done|]. destruct (isspace c); simpl; lia.
Qed.

Lemma read_word_spec (s word rest : list Z) :
  read_word s = Some (word, rest) →
  no_space word ∧ (length word + length rest ≤ length s)%nat.
Proof.
  unfold read_word. pose proof (length_skip_space s) as Hskip.
  destruct (skip_space s) as [|c s'] eqn:Hs; [done|].
  pose proof (read_chars_spec (c :: s')) as [H1 H2].
  destruct (read_chars (c :: s')) as [w r].
  intros [= <- <-]. simpl in *. split; [done|lia].
Qed.

Lemma tokens_spec (command_str : list Z) :
  let command := (Shell.tokens command_str).1 in
  no_space (Shell.file_name command)
  ∧ no_space (Shell.append_data command)
  ∧ (length (Shell.file_name command) + length (Shell.append_data command)
     ≤ length command_str)%nat.
Proof.
  unfold Shell.tokens, no_space.
  destruct (read_word command_str) as [[w1 s1]|] eqn:H1; simpl;
    [|split_and!; [constructor..|lia]].
  apply read_word_spec in H1 as [_ Hl1].
  destruct (read_word s1) as [[w2 s2]|] eqn:H2; simpl;
    [|split_and!; [constructor..|lia]].
  apply read_word_spec in H2 as [Hw2 Hl2].
  destruct (read_word s2) as [[w3 s3]|] eqn:H3; simpl;
    [|split_and!; [done|constructor|lia]].
  apply read_word_spec in H3 as [Hw3 Hl3].
  split_and!; [done..|lia].
Qed.

Lemma parse_command_spec (command_str : list Z) :
  let command := Shell.parse_command command_str in
  no_space (Shell.file_name command)
  ∧ no_space (Shell.append_data command)
  ∧ (length (Shell.file_name command) + length (Shell.append_data command)
     ≤ length command_str)%nat.
Proof.
  pose proof (tokens_spec command_str) as Htok.
  unfold Shell.parse_command.
  destruct (Shell.tokens command_str) as [command num_tokens].
  assert (Hempty : no_space (Shell.file_name Shell.empty)
                   ∧ no_space (Shell.append_data Shell.empty)
                   ∧ (length (Shell.file_name Shell.empty)
                      + length (Shell.append_data Shell.empty)
                      ≤ length command_str)%nat).
  { split_and!; try constructor. simpl. lia. }
  repeat match goal with
         | |- context [if ?b then _ else _] => destruct b
         end; done.
Qed.

Lemma wrap32_to_int (n : Z) : wrap32 (Shell.to_int n) = wrap32 n.
Proof.
  unfold Shell.to_int, wrap32.
  pose proof (Z.mod_pos_bound n 4294967296).
  destruct (n mod 4294967296 <? 2147483648).
  - by rewrite Z.mod_mod.
  - rewrite <- (Z.mod_add _ 1) by lia.
    replace (n mod 4294967296 - 4294967296 + 1 * 4294967296)
      with (n mod 4294967296) by lia.
    by rewrite Z.mod_mod.
Qed.

Lemma to_int_range (n : Z) : -2147483648 ≤ Shell.to_int n ≤ 2147483647.
Proof.
  unfold Shell.to_int. pose proof (Z.mod_pos_bound n 4294967296).
  destruct (Z.ltb_spec (n mod 4294967296) 2147483648); lia.
Qed.

Lemma parse_command_cases (command_str : list Z) :
  let '(command, num_tokens) := Shell.tokens command_str in
  Shell.parse_command command_str = Shell.empty
  ∨ Shell.parse_command command_str = command
    ∧ (num_tokens = 1
       ∧ Shell.is_one_of (Shell.name command) ["ls"; "home"; "quit"]%string
         = true
       ∨ num_tokens = 2
         ∧ Shell.is_one_of (Shell.name command)
             ["mkdir"; "cd"; "rmdir"; "create"; "cat"; "rm"; "stat"]%string
           = true
       ∨ num_tokens = 3
         ∧ Shell.is_one_of (Shell.name command) ["append"; "head"]%string
           = true).
Proof.
  unfold Shell.parse_command.
  destruct (Shell.tokens command_str) as [command num_tokens].
  destruct (num_tokens =? 0); [by left|].
  destruct (Shell.is_one_of _ ["ls"; "home"; "quit"]%string) eqn:H1.
  { destruct (Z.eqb_spec num_tokens 1); simpl; [right|by left].
    split; [done|]. left. done. }
  destruct (Shell.is_one_of _ ["mkdir"; _; _; _; _; _; _]%string) eqn:H2.
  { destruct (Z.eqb_spec num_tokens 2); simpl; [right|by left].
    split; [done|]. right. left. done. }
  destruct (Shell.is_one_of _ ["append"; "head"]%string) eqn:H3; [|by left].
  destruct (Z.eqb_spec num_tokens 3); simpl; [right|by left].
  split; [done|]. right. right. done.
Qed.

Section EndToEnd.
Context `{Blocks}.

(** X22.  Every command line for which [execute_command] sends a message
    does not quit, and the message makes the server run the operation that
    the parsed command line names, on the name and the data that
    [parse_command] read. *)
Theorem typed_commands_reach_the_server
    (strtoul : list Z → Z * bool) (command_str message : list Z)
    (quit : bool) (fs : FileSys) :
  Z.of_nat (length command_str) < 4611686018427387904 →
  Shell.execute_command strtoul command_str = (Some message, quit) →
  quit = false
  ∧ CommandParser_call (on_the_wire message) fs
    = (requested strtoul (Shell.parse_command command_str);; mret true) fs.
Proof.
  intros Hlen.
  pose proof (parse_command_spec command_str) as (Hname & Hdata & Hlens).
  cbv zeta in Hname, Hdata, Hlens.
  apply no_space_free_of in Hname as [Hn32 Hn13].
  apply no_space_free_of in Hdata as [_ Hd13].
  unfold Shell.execute_command, requested. cbv zeta.
  set (command := Shell.parse_command command_str) in *.
  assert (Hbound : Z.of_nat (length (Shell.file_name command)
                             + length (Shell.append_data command))
                   < 4611686018427387904) by lia.
  pose proof (rpc_messages_run (Shell.file_name command)
                (Shell.append_data command)
                (Shell.to_int (strtoul (Shell.append_data command)).1) fs
                Hn32 Hn13 Hd13 (to_int_range _) Hbound) as Hruns.
  cbv zeta in Hruns.
  destruct Hruns as (Hmkdir & Hcd & Hhome & Hrmdir & Hls & Hcreate & Happend
                     & Hcat & Hhead & Hrm & Hstat).
  rewrite wrap32_to_int in Hhead.
  repeat case_bool_decide;
    try (intros [= <- <-]; split; [reflexivity|assumption]);
    try (intros [= ? ?]; done).
  destruct (strtoul (Shell.append_data command)) as [n []];
    [|by intros [= ? ?]].
  intros [= <- <-]. split; [reflexivity|exact Hhead].
Qed.

(** X23.  [execute_command] sends a message only for a command line with the
    number of words that its command takes: one for [ls] and [home], two for
    the seven commands that take a name, three for [append] and [head]; the
    command sent is the one [parse_command] read. *)
Theorem only_complete_commands_are_sent
    (strtoul : list Z → Z * bool) (command_str message : list Z)
    (quit : bool) :
  Shell.execute_command strtoul command_str = (Some message, quit) →
  let '(command, num_tokens) := Shell.tokens command_str in
  Shell.parse_command command_str = command
  ∧ (num_tokens = 1
     ∧ Shell.is_one_of (Shell.name command) ["ls"; "home"]%string = true
     ∨ num_tokens = 2
       ∧ Shell.is_one_of (Shell.name command)
           ["mkdir"; "cd"; "rmdir"; "create"; "cat"; "rm"; "stat"]%string
         = true
     ∨ num_tokens = 3
       ∧ Shell.is_one_of (Shell.name command) ["append"; "head"]%string
         = true).
Proof.
  pose proof (parse_command_cases command_str) as Hcases.
  unfold Shell.execute_command. cbv zeta.
  destruct (Shell.tokens command_str) as [command num_tokens].
  destruct Hcases as [->|[-> Hcases]]; [done|].
  intros Hsent. split; [done|].
  destruct Hcases as [[-> Hword]|[[-> Hword]|[-> Hword]]].
  - left. split; [done|].
    unfold Shell.is_one_of in *. apply bool_decide_eq_true in Hword.
    apply bool_decide_eq_true.
    cbn [fmap list_fmap] in *. rewrite !elem_of_cons in Hword.
    destruct Hword as [Hw|[Hw|[Hw|Hw]]];
      [rewrite Hw; by left|rewrite Hw; right; by left| |by apply elem_of_nil in Hw].
    rewrite Hw in Hsent. by vm_compute in Hsent.
  - right. left. done.
  - right. right. done.
Qed.

End EndToEnd.

(** ** The shell: locations and scripts *)

Lemma substr_whole (s : list Z) (len : Z) :
  Z.of_nat (length s) ≤ len → substr s 0 len = Some s.
Proof. apply (substr_tail [] s len). Qed.

(** X24.  [mountNFS] splits a location at its first colon into the server
    and the port.  A location without a colon is taken whole for both: the
    position after the colon wraps round to 0.  The handler of
    [std::out_of_range] is never entered. *)
Theorem mountNFS_splits_at_the_first_colon (host rest : list Z) :
  58 ∉ host →
  Z.of_nat (length host + length rest) < 4611686018427387904 →
  Shell.mountNFS_address (host ++ 58 :: rest) = Some (host, rest)
  ∧ Shell.mountNFS_address host = Some (host, host).
Proof.
  intros Hhost Hlen. unfold Shell.mountNFS_address. cbv zeta. split.
  - rewrite find_first_of_first; [|by apply free_of|by left].
    rewrite substr_prefix. cbn [mbind option_bind].
    rewrite wrap64_small by (unfold npos; lia).
    replace (Z.of_nat (length host) + 1)
      with (Z.of_nat (length (host ++ [58])))
      by (rewrite length_app; simpl; lia).
    change (host ++ 58 :: rest) with (host ++ [58] ++ rest).
    rewrite (app_assoc host), substr_tail; [done|].
    unfold npos. lia.
  - rewrite find_first_of_none by (by apply free_of).
    change (wrap64 (npos + 1)) with 0.
    rewrite !substr_whole by (unfold npos; lia). done.
Qed.

Lemma getline_line (line rest : list Z) :
  NL ∉ line → Shell.getline (line ++ NL :: rest) = (line, rest, false).
Proof.
  induction line as [|c line IH]; intros Hline; simpl.
  - done.
  - apply not_elem_of_cons in Hline as [Hc Hline].
    destruct (Z.eqb_spec c NL) as [->|_]; [done|]. by rewrite IH.
Qed.

Lemma getline_last (line : list Z) :
  NL ∉ line → Shell.getline line = (line, [], true).
Proof.
  induction line as [|c line IH]; intros Hline; simpl.
  - done.
  - apply not_elem_of_cons in Hline as [Hc Hline].
    destruct (Z.eqb_spec c NL) as [->|_]; [done|]. by rewrite IH.
Qed.

Lemma length_terminated_lines (lines : list (list Z)) :
  (length lines ≤ length (terminated_lines lines))%nat.
Proof.
  induction lines as [|l lines IH]; simpl; [done|].
  unfold terminated_lines in *. cbn [fmap list_fmap concat].
  rewrite !length_app. simpl. lia.
Qed.

Lemma script_loop_lines strtoul (fuel : nat) (line : list Z)
    (lines : list (list Z)) (last : list Z) :
  (length lines + 2 ≤ fuel)%nat →
  Forall (λ l, NL ∉ l) lines → NL ∉ last →
  Shell.script_loop fuel strtoul line (terminated_lines lines ++ last) false
  = Some (until_quit strtoul (line :: lines)).
Proof.
  revert fuel line. induction lines as [|l lines IH];
    intros fuel line Hfuel Hlines Hlast.
  - destruct fuel as [|[|fuel]]; [simpl in Hfuel; lia..|].
    cbn [Shell.script_loop until_quit terminated_lines fmap list_fmap
         concat app].
    destruct (Shell.execute_command strtoul line).2; [done|].
    by rewrite (getline_last last Hlast).
  - destruct fuel as [|fuel]; [simpl in Hfuel; lia|].
    apply Forall_cons in Hlines as [Hl Hlines].
    cbn [Shell.script_loop]. cbn [until_quit].
    destruct (Shell.execute_command strtoul line).2; [done|].
    unfold terminated_lines. cbn [fmap list_fmap concat].
    rewrite <- !app_assoc. cbn [app].
    rewrite (getline_line l _ Hl).
    fold (terminated_lines lines). rewrite IH; [done| |done|done].
    simpl in Hfuel. lia.
Qed.

(** X25.  [run_script] passes to [execute_command] the lines of the script
    that end in a newline, in order, up to the first that quits.  What
    follows the last newline is never executed: a script whose last line has
    no newline loses that line. *)
Theorem run_script_drops_the_unterminated_last_line
    (strtoul : list Z → Z * bool) (lines : list (list Z)) (last : list Z) :
  Forall (λ l, NL ∉ l) lines → NL ∉ last →
  Shell.run_script strtoul (terminated_lines lines ++ last)
  = Some (until_quit strtoul lines).
Proof.
  intros Hlines Hlast. unfold Shell.run_script.
  destruct lines as [|l lines].
  - cbn [terminated_lines fmap list_fmap concat app].
    by rewrite (getline_last last Hlast).
  - apply Forall_cons in Hlines as [Hl Hlines].
    pose proof (length_terminated_lines (l :: lines)) as Hlen.
    set (script := terminated_lines (l :: lines) ++ last) in *.
    assert (Hscript : script = l ++ NL :: (terminated_lines lines ++ last)).
    { unfold script, terminated_lines. cbn [fmap list_fmap concat].
      by rewrite <- !app_assoc. }
    rewrite Hscript at 1. rewrite (getline_line l _ Hl).
    apply script_loop_lines; [|done|done].
    unfold script. rewrite length_app. simpl in Hlen. simpl. lia.
Qed.

(** ** Checks for the examples *)

Section Checks.
Context `{Blocks}.

(** Slots that are a run of handles followed by zeros are contiguous. *)
Lemma slots_contiguous_intro iNode (hs : list Z) (n : nat) :
  blocks iNode = hs ++ replicate n 0 →
  Forall (λ h, h ≠ kInvalidHandle) hs →
  Z.of_nat (length hs) = ceil_div (size iNode) BLOCK_SIZE →
  slots_contiguous iNode.
Proof.
  intros Hblocks Hhs Hlen i b Hb. rewrite Hblocks in Hb.
  destruct (decide (i < length hs)%nat) as [Hlt|Hge].
  - rewrite lookup_app_l in Hb by done. rewrite Forall_lookup in Hhs.
    split; [lia|]. intros _. by eapply Hhs.
  - rewrite lookup_app_r in Hb by lia.
    apply lookup_replicate in Hb as [-> _]. unfold kInvalidHandle.
    split; [done|lia].
Qed.

(** On a disk of the right shape every slot that holds a handle in range
    can be read. *)
Lemma slots_readable_in_range d iNode :
  disk_ok d → Forall (λ h, 0 ≤ h < NUM_BLOCKS) (blocks iNode) →
  ∀ j, 0 ≤ j < Z.of_nat (length (blocks iNode)) → slot_readable d iNode j.
Proof.
  intros Hd Hrange j Hj.
  destruct (blocks iNode !! Z.to_nat j) as [h|] eqn:Hh; last first.
  { apply lookup_ge_None in Hh. lia. }
  rewrite Forall_lookup in Hrange. pose proof (Hrange _ _ Hh) as Hhr.
  destruct (disk_ok_lookup _ _ Hd Hhr) as (blk & Hblk & _).
  by exists h, blk.
Qed.

End Checks.

(** * The claims on the reference configuration *)

Section Reference.
#[local] Existing Instance ref_blocks.

(** C2.  On a fresh disk, [create f; append f D] with [MAX_DATA_BLOCKS]
    bytes of data gives [f] one data block (block 3; the inode is block 2).
    [rm f] then runs its reclaim loop [size / MAX_DATA_BLOCKS + 1 = 2]
    times instead of [ceil(size / BLOCK_SIZE) = 1] time: the second round
    reads the unused slot [blocks[1] = 0] and reclaims block 0.  Bit 0 of
    the bitmap, the superblock's own, is cleared although block 0 is none
    of the file's blocks. *)
Theorem rm_reclaims_the_superblock :
  size (inode_of_bytes (block_at with_thirty_bytes 2)) = 30
  ∧ blocks (inode_of_bytes (block_at with_thirty_bytes 2)) !! 0%nat = Some 3
  ∧ blocks (inode_of_bytes (block_at with_thirty_bytes 2)) !! 1%nat = Some 0
  ∧ allocated with_thirty_bytes <$> [0; 1; 2; 3; 4]
    = [true; true; true; true; false]
  ∧ rm file_f with_thirty_bytes
    = Ret (tt, after (rm file_f) with_thirty_bytes)
  ∧ allocated (after (rm file_f) with_thirty_bytes) <$> [0; 1; 2; 3; 4]
    = [false; true; false; false; false].
Proof. split_and!; vm_compute; reflexivity. Qed.

(** C3, as stated, fails on data that ends in a newline: for [D = "a\n"]
    the body of the reply to [cat f] is ["a\n"], not [D] followed by a
    newline. *)
Lemma round_trip_counterexample :
  ∃ fs',
    (request (create file_f);; request (append file_f [97; NL]);;
     request (cat file_f)) fresh
    = Ret ((kOK, [97; NL]), fs')
    ∧ [97; NL] ≠ [97; NL] ++ [NL].
Proof. eexists. split; [vm_compute; reflexivity|discriminate]. Qed.

(** At [|D| = MAX_FILE_SIZE] the read loop of [head] indexes
    [blocks[MAX_DATA_BLOCKS]], one past the end of the array. *)
Lemma cat_of_largest_file_undefined :
  cat file_f
    (after (append file_f (replicate (Z.to_nat MAX_FILE_SIZE) 65)) with_file)
  = Undefined.
Proof. vm_compute. reflexivity. Qed.

(** C7, as stated, fails: for a file of exactly one block ([k = 1]) the
    body holds all [BLOCK_SIZE] data bytes, then the newline. *)
Lemma head_full_block_counterexample :
  size (inode_of_bytes (block_at with_full_block 2)) = 1 * BLOCK_SIZE
  ∧ head file_f 128 with_full_block
    = Ret (tt, with_response with_full_block (one_block ++ [NL]))
  ∧ cat file_f with_full_block
    = Ret (tt, with_response with_full_block (one_block ++ [NL]))
  ∧ ¬ (Z.of_nat (length one_block) < 1 * BLOCK_SIZE).
Proof. split_and!; [vm_compute; reflexivity..|vm_compute; discriminate]. Qed.

(** C8, as stated, fails: the body of the reply to [cat f] and to
    [head f n] on the empty file [f] is a newline, not the empty string. *)
Lemma empty_file_body_counterexample :
  size (inode_of_bytes (block_at with_file 2)) = 0
  ∧ request (cat file_f) with_file = Ret ((kOK, [NL]), with_file)
  ∧ request (head file_f 5) with_file = Ret ((kOK, [NL]), with_file)
  ∧ [NL] ≠ [] ∧ NL ∈ [NL].
Proof.
  split_and!; [vm_compute; reflexivity..|discriminate|by left].
Qed.

(** C4, as stated, fails for [mkdir] and [create]: with the cursor on the
    inode block of [f] they read the current directory, are not refused,
    write that block back with one entry more and end without an error. *)
Lemma cd_onto_file_counterexample :
  cd file_f with_file = Ret (tt, cursor_on_file)
  ∧ IsINode (block_at cursor_on_file
               (Z.to_nat (_curDirHandle cursor_on_file))) = true
  ∧ mkdir (literal "x") cursor_on_file
    = Ret (tt, after (mkdir (literal "x")) cursor_on_file)
  ∧ _lastErr (after (mkdir (literal "x")) cursor_on_file) = kOK
  ∧ block_at (after (mkdir (literal "x")) cursor_on_file) 2
    ≠ block_at cursor_on_file 2
  ∧ create (literal "x") cursor_on_file
    = Ret (tt, after (create (literal "x")) cursor_on_file)
  ∧ _lastErr (after (create (literal "x")) cursor_on_file) = kOK
  ∧ block_at (after (create (literal "x")) cursor_on_file) 2
    ≠ block_at cursor_on_file 2
  ∧ kOK ≠ kFileNotDir.
Proof.
  split_and!; first [vm_compute; reflexivity | vm_compute; discriminate].
Qed.

(** C6, as stated, fails on an inode that does not satisfy invariant 4.
    After [create f; cd f; mkdir ""; home] the file [f] has size 1 and an
    empty first slot: [append f "a"] passes the size check, asks for one
    block and takes block 4, while the block count of the file,
    [ceil(2 / BLOCK_SIZE) - ceil(1 / BLOCK_SIZE)], does not grow. *)
Lemma append_request_counterexample :
  (create file_f;; cd file_f;; mkdir [];; home) fresh
  = Ret (tt, with_bent_inode)
  ∧ IsINode (block_at with_bent_inode 2) = true
  ∧ size (inode_of_bytes (block_at with_bent_inode 2)) = 1
  ∧ take 4 (blocks (inode_of_bytes (block_at with_bent_inode 2)))
    = [0; 0; 3; 0]
  ∧ (wrap32 (MAX_FILE_SIZE - 1) <? 1) = false
  ∧ num_alloc_blocks (inode_of_bytes (block_at with_bent_inode 2)) 1
      with_bent_inode
    = Ret (1, with_bent_inode)
  ∧ allocated with_bent_inode <$> [0; 1; 2; 3; 4; 5]
    = [true; true; true; true; false; false]
  ∧ append file_f (literal "a") with_bent_inode
    = Ret (tt, after (append file_f (literal "a")) with_bent_inode)
  ∧ _lastErr (after (append file_f (literal "a")) with_bent_inode) = kOK
  ∧ allocated (after (append file_f (literal "a")) with_bent_inode)
    <$> [0; 1; 2; 3; 4; 5]
    = [true; true; true; true; true; false]
  ∧ ceil_div (1 + 1) BLOCK_SIZE - ceil_div 1 BLOCK_SIZE = 0.
Proof. split_and!; vm_compute; reflexivity. Qed.

(** ** The theorems at concrete inputs *)

#[local] Ltac by_computing :=
  vm_compute;
  first [ reflexivity | discriminate | exact I | lia
        | split; first [discriminate | reflexivity] ].

#[local] Ltac by_deciding :=
  unfold disk_ok, names_terminated;
  refine (bool_decide_unpack _ _); vm_compute; exact I.

Lemma append_rollback_on_disk_full_witness :
  append file_f (replicate 200 65) nearly_full
  = Ret (tt, with_lastErr nearly_full kDiskFull)
  ∧ allocated nearly_full 5 = false.
Proof.
  split; [|reflexivity].
  refine (proj1 (append_rollback_on_disk_full ref_blocks_ok
                   nearly_full file_f (replicate 200 65)
                   (block_at nearly_full 1) (block_at nearly_full 2)
                   0 {| name := [102; 0; 0; 0; 0; 0; 0; 0]; block_num := 2 |}
                   2 [5; 0] (after (allocate_handles 2 []) nearly_full)
                   _ _ _ _ _ _ _ _ _)).
  all: by_computing.
Defined.

Lemma create_append_cat_round_trip_witness :
  ∃ fs',
    (create file_f;; append file_f (literal "hello");; cat file_f) fresh
    = Ret (tt, fs')
    ∧ _response fs' = literal "hello" ++ [NL]
    ∧ _lastErr fs' = kOK
    ∧ (last (literal "hello") ≠ Some NL →
       (request (create file_f);; request (append file_f (literal "hello"));;
        request (cat file_f)) fresh
       = Ret ((kOK, literal "hello" ++ [NL]), with_response fs' [])).
Proof.
  refine (create_append_cat_round_trip ref_blocks_ok fresh file_f
            (literal "hello") (block_at fresh 1) (block_at fresh 0)
            _ _ _ _ _ _ _ _ _ _ _ _ _ _ _).
  1, 9, 11: by_deciding.
  all: by_computing.
Defined.

Lemma cd_does_not_check_target_witness :
  cd file_f with_file = Ret (tt, cursor_on_file)
  ∧ IsINode (block_at with_file 2) = true
  ∧ ls cursor_on_file = Ret (tt, with_lastErr cursor_on_file kFileNotDir).
Proof.
  pose proof (cd_does_not_check_target ref_blocks_ok with_file file_f
                (block_at with_file 1)
                (Some (0%nat, {| name := [102; 0; 0; 0; 0; 0; 0; 0];
                                 block_num := 2 |}))) as Hcd.
  cbv iota beta in Hcd.
  destruct Hcd as [Hcd Hlater]; [by_computing..|].
  split; [exact Hcd|]. split; [by_computing|].
  apply (Hlater (block_at with_file 2)); by_computing.
Defined.


Lemma append_requests_needed_blocks_witness :
  blocks (inode_of_bytes (block_at with_thirty_bytes 2)) !! 0%nat = Some 3
  ∧ (∃ fs1, allocate_handles 1 [] with_thirty_bytes
            = Ret (([4], false), fs1))
  ∧ 1 = ceil_div (30 + 200) BLOCK_SIZE - ceil_div 30 BLOCK_SIZE.
Proof.
  destruct (append_requests_needed_blocks ref_blocks_ok with_thirty_bytes
              file_f (replicate 200 65) (block_at with_thirty_bytes 1)
              (block_at with_thirty_bytes 2) 0
              {| name := [102; 0; 0; 0; 0; 0; 0; 0]; block_num := 2 |})
    as (current & Hcur & _ & Halloc & Hceil).
  1-7: by_computing.
  assert (current = 3) as ->.
  { vm_compute in Hcur. by injection Hcur. }
  split; [exact Hcur|]. split.
  - destruct (Halloc (block_at with_thirty_bytes 0)) as [Henough _];
      [by_computing..|].
    apply Henough. by_computing.
  - apply Hceil.
    apply (slots_contiguous_intro _ [3] 29);
      [by_computing|by_deciding|by_computing].
Defined.

Lemma head_emits_every_full_block_witness :
  ∃ data,
    head file_f 128 with_full_block
    = Ret (tt, with_response with_full_block
                 (_response with_full_block ++ data ++ [NL]))
    ∧ data = concat (file_block (_bfs with_full_block)
                       (inode_of_bytes (block_at with_full_block 2))
                     <$> seqZ 0 1)
    ∧ Z.of_nat (length data) = 1 * BLOCK_SIZE.
Proof.
  refine (head_emits_every_full_block ref_blocks_ok with_full_block file_f
            (block_at with_full_block 1) (block_at with_full_block 2) 128 1
            0 {| name := [102; 0; 0; 0; 0; 0; 0; 0]; block_num := 2 |}
            _ _ _ _ _ _ _ _ _).
  1: by_deciding.
  1-7: by_computing.
  intros j Hj. assert (j = 0 ∨ j = 1) as [-> | ->] by lia.
  - exists 3, (block_at with_full_block 3). split_and!; by_computing.
  - exists 0, (block_at with_full_block 0). split_and!; by_computing.
Defined.

Lemma head_of_empty_file_witness :
  head file_f 5 with_file = Ret (tt, with_file)
  ∧ cat file_f with_file = Ret (tt, with_file)
  ∧ (head file_f 5;; getQueryResponse) with_file
    = Ret ([NL], with_response with_file [])
  ∧ (cat file_f;; getQueryResponse) with_file
    = Ret ([NL], with_response with_file []).
Proof.
  refine (head_of_empty_file with_file file_f (block_at with_file 1)
            (block_at with_file 2) 5 0
            {| name := [102; 0; 0; 0; 0; 0; 0; 0]; block_num := 2 |}
            _ _ _ _ _ _ _).
  all: by_computing.
Defined.

Lemma mkdir_create_skip_directory_check_witness :
  IsINode (block_at cursor_on_file 2) = true
  ∧ ls cursor_on_file = Ret (tt, with_lastErr cursor_on_file kFileNotDir)
  ∧ ∃ fs',
      mkdir (literal "x") cursor_on_file = Ret (tt, fs')
      ∧ _lastErr fs' = kOK
      ∧ block_at fs' 2 ≠ block_at cursor_on_file 2.
Proof.
  split; [by_computing|].
  destruct (mkdir_create_skip_directory_check ref_blocks_ok cursor_on_file
              (literal "x") (block_at cursor_on_file 2))
    as [Hls Hmake]; [by_computing..|].
  split; [exact Hls|].
  destruct (Hmake mkdir) as [_ Hwrites]; [by left|].
  destruct (Hwrites 3 (after get_free_block cursor_on_file)
              inode_with_entry (after get_free_block cursor_on_file))
    as (fs' & Hmk & Hblock & Hdiff & Herr); [by_computing..|].
  exists fs'. split; [exact Hmk|]. split; [by rewrite Herr|].
  unfold block_at. change (Z.to_nat (_curDirHandle cursor_on_file)) with 2%nat in Hblock.
  rewrite Hblock. simpl. exact Hdiff.
Defined.

(** ** Further theorems at concrete inputs *)

Lemma missing_name_reports_not_exists_witness :
  let missing := Ret (tt, with_lastErr fresh kFileNotExists) in
  rmdir file_f fresh = missing
  ∧ stat file_f fresh = missing
  ∧ cat file_f fresh = missing
  ∧ (∀ n, head file_f n fresh = missing)
  ∧ rm file_f fresh = missing
  ∧ (∀ d, strlen d ≠ 0%nat → append file_f d fresh = missing).
Proof.
  refine (missing_name_reports_not_exists fresh file_f (block_at fresh 1)
            _ _ _).
  all: by_computing.
Defined.

Lemma file_operations_refuse_non_files_witness :
  let refused := Ret (tt, with_lastErr with_dir kFileIsDir) in
  cat dir_d with_dir = refused
  ∧ (∀ n, head dir_d n with_dir = refused)
  ∧ rm dir_d with_dir = refused
  ∧ (∀ d, strlen d ≠ 0%nat → append dir_d d with_dir = refused).
Proof.
  refine (file_operations_refuse_non_files with_dir dir_d
            (block_at with_dir 1) (block_at with_dir 2) 0
            {| name := [100; 0; 0; 0; 0; 0; 0; 0]; block_num := 2 |}
            _ _ _ _ _).
  all: by_computing.
Defined.

Lemma rmdir_refuses_files_and_non_empty_directories_witness :
  rmdir file_f with_file = Ret (tt, with_lastErr with_file kFileNotDir)
  ∧ rmdir dir_d with_file_in_dir
    = Ret (tt, with_lastErr with_file_in_dir kDirNotEmpty).
Proof.
  split.
  - refine (proj1 (rmdir_refuses_files_and_non_empty_directories with_file
                     file_f (block_at with_file 1) (block_at with_file 2) 0
                     {| name := [102; 0; 0; 0; 0; 0; 0; 0]; block_num := 2 |}
                     _ _ _ _) _).
    all: by_computing.
  - refine (proj2 (rmdir_refuses_files_and_non_empty_directories
                     with_file_in_dir dir_d (block_at with_file_in_dir 1)
                     (block_at with_file_in_dir 2) 0
                     {| name := [100; 0; 0; 0; 0; 0; 0; 0]; block_num := 2 |}
                     _ _ _ _) _ _).
    all: by_computing.
Defined.

Lemma append_beyond_max_size_is_refused_witness :
  append file_f (replicate 3800 65) with_full_block
  = Ret (tt, with_lastErr with_full_block kAppendExceedsMaxSize).
Proof.
  refine (append_beyond_max_size_is_refused ref_blocks_ok with_full_block
            file_f (replicate 3800 65) (block_at with_full_block 1)
            (block_at with_full_block 2) 0
            {| name := [102; 0; 0; 0; 0; 0; 0; 0]; block_num := 2 |}
            _ _ _ _ _ _ _).
  all: by_computing.
Defined.

Lemma failed_insert_gives_the_block_back_witness :
  mkdir file_f with_file = Ret (tt, with_lastErr with_file kFileExists)
  ∧ create file_f with_file = Ret (tt, with_lastErr with_file kFileExists)
  ∧ _bfs (with_lastErr with_file kFileExists) = _bfs with_file.
Proof.
  refine (failed_insert_gives_the_block_back ref_blocks_ok with_file file_f
            (block_at with_file 1) (block_at with_file 0) 3
            (dir_of_bytes (block_at with_file 1))
            (with_lastErr with_file kFileExists) _ _ _ _).
  all: by_computing.
Defined.

Lemma full_disk_is_reported_before_the_name_is_checked_witness :
  mkdir file_f full_disk = Ret (tt, with_lastErr full_disk kDiskFull)
  ∧ create file_f full_disk = Ret (tt, with_lastErr full_disk kDiskFull).
Proof.
  refine (full_disk_is_reported_before_the_name_is_checked ref_blocks_ok
            full_disk file_f
            (block_at full_disk 1) (block_at full_disk 0) _ _ _).
  all: by_computing.
Defined.

Lemma mkdir_rmdir_round_trip_witness :
  first_unused_slot (dir_of_bytes (block_at with_file 1)) 1
  ∧ name_bytes_replaced (block_at with_file 1) 1 dir_d
    = <[20%nat := 100]> (block_at with_file 1)
  ∧ let fs' :=
      with_disk with_file
        (<[Z.to_nat (_curDirHandle with_file) :=
             name_bytes_replaced (block_at with_file 1) 1 dir_d]>
           (<[Z.to_nat 3 := bytes_of_dir InitializeBlock_dir]> (_bfs with_file))) in
    (mkdir dir_d;; rmdir dir_d) with_file = Ret (tt, fs')
    ∧ restored_but_for 3 with_file fs'.
Proof.
  destruct (mkdir_rmdir_round_trip ref_blocks_ok with_file dir_d
              (block_at with_file 1) (block_at with_file 0) 3)
    as (i & Hslot & Hrun).
  1-2, 10: by_deciding.
  1-9: by_computing.
  assert (i = 1%nat) as ->.
  { destruct Hslot as [(e & He & Hunused) Hfirst].
    destruct i as [|[|i]]; [|done|].
    - vm_compute in He. injection He as <-. discriminate Hunused.
    - exfalso. eapply (Hfirst 1%nat); [lia|vm_compute; reflexivity..]. }
  split; [exact Hslot|]. split; [by_computing|exact Hrun].
Defined.

Lemma create_rm_round_trip_witness :
  first_unused_slot (dir_of_bytes (block_at with_file 1)) 1
  ∧ name_bytes_replaced (block_at with_file 1) 1 dir_d
    = <[20%nat := 100]> (block_at with_file 1)
  ∧ let fs' :=
      with_disk with_file
        (<[Z.to_nat (_curDirHandle with_file) :=
             name_bytes_replaced (block_at with_file 1) 1 dir_d]>
           (<[Z.to_nat 3 := bytes_of_inode InitializeBlock_inode]> (_bfs with_file))) in
    (create dir_d;; rm dir_d) with_file = Ret (tt, fs')
    ∧ restored_but_for 3 with_file fs'.
Proof.
  destruct (create_rm_round_trip ref_blocks_ok with_file dir_d
              (block_at with_file 1) (block_at with_file 0) 3)
    as (i & Hslot & Hrun).
  1-2, 10: by_deciding.
  1-9: by_computing.
  assert (i = 1%nat) as ->.
  { destruct Hslot as [(e & He & Hunused) Hfirst].
    destruct i as [|[|i]]; [|done|].
    - vm_compute in He. injection He as <-. discriminate Hunused.
    - exfalso. eapply (Hfirst 1%nat); [lia|vm_compute; reflexivity..]. }
  split; [exact Hslot|]. split; [by_computing|exact Hrun].
Defined.


Lemma ls_lists_the_used_entries_witness :
  ls with_file_in_dir
  = Ret (tt, with_response with_file_in_dir (literal "d/" ++ [NL; NL])).
Proof.
  refine (ls_lists_the_used_entries with_file_in_dir
            (block_at with_file_in_dir 1) _ _ _).
  1, 2: by_computing.
  by_deciding.
Defined.

Lemma reading_operations_never_write_witness :
  (_bfs (after (cat file_f) with_thirty_bytes) = _bfs with_thirty_bytes
   ∧ _curDirHandle (after (cat file_f) with_thirty_bytes)
     = _curDirHandle with_thirty_bytes)
  ∧ (_bfs (after (cd file_f) with_thirty_bytes) = _bfs with_thirty_bytes
     ∧ _response (after (cd file_f) with_thirty_bytes)
       = _response with_thirty_bytes).
Proof.
  split.
  - refine (proj1 (reading_operations_never_write with_thirty_bytes
                     (after (cat file_f) with_thirty_bytes) file_f 0) _).
    right. left. by_computing.
  - refine (proj2 (reading_operations_never_write with_thirty_bytes
                     (after (cd file_f) with_thirty_bytes) file_f 0) _).
    left. by_computing.
Defined.

Lemma head_emits_a_prefix_witness :
  ∃ data,
    head file_f 5 with_thirty_bytes
    = Ret (tt, with_response with_thirty_bytes
                 (_response with_thirty_bytes ++ data ++ [NL]))
    ∧ data = replicate 5 65
    ∧ Z.of_nat (length data) = 5.
Proof.
  refine (head_emits_a_prefix ref_blocks_ok with_thirty_bytes file_f
            (block_at with_thirty_bytes 1) (block_at with_thirty_bytes 2)
            5 0 {| name := [102; 0; 0; 0; 0; 0; 0; 0]; block_num := 2 |}
            _ _ _ _ _ _ _ _ _).
  1: by_deciding.
  1-7: by_computing.
  intros j Hj.
  apply (slots_readable_in_range (_bfs with_thirty_bytes)
           (inode_of_bytes (block_at with_thirty_bytes 2))).
  - by_deciding.
  - by_deciding.
  - change (0 ≤ j ≤ 0) in Hj.
    change (Z.of_nat (length (blocks (inode_of_bytes
                                        (block_at with_thirty_bytes 2)))))
      with 30.
    lia.
Defined.

Lemma head_of_a_full_file_is_undefined_witness :
  size (inode_of_bytes (block_at with_full_file 2)) = MAX_FILE_SIZE
  ∧ cat file_f with_full_file = Undefined
  ∧ head file_f 4000 with_full_file = Undefined.
Proof.
  split; [by_computing|].
  destruct (head_of_a_full_file_is_undefined ref_blocks_ok with_full_file
              file_f (block_at with_full_file 1) (block_at with_full_file 2)
              4000 0 {| name := [102; 0; 0; 0; 0; 0; 0; 0]; block_num := 2 |})
    as [Hcat Hhead].
  1-6: by_computing.
  - intros j Hj.
    apply (slots_readable_in_range (_bfs with_full_file)
             (inode_of_bytes (block_at with_full_file 2)));
      [by_deciding|by_deciding|exact Hj].
  - split; [exact Hcat|]. apply Hhead. by_computing.
Defined.

Lemma append_extends_the_file_witness :
  ∃ fs' ib',
    append file_f hello with_thirty_bytes = Ret (tt, fs')
    ∧ _curDirHandle fs' = _curDirHandle with_thirty_bytes
    ∧ _lastErr fs' = _lastErr with_thirty_bytes
    ∧ _response fs' = _response with_thirty_bytes
    ∧ _bfs fs' !! Z.to_nat 2 = Some ib'
    ∧ IsINode ib' = true
    ∧ size (inode_of_bytes ib') = 30 + 5
    ∧ file_contents (_bfs fs') (inode_of_bytes ib')
      = thirty_bytes ++ hello
    ∧ ∀ x, 0 < x → x ≠ 2 → x ∉ [3] →
           bitmap_test (block_at with_thirty_bytes 0) x = true →
           _bfs fs' !! Z.to_nat x = _bfs with_thirty_bytes !! Z.to_nat x.
Proof.
  refine (append_extends_the_file ref_blocks_ok with_thirty_bytes file_f
            hello (block_at with_thirty_bytes 1)
            (block_at with_thirty_bytes 2) (block_at with_thirty_bytes 0)
            0 {| name := [102; 0; 0; 0; 0; 0; 0; 0]; block_num := 2 |}
            _ _ _ _ _ _ _ _ _ _ _ _ _ _).
  1, 10, 11: by_deciding.
  8: apply (slots_contiguous_intro _ [3] 29);
       [by_computing|by_deciding|by_computing].
  all: by_computing.
Defined.

Lemma append_then_cat_shows_old_and_new_data_witness :
  ∃ fs',
    (append file_f hello;; cat file_f) with_thirty_bytes = Ret (tt, fs')
    ∧ _response fs' = thirty_bytes ++ hello ++ [NL]
    ∧ _curDirHandle fs' = 1
    ∧ _lastErr fs' = kOK.
Proof.
  refine (append_then_cat_shows_old_and_new_data ref_blocks_ok
            with_thirty_bytes file_f hello (block_at with_thirty_bytes 1)
            (block_at with_thirty_bytes 2) (block_at with_thirty_bytes 0)
            0 {| name := [102; 0; 0; 0; 0; 0; 0; 0]; block_num := 2 |}
            _ _ _ _ _ _ _ _ _ _ _ _ _ _ _ _ _).
  1, 12, 13, 14: by_deciding.
  10: apply (slots_contiguous_intro _ [3] 29);
        [by_computing|by_deciding|by_computing].
  all: by_computing.
Defined.

Lemma requests_run_their_operation_witness :
  CommandParser_call (on_the_wire (append_rpc file_f hello)) with_file
  = (append file_f hello;; mret true) with_file
  ∧ CommandParser_call (on_the_wire (head_rpc file_f (-1))) with_file
    = (head file_f 4294967295;; mret true) with_file.
Proof.
  pose proof (requests_run_their_operation file_f hello (-1) with_file)
    as Hruns.
  cbv zeta in Hruns.
  destruct Hruns as (_ & _ & _ & _ & _ & _ & Happend & _ & Hhead & _).
  1-3: by_deciding.
  1, 2: by_computing.
  split; [exact Happend|exact Hhead].
Defined.

Lemma unknown_command_is_answered_without_running_anything_witness :
  CommandParser_call (on_the_wire (literal "quit" ++ CRLF)) with_file
  = Ret (false, with_file)
  ∧ main_round (on_the_wire (literal "quit" ++ CRLF)) with_file
    = Ret (literal "509 COMMAND_NOT_FOUND" ++ CRLF
           ++ literal "Length: 0" ++ CRLF ++ CRLF, with_file).
Proof.
  refine (unknown_command_is_answered_without_running_anything
            (on_the_wire (literal "quit" ++ CRLF)) (literal "quit")
            with_file _ _).
  - by_computing.
  - by_deciding.
Defined.

Lemma replies_carry_nothing_over_witness :
  _lastErr (after (main_round (on_the_wire (mkdir_rpc file_f))) with_file)
  = kOK
  ∧ _response (after (main_round (on_the_wire (mkdir_rpc file_f))) with_file)
    = []
  ∧ ∃ lastErr body,
      result (main_round (on_the_wire (mkdir_rpc file_f))) with_file []
      = PrepareMessage lastErr body.
Proof.
  refine (replies_carry_nothing_over (on_the_wire (mkdir_rpc file_f))
            (result (main_round (on_the_wire (mkdir_rpc file_f))) with_file [])
            with_file
            (after (main_round (on_the_wire (mkdir_rpc file_f))) with_file)
            _ _ _).
  all: by_computing.
Defined.

Lemma reply_is_read_back_witness :
  Shell.PrintResponse (on_the_wire (PrepareMessage kFileExists hello))
  = {| Shell.cout := hello ++ [NL];
       Shell.cerr := literal "File exists!" ++ [NL];
       Shell.caught := false |}.
Proof.
  refine (reply_is_read_back kFileExists hello _). by_computing.
Defined.

Lemma typed_commands_reach_the_server_witness :
  false = false
  ∧ CommandParser_call (on_the_wire (head_rpc file_f 5)) with_thirty_bytes
    = (head file_f 5;; mret true) with_thirty_bytes.
Proof.
  refine (typed_commands_reach_the_server strtoul_digits head_f_5
            (head_rpc file_f 5) false with_thirty_bytes _ _).
  all: by_computing.
Defined.

Lemma only_complete_commands_are_sent_witness :
  Shell.parse_command head_f_5
  = {| Shell.name := literal "head"; Shell.file_name := file_f;
       Shell.append_data := literal "5" |}
  ∧ (3 = 1
     ∧ Shell.is_one_of (literal "head") ["ls"; "home"]%string = true
     ∨ 3 = 2
       ∧ Shell.is_one_of (literal "head")
           ["mkdir"; "cd"; "rmdir"; "create"; "cat"; "rm"; "stat"]%string
         = true
     ∨ 3 = 3
       ∧ Shell.is_one_of (literal "head") ["append"; "head"]%string = true).
Proof.
  refine (only_complete_commands_are_sent strtoul_digits head_f_5
            (head_rpc file_f 5) false _).
  by_computing.
Defined.

Lemma stat_counts_one_block_more_on_full_blocks_witness :
  size (inode_of_bytes (block_at with_full_block 2)) = BLOCK_SIZE
  ∧ stat file_f with_full_block
    = Ret (tt, with_response with_full_block
                 (literal "iNode block: 2" ++ [NL]
                  ++ literal "Bytes in files: 128" ++ [NL]
                  ++ literal "Number of blocks: 3" ++ [NL]
                  ++ literal "First block: 3" ++ [NL])).
Proof.
  split; [by_computing|].
  refine (stat_counts_one_block_more_on_full_blocks ref_blocks_ok
            with_full_block file_f (block_at with_full_block 1)
            (block_at with_full_block 2) 0
            {| name := [102; 0; 0; 0; 0; 0; 0; 0]; block_num := 2 |}
            _ _ _ _ _).
  all: by_computing.
Defined.

Lemma mountNFS_splits_at_the_first_colon_witness :
  Shell.mountNFS_address (literal "localhost:8080")
  = Some (literal "localhost", literal "8080")
  ∧ Shell.mountNFS_address (literal "localhost")
    = Some (literal "localhost", literal "localhost").
Proof.
  refine (mountNFS_splits_at_the_first_colon (literal "localhost")
            (literal "8080") _ _).
  - by_deciding.
  - by_computing.
Defined.

Lemma run_script_drops_the_unterminated_last_line_witness :
  Shell.run_script strtoul_digits
    (literal "ls" ++ [NL] ++ literal "quit" ++ [NL] ++ literal "home" ++ [NL]
     ++ literal "mkdir d")
  = Some [literal "ls"; literal "quit"].
Proof.
  refine (run_script_drops_the_unterminated_last_line strtoul_digits
            [literal "ls"; literal "quit"; literal "home"]
            (literal "mkdir d") _ _).
  all: by_deciding.
Defined.


End Reference.
